(* ===== verification/_CoqProject ===== *)
-Q . S2P
Prelude.v
Printf.v
Calendar.v
Timestamp.v
Buffer.v
Atomic.v
World.v
Channel.v
EventLoop.v
TimerQueue.v
Net.v
TcpConnection.v
Acceptor.v
TcpServer.v
Connector.v
TcpClient.v
Reactor.v
Echo.v
PingpongClient.v
PingpongBench.v
Programs.v
Posix.v
ConnFrame.v
StoreTyping.v
ServerInvariant.v
ServerSteps.v
ServerLifecycle.v
ServerBoot.v
PingpongServer.v
LoggingStream.v
Logging.v
LogFile.v
LogFileTest.v
StreamTests.v
LookupTable.v
HierarchicalMutex.v
Threads.v
TableThreads.v
Guards.v
PendingCalls.v
Monitor.v
Queues.v
Wakeups.v
QueueV2.v
TwoLocks.v
ThreadPool.v
Thread.v
SharedPtr.v
