(* ===== verification/Prelude.v ===== *)
(** * LearnForCpp: a reactor network library and its companions

    A Rocq library that models the C++ sources of the repository and states
    what makes them correct. This file is its root: the documentation of the
    whole, then the prelude the other files share.

    ** The program

    [reactor/] is a network library in the style of muduo. A loop
    ([EventLoop]) waits with epoll ([Epoller]) for descriptors that [Channel]s
    watch, dispatches their events, and runs calls queued to it; a
    [TimerQueue] gives it timers through a timer descriptor. On top of it,
    [Acceptor] and [Connector] establish sockets, [TcpConnection] moves bytes
    between a socket and two [Buffer]s, and [TcpServer] and [TcpClient] own
    connections. [EventLoopThreadPool] gives a server loops in other threads.
    [example/] has programs written with it; [logging/] a logger and log files;
    [timestamp/] points in time; [thread/] (with [reactor/taskQueue.cc]) atomic
    integers, threads, a thread pool, and containers that threads share.

    ** How it is modelled

    Code that runs in one thread is a function in a monad of state and crashes
    ([M], below): [Ret a s] is a normal end, [Crash r] the ways the process can
    stop - a failed assertion, a FATAL log line, [abort()], undefined
    behaviour, an uncaught exception. Integers are [Z] with the width written
    out where it matters ([wraps], [wrapu]); overflow of signed arithmetic and
    reads outside an array are crashes. Objects live in a store ([World.v])
    addressed by pointers, as in the sources, where they are shared and
    mutated; the operating system is a parameter, the class [Kernel] of its
    system calls, and the store keeps the trace of calls made, so that
    properties speak of what was written, closed or armed. What is relied on of
    the operating system is stated by classes ([Clock], [Writes], [Reads],
    [StdioLaws], ..., and [Machine] for POSIX descriptors and epoll as a whole),
    each with an instance among the examples. A connection lives as long as a
    [shared_ptr] to it is held somewhere in the store ([owned]), and is
    destroyed with the last one. The closures
    that objects exchange are data ([Callback], [Functor], [CloseCallBack]),
    and [Reactor.v] gives each its meaning; the code of the library's user is
    the class [UserCode]. Code that several threads run is a tree of the
    operations other threads can observe ([Threads.v]), executed by an
    arbitrary schedule with spurious wake-ups.

    ** The files, in order

    - [Prelude]: the monad with its weakest preconditions, preservation of
      relations, machine integers, slices of lists, record updates.
    - [Printf], [Calendar]: the conversions of [printf] and [gmtime_r], with
      inverses. [Timestamp]: [timestamp/TimeStamp.h], [TimeStamp.cc].
    - [Buffer]: [reactor/Buffer.h], [Buffer.cc]. [Atomic]: [thread/Atomic.h].
    - [World]: the operating system, the records of [reactor/], the store.
    - [Channel]: [Channel.h], [Channel.cc], [Epoller.h], [Epoller.cc] and the
      registration of [EventLoop.cc]. [EventLoop]: the loop and its queued
      calls. [TimerQueue]: [Timer.h], [Timer.cc], [TimerQueue.h],
      [TimerQueue.cc], and construction and destruction of [EventLoop.cc].
    - [Net]: [Socketops], [InetAddress], [Socket]. [TcpConnection], [Acceptor]
      (with [EventLoopThread] and [EventLoopThreadPool]), [TcpServer],
      [Connector], [TcpClient]: the classes of these names.
    - [Reactor]: the closures given their meaning, the loop run with them.
    - [Echo]: [example/echo.cc], [EchoMain.cc], [pingpong_server.cc].
      [PingpongClient]: [example/pingpong_client.cc]. [PingpongBench]:
      [example/pingpong_bench.cc]. [Programs]: [reactor/test2.cc] to
      [test8.cc] and [example/Timer_test.cc].
    - The pingpong server verified as a whole program: [Posix], what a lawful
      operating system answers, given what was called before; [ConnFrame], what
      the methods of a connection leave alone; [StoreTyping], when no pointer
      dangles; [ServerInvariant], what holds of the process between two steps;
      [ServerSteps], every handler keeps it; [ServerLifecycle], so do accepting,
      closing and destroying connections; [ServerBoot], the constructors
      establish it; [PingpongServer], the theorems on [main].
    - [LoggingStream], [Logging], [LogFile]: the files of [logging/].
      [LogFileTest]: the logger writing to a log file, [logging/LogFile_test.cc].
      [StreamTests]: [logging/LoggingStream_test.cc].
    - [LookupTable]: [thread/threadsafe_lookup_table.cc] as a sequential program.
      [HierarchicalMutex]: [thread/hieraarchical_mutex.cc].
    - [Threads]: threads, mutexes and condition variables; linearizability and
      forward simulation. [TableThreads]: shared mutexes, and the table of
      [LookupTable] with its threads. [Guards]: [thread/Mutex.h],
      [thread_guard.cc]. [PendingCalls]: [queueInLoop] and
      [doPendingFunctions] of [EventLoop.cc] with threads interleaved.
      [Monitor]: classes with one mutex, reduced to
      sequential reasoning. [Queues]: [thread/threadsafe_queue.cc],
      [BlockingQueue.cc], [threadsafe_stack.cc], [reactor/taskQueue.cc].
      [Wakeups]: no wake-up of [BlockingQueue] is lost. [QueueV2]: the two-lock
      queue of [threadsafe_queue.cc]; [TwoLocks]: a proof system for its
      threads, and its linearizability. [ThreadPool]: [thread/thread_pool.cc].
      [Thread]: [thread/Thread.h], [Thread.cc]. [SharedPtr]: the
      reference-counted pointer of [thread/test/shared_ptr_test.cc].

    Definitions have the names of the functions they translate, with the
    class's name in front where several classes have one of that name.

    ** What the theorems show

    - The pingpong server with one thread, from the first instruction of [main]
      and on any lawful operating system: it never crashes, sends on every
      connection what it received there, in order, leaks no descriptor, and
      after each iteration of its loop no pointer dangles and every object has
      the type its pointers say.
    - Refinements of an abstract specification: a [Buffer] is a queue of bytes
      with headroom; a connection is a stream of bytes that is half-closed once
      drained; a log line is the concatenation of the items that fit; the
      shared containers are atomic queues, stacks and a finite map under every
      interleaving.
    - Invariants: the poller's map and the kernel's interest list agree with
      the channels; the timer queue is sorted, its timers are alive and the
      descriptor is armed for the earliest; the mutexes a thread holds descend
      in the hierarchy; a reference count is the number of its pointers.
    - Threads: a call queued to a loop is run once, in order, by the next pass;
      the containers, as above; a mutex knows its holder.
    - Function: what one iteration of the loop delivers, what is read, echoed,
      counted and logged, that every line logged reaches the log files whole
      and in order, how servers and clients open and close connections,
      what each branch of a connection attempt does with its descriptor.
    - Progress: delays of retries, no lost wake-up in [BlockingQueue], no
      deadlock in the hierarchy, the loop ends after [quit]; and where there is
      none: the two-lock queue can lose a wake-up, stopping an idle pool or
      destroying a loop's thread never completes.
    - Numbers and texts: [convert] agrees with the decimal digits for every
      integer type, timestamps and addresses are read back from their text.
    - Errors: lemmas and theorems that say where the code fails an assertion
      or does something other than its names and comments say.

    The main theorems with hypotheses have a witness, named after them, that
    applies them to a concrete state; the programs of [example/] also run from [main]
    against concrete operating systems.

    ** Fuel and bounds

    [loop] is cut after a number of iterations, and says whether it ended:
    [loop_ends_after_quit] gives the number for which it does. [append_loop]
    has one step more than the line has characters, and each step writes one
    at least. [convert] has 20 steps, for 64 bits, and [convertHex] 16; both
    are proved enough. [contents] of the two-lock queue walks at most as many
    nodes as there are. A lawful operating system ([Posix]) accepts at most
    [kMaxArrivals] (2^31 - 2) connections, after which the counter in their
    names would overflow, and delivers at most [kMaxTraffic] (2^62) bytes, so
    that buffer sizes stay representable. Times are below [kMaxTime] (2^61
    microseconds) and, for calendar dates, [kMaxSecond] (the year 10000).
    [room] in the theorems on connections is the number of bytes that may still
    be sent before the arithmetic on buffer sizes could wrap.

    ** Not modelled

    - The text of log lines inside [reactor/] (a FATAL line is a crash).
    - Reference counts of the other objects held by [shared_ptr] ([Connector],
      the elements of queues): they remain in the store when the last pointer
      goes away. The order in which a map destroys its elements is fixed.
    - Threads interleaving inside calls of [reactor/], but for the queue of
      pending calls ([PendingCalls]): elsewhere a call made from another thread
      runs as one step, so the mutex around [connection_] has no effect; the
      hand-over of [EventLoopThread::startLoop] is one step too.
    - Floating-point text ([%.12g]) is a parameter, and so are [std::hash] and
      what [getopt] returns.
    - The branches for kernels without [SOCK_NONBLOCK], which are not compiled,
      and the disposition of SIGPIPE that [EventLoop.cc] sets before [main].
    - [threadsafe_lookup_table::remove_mapping] (it calls a function that does
      not exist), [threadsafe_unordered_map] (it hands out references that
      outlive its lock, or to a temporary), [MutexLockGuard] (its reference is
      bound to itself), the copy constructor of [threadsafe_stack] (it names a
      member that does not exist), [thread_param.cc], the experiments of
      [thread/test/] other than the pointer, tests with printed
      floating-point numbers, and timing loops.

    ** How it may be extended

    The invariant of [ServerInvariant] is that of a server with one loop and
    the pingpong handlers. Two extensions would reuse most of it: handlers
    given by a specification of what they may do to their connection, and the
    pool of loops with its threads running, which needs the interleaving of
    [PendingCalls] in place of the single steps of [runInLoop] (and a server
    that hands connections over as it should: see [pooled_server_aborts]). *)
From stdpp Require Export base prelude list gmap strings.
From Stdlib Require Export ZArith Lia Ascii.
From stdpp Require Export sorting.

#[global] Set Default Goal Selector "1".

(** ** Program outcomes *)

(** The ways in which the process can stop inside a call: a failed [assert],
    a [LOG_FATAL] line (whose destructor calls [abort()]), a call of [abort()] of
    its own, undefined behaviour, or an exception nobody in the code catches. *)
Inductive crash :=
  | AssertFailed (expr : string)
  | LogFatal (msg : string)
  | Aborted
  | Undefined (what : string)
  | Thrown (exn : string).

#[export] Instance crash_eq_dec : EqDecision crash.
Proof. solve_decision. Defined.

Inductive res (S A : Type) :=
  | Ret (a : A) (s : S)
  | Crash (r : crash).
Arguments Ret {S A} a s.
Arguments Crash {S A} r.

(** ** The state monad with crashes *)

Definition M (S A : Type) : Type := S → res S A.

#[export] Instance M_ret S : MRet (M S) := λ A a s, Ret a s.
#[export] Instance M_bind S : MBind (M S) := λ A B f m s,
  match m s with
  | Ret a s' => f a s'
  | Crash r => Crash r
  end.

Section MonadOps.
Context {S : Type}.

Definition get : M S S := λ s, Ret s s.
Definition gets {A} (f : S → A) : M S A := λ s, Ret (f s) s.
Definition put (s' : S) : M S unit := λ _, Ret tt s'.
Definition modify (f : S → S) : M S unit := λ s, Ret tt (f s).
Definition fails {A} (r : crash) : M S A := λ _, Crash r.
Definition assert_ (expr : string) (b : bool) : M S unit :=
  λ s, if b then Ret tt s else Crash (AssertFailed expr).
Definition whenM (b : bool) (m : M S unit) : M S unit :=
  if b then m else mret tt.
Definition of_option {A} (what : string) (o : option A) : M S A :=
  match o with Some a => mret a | None => fails (Undefined what) end.

Fixpoint iterM {A} (f : A → M S unit) (l : list A) : M S unit :=
  match l with
  | [] => mret tt
  | x :: l' => f x;; iterM f l'
  end.
End MonadOps.

(** A call on a sub-object [T] of the state [S]. *)
Definition zoom {S T A} (g : S → T) (st : T → S → S) (m : M T A) : M S A :=
  λ s, match m (g s) with
       | Ret a t => Ret a (st t s)
       | Crash r => Crash r
       end.

(** ** Weakest preconditions: no crash, and the postcondition *)

Definition wp {S A} (m : M S A) (Q : A → S → Prop) (s : S) : Prop :=
  match m s with
  | Ret a s' => Q a s'
  | Crash _ => False
  end.

Section WpRules.
Context {S : Type}.
Implicit Types (s : S).

Lemma wp_ret {A} (a : A) (Q : A → S → Prop) s : wp (mret a) Q s = Q a s.
Proof. reflexivity. Qed.

Lemma wp_bind {A B} (m : M S A) (f : A → M S B) (Q : B → S → Prop) s :
  wp (m ≫= f) Q s = wp m (λ a s', wp (f a) Q s') s.
Proof. unfold wp, mbind, M_bind. by destruct (m s). Qed.

Lemma wp_get (Q : S → S → Prop) s : wp get Q s = Q s s.
Proof. reflexivity. Qed.
Lemma wp_gets {A} (f : S → A) (Q : A → S → Prop) s : wp (gets f) Q s = Q (f s) s.
Proof. reflexivity. Qed.
Lemma wp_put s0 (Q : unit → S → Prop) s : wp (put s0) Q s = Q tt s0.
Proof. reflexivity. Qed.
Lemma wp_modify (f : S → S) (Q : unit → S → Prop) s : wp (modify f) Q s = Q tt (f s).
Proof. reflexivity. Qed.

Lemma wp_assert e b (Q : unit → S → Prop) s :
  b = true → Q tt s → wp (assert_ e b) Q s.
Proof. by intros ->. Qed.

Lemma wp_when b (m : M S unit) (Q : unit → S → Prop) s :
  wp (whenM b m) Q s = if b then wp m Q s else Q tt s.
Proof. by destruct b. Qed.

Lemma wp_of_option {A} e (o : option A) a (Q : A → S → Prop) s :
  o = Some a → Q a s → wp (of_option e o) Q s.
Proof. by intros ->. Qed.

Lemma wp_if {A} (b : bool) (m1 m2 : M S A) Q s :
  wp (if b then m1 else m2) Q s = if b then wp m1 Q s else wp m2 Q s.
Proof. by destruct b. Qed.

Lemma wp_mono {A} (m : M S A) (P Q : A → S → Prop) s :
  wp m P s → (∀ a s', P a s' → Q a s') → wp m Q s.
Proof. unfold wp. destruct (m s); eauto. Qed.

Lemma wp_conj {A} (m : M S A) (P Q : A → S → Prop) s :
  wp m P s → wp m Q s → wp m (λ a s', P a s' ∧ Q a s') s.
Proof. unfold wp. destruct (m s); eauto. Qed.

(** The link between [wp] and running the function. *)
Lemma wp_run {A} (m : M S A) Q s :
  wp m Q s ↔ ∃ a s', m s = Ret a s' ∧ Q a s'.
Proof.
  unfold wp. destruct (m s) as [a s'|r]; split; [eauto | intros (?&?&[= -> ->]&?) | done | intros (?&?&?&?)]; done.
Qed.

Lemma wp_exec {A} (m : M S A) a s s' (Q : A → S → Prop) : m s = Ret a s' → Q a s' → wp m Q s.
Proof. unfold wp. by intros ->. Qed.

Lemma bind_Ret {A B} (m : M S A) (k : A → M S B) s a s' : m s = Ret a s' → (m ≫= k) s = k a s'.
Proof. unfold mbind, M_bind. by intros ->. Qed.

Lemma bind_modify {B} f (k : unit → M S B) s : (modify f ≫= k) s = k tt (f s).
Proof. done. Qed.

(** To show that a program crashes, run the part that does not. *)
Lemma crash_bind {A B} (m : M S A) (k : A → M S B) r s :
  wp m (λ a s', k a s' = Crash r) s → (m ≫= k) s = Crash r.
Proof. unfold wp, mbind, M_bind. by destruct (m s). Qed.

Lemma crash_here {A B} (m : M S A) (k : A → M S B) r s : m s = Crash r → (m ≫= k) s = Crash r.
Proof. unfold mbind, M_bind. by intros ->. Qed.

(** Loops over a list, with an invariant on the processed prefix. *)
Lemma wp_iterM_gen {A} (f : A → M S unit) (I : list A → S → Prop) (post pre : list A) s :
  (∀ done x rest s', done ++ x :: rest = pre ++ post → I done s' →
                     wp (f x) (λ _ s'', I (done ++ [x]) s'') s') →
  I pre s → wp (iterM f post) (λ _ s', I (pre ++ post) s') s.
Proof.
  revert pre s. induction post as [|x post IH]; intros pre s Hf HI; simpl.
  - by rewrite wp_ret, app_nil_r.
  - rewrite wp_bind. eapply wp_mono; [by apply (Hf pre x post)|].
    intros [] s' HI'. replace (pre ++ x :: post) with ((pre ++ [x]) ++ post)
      by (by rewrite <- app_assoc).
    apply IH; [|done]. intros ??? s'' E. eapply Hf. rewrite E. by rewrite <- app_assoc.
Qed.

Lemma wp_iterM {A} (f : A → M S unit) (I : list A → S → Prop) (l : list A) s :
  (∀ done x rest s', done ++ x :: rest = l → I done s' →
                     wp (f x) (λ _ s'', I (done ++ [x]) s'') s') →
  I [] s → wp (iterM f l) (λ _ s', I l s') s.
Proof. intros Hf HI. by apply (wp_iterM_gen f I l [] s). Qed.

Lemma iterM_app {A} (f : A → M S unit) l1 l2 s :
  iterM f (l1 ++ l2) s = (iterM f l1;; iterM f l2) s.
Proof.
  revert s. induction l1 as [|x l1 IH]; intros s; simpl; [done|].
  unfold mbind, M_bind in *. destruct (f x s); [apply IH | done].
Qed.
End WpRules.

Lemma wp_zoom {S T A} (g : S → T) (st : T → S → S) (m : M T A) Q s :
  wp (zoom g st m) Q s = wp m (λ a t, Q a (st t s)) (g s).
Proof. unfold wp, zoom. by destruct (m (g s)). Qed.

Create Rewrite HintDb wp.
#[export] Hint Rewrite @wp_ret @wp_bind @wp_get @wp_gets @wp_put @wp_modify
  @wp_when @wp_if @wp_zoom : wp.

(** ** Frames

    Whatever a computation does, the states before and after it, when it
    returns, are related by [R]. *)
Definition preserves {S A} (R : S → S → Prop) (m : M S A) : Prop :=
  ∀ s a s', m s = Ret a s' → R s s'.

Section Preserves.
Context {S : Type} (R : S → S → Prop) `{!PreOrder R}.

Lemma preserves_ret {A} (a : A) : preserves R (mret a).
Proof. intros s ? ? [= <- <-]. done. Qed.
Lemma preserves_bind {A B} (m : M S A) (k : A → M S B) :
  preserves R m → (∀ a, preserves R (k a)) → preserves R (m ≫= k).
Proof.
  intros Hm Hk s b s'. unfold mbind, M_bind. destruct (m s) as [a s1|] eqn:E; [|done].
  intros Hs. etrans; [by eapply Hm|by eapply Hk].
Qed.
Lemma preserves_get : preserves R get.
Proof. intros s ? ? [= <- <-]. done. Qed.
Lemma preserves_fails {A} r : preserves R (fails r : M S A).
Proof. by intros s ? ?. Qed.
Lemma preserves_of_option {A} e (o : option A) : preserves R (of_option e o).
Proof. destruct o; intros s ? ?; [intros [= <- <-]|]; done. Qed.
Lemma preserves_assert e b : preserves R (assert_ e b).
Proof. destruct b; intros s ? ?; [intros [= <- <-]|]; done. Qed.
Lemma preserves_when b (m : M S unit) : preserves R m → preserves R (whenM b m).
Proof. destruct b; [done|]. intros _. apply preserves_ret. Qed.
Lemma preserves_if {A} (b : bool) (m1 m2 : M S A) :
  preserves R m1 → preserves R m2 → preserves R (if b then m1 else m2).
Proof. by destruct b. Qed.
Lemma preserves_option {A B} (o : option A) (m1 : A → M S B) m2 :
  (∀ a, preserves R (m1 a)) → preserves R m2 →
  preserves R (match o with Some a => m1 a | None => m2 end).
Proof. by destruct o. Qed.
Lemma preserves_modify f : (∀ s, R s (f s)) → preserves R (modify f).
Proof. intros Hf s ? ? [= <- <-]. done. Qed.
End Preserves.

(** [preserve] follows the structure of a program; the accessors and calls at
    its leaves are left to the hints of [preserves]. *)
Create HintDb preserves.
Ltac preserve_step :=
  match goal with
  | |- ∀ _, _ => intros ?
  | |- preserves _ (_ ≫= _) => apply preserves_bind; [apply _| |]
  | |- preserves _ (mret _) => apply preserves_ret; apply _
  | |- preserves _ get => apply preserves_get; apply _
  | |- preserves _ (fails _) => apply preserves_fails
  | |- preserves _ (of_option _ _) => apply preserves_of_option; apply _
  | |- preserves _ (assert_ _ _) => apply preserves_assert; apply _
  | |- preserves _ (whenM _ _) => apply preserves_when; [apply _|]
  | |- preserves _ (if _ then _ else _) => apply preserves_if
  | |- preserves _ (match ?x with _ => _ end) => destruct x
  | |- preserves _ _ => solve [eauto with preserves]
  end.
Ltac preserve := repeat preserve_step.

(** A run that satisfies [Q] also relates the states as its frame says. *)
Lemma wp_preserves {S A} (R : S → S → Prop) (m : M S A) (Q : A → S → Prop) s :
  preserves R m → wp m (λ a s', R s s' → Q a s') s → wp m Q s.
Proof. intros Hp. unfold wp. destruct (m s) as [a s'|] eqn:E; [|done]. intros HQ. by eapply HQ, Hp. Qed.

(** [wp_step] runs the deterministic prefix of a program symbolically. *)
Ltac wp_step := repeat progress (autorewrite with wp; cbv beta iota).

(** ** Record update: [r <| f := v |>] and [r <| f ::= g |>] *)

(** [Eta R] rebuilds a record from its projections; the update of one field
    replaces that projection in the rebuilt record. *)
Class Eta (R : Type) := eta_expand : R → R.
Class Update {R T : Type} (p : R → T) := upd : (T → T) → R → R.
Arguments upd {R T} p {_} _ _ /.

Ltac build_update p :=
  match goal with
  | |- @Update ?R ?T _ =>
      let f := fresh "f" in
      let r := fresh "r" in
      intros f r;
      let i := constr:(_ : Eta R) in
      let h := eval red in i in
      let e := eval cbv beta in (h r) in
      let e := eval pattern (p r) in e in
      match e with
      | ?g _ => let b := eval cbv beta in (g (f (p r))) in exact b
      end
  end.
#[export] Hint Extern 1 (Update ?p) => build_update p : typeclass_instances.

Declare Scope record_scope.
Delimit Scope record_scope with record.
Notation "r <| p := v |>" := (upd p (λ _, v) r)
  (at level 1, left associativity, format "r  <| p  :=  v |>") : record_scope.
Notation "r <| p ::= f |>" := (upd p f r)
  (at level 1, left associativity, format "r  <| p  ::=  f |>") : record_scope.
Open Scope record_scope.

(** ** Machine integers *)

Definition wrapu (w : Z) (z : Z) : Z := (z mod 2 ^ w)%Z.
Definition wraps (w : Z) (z : Z) : Z := ((z + 2 ^ (w - 1)) mod 2 ^ w - 2 ^ (w - 1))%Z.

Lemma wrapu_small w z : (0 ≤ z < 2 ^ w → wrapu w z = z)%Z.
Proof. apply Z.mod_small. Qed.

Lemma wrapu_range w z : (0 ≤ w → 0 ≤ wrapu w z < 2 ^ w)%Z.
Proof. intros. apply Z.mod_pos_bound. lia. Qed.

Lemma wraps_small w z : (0 < w → - 2 ^ (w - 1) ≤ z < 2 ^ (w - 1) → wraps w z = z)%Z.
Proof.
  intros Hw Hz. unfold wraps.
  assert (2 ^ w = 2 * 2 ^ (w - 1))%Z as E.
  { replace w with (1 + (w - 1))%Z at 1 by lia. rewrite Z.pow_add_r by lia. lia. }
  rewrite Z.mod_small; lia.
Qed.

Lemma wraps_range w z : (0 < w → - 2 ^ (w - 1) ≤ wraps w z < 2 ^ (w - 1))%Z.
Proof.
  intros Hw. unfold wraps.
  assert (2 ^ w = 2 * 2 ^ (w - 1))%Z as E.
  { replace w with (1 + (w - 1))%Z at 1 by lia. rewrite Z.pow_add_r by lia. lia. }
  pose proof (Z.mod_pos_bound (z + 2 ^ (w - 1)) (2 ^ w)). lia.
Qed.

(** Largest [size()] a [std::vector<char>] can have: [PTRDIFF_MAX]. *)
Definition max_size : Z := (2 ^ 63 - 1)%Z.

(** ** Arrays of bytes, addressed by [Z] offsets *)

Abbreviation char := ascii (only parsing).

Definition zlen {A} (l : list A) : Z := Z.of_nat (length l).

(** The elements at offsets [i], ..., [j - 1]. *)
Definition zslice {A} (i j : Z) (l : list A) : list A :=
  take (Z.to_nat (j - i)) (drop (Z.to_nat i) l).

(** Overwrite at offset [i]; [None] when the range leaves the array. *)
Definition zwrite {A} (i : Z) (xs l : list A) : option (list A) :=
  if ((0 <=? i) && (i + zlen xs <=? zlen l))%Z
  then Some (take (Z.to_nat i) l ++ xs ++ drop (Z.to_nat i + length xs) l)
  else None.

(** Reading a range that leaves the array is undefined. *)
Definition zread {A} (i j : Z) (l : list A) : option (list A) :=
  if ((0 <=? i) && (i <=? j) && (j <=? zlen l))%Z then Some (zslice i j l) else None.

Section Arrays.
Context {A : Type}.
Implicit Types (l xs : list A) (i j k : Z).
Local Open Scope Z_scope.

Lemma zlen_app l xs : zlen (l ++ xs) = zlen l + zlen xs.
Proof. unfold zlen. rewrite length_app. lia. Qed.

Lemma zlen_nonneg l : 0 ≤ zlen l.
Proof. unfold zlen. lia. Qed.

Lemma zlen_replicate n (x : A) : zlen (replicate n x) = Z.of_nat n.
Proof. unfold zlen. by rewrite length_replicate. Qed.

Lemma zlen_zslice i j l : 0 ≤ i ≤ j → j ≤ zlen l → zlen (zslice i j l) = j - i.
Proof. unfold zlen, zslice. intros. rewrite length_take, length_drop. lia. Qed.

Lemma zslice_nil i j l : j ≤ i → zslice i j l = [].
Proof. intros. unfold zslice. by replace (Z.to_nat (j - i)) with 0%nat by lia. Qed.

Lemma zslice_all l : zslice 0 (zlen l) l = l.
Proof. unfold zslice, zlen. rewrite drop_0. apply take_ge. lia. Qed.

Lemma zslice_split i j k l : 0 ≤ i ≤ j → j ≤ k → zslice i j l ++ zslice j k l = zslice i k l.
Proof.
  intros. unfold zslice.
  replace (Z.to_nat (k - i)) with (Z.to_nat (j - i) + Z.to_nat (k - j))%nat by lia.
  rewrite <- take_take_drop, drop_drop. do 4 f_equal. lia.
Qed.

Lemma drop_zslice n i j l : 0 ≤ i → drop n (zslice i j l) = zslice (i + Z.of_nat n) j l.
Proof.
  intros. unfold zslice. rewrite skipn_firstn_comm, drop_drop. f_equal; [lia|f_equal; lia].
Qed.

Lemma zslice_app_l i j l xs : 0 ≤ i → j ≤ zlen l → zslice i j (l ++ xs) = zslice i j l.
Proof.
  unfold zslice, zlen. intros.
  destruct (decide (Z.to_nat i ≤ length l)%nat).
  - rewrite drop_app_le by done. rewrite take_app_le; [done|]. rewrite length_drop. lia.
  - replace (Z.to_nat (j - i)) with 0%nat by lia. done.
Qed.

Lemma zslice_app_r i j l xs : zlen l ≤ i → zslice i j (l ++ xs) = zslice (i - zlen l) (j - zlen l) xs.
Proof.
  unfold zslice, zlen. intros. rewrite drop_app_ge by lia. f_equal; [lia|f_equal; lia].
Qed.

Lemma zwrite_Some i xs l :
  0 ≤ i → i + zlen xs ≤ zlen l →
  zwrite i xs l = Some (zslice 0 i l ++ xs ++ zslice (i + zlen xs) (zlen l) l).
Proof.
  intros Hi Hl. unfold zwrite. rewrite !(proj2 (Z.leb_le _ _)) by lia. simpl.
  unfold zslice, zlen in *. rewrite Z.sub_0_r, drop_0. do 3 f_equal.
  rewrite take_ge by (rewrite length_drop; lia). f_equal. lia.
Qed.

Lemma zread_Some i j l : 0 ≤ i ≤ j → j ≤ zlen l → zread i j l = Some (zslice i j l).
Proof. intros. unfold zread. by rewrite !(proj2 (Z.leb_le _ _)) by lia. Qed.

(** An overwrite keeps the prefix and installs the new bytes. *)
Lemma zslice_write_before i j k xs l :
  j ≤ i → i ≤ zlen l → 0 ≤ k ≤ j → zslice k j (zslice 0 i l ++ xs) = zslice k j l.
Proof.
  intros. rewrite zslice_app_l by (rewrite ?zlen_zslice; lia).
  rewrite <- (zslice_all l) at 2. rewrite <- (zslice_split 0 i (zlen l)) by lia.
  by rewrite (zslice_app_l k j) by (rewrite ?zlen_zslice; lia).
Qed.

Lemma zslice_write_at i xs ys l :
  0 ≤ i ≤ zlen l → zslice i (i + zlen xs) (zslice 0 i l ++ xs ++ ys) = xs.
Proof.
  intros. rewrite zslice_app_r by (rewrite zlen_zslice; lia).
  rewrite zlen_zslice by lia.
  replace (i - (i - 0)) with 0 by lia. replace (i + zlen xs - (i - 0)) with (zlen xs) by lia.
  by rewrite zslice_app_l, zslice_all by lia.
Qed.
End Arrays.

(** Closed side conditions at a concrete input: compute, then split. *)
Ltac by_computation :=
  vm_compute; repeat match goal with |- _ ∧ _ => split end;
  first [reflexivity | discriminate | (intros; discriminate)].

(** ** Stores *)

Lemma alter_alter {A} (f g : A → A) (i : nat) (m : gmap nat A) :
  alter f i (alter g i m) = alter (λ x, f (g x)) i m.
Proof.
  apply map_eq. intros j. destruct (decide (i = j)) as [->|].
  - rewrite !lookup_alter_eq. by destruct (m !! j).
  - by rewrite !lookup_alter_ne.
Qed.

(** Updating a present entry is storing its new value. *)
Lemma alter_as_insert {A} (f : A → A) (i : nat) (m : gmap nat A) x :
  m !! i = Some x → alter f i m = <[i := f x]> m.
Proof.
  intros Hi. apply map_eq. intros j. destruct (decide (i = j)) as [->|].
  - by rewrite lookup_alter_eq, lookup_insert_eq, Hi.
  - by rewrite lookup_alter_ne, lookup_insert_ne.
Qed.

(** ** Filters and sorted lists *)

Section Filter.
Context {A : Type} (P : A → Prop) `{∀ x, Decision (P x)}.

Lemma filter_all (l : list A) : Forall P l → filter P l = l.
Proof. induction 1 as [|x l Hx _ IH]; [done|]. by rewrite filter_cons_True, IH. Qed.

Lemma filter_none (l : list A) : Forall (λ x, ¬ P x) l → filter P l = [].
Proof. induction 1 as [|x l Hx _ IH]; [done|]. by rewrite filter_cons_False, IH. Qed.

Lemma StronglySorted_filter (R : A → A → Prop) l :
  StronglySorted R l → StronglySorted R (filter P l).
Proof.
  induction 1 as [|x l Hs IH Hx]; [constructor|]. rewrite filter_cons. case_decide; [|done].
  constructor; [done|]. rewrite Forall_forall in *. intros y Hy.
  apply Hx. by apply list_elem_of_filter in Hy as [_ ?].
Qed.
End Filter.

(** ** Sums over finite maps *)

Section Total.
Context {A : Type} (w : A → nat).
Definition total (ts : gmap nat A) : nat := map_fold (λ _ x n, w x + n) 0 ts.

Lemma total_empty : total ∅ = 0.
Proof. apply map_fold_empty. Qed.

Lemma total_insert_new ts t x : ts !! t = None → total (<[t := x]> ts) = w x + total ts.
Proof. intros Ht. unfold total. rewrite map_fold_insert_L; [done| |done]. intros. lia. Qed.

Lemma total_delete ts t x : ts !! t = Some x → total ts = w x + total (delete t ts).
Proof.
  intros Ht. rewrite <- (insert_delete_id ts t x) at 1 by done. apply total_insert_new, lookup_delete_eq.
Qed.

Lemma total_update ts t x y : ts !! t = Some x → total (<[t := y]> ts) + w x = total ts + w y.
Proof.
  intros Ht. rewrite (total_delete ts t x Ht).
  rewrite <- insert_delete_eq, total_insert_new by apply lookup_delete_eq. lia.
Qed.

Lemma total_zero ts : (∀ t x, ts !! t = Some x → w x = 0) → total ts = 0.
Proof.
  induction ts as [|t x ts Ht IH] using map_ind; intros Hz; [apply total_empty|].
  rewrite total_insert_new, (Hz t x), IH; [done| |apply lookup_insert_eq|done].
  intros u y Hu. apply (Hz u). rewrite lookup_insert_ne; [done|]. intros ->. congruence.
Qed.

Lemma total_pos ts t x : ts !! t = Some x → w x ≤ total ts.
Proof. intros Ht. rewrite (total_delete ts t x Ht). lia. Qed.

Lemma total_some ts : 0 < total ts → ∃ t x, ts !! t = Some x ∧ 0 < w x.
Proof.
  induction ts as [|t x ts Ht IH] using map_ind; [rewrite total_empty; lia|].
  rewrite total_insert_new by done. destruct (decide (w x = 0)) as [->|Hx].
  - intros (u&y&Hu&Hy)%IH. exists u, y. rewrite lookup_insert_ne; [done|congruence].
  - intros _. exists t, x. rewrite lookup_insert_eq. split; [done|lia].
Qed.
End Total.
