(* ===== verification/Printf.v ===== *)
(** * Printf

    The [printf] conversions the sources use ([%d], [%ld], [%u], [%s], with
    widths and zero padding) as functions to strings of characters, on top of
    the Standard Library's decimal numbers, and [snprintf]'s truncation. *)
From S2P Require Import Prelude.
From Stdlib Require Import DecimalString DecimalPos DecimalZ.
Local Open Scope Z_scope.

Abbreviation str := String.list_ascii_of_string.

(** [%d], [%ld], [%u]: the decimal digits with a sign. *)
Definition fmt_d (z : Z) : list char := str (NilZero.string_of_int (Z.to_int z)).

(** [%Nd]: right-aligned in a field of [w] characters. *)
Definition pad_left (w : nat) (c : char) (s : list char) : list char :=
  replicate (w - length s) c ++ s.
Definition fmt_wd (w : nat) (z : Z) : list char := pad_left w " "%char (fmt_d z).

(** [%0Nd]: zeros between the sign and the digits. *)
Definition fmt_0wd (w : nat) (z : Z) : list char :=
  if z <? 0 then "-"%char :: pad_left (w - 1) "0"%char (fmt_d (- z))
  else pad_left w "0"%char (fmt_d z).

(** [snprintf(buf, size, ...)]: what is stored before the terminator, and the
    value returned. *)
Definition snprintf (size : Z) (s : list char) : list char * Z :=
  (take (Z.to_nat (size - 1)) s, zlen s).

(** ** Facts *)

Definition parse_d (s : list char) : option Z :=
  option_map Z.of_int (NilZero.int_of_string (String.string_of_list_ascii s)).

Lemma parse_fmt_d z : parse_d (fmt_d z) = Some z.
Proof.
  unfold parse_d, fmt_d. rewrite String.string_of_list_ascii_of_string.
  rewrite NilZero.isi; simpl; [by rewrite of_to|..].
  - destruct z; simpl; try done. intros [=H]. by apply (DecimalPos.Unsigned.to_uint_nonnil p).
  - destruct z; simpl; try done. intros [=H]. by apply (DecimalPos.Unsigned.to_uint_nonnil p).
Qed.

#[export] Instance fmt_d_inj : Inj (=) (=) fmt_d.
Proof. intros x y E. apply (f_equal parse_d) in E. rewrite !parse_fmt_d in E. congruence. Qed.

Lemma length_fmt_wd w z : length (fmt_wd w z) = Nat.max w (length (fmt_d z)).
Proof. unfold fmt_wd, pad_left. rewrite length_app, length_replicate. lia. Qed.

Lemma snprintf_fits size s :
  zlen s < size → snprintf size s = (s, zlen s).
Proof. intros. unfold snprintf. rewrite take_ge; [done|]. unfold zlen in *. lia. Qed.

(** *** The digits of a number, one at a time *)

(** The character of a digit. *)
Definition digit_char (d : Z) : char := ascii_of_nat (48 + Z.to_nat d).

Section Digits.
Import Decimal DecimalFacts.

Definition char_of_digit (d : digits) : char :=
  digit_char match d with
  | d0 => 0 | d1 => 1 | d2 => 2 | d3 => 3 | d4 => 4
  | d5 => 5 | d6 => 6 | d7 => 7 | d8 => 8 | d9 => 9
  end.

Lemma str_of_uint u : str (NilEmpty.string_of_uint u) = map char_of_digit (to_list u).
Proof. induction u; [done|..]; cbn; by rewrite IHu. Qed.

Lemma fmt_d_pos p : fmt_d (Z.pos p) = map char_of_digit (to_list (Pos.to_uint p)).
Proof.
  unfold fmt_d. cbn. pose proof (DecimalPos.Unsigned.to_uint_nonnil p).
  rewrite <- str_of_uint. by destruct (Pos.to_uint p).
Qed.

(** The decimal digits of a positive number have no leading zero. *)
Lemma unorm_leading u d' : u ≠ Nil → (∀ v, u ≠ D0 v) → unorm (app u d') = app u d'.
Proof.
  intros Hnil H0.
  assert (∀ k, (∃ v, to_list u = k :: v) → k ≠ d0 → unorm (app u d') = app u d') as Hk.
  { intros k (v&E) Hk0. apply to_list_inj. rewrite unorm_spec, app_spec, E. by destruct k. }
  destruct u as [|v|v|v|v|v|v|v|v|v|v]; try done; [by destruct (H0 v)|..];
    (eapply Hk; [by eexists|done]).
Qed.

Lemma to_uint_leading p : Pos.to_uint p ≠ Nil ∧ ∀ v, Pos.to_uint p ≠ D0 v.
Proof.
  split; [apply DecimalPos.Unsigned.to_uint_nonnil|]. intros v E.
  assert (unorm (Pos.to_uint p) = Pos.to_uint p) as Hn.
  { rewrite <- DecimalPos.Unsigned.to_of, DecimalPos.Unsigned.of_to. done. }
  rewrite E in Hn. unfold unorm in Hn. destruct (nzhead (D0 v)) as [|w|w|w|w|w|w|w|w|w|w] eqn:En; try done.
  - destruct v; [|done..]. by apply (DecimalPos.Unsigned.to_uint_nonzero p).
  - by apply nzhead_nonzero in En.
Qed.

Definition digit_of (d : Z) : digits :=
  match d with
  | 0 => d0 | 1 => d1 | 2 => d2 | 3 => d3 | 4 => d4
  | 5 => d5 | 6 => d6 | 7 => d7 | 8 => d8 | _ => d9
  end.
End Digits.

Lemma digit_cases r (P : Z → Prop) :
  0 ≤ r < 10 → P 0 → P 1 → P 2 → P 3 → P 4 → P 5 → P 6 → P 7 → P 8 → P 9 → P r.
Proof.
  intros Hr. assert (r = 0 ∨ r = 1 ∨ r = 2 ∨ r = 3 ∨ r = 4 ∨ r = 5 ∨ r = 6 ∨ r = 7 ∨ r = 8 ∨ r = 9)
    as Hc by lia. intros. decompose [or] Hc; by subst.
Qed.

Lemma fmt_d_digit r : 0 ≤ r < 10 → fmt_d r = [digit_char r].
Proof. intros Hr. by apply (digit_cases r). Qed.

(** The last digit of a number of two digits or more. *)
Lemma fmt_d_step q r : 0 < q → 0 ≤ r < 10 → fmt_d (10 * q + r) = fmt_d q ++ [digit_char r].
Proof.
  intros Hq Hr. destruct q as [|q|]; [lia| |lia].
  destruct (10 * Z.pos q + r) as [|p|] eqn:Ep; [lia| |lia].
  set (last := DecimalFacts.of_list [digit_of r]).
  assert (DecimalPos.Unsigned.of_lu (Decimal.rev (Decimal.app (Pos.to_uint q) last)) = N.pos p) as Hv.
  { assert (Decimal.rev (Decimal.app (Pos.to_uint q) last)
            = DecimalFacts.of_list (digit_of r :: DecimalFacts.to_list (Decimal.rev (Pos.to_uint q)))) as ->.
    { apply DecimalFacts.to_list_inj.
      rewrite DecimalFacts.rev_spec, DecimalFacts.app_spec, DecimalFacts.to_list_of_list.
      rewrite DecimalFacts.rev_spec. unfold last. rewrite DecimalFacts.to_list_of_list.
      by rewrite List.rev_app_distr. }
    assert (∀ l, DecimalPos.Unsigned.of_lu (DecimalFacts.of_list (digit_of r :: DecimalFacts.to_list l))
                 = (Z.to_N r + 10 * DecimalPos.Unsigned.of_lu l)%N) as ->.
    { intros l. rewrite <- (DecimalFacts.of_list_to_list l) at 2.
      apply (digit_cases r); [done|..]; cbn; lia. }
    rewrite <- DecimalPos.Unsigned.of_uint_alt, DecimalPos.Unsigned.of_to. lia. }
  rewrite <- DecimalPos.Unsigned.of_uint_alt in Hv.
  apply (f_equal N.to_uint) in Hv. rewrite DecimalPos.Unsigned.to_of in Hv.
  destruct (to_uint_leading q) as [Hnil H0]. rewrite unorm_leading in Hv by done.
  rewrite !fmt_d_pos. change (N.to_uint (N.pos p)) with (Pos.to_uint p) in Hv. rewrite <- Hv, DecimalFacts.app_spec, map_app.
  unfold last. rewrite DecimalFacts.to_list_of_list. f_equal. cbn. f_equal.
  by apply (digit_cases r).
Qed.

(** The width of a number. *)
Lemma length_fmt_d z k : (1 ≤ k)%nat → 0 ≤ z < 10 ^ Z.of_nat k → (length (fmt_d z) ≤ k)%nat.
Proof.
  intros Hk. induction k as [|[|k] IH] in z, Hk |- *; [lia| |].
  - intros Hz. rewrite fmt_d_digit by lia. done.
  - intros Hz. destruct (decide (z < 10)); [rewrite fmt_d_digit by lia; cbn; lia|].
    assert (0 < z / 10 ∧ z / 10 < 10 ^ Z.of_nat (S k)) as [Hq Hq'].
    { replace (Z.of_nat (S (S k))) with (Z.of_nat (S k) + 1) in Hz by lia.
      rewrite Z.pow_add_r in Hz by lia.
      split; [apply Z.div_str_pos; lia|apply Z.div_lt_upper_bound; lia]. }
    rewrite (Z.div_mod z 10) by lia. pose proof (Z.mod_pos_bound z 10 ltac:(lia)).
    rewrite fmt_d_step, length_app by lia. cbn. specialize (IH (z / 10)). lia.
Qed.

Lemma length_fmt_d_ge z k : 10 ^ Z.of_nat k ≤ z → (k < length (fmt_d z))%nat.
Proof.
  induction k as [|k IH] in z |- *; intros Hz.
  - change (10 ^ Z.of_nat 0) with 1 in Hz. destruct (decide (z < 10)).
    + rewrite fmt_d_digit by lia. cbn. lia.
    + assert (0 < z / 10) by (apply Z.div_str_pos; lia). rewrite (Z.div_mod z 10) by lia.
      pose proof (Z.mod_pos_bound z 10 ltac:(lia)). rewrite fmt_d_step, length_app by lia. cbn. lia.
  - rewrite Nat2Z.inj_succ, Z.pow_succ_r in Hz by lia.
    assert (10 ^ Z.of_nat k ≤ z / 10) as Hq by (apply Z.div_le_lower_bound; lia).
    pose proof (Z.pow_pos_nonneg 10 (Z.of_nat k) ltac:(lia) ltac:(lia)).
    rewrite (Z.div_mod z 10) by lia. pose proof (Z.mod_pos_bound z 10 ltac:(lia)).
    rewrite fmt_d_step, length_app by lia. cbn. specialize (IH _ Hq). lia.
Qed.

(** The characters of a number are digits. *)
Definition is_digit (c : char) : bool :=
  (48 <=? Z.of_nat (nat_of_ascii c)) && (Z.of_nat (nat_of_ascii c) <=? 57).

Lemma digit_char_ok r : 0 ≤ r < 10 → is_digit (digit_char r) = true.
Proof. intros. by apply (digit_cases r). Qed.

(** Induction on the number of digits. *)
Lemma digits_ind (P : Z → Prop) :
  (∀ r, 0 ≤ r < 10 → P r) → (∀ q r, 0 < q → 0 ≤ r < 10 → P q → P (10 * q + r)) →
  ∀ z, 0 ≤ z → P z.
Proof.
  intros Hd Hs z Hz. pattern z. apply Zlt_0_ind; [|done]. clear z Hz. intros z IH Hz.
  destruct (decide (z < 10)); [by apply Hd|]. rewrite (Z.div_mod z 10) by lia.
  assert (0 < z / 10) by (apply Z.div_str_pos; lia).
  apply Hs; [done|by apply Z.mod_pos_bound|]. apply IH. split; [lia|]. apply Z.div_lt; lia.
Qed.

Lemma fmt_d_digits z : 0 ≤ z → Forall (λ c, is_digit c = true) (fmt_d z) ∧ fmt_d z ≠ [].
Proof.
  intros Hz. pattern z. apply digits_ind; [..|done].
  - intros r Hr. rewrite fmt_d_digit by done. split; [|done].
    by apply Forall_singleton, digit_char_ok.
  - intros q r Hq Hr [IH _]. rewrite fmt_d_step by done. split; [|by destruct (fmt_d q)].
    apply Forall_app. split; [done|]. by apply Forall_singleton, digit_char_ok.
Qed.

(** *** Padded numbers *)

Lemma length_fmt_0wd w z : 0 ≤ z → length (fmt_0wd w z) = Nat.max w (length (fmt_d z)).
Proof.
  intros Hz. unfold fmt_0wd. rewrite (proj2 (Z.ltb_ge z 0)) by done.
  unfold pad_left. rewrite length_app, length_replicate. lia.
Qed.

Lemma length_fmt_0wd_exact (w : nat) z :
  (1 ≤ w)%nat → 0 ≤ z < 10 ^ Z.of_nat w → length (fmt_0wd w z) = w.
Proof. intros Hw Hz. rewrite length_fmt_0wd by lia. pose proof (length_fmt_d z w Hw Hz). lia. Qed.

Lemma length_fmt_wd_exact (w : nat) z :
  (1 ≤ w)%nat → 0 ≤ z < 10 ^ Z.of_nat w → length (fmt_wd w z) = w.
Proof. intros Hw Hz. rewrite length_fmt_wd. pose proof (length_fmt_d z w Hw Hz). lia. Qed.

(** The value of a string of digits. *)
Definition dec_value (s : list char) : Z :=
  foldl (λ n c, 10 * n + (Z.of_nat (nat_of_ascii c) - 48)) 0 s.

Lemma dec_value_snoc s c : dec_value (s ++ [c]) = 10 * dec_value s + (Z.of_nat (nat_of_ascii c) - 48).
Proof. unfold dec_value. by rewrite foldl_app. Qed.

Lemma dec_value_fmt_d z : 0 ≤ z → dec_value (fmt_d z) = z.
Proof.
  assert (∀ r, 0 ≤ r < 10 → Z.of_nat (nat_of_ascii (digit_char r)) - 48 = r) as Hr.
  { intros r Hr. by apply (digit_cases r). }
  intros Hz. pattern z. apply digits_ind; [..|done]; clear z Hz.
  - intros r Hr'. rewrite fmt_d_digit by done. unfold dec_value. cbn [foldl]. rewrite Hr; lia.
  - intros q r Hq Hr' IH. rewrite fmt_d_step, dec_value_snoc, IH, Hr by done. done.
Qed.

Lemma dec_value_fmt_0wd w z : 0 ≤ z → dec_value (fmt_0wd w z) = z.
Proof.
  intros Hz. unfold fmt_0wd. rewrite (proj2 (Z.ltb_ge z 0)) by done. unfold pad_left.
  assert (∀ n s, dec_value (replicate n "0"%char ++ s) = dec_value s) as ->; [|by apply dec_value_fmt_d].
  intros n s. induction n as [|n IH]; [done|]. unfold dec_value in *. cbn. exact IH.
Qed.

Lemma fmt_0wd_inj w a b : 0 ≤ a → 0 ≤ b → fmt_0wd w a = fmt_0wd w b → a = b.
Proof. intros Ha Hb E. apply (f_equal dec_value) in E. by rewrite !dec_value_fmt_0wd in E. Qed.

(** ** [atoi] *)

Definition is_space (c : char) : bool :=
  let n := nat_of_ascii c in (n =? 32)%nat || ((9 <=? n)%nat && (n <=? 13)%nat).
Fixpoint skip_spaces (s : list char) : list char :=
  match s with
  | c :: s' => if is_space c then skip_spaces s' else s
  | [] => []
  end.
Fixpoint leading_digits (s : list char) : list char :=
  match s with
  | c :: s' => if is_digit c then c :: leading_digits s' else []
  | [] => []
  end.

(** The number at the front of a text, 0 when there is none. What does not fit
    an [int] is undefined. *)
Definition atoi (s : list char) : option Z :=
  let s := skip_spaces s in
  let n := match s with
           | c :: s' =>
               if ascii_dec c "-"%char then - dec_value (leading_digits s')
               else if ascii_dec c "+"%char then dec_value (leading_digits s')
               else dec_value (leading_digits s)
           | [] => 0
           end in
  if (- 2 ^ 31 <=? n) && (n <? 2 ^ 31) then Some n else None.

Lemma leading_digits_all s : Forall (λ c, is_digit c = true) s → leading_digits s = s.
Proof. induction 1 as [|c s Hc _ IH]; [done|]. cbn. by rewrite Hc, IH. Qed.

Lemma digit_no_sign c : is_digit c = true → is_space c = false ∧ c ≠ "-"%char ∧ c ≠ "+"%char.
Proof. destruct c as [[] [] [] [] [] [] [] []]; vm_compute; intros ?; split_and!; congruence. Qed.

Lemma fmt_d_neg p : fmt_d (Z.neg p) = "-"%char :: fmt_d (Z.pos p).
Proof. reflexivity. Qed.

Lemma atoi_fmt_d z : - 2 ^ 31 ≤ z < 2 ^ 31 → atoi (fmt_d z) = Some z.
Proof.
  intros Hz. unfold atoi. set (n := match skip_spaces _ with [] => _ | _ => _ end).
  assert (n = z) as ->; [|by rewrite (proj2 (Z.leb_le _ _)), (proj2 (Z.ltb_lt _ _)) by lia].
  unfold n. clear n. destruct (Z_lt_le_dec z 0) as [Hneg|Hpos].
  - destruct z as [| |p]; [lia..|]. rewrite fmt_d_neg. destruct (fmt_d_digits (Z.pos p)) as [Hd _]; [done|].
    change (- dec_value (leading_digits (fmt_d (Z.pos p))) = Z.neg p).
    by rewrite leading_digits_all, dec_value_fmt_d.
  - destruct (fmt_d_digits z Hpos) as [Hd Hne]. pose proof (dec_value_fmt_d z Hpos) as Hv.
    destruct (fmt_d z) as [|c s]; [done|]. pose proof Hd as Hd'. apply Forall_cons in Hd' as [Hc _].
    destruct (digit_no_sign c Hc) as (Hs&H1&H2). cbn [skip_spaces]. rewrite Hs.
    destruct (ascii_dec c "-"); [done|]. destruct (ascii_dec c "+"); [done|]. by rewrite leading_digits_all.
Qed.

Example atoi_text : atoi (str " 42nd") = Some 42 ∧ atoi (str "- 1") = Some 0 ∧ atoi (str "2147483648") = None.
Proof. by vm_compute. Qed.
