(* ===== verification/Calendar.v ===== *)
(** * Calendar

    [gmtime_r] of the C library: seconds since 1970 to the fields of a date
    and time, for the log lines, the names of log files and the text of
    timestamps. *)
From S2P Require Import Prelude Printf.
Local Open Scope Z_scope.

Record tm := mkTm { tm_year : Z; tm_mon : Z; tm_mday : Z; tm_hour : Z; tm_min : Z; tm_sec : Z }.

(** Days since 1970-01-01 to year, month and day, counting years from March
    in eras of 400. *)
Definition civil (days : Z) : Z * Z * Z :=
  let z := days + 719468 in
  let era := z / 146097 in
  let doe := z mod 146097 in
  let yoe := (doe - doe / 1460 + doe / 36524 - doe / 146096) / 365 in
  let doy := doe - (365 * yoe + yoe / 4 - yoe / 100) in
  let mp := (5 * doy + 2) / 153 in
  let d := doy - (153 * mp + 2) / 5 + 1 in
  let m := if mp <? 10 then mp + 3 else mp - 9 in
  (yoe + era * 400 + (if m <=? 2 then 1 else 0), m, d).

Definition gmtime_r (seconds : Z) : tm :=
  let '(y, m, d) := civil (seconds / 86400) in
  let s := seconds mod 86400 in
  mkTm (y - 1900) (m - 1) d (s / 3600) (s / 60 mod 60) (s mod 60).

Example gmtime_epoch : gmtime_r 0 = mkTm 70 0 1 0 0 0. Proof. reflexivity. Qed.
Example gmtime_leap : gmtime_r 1709210096 = mkTm 124 1 29 12 34 56. Proof. reflexivity. Qed.
Example gmtime_new_year : map (tm_year ∘ gmtime_r) [1735689599; 1735689600] = [124; 125].
Proof. reflexivity. Qed.

(** The first second after the year 9999. *)
Definition kMaxSecond : Z := 253402300800.

Lemma civil_range days :
  let '(y, m, d) := civil days in 1 ≤ m ≤ 12 ∧ 1 ≤ d ≤ 31 ∧ (0 ≤ days < 2932897 → 1000 ≤ y ≤ 9999).
Proof.
  unfold civil. set (era := (days + 719468) / 146097). set (doe := (days + 719468) mod 146097).
  assert (0 ≤ doe < 146097 ∧ days + 719468 = 146097 * era + doe) as [Hdoe Hdays].
  { unfold era, doe. Z.to_euclidean_division_equations. lia. }
  clearbody doe era. set (yoe := (doe - doe / 1460 + doe / 36524 - doe / 146096) / 365).
  set (doy := doe - (365 * yoe + yoe / 4 - yoe / 100)).
  assert (0 ≤ doy ≤ 365 ∧ 0 ≤ yoe ≤ 399) as [Hdoy Hyoe].
  { unfold doy, yoe. Z.to_euclidean_division_equations. lia. }
  assert (doe = 365 * yoe + yoe / 4 - yoe / 100 + doy) as Edoe by (unfold doy; lia).
  clearbody doy yoe. set (mp := (5 * doy + 2) / 153).
  assert (0 ≤ mp ≤ 11 ∧ 1 ≤ doy - (153 * mp + 2) / 5 + 1 ≤ 31 ∧ 153 * mp ≤ 5 * doy + 2) as (Hmp&Hd&Hm).
  { unfold mp. Z.to_euclidean_division_equations. lia. }
  destruct (Z.ltb_spec mp 10); split_and!; try lia; intros Hr.
  - destruct (Z.leb_spec (mp + 3) 2); [lia|]. Z.to_euclidean_division_equations. lia.
  - destruct (Z.leb_spec (mp - 9) 2); Z.to_euclidean_division_equations; lia.
Qed.

(** The calendar distinguishes days and seconds. *)
Definition days_of_civil (y m d : Z) : Z :=
  let y := if m <=? 2 then y - 1 else y in
  let mp := if 2 <? m then m - 3 else m + 9 in
  let doy := (153 * mp + 2) / 5 + d - 1 in
  let doe := y mod 400 * 365 + y mod 400 / 4 - y mod 400 / 100 + doy in
  y / 400 * 146097 + doe - 719468.

Lemma days_of_civil_months era yoe doy :
  0 ≤ yoe ≤ 399 → 0 ≤ doy ≤ 365 →
  let mp := (5 * doy + 2) / 153 in
  let m := if mp <? 10 then mp + 3 else mp - 9 in
  days_of_civil (yoe + era * 400 + (if m <=? 2 then 1 else 0)) m (doy - (153 * mp + 2) / 5 + 1)
  = era * 146097 + (365 * yoe + yoe / 4 - yoe / 100 + doy) - 719468.
Proof.
  intros Hyoe Hdoy. cbv zeta. set (mp := (5 * doy + 2) / 153).
  assert (0 ≤ mp ≤ 11) as Hmp by (unfold mp; Z.to_euclidean_division_equations; lia). clearbody mp.
  unfold days_of_civil. set (m := if mp <? 10 then mp + 3 else mp - 9).
  assert ((if 2 <? m then m - 3 else m + 9) = mp) as ->.
  { unfold m. destruct (Z.ltb_spec mp 10);
      [rewrite (proj2 (Z.ltb_lt _ _))|rewrite (proj2 (Z.ltb_ge _ _))]; lia. }
  set (y := yoe + era * 400 + (if m <=? 2 then 1 else 0)).
  assert ((if m <=? 2 then y - 1 else y) = yoe + era * 400) as -> by (unfold y; destruct (m <=? 2); lia).
  rewrite Z.div_add, Z.mod_add, Z.div_small, Z.mod_small by lia. lia.
Qed.

Lemma civil_inv days : let '(y, m, d) := civil days in days_of_civil y m d = days.
Proof.
  unfold civil. set (era := (days + 719468) / 146097). set (doe := (days + 719468) mod 146097).
  assert (0 ≤ doe < 146097 ∧ days + 719468 = 146097 * era + doe) as [Hdoe Hdays].
  { unfold era, doe. Z.to_euclidean_division_equations. lia. }
  clearbody doe era. set (yoe := (doe - doe / 1460 + doe / 36524 - doe / 146096) / 365).
  set (doy := doe - (365 * yoe + yoe / 4 - yoe / 100)).
  rewrite days_of_civil_months; [unfold doy; lia|..];
    unfold doy, yoe; Z.to_euclidean_division_equations; lia.
Qed.

(** [timegm], the inverse of [gmtime_r]. *)
Definition timegm (r : tm) : Z :=
  days_of_civil (tm_year r + 1900) (tm_mon r + 1) (tm_mday r) * 86400
  + tm_hour r * 3600 + tm_min r * 60 + tm_sec r.

Lemma timegm_gmtime_r seconds : timegm (gmtime_r seconds) = seconds.
Proof.
  unfold timegm, gmtime_r. pose proof (civil_inv (seconds / 86400)) as H.
  destruct (civil (seconds / 86400)) as [[y m] d]. cbn [tm_year tm_mon tm_mday tm_hour tm_min tm_sec].
  replace (y - 1900 + 1900) with y by lia. replace (m - 1 + 1) with m by lia. rewrite H.
  Z.to_euclidean_division_equations. lia.
Qed.

Lemma gmtime_r_inj s1 s2 : gmtime_r s1 = gmtime_r s2 → s1 = s2.
Proof. intros E%(f_equal timegm). by rewrite !timegm_gmtime_r in E. Qed.

(** The fields of a broken-down time. *)
Lemma gmtime_r_fields t : 0 ≤ t < kMaxSecond →
  let r := gmtime_r t in
  1000 ≤ tm_year r + 1900 ≤ 9999 ∧ 0 ≤ tm_mon r + 1 < 100 ∧ 0 ≤ tm_mday r < 100 ∧
  0 ≤ tm_hour r < 100 ∧ 0 ≤ tm_min r < 100 ∧ 0 ≤ tm_sec r < 100.
Proof.
  unfold kMaxSecond, gmtime_r. intros Ht. pose proof (civil_range (t / 86400)) as Hc.
  destruct (civil (t / 86400)) as [[y m] d]. destruct Hc as (Hm&Hd&Hy).
  specialize (Hy ltac:(Z.to_euclidean_division_equations; lia)).
  cbn [tm_year tm_mon tm_mday tm_hour tm_min tm_sec].
  split_and!; try lia; Z.to_euclidean_division_equations; lia.
Qed.

Lemma length_year y : 1000 ≤ y ≤ 9999 → length (fmt_d y) = 4%nat.
Proof.
  intros Hy. assert (length (fmt_d y) ≤ 4)%nat by (apply length_fmt_d; [lia|]; change (10 ^ Z.of_nat 4) with 10000; lia).
  pose proof (length_fmt_d_ge y 3). change (10 ^ Z.of_nat 3) with 1000 in *. lia.
Qed.
