(* ===== verification/Timestamp.v ===== *)
(** * Timestamp

    [timestamp/TimeStamp.h] and [timestamp/TimeStamp.cc]: a timestamp is its
    [int64_t] of microseconds. Doubles are binary64 numbers of the Standard
    Library's [SpecFloat]. *)
From S2P Require Import Prelude Printf Calendar.
From Stdlib Require Import SpecFloat.
Local Open Scope Z_scope.

Definition kMicroSecondPerSecond : Z := 1000 * 1000.

(** ** Doubles *)

Abbreviation double := spec_float.
Definition dmul : double → double → double := SFmul 53 1024.
Definition ddiv : double → double → double := SFdiv 53 1024.
Definition double_of_Z (z : Z) : double := binary_normalize 53 1024 z 0 false.
Definition dzero : double := S754_zero false.
Definition dgt (a b : double) : bool := SFltb b a.

(** [static_cast<int64_t>] of a double: truncation; undefined for NaN,
    infinities and values out of range. *)
Definition int64_of_double (d : double) : option Z :=
  let in_range z := if (- 2 ^ 63 <=? z) && (z <? 2 ^ 63) then Some z else None in
  match d with
  | S754_zero _ => Some 0
  | S754_finite s m e =>
      let a := if 0 <=? e then Z.pos m * 2 ^ e else Z.pos m / 2 ^ (- e) in
      in_range (if s then - a else a)
  | _ => None
  end.

(** Signed addition and subtraction on [int64_t]: overflow is undefined. *)
Definition int64_checked (z : Z) : option Z :=
  if (- 2 ^ 63 <=? z) && (z <? 2 ^ 63) then Some z else None.

(** ** Timestamps *)

Definition Timestamp : Type := Z.
Definition Timestamp_ctor : Timestamp := 0.
Definition Timestamp_of (microSecondsSinceEpoch : Z) : Timestamp := microSecondsSinceEpoch.
Definition microSecondsSinceEpoch (t : Timestamp) : Z := t.
Definition valid (t : Timestamp) : bool := 0 <? microSecondsSinceEpoch t.
Definition invaild : Timestamp := Timestamp_ctor.
Definition swap (t that : Timestamp) : Timestamp * Timestamp := (that, t).

Definition Timestamp_lt (lhs rhs : Timestamp) : bool :=
  microSecondsSinceEpoch lhs <? microSecondsSinceEpoch rhs.
Definition Timestamp_eq (lhs rhs : Timestamp) : bool :=
  microSecondsSinceEpoch lhs =? microSecondsSinceEpoch rhs.

(** [now]: from the [timeval] that [gettimeofday] filled in. *)
Definition now_of (tv_sec tv_usec : Z) : Timestamp :=
  wraps 64 (tv_sec * kMicroSecondPerSecond + tv_usec).

Definition timeDiffence (high low : Timestamp) : option double :=
  diff ← int64_checked (microSecondsSinceEpoch high - microSecondsSinceEpoch low);
  Some (double_of_Z (Z.quot diff kMicroSecondPerSecond)).

Definition addTime (timestamp : Timestamp) (seconds : double) : option Timestamp :=
  delta ← int64_of_double (dmul seconds (double_of_Z kMicroSecondPerSecond));
  int64_checked (microSecondsSinceEpoch timestamp + delta).

Definition toString (t : Timestamp) : list char :=
  let seconds := Z.quot t kMicroSecondPerSecond in
  let microseconds := Z.rem t kMicroSecondPerSecond in
  (snprintf (32 - 1) (fmt_d seconds ++ "."%char :: fmt_0wd 6 microseconds)).1.

(** [seconds] is a [time_t] and [microseconds] fits an [int]; the format is
    ["%4d%02d%02d %02d:%02d:%02d.%06d"]. *)
Definition format_timestamp (t : tm) (microseconds : Z) : list char :=
  fmt_wd 4 (tm_year t + 1900) ++ fmt_0wd 2 (tm_mon t + 1) ++ fmt_0wd 2 (tm_mday t) ++ " "%char ::
  fmt_0wd 2 (tm_hour t) ++ ":"%char :: fmt_0wd 2 (tm_min t) ++ ":"%char :: fmt_0wd 2 (tm_sec t)
  ++ "."%char :: fmt_0wd 6 microseconds.

Definition toFormattedString (t : Timestamp) : list char :=
  let seconds := Z.quot t kMicroSecondPerSecond in
  let microseconds := Z.rem t kMicroSecondPerSecond in
  (snprintf 64 (format_timestamp (gmtime_r seconds) microseconds)).1.

Example toFormattedString_example :
  toFormattedString 1709210096000789 = str "20240229 12:34:56.000789".
Proof. reflexivity. Qed.

(** ** Facts *)

Lemma int64_checked_Some z : - 2 ^ 63 ≤ z < 2 ^ 63 → int64_checked z = Some z.
Proof.
  intros. unfold int64_checked.
  by rewrite (proj2 (Z.leb_le _ _)), (proj2 (Z.ltb_lt _ _)) by lia.
Qed.

Lemma int64_checked_inv z z' : int64_checked z = Some z' → z' = z ∧ - 2 ^ 63 ≤ z < 2 ^ 63.
Proof.
  unfold int64_checked. case_match eqn:E; [|done]. intros [= <-].
  apply andb_prop in E as [E1%Z.leb_le E2%Z.ltb_lt]. done.
Qed.

(** The pairs that order the timer set compare timestamps first. *)
#[export] Instance Timestamp_lt_trans : Transitive (λ a b, Timestamp_lt a b = true).
Proof. intros a b c. unfold Timestamp_lt, microSecondsSinceEpoch. rewrite !Z.ltb_lt. lia. Qed.

(** The delays in seconds of the callers, at the microsecond they denote. *)
Example addTime_exact :
  addTime 1000 (double_of_Z 1) = Some 1001000 ∧
  addTime 0 (ddiv (double_of_Z 500) (double_of_Z 1000)) = Some 500000 ∧
  addTime 0 (ddiv (double_of_Z 30000) (double_of_Z 1000)) = Some 30000000.
Proof. by vm_compute. Qed.

(** [timeDiffence] divides the microseconds as integers before converting
    to [double]: two timestamps less than a second apart differ by zero
    seconds, whichever is later, and in general any fraction of a second is
    dropped. *)
Theorem timeDiffence_drops_fraction (low : Timestamp) (secs frac : Z)
  (Hs : 0 ≤ secs) (Hf : 0 ≤ frac < kMicroSecondPerSecond)
  (Hrange : secs * kMicroSecondPerSecond + frac < 2 ^ 63) :
  timeDiffence (low + secs * kMicroSecondPerSecond + frac) low = Some (double_of_Z secs).
Proof.
  unfold timeDiffence, microSecondsSinceEpoch.
  replace (low + secs * kMicroSecondPerSecond + frac - low)
    with (secs * kMicroSecondPerSecond + frac) by lia.
  rewrite int64_checked_Some by (unfold kMicroSecondPerSecond in *; lia).
  cbn [mbind option_bind]. do 2 f_equal.
  rewrite Z.quot_div_nonneg by (unfold kMicroSecondPerSecond in *; lia).
  unfold kMicroSecondPerSecond in *.
  rewrite Z.div_add_l, Z.div_small by lia. lia.
Qed.

Example timeDiffence_drops_fraction_witness :
  timeDiffence (7 + 0 * kMicroSecondPerSecond + 999999) 7 = Some (double_of_Z 0).
Proof. apply (timeDiffence_drops_fraction 7 0 999999); by_computation. Defined.

(** ** Reading a timestamp back *)

(** [n] characters from position [i] on, as a number. *)
Definition field (i n : nat) (s : list char) : Z := dec_value (take n (drop i s)).

Definition parse_seconds (s : list char) : Timestamp :=
  let n := (length s - 7)%nat in
  field 0 n s * kMicroSecondPerSecond + field (n + 1) 6 s.

Definition parse_formatted (s : list char) : Timestamp :=
  timegm (mkTm (field 0 4 s - 1900) (field 4 2 s - 1) (field 6 2 s) (field 9 2 s) (field 12 2 s) (field 15 2 s))
  * kMicroSecondPerSecond + field 18 6 s.

Lemma field_app i n (a b : list char) : (length a <= i)%nat → field i n (a ++ b) = field (i - length a) n b.
Proof. intros Hi. unfold field. by rewrite drop_app_ge. Qed.

Lemma field_first n (a b : list char) : length a = n → field 0 n (a ++ b) = dec_value a.
Proof. intros <-. unfold field. by rewrite drop_0, take_app_length. Qed.

Lemma field_skip i n c (b : list char) : field (S i) n (c :: b) = field i n b.
Proof. done. Qed.

Lemma seconds_split t : 0 ≤ t →
  Z.quot t kMicroSecondPerSecond * kMicroSecondPerSecond + Z.rem t kMicroSecondPerSecond = t ∧
  0 ≤ Z.rem t kMicroSecondPerSecond < 1000000 ∧ 0 ≤ Z.quot t kMicroSecondPerSecond ∧
  Z.quot t kMicroSecondPerSecond = t / 1000000.
Proof.
  intros Ht. change kMicroSecondPerSecond with 1000000. rewrite Z.quot_div_nonneg, Z.rem_mod_nonneg by lia.
  pose proof (Z.div_mod t 1000000). pose proof (Z.mod_pos_bound t 1000000). pose proof (Z.div_pos t 1000000). lia.
Qed.

Lemma parse_toString t : 0 ≤ t < 2 ^ 63 → parse_seconds (toString t) = t.
Proof.
  intros Ht. unfold toString. destruct (seconds_split t) as (E&Hr&Hq&Eq); [lia|].
  set (s := Z.quot t _) in *. set (u := Z.rem t _) in *. clearbody u.
  assert (length (fmt_d s) ≤ 13)%nat by (apply length_fmt_d; [lia|rewrite Eq; Z.to_euclidean_division_equations; lia]).
  assert (length (fmt_0wd 6 u) = 6%nat) as H6 by (apply length_fmt_0wd_exact; [lia|exact Hr]).
  rewrite snprintf_fits by (unfold zlen; rewrite length_app; cbn [length]; lia). cbn [fst].
  unfold parse_seconds. rewrite length_app. cbn [length]. rewrite H6.
  replace (length (fmt_d s) + 7 - 7)%nat with (length (fmt_d s)) by lia.
  rewrite field_first by done. rewrite field_app by lia.
  replace (length (fmt_d s) + 1 - length (fmt_d s))%nat with 1%nat by lia. rewrite field_skip.
  rewrite <- (app_nil_r (fmt_0wd 6 u)), field_first by done.
  rewrite dec_value_fmt_d, dec_value_fmt_0wd by lia. exact E.
Qed.

(** C33: the texts of a timestamp are whole, and it can be read back from
    each, to the microsecond: the date and time up to the year 9999, the
    seconds for every timestamp after 1970. *)
Theorem timestamp_text_roundtrip (t : Timestamp) (Ht : 0 ≤ t < 2 ^ 63) :
  parse_seconds (toString t) = t ∧
  (t < kMaxSecond * kMicroSecondPerSecond →
   zlen (toFormattedString t) = 24 ∧ parse_formatted (toFormattedString t) = t).
Proof.
  split; [by apply parse_toString|]. intros Hmax. unfold toFormattedString.
  destruct (seconds_split t) as (E&Hr&Hq&Eq); [lia|].
  set (s := Z.quot t _) in *. set (u := Z.rem t _) in *. clearbody u.
  assert (0 ≤ s < kMaxSecond) as Hs by (unfold kMaxSecond, kMicroSecondPerSecond in *; lia). clear Eq. clearbody s.
  destruct (gmtime_r_fields s Hs) as (Hy&Hm&Hd&Hh&Hi&Hsec). pose proof (timegm_gmtime_r s) as Es.
  rewrite <- E. destruct (gmtime_r s) as [y m d h mi sec]. cbn [tm_year tm_mon tm_mday tm_hour tm_min tm_sec] in *.
  rewrite <- Es. unfold format_timestamp. cbn [tm_year tm_mon tm_mday tm_hour tm_min tm_sec].
  assert (fmt_wd 4 (y + 1900) = fmt_d (y + 1900)) as ->.
  { unfold fmt_wd, pad_left. by rewrite length_year. }
  assert (∀ n, 0 ≤ n < 100 → length (fmt_0wd 2 n) = 2%nat) as H2
    by (intros; apply length_fmt_0wd_exact; [lia|done]).
  assert (length (fmt_0wd 6 u) = 6%nat) as H6 by (apply length_fmt_0wd_exact; [lia|exact Hr]).
  match goal with |- zlen (snprintf _ ?x).1 = _ ∧ _ => assert (zlen x = 24) as Hlen end.
  { unfold zlen. repeat (rewrite length_app || cbn [length]). by rewrite length_year, H6, !H2. }
  rewrite snprintf_fits by (rewrite Hlen; lia). split; [exact Hlen|].
  unfold parse_formatted. cbn [fst].
  repeat first [rewrite field_first by (first [by apply length_year|by apply H2|done])
    | rewrite field_skip
    | rewrite field_app by (rewrite ?length_year, ?H2 by done; lia); rewrite ?length_year, ?H2 by done; cbn [Nat.sub]].
  rewrite <- (app_nil_r (fmt_0wd 6 u)), field_first by done.
  rewrite dec_value_fmt_d, !dec_value_fmt_0wd by lia.
  by replace (y + 1900 - 1900) with y by lia; replace (m + 1 - 1) with m by lia.
Qed.

Example timestamp_text_roundtrip_witness :
  parse_formatted (toFormattedString 1709210096000789) = 1709210096000789.
Proof. apply (timestamp_text_roundtrip 1709210096000789); by_computation. Defined.
