(* ===== verification/Buffer.v ===== *)
(** * Buffer

    The byte buffer of [reactor/Buffer.h] and [reactor/Buffer.cc]: the vector,
    its two indices, every method, the well-formedness invariant, and the
    refinement of the methods to an unbounded byte queue. *)
From S2P Require Import Prelude.
Local Open Scope Z_scope.

Definition kCheapPrepend : Z := 8.
Definition kInitialSize : Z := 1024.

Record Buffer := mkBuffer {
  buffer_ : list char;
  readerIndex_ : Z;
  writerIndex_ : Z;
}.
#[export] Instance eta_Buffer : Eta Buffer := λ b,
  mkBuffer (buffer_ b) (readerIndex_ b) (writerIndex_ b).

Definition zero_char : char := Ascii.zero.

(** ** The methods *)

Definition Buffer_ctor : Buffer :=
  {| buffer_ := replicate (Z.to_nat (kCheapPrepend + kInitialSize)) zero_char;
     readerIndex_ := kCheapPrepend;
     writerIndex_ := kCheapPrepend |}.

Definition swap (b rhs : Buffer) : Buffer * Buffer :=
  ({| buffer_ := buffer_ rhs; readerIndex_ := readerIndex_ rhs; writerIndex_ := writerIndex_ rhs |},
   {| buffer_ := buffer_ b; readerIndex_ := readerIndex_ b; writerIndex_ := writerIndex_ b |}).

Definition readableBytes (b : Buffer) : Z := wrapu 64 (writerIndex_ b - readerIndex_ b).
Definition writableBytes (b : Buffer) : Z := wrapu 64 (zlen (buffer_ b) - writerIndex_ b).
Definition prependableBytes (b : Buffer) : Z := readerIndex_ b.

(** Pointers into the vector are offsets from [begin()]. *)
Definition peek (b : Buffer) : Z := readerIndex_ b.
Definition beginWrite (b : Buffer) : Z := writerIndex_ b.

Definition retrieve (len : Z) : M Buffer unit :=
  b ← get;
  assert_ "len <= readableBytes()" (len <=? readableBytes b);;
  modify (λ b, b <| readerIndex_ ::= λ i, wrapu 64 (i + len) |>).

Definition retrieveUntil (end_ : Z) : M Buffer unit :=
  b ← get;
  assert_ "peek() <= end" (peek b <=? end_);;
  assert_ "end <= beginWrite()" (end_ <=? beginWrite b);;
  retrieve (end_ - peek b).

Definition retrieveAll : M Buffer unit :=
  modify (λ b, b <| readerIndex_ := kCheapPrepend |> <| writerIndex_ := kCheapPrepend |>).

(** The readable bytes, as [std::string str(peek(), readableBytes())] reads them. *)
Definition peekString : M Buffer (list char) :=
  b ← get;
  of_option "read past the vector" (zread (peek b) (peek b + readableBytes b) (buffer_ b)).

Definition retrieveAsString : M Buffer (list char) :=
  str ← peekString;
  retrieveAll;;
  mret str.

(** [std::vector<char>::resize]. *)
Definition resize (n : Z) : M Buffer unit :=
  b ← get;
  if max_size <? n then fails (Thrown "length_error")
  else put (b <| buffer_ := take (Z.to_nat n) (buffer_ b)
                            ++ replicate (Z.to_nat n - length (buffer_ b)) zero_char |>).

(** [std::copy] of [data] to offset [i] of the vector. *)
Definition copy_to (i : Z) (data : list char) : M Buffer unit :=
  b ← get;
  l ← of_option "write past the vector" (zwrite i data (buffer_ b));
  put (b <| buffer_ := l |>).

Definition makeSpace (len : Z) : M Buffer unit :=
  b ← get;
  if wrapu 64 (writableBytes b + prependableBytes b) <? wrapu 64 (len + kCheapPrepend)
  then resize (wrapu 64 (writerIndex_ b + len))
  else
    assert_ "kCheapPrepend < readerIndex_" (kCheapPrepend <? readerIndex_ b);;
    let readable := readableBytes b in
    data ← of_option "read past the vector" (zread (readerIndex_ b) (writerIndex_ b) (buffer_ b));
    copy_to kCheapPrepend data;;
    modify (λ b, b <| readerIndex_ := kCheapPrepend |>);;
    modify (λ b, b <| writerIndex_ := wrapu 64 (readerIndex_ b + readable) |>);;
    b ← get;
    assert_ "readable == readableBytes()" (readable =? readableBytes b).

Definition ensureWritableBytes (len : Z) : M Buffer unit :=
  b ← get;
  whenM (writableBytes b <? len) (makeSpace len);;
  b ← get;
  assert_ "writableBytes() >= len" (len <=? writableBytes b).

Definition hasWritten (len : Z) : M Buffer unit :=
  modify (λ b, b <| writerIndex_ ::= λ i, wrapu 64 (i + len) |>).

(** Both [append] overloads: the string one passes [data()] and [length()]. *)
Definition append (data : list char) : M Buffer unit :=
  let len := zlen data in
  ensureWritableBytes len;;
  b ← get;
  copy_to (beginWrite b) data;;
  hasWritten len.

Definition prepend (data : list char) : M Buffer unit :=
  let len := zlen data in
  b ← get;
  assert_ "len <= prependableBytes()" (len <=? prependableBytes b);;
  modify (λ b, b <| readerIndex_ ::= λ i, wrapu 64 (i - len) |>);;
  b ← get;
  copy_to (readerIndex_ b) data.

Definition shrink (reserve : Z) : M Buffer unit :=
  b ← get;
  let n := wrapu 64 (kCheapPrepend + readableBytes b + reserve) in
  if max_size <? n then fails (Thrown "length_error") else
  data ← of_option "read past the vector"
           (zread (peek b) (peek b + readableBytes b) (buffer_ b));
  buf ← of_option "write past the vector"
          (zwrite kCheapPrepend data (replicate (Z.to_nat n) zero_char));
  put (b <| buffer_ := buf |>).

Definition extrabuf_size : Z := 65536.

(** [readFd]: [readv] is the system call on the two iovecs of lengths
    [writable] and [sizeof extrabuf]; it returns [n], the bytes it stored
    (first into the vector's tail, then into [extrabuf]) and [errno]. The
    result is [n] and the value stored through [savedErrno], if any. *)
Section ReadFd.
Context {S : Type} (g : S → Buffer) (st : Buffer → S → S).

Definition readFd (readv : Z → Z → M S (Z * list char * Z)) : M S (Z * option Z) :=
  b ← gets g;
  let writable := writableBytes b in
  r ← readv writable extrabuf_size;
  let '(n, bytes, errno) := r in
  if n <? 0 then mret (n, Some errno)
  else
    let vec0 := take (Z.to_nat writable) bytes in
    let extrabuf := drop (Z.to_nat writable) bytes in
    zoom g st (b ← get; copy_to (writerIndex_ b) vec0);;
    (if n <=? writable
     then zoom g st (modify (λ b, b <| writerIndex_ ::= λ i, wrapu 64 (i + n) |>))
     else zoom g st (modify (λ b, b <| writerIndex_ := zlen (buffer_ b) |>);;
                     append (take (Z.to_nat (n - writable)) extrabuf)));;
    mret (n, None).
End ReadFd.

(** ** Well-formed buffers and their contents *)

Definition wf (b : Buffer) : Prop :=
  0 ≤ readerIndex_ b ≤ writerIndex_ b ∧
  kCheapPrepend ≤ writerIndex_ b ≤ zlen (buffer_ b) ∧
  zlen (buffer_ b) ≤ max_size.

(** The abstract value of a buffer: the readable bytes. *)
Definition content (b : Buffer) : list char :=
  zslice (readerIndex_ b) (writerIndex_ b) (buffer_ b).

(** What an operation that adds bytes may do to the indices: the headroom in
    front of the data stays or becomes [kCheapPrepend], the write index grows
    by at most the number [n] of bytes added, and the vector by at most the room
    made for them. *)
Definition grows (n room : Z) (b b' : Buffer) : Prop :=
  Z.min (readerIndex_ b) kCheapPrepend ≤ readerIndex_ b' ∧
  writerIndex_ b' ≤ writerIndex_ b + n ∧
  zlen (buffer_ b') ≤ zlen (buffer_ b) + room.

Lemma wf_ctor : wf Buffer_ctor ∧ content Buffer_ctor = [].
Proof. by vm_compute. Qed.

(** The three assertions of the constructor. *)
Lemma ctor_assertions :
  readableBytes Buffer_ctor = 0 ∧ writableBytes Buffer_ctor = kInitialSize ∧
  prependableBytes Buffer_ctor = kCheapPrepend.
Proof. by vm_compute. Qed.

(** Unfold the constants and the bounds that [wf] gives, for [lia]. *)
Ltac buf_lia :=
  unfold wf, grows, content, max_size, kCheapPrepend, kInitialSize, prependableBytes,
    peek, beginWrite in *; cbn [upd buffer_ readerIndex_ writerIndex_] in *; lia.

Lemma readableBytes_wf b : wf b → readableBytes b = writerIndex_ b - readerIndex_ b.
Proof. intros. apply wrapu_small. buf_lia. Qed.

Lemma writableBytes_wf b : wf b → writableBytes b = zlen (buffer_ b) - writerIndex_ b.
Proof. intros. apply wrapu_small. buf_lia. Qed.

Lemma zlen_content b : wf b → zlen (content b) = readableBytes b.
Proof. intros. rewrite readableBytes_wf by done. apply zlen_zslice; buf_lia. Qed.

Lemma content_read b :
  wf b → zread (peek b) (peek b + readableBytes b) (buffer_ b) = Some (content b).
Proof.
  intros. rewrite readableBytes_wf, zread_Some by (done || buf_lia).
  unfold content, peek. do 2 f_equal. lia.
Qed.

Lemma copy_to_spec i data (Q : unit → Buffer → Prop) b :
  0 ≤ i → i + zlen data ≤ zlen (buffer_ b) →
  Q tt (b <| buffer_ := zslice 0 i (buffer_ b) ++ data ++
                        zslice (i + zlen data) (zlen (buffer_ b)) (buffer_ b) |>) →
  wp (copy_to i data) Q b.
Proof.
  intros. unfold copy_to. wp_step. eapply wp_of_option; [by apply zwrite_Some|]. by wp_step.
Qed.

(** ** Each method against the byte queue *)

Lemma retrieve_spec len b :
  wf b → 0 ≤ len ≤ readableBytes b →
  wp (retrieve len)
     (λ _ b', wf b' ∧ content b' = drop (Z.to_nat len) (content b) ∧
              readerIndex_ b' = readerIndex_ b + len ∧
              writerIndex_ b' = writerIndex_ b) b.
Proof.
  intros Hwf Hlen. pose proof (readableBytes_wf b Hwf) as Hr.
  unfold retrieve. wp_step. apply wp_assert; [apply Z.leb_le; lia|]. wp_step.
  assert (wrapu 64 (readerIndex_ b + len) = readerIndex_ b + len) as E
    by (apply wrapu_small; buf_lia).
  split_and!; [unfold wf; cbn; rewrite E; buf_lia| |by cbn|done].
  unfold content at 1. cbn. rewrite E. unfold content.
  rewrite drop_zslice by buf_lia. f_equal. lia.
Qed.

Lemma retrieveAll_spec b :
  wf b → wp retrieveAll (λ _ b', wf b' ∧ content b' = [] ∧ buffer_ b' = buffer_ b ∧
              readerIndex_ b' = kCheapPrepend ∧ writerIndex_ b' = kCheapPrepend) b.
Proof. intros. unfold retrieveAll. wp_step. split_and!; [buf_lia|by apply zslice_nil|done..]. Qed.

Lemma peekString_spec (Q : list char → Buffer → Prop) b :
  wf b → Q (content b) b → wp peekString Q b.
Proof.
  intros. unfold peekString. wp_step. eapply wp_of_option; [by apply content_read|done].
Qed.

Lemma retrieveAsString_spec b :
  wf b → wp retrieveAsString (λ s b', s = content b ∧ wf b' ∧ content b' = [] ∧
              buffer_ b' = buffer_ b ∧
              readerIndex_ b' = kCheapPrepend ∧ writerIndex_ b' = kCheapPrepend) b.
Proof.
  intros. unfold retrieveAsString. wp_step. apply peekString_spec; [done|]. wp_step.
  eapply wp_mono; [by apply retrieveAll_spec|]. intros _ b' (?&?&?&?&?). by wp_step.
Qed.

Lemma zlen_resize n (l : list char) :
  0 ≤ n → zlen (take (Z.to_nat n) l ++ replicate (Z.to_nat n - length l) zero_char) = n.
Proof. intros. unfold zlen. rewrite length_app, length_take, length_replicate. lia. Qed.

(** The assertion [kCheapPrepend < readerIndex_] inside [makeSpace] holds
    whenever [ensureWritableBytes] calls it. *)
Lemma makeSpace_spec len b :
  wf b → writableBytes b < len → writerIndex_ b + len ≤ max_size →
  wp (makeSpace len)
     (λ _ b', wf b' ∧ content b' = content b ∧ len ≤ writableBytes b' ∧
              grows 0 (Z.max 0 len) b b') b.
Proof.
  intros Hwf Hlt Hmax. pose proof (readableBytes_wf b Hwf) as Hr.
  pose proof (writableBytes_wf b Hwf) as Hw.
  unfold makeSpace. wp_step.
  rewrite !wrapu_small by buf_lia. destruct (Z.ltb_spec (writableBytes b + prependableBytes b) (len + kCheapPrepend)).
  - unfold resize. wp_step. destruct (Z.ltb_spec max_size (writerIndex_ b + len)); [buf_lia|].
    wp_step. set (b' := _ <| buffer_ := _ |>).
    assert (zlen (buffer_ b') = writerIndex_ b + len) as Hl by (apply zlen_resize; buf_lia).
    assert (wf b') as Hwf'. { unfold wf. rewrite Hl. subst b'. buf_lia. }
    split_and!; [done| |rewrite writableBytes_wf, Hl by done; subst b'; cbn; lia|unfold grows; rewrite Hl; subst b'; buf_lia].
    unfold content, b'; cbn. rewrite (take_ge (buffer_ b)) by (unfold zlen in *; buf_lia).
    apply zslice_app_l; buf_lia.
  - wp_step. apply wp_assert; [apply Z.ltb_lt; buf_lia|]. wp_step.
    eapply wp_of_option; [apply zread_Some; buf_lia|]. wp_step.
    assert (zlen (content b) = readableBytes b) as Hc by by apply zlen_content.
    fold (content b). apply copy_to_spec; [buf_lia..|].
    set (l := zslice 0 kCheapPrepend _ ++ _). wp_step.
    assert (zlen l = zlen (buffer_ b)) as Hl.
    { unfold l. rewrite !zlen_app, !zlen_zslice; buf_lia. }
    rewrite wrapu_small by buf_lia. cbn [upd readerIndex_].
    set (b' := mkBuffer _ _ _).
    assert (wf b') as Hwf' by (unfold b'; buf_lia).
    apply wp_assert.
    { apply Z.eqb_eq. rewrite (readableBytes_wf b') by done. unfold b'. cbn. lia. }
    split_and!; [done| |rewrite writableBytes_wf by done; unfold b'; buf_lia|unfold grows, b'; cbn; rewrite Hl; buf_lia].
    unfold content at 1, b'; cbn. unfold l. rewrite <- Hc. apply zslice_write_at. buf_lia.
Qed.

Lemma ensureWritableBytes_spec len b :
  wf b → writerIndex_ b + len ≤ max_size →
  wp (ensureWritableBytes len)
     (λ _ b', wf b' ∧ content b' = content b ∧ len ≤ writableBytes b' ∧
              grows 0 (Z.max 0 len) b b') b.
Proof.
  intros Hwf Hmax. unfold ensureWritableBytes. wp_step.
  destruct (Z.ltb_spec (writableBytes b) len).
  - eapply wp_mono; [by apply makeSpace_spec|]. intros _ b' (?&?&?&?). wp_step.
    apply wp_assert; [apply Z.leb_le; lia|done].
  - apply wp_assert; [apply Z.leb_le; lia|]. split_and!; [done|done|done|buf_lia].
Qed.

(** The buffer after [data] has been stored at the write index. *)
Definition stored (data : list char) (b : Buffer) : Buffer :=
  {| buffer_ := zslice 0 (writerIndex_ b) (buffer_ b) ++ data ++
                zslice (writerIndex_ b + zlen data) (zlen (buffer_ b)) (buffer_ b);
     readerIndex_ := readerIndex_ b;
     writerIndex_ := writerIndex_ b + zlen data |}.

(** Bytes stored in the writable part extend the contents. *)
Lemma stored_spec data b :
  wf b → zlen data ≤ writableBytes b →
  wf (stored data b) ∧ content (stored data b) = content b ++ data ∧
  zlen (buffer_ (stored data b)) = zlen (buffer_ b).
Proof.
  intros Hwf Hd. rewrite writableBytes_wf in Hd by done. pose proof (zlen_nonneg data).
  assert (zlen (buffer_ (stored data b)) = zlen (buffer_ b)) as Hl.
  { unfold stored; cbn. rewrite !zlen_app, !zlen_zslice; buf_lia. }
  split_and!; [unfold wf; rewrite Hl; unfold stored; cbn; buf_lia| |done].
  unfold content; cbn. rewrite <- (zslice_split _ (writerIndex_ b)) by buf_lia. f_equal.
  - apply zslice_write_before; buf_lia.
  - apply zslice_write_at. buf_lia.
Qed.

Lemma append_spec data b :
  wf b → writerIndex_ b + zlen data ≤ max_size →
  wp (append data) (λ _ b', wf b' ∧ content b' = content b ++ data ∧
              grows (zlen data) (zlen data) b b') b.
Proof.
  intros Hwf Hmax. unfold append. wp_step.
  eapply wp_mono; [by apply ensureWritableBytes_spec|]. intros _ b1 (?&Hc&?&?).
  destruct (stored_spec data b1) as (?&Hcont&Hsize); [done..|].
  pose proof (writableBytes_wf b1). pose proof (zlen_nonneg data).
  wp_step. apply copy_to_spec; [buf_lia..|]. unfold hasWritten. wp_step.
  cbn [upd buffer_ readerIndex_ writerIndex_]. rewrite wrapu_small by buf_lia.
  fold (stored data b1). rewrite <- Hc. split; [done|]. split; [done|].
  change (grows (zlen data) (zlen data) b (stored data b1)). unfold grows in *. rewrite Hsize.
  unfold stored. buf_lia.
Qed.

Lemma prepend_spec data b :
  wf b → zlen data ≤ prependableBytes b →
  wp (prepend data)
     (λ _ b', wf b' ∧ content b' = data ++ content b ∧
              readerIndex_ b' = readerIndex_ b - zlen data ∧
              writerIndex_ b' = writerIndex_ b) b.
Proof.
  intros Hwf Hd. pose proof (zlen_nonneg data). unfold prepend. wp_step.
  apply wp_assert; [apply Z.leb_le; lia|]. wp_step. cbn [upd buffer_ readerIndex_ writerIndex_].
  rewrite wrapu_small by buf_lia. apply copy_to_spec; cbn; [buf_lia..|].
  set (l := zslice 0 _ _ ++ _).
  assert (zlen l = zlen (buffer_ b)) as Hl.
  { unfold l. rewrite !zlen_app, !zlen_zslice; buf_lia. }
  split_and!; [buf_lia| |done..]. unfold content; cbn.
  rewrite <- (zslice_split _ (readerIndex_ b)) by buf_lia. f_equal.
  - replace (readerIndex_ b) with (readerIndex_ b - zlen data + zlen data) at 2 by lia.
    apply zslice_write_at. buf_lia.
  - unfold l. rewrite app_assoc, zslice_app_r; rewrite zlen_app, zlen_zslice; [|buf_lia..].
    replace (readerIndex_ b - zlen data + zlen data) with (readerIndex_ b) by lia.
    assert (∀ i j k (l : list char), 0 ≤ i ≤ k → j ≤ k → zslice (i - i) (j - i) (zslice i k l) = zslice i j l) as E.
    { intros i j k l' ??. unfold zslice. rewrite Z.sub_diag, drop_0, take_take. f_equal. lia. }
    replace (readerIndex_ b - zlen data - 0 + zlen data) with (readerIndex_ b) by lia.
    apply E; buf_lia.
Qed.

(** [readFd] through a lens [g]/[st] of the caller's state: if [readv] keeps
    the buffer, a failing call stores [errno] and changes nothing, and a call
    that transfers [n] bytes appends exactly those, however they were split
    between the vector and the stack buffer. *)
Lemma readFd_spec {S} (g : S → Buffer) (st : Buffer → S → S) readv
    (Q : Z * option Z → S → Prop) s :
  (∀ b s, g (st b s) = b) → (∀ b b' s, st b' (st b s) = st b' s) →
  wf (g s) →
  wp (readv (writableBytes (g s)) extrabuf_size) (λ '(n, bytes, e) s',
    g s' = g s ∧
    if n <? 0 then Q (n, Some e) s'
    else n = zlen bytes ∧ n ≤ writableBytes (g s) + extrabuf_size ∧
         writerIndex_ (g s) + n ≤ max_size ∧
         ∀ b', wf b' → content b' = content (g s) ++ bytes → grows n n (g s) b' →
               Q (n, None) (st b' s')) s →
  wp (readFd g st readv) Q s.
Proof.
  intros Hgst Hstst Hwf Hrd. unfold readFd. wp_step. eapply wp_mono; [exact Hrd|].
  intros [[n bytes] e] s' [Hg HQ]. cbv beta iota in *. wp_step.
  destruct (Z.ltb_spec n 0); [done|]. destruct HQ as (Hn&Hcap&Hmax&HQ).
  pose proof (writableBytes_wf (g s) Hwf) as Hw.
  assert (0 ≤ writableBytes (g s)) as Hw0 by (rewrite Hw; buf_lia).
  set (vec0 := take _ bytes). set (extra := drop _ bytes).
  assert (vec0 ++ extra = bytes) as Hsplit by apply take_drop.
  assert (zlen vec0 = Z.min n (writableBytes (g s))) as Hv0.
  { unfold vec0, zlen in *. rewrite length_take. lia. }
  destruct (stored_spec vec0 (g s) Hwf) as (Hwf1&Hc1&Hl1); [lia|].
  rewrite Hg. apply copy_to_spec; [buf_lia..|].
  destruct (Z.leb_spec n (writableBytes (g s))); wp_step; rewrite ?Hgst.
  - cbn [upd buffer_ readerIndex_ writerIndex_]. rewrite wrapu_small by buf_lia.
    rewrite Hstst. replace (mkBuffer _ _ _) with (stored vec0 (g s)) by (unfold stored; f_equal; lia).
    apply HQ; [done| |unfold grows; rewrite Hl1; unfold stored; buf_lia]. rewrite Hc1, <- Hsplit.
    replace extra with (@nil ascii); [by rewrite app_nil_r|].
    unfold extra. rewrite drop_ge; [done|]. unfold zlen in *; lia.
  - cbn [upd buffer_ readerIndex_ writerIndex_].
    match goal with |- wp _ _ ?b => replace b with (stored vec0 (g s)) end.
    2: { unfold stored in *; cbn in *; f_equal. rewrite Hl1; lia. }
    assert (zlen extra = n - writableBytes (g s)) as Hex.
    { rewrite Hn, <- Hsplit, zlen_app. lia. }
    rewrite take_ge by (unfold zlen in *; lia).
    eapply wp_mono; [apply append_spec; [done|unfold stored; cbn; lia]|].
    intros _ b2 (?&Hc2&Hg2). wp_step. rewrite Hstst. apply HQ; [done| |].
    + by rewrite Hc2, Hc1, <- app_assoc, Hsplit.
    + unfold grows in *. rewrite Hl1 in Hg2. unfold stored in Hg2. buf_lia.
Qed.

(** ** Refinement: any sequence of operations implements a byte queue *)

Inductive op :=
  | OpAppend (data : list char)
  | OpPrepend (data : list char)
  | OpRetrieve (len : Z)
  | OpRetrieveAll
  | OpRetrieveAsString
  | OpReadFd (bytes : list char).

(** The bytes an operation hands to its caller. *)
Definition run_op (o : op) : M Buffer (list char) :=
  match o with
  | OpAppend data => append data;; mret []
  | OpPrepend data => prepend data;; mret []
  | OpRetrieve len => retrieve len;; mret []
  | OpRetrieveAll => retrieveAll;; mret []
  | OpRetrieveAsString => retrieveAsString
  | OpReadFd bytes =>
      readFd (λ b, b) (λ b _, b) (λ _ _, mret (zlen bytes, bytes, 0));; mret []
  end.

Fixpoint run_ops (os : list op) : M Buffer (list char) :=
  match os with
  | [] => mret []
  | o :: os' => out ← run_op o; outs ← run_ops os'; mret (out ++ outs)
  end.

(** The specification: the queued bytes, the headroom that [prepend] may use,
    and a bound on the space consumed so far. *)
Record queue := mkQueue { q_bytes : list char; q_room : Z; q_used : Z }.

Definition spec_init : queue := mkQueue [] kCheapPrepend kCheapPrepend.

Definition spec_op (o : op) (q : queue) : option (list char * queue) :=
  let '(mkQueue s room used) := q in
  match o with
  | OpAppend data =>
      if used + zlen data <=? max_size
      then Some ([], mkQueue (s ++ data) (Z.min room kCheapPrepend) (used + zlen data))
      else None
  | OpPrepend data =>
      if zlen data <=? room then Some ([], mkQueue (data ++ s) (room - zlen data) used)
      else None
  | OpRetrieve len =>
      if (0 <=? len) && (len <=? zlen s)
      then Some ([], mkQueue (drop (Z.to_nat len) s) (room + len) used)
      else None
  | OpRetrieveAll => Some ([], mkQueue [] kCheapPrepend used)
  | OpRetrieveAsString => Some (s, mkQueue [] kCheapPrepend used)
  | OpReadFd bytes =>
      if (zlen bytes <=? extrabuf_size) && (used + zlen bytes <=? max_size)
      then Some ([], mkQueue (s ++ bytes) (Z.min room kCheapPrepend) (used + zlen bytes))
      else None
  end.

Fixpoint spec_ops (os : list op) (q : queue) : option (list char * queue) :=
  match os with
  | [] => Some ([], q)
  | o :: os' =>
      match spec_op o q with
      | Some (out, q') =>
          match spec_ops os' q' with
          | Some (outs, q'') => Some (out ++ outs, q'')
          | None => None
          end
      | None => None
      end
  end.

Definition refines (b : Buffer) (q : queue) : Prop :=
  wf b ∧ content b = q_bytes q ∧ q_room q ≤ readerIndex_ b ∧
  writerIndex_ b ≤ q_used q ∧ kCheapPrepend ≤ q_used q.

Lemma refines_init : refines Buffer_ctor spec_init.
Proof. by vm_compute. Qed.

Lemma run_op_refines o out q q' b :
  refines b q → spec_op o q = Some (out, q') →
  wp (run_op o) (λ r b', r = out ∧ refines b' q') b.
Proof.
  intros (Hwf&Hc&Hr&Hu&Hk) Ho. destruct q as [s room used]; cbn in *.
  pose proof (zlen_content b Hwf) as Hlen. rewrite Hc in Hlen.
  destruct o as [data|data|len| | |bytes]; simpl in *; wp_step.
  - case_match eqn:E; [|done]. simplify_eq. apply Z.leb_le in E.
    eapply wp_mono; [apply append_spec; [done|lia]|]. intros _ b' (?&Hc'&?). wp_step.
    split; [done|]; unfold refines; split_and!; [done|by rewrite Hc'|cbn; buf_lia..].
  - case_match eqn:E; [|done]. simplify_eq. apply Z.leb_le in E.
    eapply wp_mono; [apply prepend_spec; [done|buf_lia]|]. intros _ b' (?&Hc'&?&?). wp_step.
    split; [done|]; unfold refines; split_and!; [done|by rewrite Hc'|cbn; buf_lia..].
  - case_match eqn:E; [|done]. simplify_eq. apply andb_prop in E as [E1 E2].
    apply Z.leb_le in E1, E2.
    eapply wp_mono; [apply retrieve_spec; [done|lia]|]. intros _ b' (?&Hc'&?&?). wp_step.
    split; [done|]; unfold refines; split_and!; [done|by rewrite Hc'|cbn; buf_lia..].
  - simplify_eq. eapply wp_mono; [by apply retrieveAll_spec|]. intros _ b' (?&?&?&?). wp_step.
    split; [done|]; unfold refines; split_and!; [done|done|cbn; buf_lia..].
  - simplify_eq. eapply wp_mono; [by apply retrieveAsString_spec|]. intros r b' (->&?&?&?&?).
    split; [done|]; unfold refines; split_and!; [done|done|cbn; buf_lia..].
  - case_match eqn:E; [|done]. simplify_eq. apply andb_prop in E as [E1 E2].
    apply Z.leb_le in E1, E2. pose proof (zlen_nonneg bytes).
    apply readFd_spec; [done..|]. wp_step. split; [done|].
    destruct (Z.ltb_spec (zlen bytes) 0); [lia|].
    pose proof (writableBytes_wf b Hwf).
    split_and!; [done|buf_lia|lia|]. intros b' ? Hc' ?. wp_step.
    split; [done|]; unfold refines; split_and!; [done|by rewrite Hc'|cbn; buf_lia..].
Qed.

(** C3: starting from the constructor, any sequence of [append], [prepend],
    [retrieve], [retrieveAll], [retrieveAsString] and [readFd] calls that the
    queue specification allows runs without a failed assertion, an
    out-of-range access or a [length_error], returns exactly the bytes the
    queue returns, and leaves a well-formed buffer whose readable bytes are
    the queued bytes. *)
Theorem buffer_refines_queue (os : list op) (out : list char) (q : queue)
  (Hspec : spec_ops os spec_init = Some (out, q)) :
  ∃ b, run_ops os Buffer_ctor = Ret out b ∧ wf b ∧ content b = q_bytes q.
Proof.
  cut (∀ b q0 out q, refines b q0 → spec_ops os q0 = Some (out, q) →
         wp (run_ops os) (λ r b', r = out ∧ refines b' q) b).
  { intros H. specialize (H _ _ _ _ refines_init Hspec).
    apply wp_run in H as (r&b&?&->&?&?&?). eauto. }
  clear. induction os as [|o os IH]; intros b q0 out q HR Hs; simpl in *; wp_step; simplify_eq; [done|].
  destruct (spec_op o q0) as [[out1 q1]|] eqn:E1; [|done].
  destruct (spec_ops os q1) as [[outs q2]|] eqn:E2; [|done]. simplify_eq.
  eapply wp_mono; [by eapply run_op_refines|]. intros r b' [-> HR']. wp_step.
  eapply wp_mono; [by eapply IH|]. intros r b'' [-> HR'']. by wp_step.
Qed.

Example buffer_refines_queue_witness :
  ∃ b, run_ops [OpAppend (String.list_ascii_of_string "hello ");
                OpReadFd (String.list_ascii_of_string "world");
                OpRetrieve 3; OpPrepend (String.list_ascii_of_string "4321");
                OpRetrieveAsString] Buffer_ctor
       = Ret (String.list_ascii_of_string "4321lo world") b ∧ wf b ∧ content b = [].
Proof.
  destruct (buffer_refines_queue
    [OpAppend (String.list_ascii_of_string "hello ");
     OpReadFd (String.list_ascii_of_string "world");
     OpRetrieve 3; OpPrepend (String.list_ascii_of_string "4321"); OpRetrieveAsString]
    (String.list_ascii_of_string "4321lo world")
    (mkQueue [] kCheapPrepend 19)) as (b&Hb&Hwf&Hc); [vm_compute; reflexivity|].
  exists b. split; [exact Hb|]. split; [exact Hwf|exact Hc].
Defined.

(** [shrink] rebuilds the vector but keeps both indices. *)
Lemma shrink_run reserve b :
  wf b → 0 ≤ reserve → kCheapPrepend + readableBytes b + reserve ≤ max_size →
  shrink reserve b =
  Ret tt (b <| buffer_ := replicate (Z.to_nat kCheapPrepend) zero_char ++ content b ++
                          replicate (Z.to_nat reserve) zero_char |>).
Proof.
  intros Hwf Hres Hmax. pose proof (zlen_content b Hwf) as Hlen. pose proof (zlen_nonneg (content b)).
  unfold shrink, mbind, M_bind, get, of_option, put. cbv beta iota.
  rewrite wrapu_small by buf_lia.
  destruct (Z.ltb_spec max_size (kCheapPrepend + readableBytes b + reserve)); [lia|].
  rewrite content_read by done. cbn [mret M_ret].
  set (l := replicate _ zero_char).
  assert (zlen l = kCheapPrepend + readableBytes b + reserve) as Hl.
  { unfold l. rewrite zlen_replicate. buf_lia. }
  rewrite zwrite_Some by buf_lia. cbn [mret M_ret upd]. do 2 f_equal. f_equal; [|f_equal].
  - unfold zslice, l. rewrite drop_0, take_replicate. f_equal. buf_lia.
  - unfold zslice. unfold l at 2. rewrite drop_replicate, take_replicate. f_equal. buf_lia.
Qed.

(** [shrink] keeps the contents exactly for buffers whose data starts at
    [kCheapPrepend]: the bytes are moved there but [readerIndex_] and
    [writerIndex_] are left alone. *)
Theorem shrink_at_prepend (reserve : Z) (b : Buffer)
  (Hwf : wf b) (Hres : 0 ≤ reserve)
  (Hmax : kCheapPrepend + readableBytes b + reserve ≤ max_size)
  (Hstart : readerIndex_ b = kCheapPrepend) :
  ∃ b', shrink reserve b = Ret tt b' ∧ wf b' ∧ content b' = content b ∧
        writableBytes b' = reserve.
Proof.
  eexists. split; [by apply shrink_run|]. set (b' := _ <| buffer_ := _ |>).
  pose proof (zlen_content b Hwf) as Hlen. rewrite readableBytes_wf in Hlen, Hmax by done.
  assert (zlen (buffer_ b') = kCheapPrepend + zlen (content b) + reserve) as Hl.
  { unfold b'; cbn. rewrite !zlen_app, !zlen_replicate. buf_lia. }
  assert (wf b') as Hwf' by (unfold wf; rewrite Hl; unfold b'; buf_lia).
  split_and!; [done| |rewrite writableBytes_wf, Hl by done; unfold b'; buf_lia].
  unfold content at 1, b'; cbn.
  rewrite zslice_app_r; rewrite zlen_replicate; [|buf_lia].
  rewrite zslice_app_l, Hstart by buf_lia.
  etrans; [|apply zslice_all]. f_equal; buf_lia.
Qed.

Example shrink_at_prepend_witness :
  ∃ b', shrink 4 (mkBuffer (replicate 20 zero_char) 8 11) = Ret tt b' ∧ wf b' ∧
        content b' = content (mkBuffer (replicate 20 zero_char) 8 11) ∧ writableBytes b' = 4.
Proof.
  apply (shrink_at_prepend 4 (mkBuffer (replicate 20 zero_char) 8 11)); by_computation.
Defined.

(** Once bytes have been retrieved, [shrink] loses data: when the read
    index is past the reserve, both indices point behind the new vector and
    the next [retrieveAsString] reads out of bounds. *)
Theorem shrink_after_retrieve (reserve : Z) (b : Buffer)
  (Hwf : wf b) (Hres : 0 ≤ reserve)
  (Hmax : kCheapPrepend + readableBytes b + reserve ≤ max_size)
  (Hretrieved : kCheapPrepend + reserve < readerIndex_ b) :
  (shrink reserve;; retrieveAsString) b = Crash (Undefined "read past the vector").
Proof.
  unfold mbind, M_bind. rewrite shrink_run by done.
  unfold retrieveAsString, peekString, mbind, M_bind, get. set (b' := _ <| buffer_ := _ |>).
  pose proof (zlen_content b Hwf) as Hlen.
  assert (readableBytes b' = readableBytes b) as -> by done.
  assert (zread (peek b') (peek b' + readableBytes b) (buffer_ b') = None) as ->; [|done].
  unfold zread. replace (peek b' + readableBytes b <=? zlen (buffer_ b')) with false;
    [by rewrite !andb_false_r|].
  symmetry. apply Z.leb_gt. unfold b', peek; cbn.
  rewrite !zlen_app, !zlen_replicate. buf_lia.
Qed.

Example shrink_after_retrieve_witness :
  let b := mkBuffer (replicate 20 zero_char) 12 15 in
  (shrink 2;; retrieveAsString) b = Crash (Undefined "read past the vector").
Proof.
  apply (shrink_after_retrieve 2 (mkBuffer (replicate 20 zero_char) 12 15)); by_computation.
Defined.
