(* ===== verification/Atomic.v ===== *)
(** * Atomic

    [thread/Atomic.h]: [AtomicIntegerT<T>] for a signed type of [w] bits. Each
    [__sync] builtin is one step; an interleaving of threads is therefore a
    list of calls. The builtins wrap around; the [+] in [addAndGet] is an
    ordinary signed addition, whose overflow is undefined. *)
From S2P Require Import Prelude.
Local Open Scope Z_scope.

Module AtomicIntegerT.
Section Atomic.
Context (w : Z).

Definition signed_checked (z : Z) : option Z :=
  if (- 2 ^ (w - 1) <=? z) && (z <? 2 ^ (w - 1)) then Some z else None.

(** The state is [value_]. *)
Definition AtomicIntegerT_ctor : Z := 0.

(** [__sync_val_compare_and_swap(&value_, 0, 0)]. *)
Definition get : M Z Z := λ v, if v =? 0 then Ret v 0 else Ret v v.

Definition getAndAdd (x : Z) : M Z Z := λ v, Ret v (wraps w (v + x)).
Definition addAndGet (x : Z) : M Z Z :=
  v ← getAndAdd x;
  of_option "signed overflow" (signed_checked (v + x)).
Definition incrementAndGet : M Z Z := addAndGet 1.
Definition add (x : Z) : M Z unit := v ← getAndAdd x; mret tt.
Definition increment : M Z unit := v ← incrementAndGet; mret tt.
Definition decrement : M Z unit := v ← getAndAdd (-1); mret tt.
Definition decrementAndGet : M Z Z := getAndAdd (-1).
Definition getAndSet (newValue : Z) : M Z Z := λ v, Ret v newValue.

(** ** Histories of calls *)

Inductive call :=
  | CGet | CGetAndAdd (x : Z) | CAddAndGet (x : Z) | CIncrementAndGet | CAdd (x : Z)
  | CIncrement | CDecrement | CDecrementAndGet.

Definition run_call (c : call) : M Z (list Z) :=
  match c with
  | CGet => v ← get; mret [v]
  | CGetAndAdd x => v ← getAndAdd x; mret [v]
  | CAddAndGet x => v ← addAndGet x; mret [v]
  | CIncrementAndGet => v ← incrementAndGet; mret [v]
  | CAdd x => add x;; mret []
  | CIncrement => increment;; mret []
  | CDecrement => decrement;; mret []
  | CDecrementAndGet => v ← decrementAndGet; mret [v]
  end.

Fixpoint run_calls (cs : list call) : M Z (list Z) :=
  match cs with
  | [] => mret []
  | c :: cs' => r ← run_call c; rs ← run_calls cs'; mret (r ++ rs)
  end.

Definition delta (c : call) : Z :=
  match c with
  | CGet => 0
  | CGetAndAdd x | CAddAndGet x | CAdd x => x
  | CIncrementAndGet | CIncrement => 1
  | CDecrement | CDecrementAndGet => -1
  end.

(** What the name of each call promises to return, from the value before it. *)
Definition promised (c : call) (v : Z) : list Z :=
  match c with
  | CGet | CGetAndAdd _ => [v]
  | CAddAndGet x => [v + x]
  | CIncrementAndGet => [v + 1]
  | CDecrementAndGet => [v - 1]
  | _ => []
  end.

Fixpoint spec_calls (cs : list call) (v : Z) : list Z :=
  match cs with [] => [] | c :: cs' => promised c v ++ spec_calls cs' (v + delta c) end.

(** The counter stays in the range of the type along the history. *)
Fixpoint in_range (cs : list call) (v : Z) : Prop :=
  - 2 ^ (w - 1) ≤ v < 2 ^ (w - 1) ∧
  match cs with [] => True | c :: cs' => in_range cs' (v + delta c) end.

Lemma signed_checked_Some z : - 2 ^ (w - 1) ≤ z < 2 ^ (w - 1) → signed_checked z = Some z.
Proof.
  intros. unfold signed_checked.
  by rewrite (proj2 (Z.leb_le _ _)), (proj2 (Z.ltb_lt _ _)) by lia.
Qed.

Lemma run_call_ok c v :
  0 < w → c ≠ CDecrementAndGet →
  - 2 ^ (w - 1) ≤ v + delta c < 2 ^ (w - 1) →
  run_call c v = Ret (promised c v) (v + delta c).
Proof.
  intros Hw Hc Hr.
  destruct c; simpl in *;
    unfold increment, get, incrementAndGet, decrement, add, addAndGet, getAndAdd,
      mbind, M_bind, mret, M_ret, of_option; try done;
    rewrite ?wraps_small by lia; rewrite ?signed_checked_Some by lia; try done.
  destruct (Z.eqb_spec v 0); subst; by rewrite ?Z.add_0_r.
Qed.

Lemma wp_incrementAndGet v (Q : Z → Z → Prop) :
  0 < w → 0 ≤ v < 2 ^ (w - 1) - 1 → Q (v + 1) (v + 1) → wp incrementAndGet Q v.
Proof.
  intros Hw Hv HQ. unfold incrementAndGet, addAndGet, getAndAdd. wp_step. unfold wp at 1.
  rewrite wraps_small by lia. eapply wp_of_option; [|exact HQ]. apply signed_checked_Some. lia.
Qed.

Lemma run_increment v : 0 < w → 0 ≤ v < 2 ^ (w - 1) - 1 → increment v = Ret tt (v + 1).
Proof.
  intros Hw Hv. pose proof (wp_incrementAndGet v (λ a s, a = v + 1 ∧ s = v + 1) Hw Hv) as Hwp.
  apply wp_run in Hwp as (a&s&Hrun&->&->); [|done]. unfold increment. by rewrite (bind_Ret _ _ _ _ _ Hrun).
Qed.

(** Along any interleaving of calls other than [decrementAndGet] that
    stays in the range of the type, every call returns what its name
    promises for the running total, and the counter ends at the total. *)
Theorem atomic_history (cs : list call) (v : Z)
  (Hw : 0 < w) (Hdec : CDecrementAndGet ∉ cs) (Hr : in_range cs v) :
  run_calls cs v = Ret (spec_calls cs v) (foldl (λ a c, a + delta c) v cs).
Proof.
  revert v Hr. induction cs as [|c cs IH]; intros v Hr; simpl in *; [done|].
  apply not_elem_of_cons in Hdec as [Hc Hdec].
  unfold mbind, M_bind. rewrite run_call_ok; [|done|congruence|].
  - rewrite IH; [done|done|by destruct Hr].
  - destruct Hr as [_ Hr]. destruct cs; simpl in Hr; apply Hr.
Qed.

(** [decrementAndGet] returns the value before the decrement. *)
Lemma decrementAndGet_returns_old (v : Z) :
  decrementAndGet v = Ret v (wraps w (v - 1)).
Proof. done. Qed.
End Atomic.
End AtomicIntegerT.
Import AtomicIntegerT (run_calls, CIncrementAndGet, CAddAndGet, CDecrement, CGet, CGetAndAdd,
  CDecrementAndGet, atomic_history).

Lemma atomic_history_witness :
  run_calls 32 [CIncrementAndGet; CAddAndGet 5; CDecrement; CGet; CGetAndAdd 2] 0
  = Ret [1; 6; 5; 5] 7.
Proof.
  apply (atomic_history 32 [CIncrementAndGet; CAddAndGet 5; CDecrement; CGet; CGetAndAdd 2] 0).
  - reflexivity.
  - intros Hin. repeat (apply elem_of_cons in Hin as [Hin|Hin]; [discriminate|]).
    by apply not_elem_of_nil in Hin.
  - by_computation.
Defined.
