(* ===== verification/World.v ===== *)
(** * World

    The data of the reactor: the operating-system interface as a class of
    system calls, the objects of the classes under [reactor/] as records in a
    store addressed by pointers, the closures they exchange as data, and the
    accessors the methods are written with. *)
From S2P Require Import Prelude Buffer Timestamp.
Local Open Scope Z_scope.

(** ** The operating system *)

Record sockaddr_in := mkAddr { sin_family : Z; sin_port : Z; s_addr : Z }.
#[export] Instance sockaddr_in_eq_dec : EqDecision sockaddr_in.
Proof. solve_decision. Defined.

Inductive epoll_op := EPOLL_CTL_ADD | EPOLL_CTL_MOD | EPOLL_CTL_DEL.
#[export] Instance epoll_op_eq_dec : EqDecision epoll_op.
Proof. solve_decision. Defined.

(** The system calls of the sources, with the arguments they pass. *)
Inductive Syscall :=
  | SysEpollCreate
  | SysEventfd
  | SysTimerfdCreate
  | SysEpollWait (epfd maxevents timeoutMs : Z)
  | SysEpollCtl (epfd : Z) (op : epoll_op) (fd events : Z)
  | SysRead8 (fd : Z)
  | SysWrite8 (fd : Z)
  | SysWrite (fd : Z) (data : list char)
  | SysReadv (fd len0 len1 : Z)
  | SysGettimeofday
  | SysTimerfdSettime (fd tv_sec tv_nsec : Z)
  | SysSocket
  | SysConnect (fd : Z) (addr : sockaddr_in)
  | SysBind (fd : Z) (addr : sockaddr_in)
  | SysListen (fd : Z)
  | SysAccept4 (fd : Z)
  | SysClose (fd : Z)
  | SysShutdownWr (fd : Z)
  | SysGetSocketError (fd : Z)
  | SysGetsockname (fd : Z)
  | SysGetpeername (fd : Z)
  | SysSetsockopt (fd opt val : Z)
  | SysSocketpair
  | SysSend (fd : Z) (data : list char)
  | SysRecv (fd len : Z)
  | SysSetrlimit (rlim : Z).              (* RLIMIT_NOFILE *)

(** What a call stores through its pointer arguments. *)
Inductive SysOut :=
  | NoOut
  | OutEvents (evs : list (Z * Z))        (* data.fd, events *)
  | OutBytes (bytes : list char)
  | OutTime (tv_sec tv_usec : Z)
  | OutInt (v : Z)
  | OutAddr (addr : sockaddr_in)
  | OutPair (fd0 fd1 : Z).

Record SysRes := mkRes { rv : Z; errno : Z; out : SysOut }.

Class Kernel (K : Type) := syscall : Syscall → K → SysRes * K.

(** ** Closures *)

(** The callbacks installed in channels: the [boost::bind] expressions of the
    sources, and code of the user of the library. *)
Inductive Callback :=
  | CbLoopRead (loop : nat)
  | CbTimerRead (loop : nat)
  | CbAcceptorRead (acceptor : nat)
  | CbConnRead (conn : nat)
  | CbConnWrite (conn : nat)
  | CbConnClose (conn : nat)
  | CbConnError (conn : nat)
  | CbConnectorWrite (connector : nat)
  | CbConnectorError (connector : nat)
  | CbUser (code : nat).

(** [closeCallback_] of a connection. *)
Inductive CloseCallBack :=
  | CloseServer (server : nat)
  | CloseClient (client : nat)
  | CloseDetail (loop : nat).

(** The [boost::function<void ()>] values that are queued or put in timers. *)
Inductive Functor :=
  | FAddTimerInLoop (loop : nat) (timer : nat)
  | FSendInLoop (conn : nat) (message : list char)
  | FShutdownInLoop (conn : nat)
  | FConnectDestoryed (conn : nat)
  | FWriteComplete (code : nat) (conn : nat)
  | FSetCloseCallBack (conn : nat) (cb : CloseCallBack)
  | FRemoveConnectionInLoop (server : nat) (conn : nat)
  | FListen (acceptor : nat)
  | FStartInLoop (connector : nat)
  | FResetChannel (connector : nat)
  | FRemoveConnector (connector : nat)
  | FUser (code : nat).

(** ** Objects *)

Record Channel := mkChannel {
  ch_loop : nat;
  ch_fd : Z;
  enableet_ : bool;
  registeredInEpoller_ : bool;
  eventHandling_ : bool;
  events_ : Z;
  revents_ : Z;
  readCallback_ : option Callback;
  writeCallback_ : option Callback;
  errorCallback_ : option Callback;
  closeCallback_ : option Callback;
}.
#[export] Instance eta_Channel : Eta Channel := λ c,
  mkChannel (ch_loop c) (ch_fd c) (enableet_ c) (registeredInEpoller_ c) (eventHandling_ c)
    (events_ c) (revents_ c) (readCallback_ c) (writeCallback_ c) (errorCallback_ c)
    (closeCallback_ c).

Record Epoller := mkEpoller {
  epfd_ : Z;
  channels_ : gmap Z nat;
  nevents_ : Z;             (* events_.size() *)
}.
#[export] Instance eta_Epoller : Eta Epoller := λ e,
  mkEpoller (epfd_ e) (channels_ e) (nevents_ e).

Record Timer := mkTimer {
  interval_ : double;
  repeat_ : bool;
  expiration_ : Timestamp;
  callback_ : Functor;
  sequence_ : Z;
}.
#[export] Instance eta_Timer : Eta Timer := λ t,
  mkTimer (interval_ t) (repeat_ t) (expiration_ t) (callback_ t) (sequence_ t).

(** [std::pair<Timestamp, Timer *>]; the set is its sorted sequence. *)
Definition Entry : Type := Timestamp * nat.

Record TimerQueue := mkTimerQueue {
  timerfd_ : Z;
  timerfdchannel_ : nat;
  timerlist_ : list Entry;
}.
#[export] Instance eta_TimerQueue : Eta TimerQueue := λ q,
  mkTimerQueue (timerfd_ q) (timerfdchannel_ q) (timerlist_ q).

Record EventLoop := mkEventLoop {
  looping_ : bool;
  quit_ : bool;
  callingdoPendingFunctions_ : bool;
  wakeupfd_ : Z;
  threadId_ : Z;
  epollReturnTime_ : Timestamp;
  epoller_ : Epoller;
  timerqueue_ : TimerQueue;
  wakeupchannel_ : nat;
  channellist_ : list nat;
  pendingFunctors_ : list Functor;
}.
#[export] Instance eta_EventLoop : Eta EventLoop := λ l,
  mkEventLoop (looping_ l) (quit_ l) (callingdoPendingFunctions_ l) (wakeupfd_ l) (threadId_ l)
    (epollReturnTime_ l) (epoller_ l) (timerqueue_ l) (wakeupchannel_ l) (channellist_ l)
    (pendingFunctors_ l).

Inductive stateE := kConnecting | kConnected | kDisconnecting | kDisConnected.
#[export] Instance stateE_eq_dec : EqDecision stateE.
Proof. solve_decision. Defined.

Record TcpConnection := mkConn {
  c_loop : nat;
  c_state : stateE;
  c_name : string;
  c_fd : Z;                  (* the descriptor of socket_ *)
  c_channel : nat;
  localAddr_ : sockaddr_in;
  peerAddr_ : option sockaddr_in;   (* None: never initialised *)
  connectionCallback_ : option nat;
  messageCallback_ : option nat;
  writeCompleteCallback_ : option nat;
  c_closeCallback : option CloseCallBack;
  inputBuffer_ : Buffer;
  outputBuffer_ : Buffer;
}.
#[export] Instance eta_TcpConnection : Eta TcpConnection := λ c,
  mkConn (c_loop c) (c_state c) (c_name c) (c_fd c) (c_channel c) (localAddr_ c) (peerAddr_ c)
    (connectionCallback_ c) (messageCallback_ c) (writeCompleteCallback_ c) (c_closeCallback c)
    (inputBuffer_ c) (outputBuffer_ c).

Inductive States := kDisconnected_ | kConnecting_ | kConnected_.
#[export] Instance States_eq_dec : EqDecision States.
Proof. solve_decision. Defined.

(** The callback of a connector or acceptor: a client, a server, or the user. *)
Inductive NewConnectionCallBack := NewConnServer (server : nat) | NewConnClient (client : nat)
  | NewConnUser (code : nat).

Record Connector := mkConnector {
  k_loop : nat;
  serverAddr_ : sockaddr_in;
  k_connect : bool;
  k_state : States;
  k_channel : option nat;
  k_newConnection : option NewConnectionCallBack;
  retryDelayMs_ : Z;
}.
#[export] Instance eta_Connector : Eta Connector := λ k,
  mkConnector (k_loop k) (serverAddr_ k) (k_connect k) (k_state k) (k_channel k)
    (k_newConnection k) (retryDelayMs_ k).

Record Acceptor := mkAcceptor {
  a_loop : nat;
  a_fd : Z;                  (* the descriptor of acceptSocket_ *)
  acceptChannel_ : nat;
  newConnectionCallback_ : option NewConnectionCallBack;
  listenning_ : bool;
}.
#[export] Instance eta_Acceptor : Eta Acceptor := λ a,
  mkAcceptor (a_loop a) (a_fd a) (acceptChannel_ a) (newConnectionCallback_ a) (listenning_ a).

Record EventLoopThreadPool := mkPool {
  baseLoop_ : nat;
  p_started : bool;
  numThreads_ : Z;
  next_ : Z;
  loops_ : list nat;
}.
#[export] Instance eta_EventLoopThreadPool : Eta EventLoopThreadPool := λ p,
  mkPool (baseLoop_ p) (p_started p) (numThreads_ p) (next_ p) (loops_ p).

Record TcpServer := mkServer {
  s_loop : nat;
  s_started : bool;
  nextConnfd_ : Z;
  s_name : string;
  acceptor_ : nat;
  threadPool_ : EventLoopThreadPool;
  s_connectionCallback : option nat;
  s_messageCallback : option nat;
  connections_ : gmap string nat;
}.
#[export] Instance eta_TcpServer : Eta TcpServer := λ s,
  mkServer (s_loop s) (s_started s) (nextConnfd_ s) (s_name s) (acceptor_ s) (threadPool_ s)
    (s_connectionCallback s) (s_messageCallback s) (connections_ s).

Record TcpClient := mkClient {
  cl_loop : nat;
  connector_ : nat;
  cl_connectionCallback : option nat;
  cl_messageCallback : option nat;
  cl_writeCompleteCallback : option nat;
  cl_retry : bool;
  cl_connect : bool;
  nextConnId_ : Z;
  connection_ : option nat;
}.
#[export] Instance eta_TcpClient : Eta TcpClient := λ c,
  mkClient (cl_loop c) (connector_ c) (cl_connectionCallback c) (cl_messageCallback c)
    (cl_writeCompleteCallback c) (cl_retry c) (cl_connect c) (nextConnId_ c) (connection_ c).

(** ** The store *)

(** [K] is the state of the operating system, [U] the state of the code that
    uses the library. [trace] lists the system calls made, oldest first; [cur]
    is the kernel id of the calling thread. *)
Record World (K U : Type) := mkWorld {
  kern : K;
  trace : list (Syscall * SysRes);
  cur : Z;
  thisThreadLoop : gmap Z nat;        (* t_thisThreadEventLoop, per thread *)
  numCreated : Z;                     (* Timer::s_numCreated_ *)
  next_id : nat;                      (* the allocator *)
  chans : gmap nat Channel;
  loops : gmap nat EventLoop;
  timers : gmap nat Timer;
  conns : gmap nat TcpConnection;
  connectors : gmap nat Connector;
  acceptors : gmap nat Acceptor;
  servers : gmap nat TcpServer;
  clients : gmap nat TcpClient;
  user : U;
}.
Arguments mkWorld {K U}.
Arguments kern {K U}. Arguments trace {K U}. Arguments cur {K U}.
Arguments thisThreadLoop {K U}. Arguments numCreated {K U}. Arguments next_id {K U}.
Arguments chans {K U}. Arguments loops {K U}. Arguments timers {K U}. Arguments conns {K U}.
Arguments connectors {K U}. Arguments acceptors {K U}. Arguments servers {K U}.
Arguments clients {K U}. Arguments user {K U}.
#[export] Instance eta_World {K U} : Eta (World K U) := λ w,
  mkWorld (kern w) (trace w) (cur w) (thisThreadLoop w) (numCreated w) (next_id w) (chans w)
    (loops w) (timers w) (conns w) (connectors w) (acceptors w) (servers w) (clients w) (user w).

(** The code of the user of the library, one function per kind of callback, and
    the connections that its objects hold a [TcpConnectionPtr] to. *)
Class UserCode (K U : Type) := {
  u_holds : U → list nat;
  u_functor : nat → M (World K U) unit;
  u_channel : nat → Timestamp → M (World K U) unit;
  u_connection : nat → nat → M (World K U) unit;
  u_message : nat → nat → Timestamp → M (World K U) unit;
  u_writeComplete : nat → nat → M (World K U) unit;
  u_newConnection : nat → Z → sockaddr_in → M (World K U) unit;
}.

Section Accessors.
Context {K U : Type} `{Kernel K}.
Abbreviation W := (World K U).

Definition sys (c : Syscall) : M W SysRes := λ w,
  let '(r, k) := syscall c (kern w) in
  Ret r (w <| kern := k |> <| trace ::= λ t, t ++ [(c, r)] |>).

(** [new]: a fresh address. *)
Definition alloc : M W nat :=
  w ← get;
  put (w <| next_id := S (next_id w) |>);;
  mret (next_id w).

(** Dereference: a dangling pointer is undefined behaviour. *)
Definition deref {T} (what : string) (store : W → gmap nat T) (p : nat) : M W T :=
  w ← get; of_option what (store w !! p).

Definition get_chan (c : nat) : M W Channel := deref "Channel" chans c.
Definition get_loop (l : nat) : M W EventLoop := deref "EventLoop" loops l.
Definition get_timer (t : nat) : M W Timer := deref "Timer" timers t.
Definition get_conn (c : nat) : M W TcpConnection := deref "TcpConnection" conns c.
Definition get_connector (k : nat) : M W Connector := deref "Connector" connectors k.
Definition get_acceptor (a : nat) : M W Acceptor := deref "Acceptor" acceptors a.
Definition get_server (s : nat) : M W TcpServer := deref "TcpServer" servers s.
Definition get_client (c : nat) : M W TcpClient := deref "TcpClient" clients c.

Definition upd_chan (c : nat) (f : Channel → Channel) : M W unit :=
  modify (λ w, w <| chans ::= alter f c |>).
Definition upd_loop (l : nat) (f : EventLoop → EventLoop) : M W unit :=
  modify (λ w, w <| loops ::= alter f l |>).
Definition upd_timer (t : nat) (f : Timer → Timer) : M W unit :=
  modify (λ w, w <| timers ::= alter f t |>).
Definition upd_conn (c : nat) (f : TcpConnection → TcpConnection) : M W unit :=
  modify (λ w, w <| conns ::= alter f c |>).
Definition upd_connector (k : nat) (f : Connector → Connector) : M W unit :=
  modify (λ w, w <| connectors ::= alter f k |>).
Definition upd_acceptor (a : nat) (f : Acceptor → Acceptor) : M W unit :=
  modify (λ w, w <| acceptors ::= alter f a |>).
Definition upd_server (s : nat) (f : TcpServer → TcpServer) : M W unit :=
  modify (λ w, w <| servers ::= alter f s |>).
Definition upd_client (c : nat) (f : TcpClient → TcpClient) : M W unit :=
  modify (λ w, w <| clients ::= alter f c |>).

(** [Timestamp::now()]. *)
Definition now : M W Timestamp :=
  r ← sys SysGettimeofday;
  match out r with
  | OutTime tv_sec tv_usec => mret (now_of tv_sec tv_usec)
  | _ => fails (Undefined "timeval not initialised")
  end.

(** [EventLoop::isInLoopThread] and [EventLoop::assertInLoopThread], which
    logs at level FATAL (and so aborts) from any other thread. *)
Definition isInLoopThread (l : nat) : M W bool :=
  loop ← get_loop l;
  w ← get;
  mret (threadId_ loop =? cur w).

Definition abortNotInLoopThread : M W unit :=
  fails (LogFatal "EventLoop::abortNotInLoopThread").

Definition assertInLoopThread (l : nat) : M W unit :=
  b ← isInLoopThread l;
  whenM (negb b) abortNotInLoopThread.

(** *** Rules for the accessors *)

Lemma wp_deref {T} what (store : W → gmap nat T) p x (Q : T → W → Prop) w :
  store w !! p = Some x → Q x w → wp (deref what store p) Q w.
Proof. intros Hx HQ. unfold deref. wp_step. by eapply wp_of_option. Qed.

Lemma wp_sys c (Q : SysRes → W → Prop) w :
  (∀ r k, syscall c (kern w) = (r, k) →
          Q r (w <| kern := k |> <| trace ::= λ t, t ++ [(c, r)] |>)) →
  wp (sys c) Q w.
Proof. intros HQ. unfold wp, sys. destruct (syscall c (kern w)) eqn:E. by apply HQ. Qed.

Lemma wp_isInLoopThread l loop (Q : bool → W → Prop) w :
  loops w !! l = Some loop → Q (threadId_ loop =? cur w) w → wp (isInLoopThread l) Q w.
Proof. intros Hl HQ. unfold isInLoopThread, get_loop. wp_step. eapply wp_deref; [done|]. by wp_step. Qed.

Lemma wp_assertInLoopThread l loop (Q : unit → W → Prop) w :
  loops w !! l = Some loop → threadId_ loop = cur w → Q tt w → wp (assertInLoopThread l) Q w.
Proof.
  intros Hl Ht HQ. unfold assertInLoopThread. wp_step.
  eapply wp_isInLoopThread; [done|]. rewrite Ht, Z.eqb_refl. by wp_step.
Qed.

Lemma deref_run {T} what (store : W → gmap nat T) p x (w : W) :
  store w !! p = Some x → deref what store p w = Ret x w.
Proof. intros Hx. unfold deref, mbind, M_bind, get, of_option. by rewrite Hx. Qed.

Lemma assertInLoopThread_run l loop (w : W) :
  loops w !! l = Some loop → threadId_ loop = cur w → assertInLoopThread l w = Ret tt w.
Proof.
  intros Hl Ht. unfold assertInLoopThread, isInLoopThread, get_loop, mbind, M_bind.
  rewrite (deref_run _ _ _ _ _ Hl). cbn. by rewrite Ht, Z.eqb_refl.
Qed.

(** Called from a thread that does not own the loop, the process aborts. *)
Lemma assertInLoopThread_foreign l loop (w : W) :
  loops w !! l = Some loop → threadId_ loop ≠ cur w →
  assertInLoopThread l w = Crash (LogFatal "EventLoop::abortNotInLoopThread").
Proof.
  intros Hl Ht. unfold assertInLoopThread, isInLoopThread, get_loop, deref, mbind, M_bind, get, of_option.
  rewrite Hl. cbn. by rewrite (proj2 (Z.eqb_neq _ _) Ht).
Qed.
End Accessors.

(** ** A scripted operating system

    A concrete kernel for evaluating the model: it answers with the scripted
    results in order, and with success afterwards. *)
#[export] Instance script_kernel : Kernel (list SysRes) := λ _ script,
  match script with
  | r :: script' => (r, script')
  | [] => (mkRes 0 0 NoOut, [])
  end.

Definition res_ok (v : Z) : SysRes := mkRes v 0 NoOut.
Definition res_err (e : Z) : SysRes := mkRes (-1) e NoOut.

Definition empty_world {U} (script : list SysRes) (tid : Z) (u : U) : World (list SysRes) U :=
  mkWorld script [] tid ∅ 0 0 ∅ ∅ ∅ ∅ ∅ ∅ ∅ ∅ u.

(** User code that does nothing. *)
Definition idle_code {K U} : UserCode K U := {|
  u_holds _ := [];
  u_functor _ := mret tt;
  u_channel _ _ := mret tt;
  u_connection _ _ := mret tt;
  u_message _ _ _ := mret tt;
  u_writeComplete _ _ := mret tt;
  u_newConnection _ _ _ := mret tt;
|}.
