(* ===== verification/Channel.v ===== *)
(** * Channel

    [reactor/Epoller.cc], the channel registration of [reactor/EventLoop.cc]
    and [reactor/Channel.cc]: registering interest in a descriptor with epoll
    and dispatching the events that epoll reports. *)
From S2P Require Import Prelude Buffer Timestamp World.
Local Open Scope Z_scope.

(** ** Event masks ([sys/epoll.h]) *)

Definition EPOLLIN : Z := 1.
Definition EPOLLPRI : Z := 2.
Definition EPOLLOUT : Z := 4.
Definition EPOLLERR : Z := 8.
Definition EPOLLHUP : Z := 16.
Definition EPOLLRDHUP : Z := 8192.
Definition EPOLLET : Z := 2 ^ 31.

Definition kNoneEvent : Z := 0.
Definition kReadEvent : Z := Z.lor EPOLLIN (Z.lor EPOLLPRI EPOLLRDHUP).
Definition kWriteEvent : Z := EPOLLOUT.

(** A mask used as a condition. *)
Definition has (e mask : Z) : bool := negb (Z.land e mask =? 0).

Definition kInitEventListSize : Z := 16.

Section Registration.
Context {K U : Type} `{Kernel K}.
Abbreviation W := (World K U).

Definition upd_epoller (l : nat) (f : Epoller → Epoller) : M W unit :=
  upd_loop l (λ x, x <| epoller_ ::= f |>).

Definition setregisteredInEpoller (c : nat) (newValue : bool) : M W unit :=
  upd_chan c (λ x, x <| registeredInEpoller_ := newValue |>).
Definition setrevents (c : nat) (event : Z) : M W unit :=
  upd_chan c (λ x, x <| revents_ := event |>).
Definition isNoneEvent (ch : Channel) : bool := events_ ch =? kNoneEvent.

(** *** Epoller *)

Definition Epoller_ctor : M W Epoller :=
  r ← sys SysEpollCreate;
  mret {| epfd_ := rv r; channels_ := ∅; nevents_ := kInitEventListSize |}.

(** [fillActiveChannels]: [evs] is what [epoll_wait] stored in [events_]. *)
Definition fillActiveChannels (l : nat) (fdNum : Z) (evs : list (Z * Z)) : M W unit :=
  loop ← get_loop l;
  assert_ "fdNum <= events_.size()" (fdNum <=? nevents_ (epoller_ loop));;
  if zlen evs <? fdNum then fails (Undefined "events_ not filled in")
  else
    iterM (λ ev : Z * Z,
      let '(fd, events) := ev in
      loop ← get_loop l;
      match channels_ (epoller_ loop) !! fd with
      | None => fails (AssertFailed "ch != channels_.end()")
      | Some channel =>
          setrevents channel events;;
          upd_loop l (λ x, x <| channellist_ ::= λ cs, cs ++ [channel] |>)
      end) (take (Z.to_nat fdNum) evs).

Definition epoll (l : nat) (timeoutMs : Z) : M W Timestamp :=
  assertInLoopThread l;;
  loop ← get_loop l;
  r ← sys (SysEpollWait (epfd_ (epoller_ loop)) (wraps 32 (nevents_ (epoller_ loop))) timeoutMs);
  t ← now;
  (if 0 <? rv r then
     fillActiveChannels l (rv r) (match out r with OutEvents evs => evs | _ => [] end);;
     whenM (rv r =? nevents_ (epoller_ loop))
       (upd_epoller l (λ e, e <| nevents_ := nevents_ (epoller_ loop) * 2 |>))
   else mret tt);;
  mret t.

Definition epollAdd (l c : nat) : M W unit :=
  channel ← get_chan c;
  if 0 <? events_ channel then
    loop ← get_loop l;
    assert_ "channels_.find(channel->fd()) == channels_.end()"
      (bool_decide (channels_ (epoller_ loop) !! ch_fd channel = None));;
    r ← sys (SysEpollCtl (epfd_ (epoller_ loop)) EPOLL_CTL_ADD (ch_fd channel) (events_ channel));
    if rv r =? 0 then
      upd_epoller l (λ e, e <| channels_ ::= <[ch_fd channel := c]> |>);;
      setregisteredInEpoller c true
    else mret tt
  else mret tt.

Definition epollMod (l c : nat) : M W unit :=
  channel ← get_chan c;
  loop ← get_loop l;
  assert_ "channels_[channel->fd()] == channel"
    (bool_decide (channels_ (epoller_ loop) !! ch_fd channel = Some c));;
  r ← sys (SysEpollCtl (epfd_ (epoller_ loop)) EPOLL_CTL_MOD (ch_fd channel) (events_ channel));
  mret tt.

Definition epollDel (l c : nat) : M W unit :=
  channel ← get_chan c;
  loop ← get_loop l;
  assert_ "channels_[channel->fd()] == channel"
    (bool_decide (channels_ (epoller_ loop) !! ch_fd channel = Some c));;
  assert_ "channel->isNoneEvent()" (isNoneEvent channel);;
  assert_ "channel->registeredInEpoller()" (registeredInEpoller_ channel);;
  r ← sys (SysEpollCtl (epfd_ (epoller_ loop)) EPOLL_CTL_DEL (ch_fd channel) (events_ channel));
  if rv r =? 0 then
    upd_epoller l (λ e, e <| channels_ ::= delete (ch_fd channel) |>);;
    setregisteredInEpoller c false
  else mret tt.

Definition updateChannelMap (l c : nat) : M W unit :=
  assertInLoopThread l;;
  channel ← get_chan c;
  if negb (registeredInEpoller_ channel) then epollAdd l c else epollMod l c.

Definition removeChannelMap (l c : nat) : M W unit :=
  assertInLoopThread l;;
  epollDel l c.

(** *** EventLoop::updateChannel, EventLoop::removeChannel *)

Definition updateChannel (l c : nat) : M W unit :=
  channel ← get_chan c;
  assert_ "channel->ownerEventLoop() == this" (bool_decide (ch_loop channel = l));;
  assertInLoopThread l;;
  updateChannelMap l c.

Definition removeChannel (l c : nat) : M W unit :=
  channel ← get_chan c;
  assert_ "channel->ownerEventLoop() == this" (bool_decide (ch_loop channel = l));;
  assertInLoopThread l;;
  removeChannelMap l c.

(** *** Channel *)

Definition Channel_ctor (loop : nat) (fd : Z) (enable_et : bool) : M W nat :=
  c ← alloc;
  modify (λ w, w <| chans ::= <[c := {|
    ch_loop := loop; ch_fd := fd; enableet_ := enable_et;
    registeredInEpoller_ := false; eventHandling_ := false;
    events_ := 0; revents_ := 0;
    readCallback_ := None; writeCallback_ := None;
    errorCallback_ := None; closeCallback_ := None |}]> |>);;
  mret c.

Definition setreadCallback (c : nat) (cb : Callback) : M W unit :=
  upd_chan c (λ x, x <| readCallback_ := Some cb |>).
Definition setwriteCallback (c : nat) (cb : Callback) : M W unit :=
  upd_chan c (λ x, x <| writeCallback_ := Some cb |>).
Definition seterrorCallback (c : nat) (cb : Callback) : M W unit :=
  upd_chan c (λ x, x <| errorCallback_ := Some cb |>).
Definition setcloseCallback (c : nat) (cb : Callback) : M W unit :=
  upd_chan c (λ x, x <| closeCallback_ := Some cb |>).

Definition update (c : nat) : M W unit :=
  channel ← get_chan c;
  updateChannel (ch_loop channel) c.

Definition enableReading (c : nat) : M W unit :=
  upd_chan c (λ x, x <| events_ ::= λ e, Z.lor e kReadEvent |>);;
  channel ← get_chan c;
  whenM (enableet_ channel) (upd_chan c (λ x, x <| events_ ::= λ e, Z.lor e EPOLLET |>));;
  update c.

Definition enableWriting (c : nat) : M W unit :=
  upd_chan c (λ x, x <| events_ ::= λ e, Z.lor e kWriteEvent |>);;
  update c.

Definition isWriting (ch : Channel) : bool := has (events_ ch) kWriteEvent.

Definition disableWriting (c : nat) : M W unit :=
  upd_chan c (λ x, x <| events_ ::= λ e, Z.land e (wrapu 32 (Z.lnot kWriteEvent)) |>);;
  update c.

Definition disableAll (c : nat) : M W unit :=
  upd_chan c (λ x, x <| events_ := kNoneEvent |>);;
  update c.

(** [handleEvent]: [run] calls a callback. [revents_] is read again before
    each test, as the code does; an empty callback is skipped. *)
Definition run_opt (run : Callback → M W unit) (cb : option Callback) : M W unit :=
  match cb with Some f => run f | None => mret tt end.

Definition handleEvent (run : Timestamp → Callback → M W unit)
    (receiveTime : Timestamp) (c : nat) : M W unit :=
  upd_chan c (λ x, x <| eventHandling_ := true |>);;
  ch ← get_chan c;
  whenM (has (revents_ ch) EPOLLRDHUP && negb (has (revents_ ch) EPOLLIN))
    (run_opt (run receiveTime) (closeCallback_ ch));;
  ch ← get_chan c;
  whenM (has (revents_ ch) EPOLLERR)
    (run_opt (run receiveTime) (errorCallback_ ch));;
  ch ← get_chan c;
  whenM (has (revents_ ch) (Z.lor EPOLLIN (Z.lor EPOLLPRI EPOLLRDHUP)))
    (run_opt (run receiveTime) (readCallback_ ch));;
  ch ← get_chan c;
  whenM (has (revents_ ch) EPOLLOUT)
    (run_opt (run receiveTime) (writeCallback_ ch));;
  upd_chan c (λ x, x <| eventHandling_ := false |>).

Definition Channel_dtor (c : nat) : M W unit :=
  ch ← get_chan c;
  assert_ "!eventHandling_" (negb (eventHandling_ ch));;
  modify (λ w, w <| chans ::= delete c |>).
End Registration.

(** ** The kernel's interest list *)

(** What a system call does to the interest list of [epfd]: the documented
    effect of a successful [epoll_ctl], and of closing a descriptor. *)
Definition interest_step (epfd : Z) (i : gmap Z Z) (ev : Syscall * SysRes) : gmap Z Z :=
  let '(c, r) := ev in
  if negb (rv r =? 0) then i else
  match c with
  | SysEpollCtl e EPOLL_CTL_ADD fd events => if e =? epfd then <[fd := events]> i else i
  | SysEpollCtl e EPOLL_CTL_MOD fd events => if e =? epfd then <[fd := events]> i else i
  | SysEpollCtl e EPOLL_CTL_DEL fd _ => if e =? epfd then delete fd i else i
  | SysClose fd => delete fd i
  | _ => i
  end.

Definition interest (epfd : Z) (t : list (Syscall * SysRes)) : gmap Z Z :=
  foldl (interest_step epfd) ∅ t.

Lemma interest_snoc epfd t ev : interest epfd (t ++ [ev]) = interest_step epfd (interest epfd t) ev.
Proof. unfold interest. by rewrite foldl_app. Qed.

(** ** The registration invariant *)

Section RegistrationInv.
Context {K U : Type} `{Kernel K}.
Abbreviation W := (World K U).
Implicit Types (w : W) (l c : nat).

(** The map of loop [l] lists exactly the registered channels of the loop,
    each under its descriptor. *)
Definition map_ok (l : nat) (ep : Epoller) (cs : gmap nat Channel) : Prop :=
  ∀ fd c, channels_ ep !! fd = Some c ↔
    ∃ ch, cs !! c = Some ch ∧ ch_fd ch = fd ∧ ch_loop ch = l ∧ registeredInEpoller_ ch = true.

(** The kernel watches descriptor [fd] for the events of its channel. *)
Definition watch_ok (fd : Z) (ep : Epoller) (cs : gmap nat Channel)
    (t : list (Syscall * SysRes)) : Prop :=
  interest (epfd_ ep) t !! fd =
    (c ← channels_ ep !! fd; ch ← cs !! c; Some (events_ ch)).

(** The invariant of loop [l], except that the kernel may not know yet about
    a change of the mask of channel [c]. *)
Definition registration_except (c : nat) (l : nat) (w : W) : Prop :=
  ∃ loop, loops w !! l = Some loop ∧
    map_ok l (epoller_ loop) (chans w) ∧
    ∀ fd, channels_ (epoller_ loop) !! fd ≠ Some c →
          watch_ok fd (epoller_ loop) (chans w) (trace w).

Definition registration (l : nat) (w : W) : Prop :=
  ∃ loop, loops w !! l = Some loop ∧
    map_ok l (epoller_ loop) (chans w) ∧
    ∀ fd, watch_ok fd (epoller_ loop) (chans w) (trace w).

(** Every [epoll_ctl] the kernel was asked to do in loop [l] succeeded. *)
Definition ctl_ok (t : list (Syscall * SysRes)) : Prop :=
  Forall (λ '(c, r), match c with SysEpollCtl _ _ _ _ => rv r = 0 | _ => True end) t.

Lemma map_ok_alter l ep cs c f :
  (∀ ch, ch_fd (f ch) = ch_fd ch ∧ ch_loop (f ch) = ch_loop ch ∧
         registeredInEpoller_ (f ch) = registeredInEpoller_ ch) →
  map_ok l ep cs → map_ok l ep (alter f c cs).
Proof.
  intros Hf Hm fd c'. rewrite (Hm fd c'). rewrite lookup_alter. case_decide as E; [subst c'|done].
  split.
  - intros (ch&->&?&?&?). exists (f ch). destruct (Hf ch) as (->&->&->). done.
  - intros (ch'&Hl&Hp). destruct (cs !! c) as [ch|]; [|done]. simpl in Hl. simplify_eq.
    destruct (Hf ch) as (E1&E2&E3). rewrite E1, E2, E3 in Hp. eauto.
Qed.

Lemma watch_ok_alter fd ep cs c f t :
  (∀ ch, cs !! c = Some ch → channels_ ep !! fd = Some c → events_ (f ch) = events_ ch) →
  watch_ok fd ep cs t → watch_ok fd ep (alter f c cs) t.
Proof.
  intros Hf Hw. unfold watch_ok in *. rewrite Hw.
  destruct (channels_ ep !! fd) as [c'|] eqn:E; [|done]. simpl.
  rewrite lookup_alter. case_decide; [subst c'|done].
  destruct (cs !! c) as [ch|]; [|done]. simpl. by rewrite Hf.
Qed.

(** *** What registration leaves alone *)

Definition erase_reg (ch : Channel) : Channel := ch <| registeredInEpoller_ := false |>.
Definition erase_ep (loop : EventLoop) : EventLoop :=
  loop <| epoller_ ::= λ e, e <| channels_ := ∅ |> |>.
Definition is_ctl (ev : Syscall * SysRes) : Prop :=
  match ev.1 with SysEpollCtl _ _ _ _ => True | _ => False end.

Record poll_frame (w w' : W) : Prop := {
  pf_chans : erase_reg <$> chans w' = erase_reg <$> chans w;
  pf_loops : erase_ep <$> loops w' = erase_ep <$> loops w;
  pf_conns : conns w' = conns w;
  pf_connectors : connectors w' = connectors w;
  pf_acceptors : acceptors w' = acceptors w;
  pf_servers : servers w' = servers w;
  pf_clients : clients w' = clients w;
  pf_timers : timers w' = timers w;
  pf_user : user w' = user w;
  pf_cur : cur w' = cur w;
  pf_next : next_id w' = next_id w;
  pf_trace : ∃ evs, trace w' = trace w ++ evs ∧ Forall is_ctl evs;
}.

#[export] Instance poll_frame_preorder : PreOrder poll_frame.
Proof.
  split.
  - intros w. split; try done. exists []. by rewrite app_nil_r.
  - intros w1 w2 w3 [] []. split; try congruence.
    destruct pf_trace0 as (e1&E1&?), pf_trace1 as (e2&E2&?). exists (e1 ++ e2).
    by rewrite E2, E1, app_assoc, Forall_app.
Qed.

Lemma pf_chan w w' c ch :
  poll_frame w w' → chans w !! c = Some ch →
  ∃ b, chans w' !! c = Some (ch <| registeredInEpoller_ := b |>).
Proof.
  intros [E _ _ _ _ _ _ _ _ _ _ _] Hc. apply (f_equal (.!! c)) in E.
  rewrite !lookup_fmap, Hc in E. destruct (chans w' !! c) as [ch'|]; [|done].
  exists (registeredInEpoller_ ch'). destruct ch, ch'. simpl in E. simplify_eq. done.
Qed.

Lemma pf_loop w w' l loop :
  poll_frame w w' → loops w !! l = Some loop →
  ∃ cs, loops w' !! l = Some (loop <| epoller_ ::= λ e, e <| channels_ := cs |> |>).
Proof.
  intros [_ E _ _ _ _ _ _ _ _ _ _] Hc. apply (f_equal (.!! l)) in E.
  rewrite !lookup_fmap, Hc in E. destruct (loops w' !! l) as [loop'|]; [|done].
  exists (channels_ (epoller_ loop')). destruct loop as [?????? [] ????], loop' as [?????? [] ????].
  simpl in E. simplify_eq. done.
Qed.

Lemma fmap_alter_id {A B} (f : A → B) (g : A → A) (m : gmap nat A) i :
  (∀ x, f (g x) = f x) → f <$> alter g i m = f <$> m.
Proof.
  intros Hf. apply map_eq. intros j. rewrite !lookup_fmap, lookup_alter.
  case_decide; [|done]. subst. destruct (m !! j); simpl; [by rewrite Hf|done].
Qed.
Lemma has_bits e m1 m2 : 0 ≤ e → 0 ≤ m1 → has (Z.lor e m1) m2 = has e m2 || has m1 m2.
Proof.
  intros. unfold has. rewrite Z.land_lor_distr_l.
  destruct (Z.eqb_spec (Z.land e m2) 0) as [->|]; simpl; [done|].
  destruct (Z.eqb_spec (Z.lor (Z.land e m2) (Z.land m1 m2)) 0) as [E|]; [|done].
  apply Z.lor_eq_0_iff in E as [? _]. done.
Qed.

Definition mapped (l : nat) (w : W) : Prop :=
  ∃ loop, loops w !! l = Some loop ∧ map_ok l (epoller_ loop) (chans w).

(** What [epoll_ctl] calls establish: the invariant of the map in any case,
    and agreement with the kernel when the kernel accepted every request. *)
Definition registers (c l : nat) (w w' : W) : Prop :=
  poll_frame w w' ∧ mapped l w' ∧ registration_except c l w' ∧
  (∀ ch, chans w !! c = Some ch → registeredInEpoller_ ch = true →
         chans w' = chans w ∧ loops w' = loops w) ∧
  (ctl_ok (trace w') → registration l w' ∧
     ∀ ch, chans w !! c = Some ch → 0 < events_ ch →
           ∃ ch', chans w' !! c = Some ch' ∧ registeredInEpoller_ ch' = true).

Lemma registration_weaken c l w : registration l w → registration_except c l w.
Proof. intros (loop&?&?&?). exists loop. eauto. Qed.

Lemma ctl_ok_last t (sc : Syscall) r : ctl_ok (t ++ [(sc, r)]) →
  match sc with SysEpollCtl _ _ _ _ => rv r = 0 | _ => True end.
Proof. unfold ctl_ok. rewrite Forall_app, Forall_singleton. by intros [_ ?]. Qed.

Lemma watch_ok_ctl_other fd ep cs t op fd' ev r :
  fd' ≠ fd → watch_ok fd ep cs t →
  watch_ok fd ep cs (t ++ [(SysEpollCtl (epfd_ ep) op fd' ev, r)]).
Proof.
  intros Hne Hw. unfold watch_ok in *. rewrite interest_snoc. simpl.
  rewrite Z.eqb_refl. destruct (negb (rv r =? 0)); [done|].
  destruct op; simpl; rewrite ?lookup_insert_ne, ?lookup_delete_ne by done; done.
Qed.

Lemma watch_ok_sync fd ep cs t op ev r c ch :
  op ≠ EPOLL_CTL_DEL → rv r = 0 →
  channels_ ep !! fd = Some c → cs !! c = Some ch → events_ ch = ev →
  watch_ok fd ep cs (t ++ [(SysEpollCtl (epfd_ ep) op fd ev, r)]).
Proof.
  intros Hop Hr Hc Hch <-. unfold watch_ok. rewrite interest_snoc. simpl.
  rewrite Hr, Z.eqb_refl, Hc; simpl. rewrite Hch; simpl.
  destruct op; simpl; rewrite ?Z.eqb_refl; [by rewrite lookup_insert_eq..|done].
Qed.

Lemma epollMod_spec c ch l loop w :
  chans w !! c = Some ch → registeredInEpoller_ ch = true →
  ch_loop ch = l → loops w !! l = Some loop → registration_except c l w →
  wp (epollMod l c) (λ _ w', registers c l w w') w.
Proof.
  intros Hch Hreg Hown Hl (loop'&Hl'&Hmap&Hwatch). simplify_eq.
  assert (channels_ (epoller_ loop) !! ch_fd ch = Some c) as Hfd by (apply Hmap; eauto).
  unfold epollMod, get_chan, get_loop. wp_step. eapply wp_deref; [done|]. wp_step.
  eapply wp_deref; [done|]. wp_step. apply wp_assert; [by apply bool_decide_eq_true|].
  wp_step. apply wp_sys. intros r k _. wp_step. unfold registers. cbn [upd].
  split_and!.
  - split; try done. eexists. split; [done|]. by constructor.
  - by exists loop.
  - exists loop. split_and!; [done..|]. intros fd Hne. simpl.
    apply watch_ok_ctl_other; [congruence|by apply Hwatch].
  - done.
  - intros Hok%ctl_ok_last. split; [|intros ch' ? _; exists ch; simplify_eq; done].
    exists loop. split_and!; [done..|]. intros fd. simpl.
    destruct (decide (fd = ch_fd ch)) as [->|].
    + by eapply watch_ok_sync.
    + apply watch_ok_ctl_other; [done|]. apply Hwatch. intros E.
      apply Hmap in E as (ch'&?&?&?&?). congruence.
Qed.

Lemma map_ok_insert l ep cs c ch :
  cs !! c = Some ch → ch_loop ch = l → channels_ ep !! ch_fd ch = None →
  map_ok l ep cs →
  map_ok l (ep <| channels_ ::= <[ch_fd ch := c]> |>)
    (alter (λ x, x <| registeredInEpoller_ := true |>) c cs).
Proof.
  intros Hc Hl Hno Hm fd c'. cbn. rewrite lookup_insert, lookup_alter.
  case_decide as E1; case_decide as E2.
  - subst. split; [intros _|done]. rewrite Hc; simpl. eauto 10.
  - subst. split; [congruence|]. intros (ch'&Hch'&Efd&El&Er).
    assert (channels_ ep !! ch_fd ch = Some c') as E by (apply Hm; eauto). congruence.
  - subst c'. split.
    + intros E. apply Hm in E as (ch'&?&?&?&?). congruence.
    + rewrite Hc; simpl. intros (ch'&[= <-]&?&_). done.
  - apply Hm.
Qed.

(** The channel once the kernel has taken it. *)
Lemma registers_added c ch l loop k r w :
  chans w !! c = Some ch → registeredInEpoller_ ch = false → ch_loop ch = l → loops w !! l = Some loop →
  map_ok l (epoller_ loop) (chans w) →
  (∀ fd, channels_ (epoller_ loop) !! fd ≠ Some c → watch_ok fd (epoller_ loop) (chans w) (trace w)) →
  channels_ (epoller_ loop) !! ch_fd ch = None → (∀ fd, channels_ (epoller_ loop) !! fd ≠ Some c) →
  0 < events_ ch → rv r = 0 →
  registers c l w
    (w <| kern := k |>
       <| trace ::= λ t, t ++ [(SysEpollCtl (epfd_ (epoller_ loop)) EPOLL_CTL_ADD (ch_fd ch) (events_ ch), r)] |>
       <| loops ::= alter (λ x, x <| epoller_ ::= λ e, e <| channels_ ::= <[ch_fd ch := c]> |> |>) l |>
       <| chans ::= alter (λ x, x <| registeredInEpoller_ := true |>) c |>).
Proof.
  intros Hch Hreg <- Hl Hmap Hwatch Hfd Hnc Eev Hr.
  set (ep' := (epoller_ loop) <| channels_ ::= <[ch_fd ch := c]> |>).
  set (cs' := alter (λ x, x <| registeredInEpoller_ := true |>) c (chans w)).
  set (t' := trace w ++ [(SysEpollCtl (epfd_ (epoller_ loop)) EPOLL_CTL_ADD (ch_fd ch) (events_ ch), r)]).
  match goal with |- registers _ _ _ ?x => set (w' := x) end.
  assert (loops w' !! ch_loop ch = Some (loop <| epoller_ := ep' |>)) as Hl2.
  { unfold w'; cbn. by rewrite lookup_alter_eq, Hl. }
  assert (map_ok (ch_loop ch) ep' cs') as Hm' by by apply map_ok_insert.
  assert (∀ fd, watch_ok fd ep' cs' t') as Hw'.
  { intros fd. destruct (decide (fd = ch_fd ch)) as [->|].
    - eapply (watch_ok_sync _ ep' cs' _ _ _ _ c (ch <| registeredInEpoller_ := true |>)); try done.
      + unfold ep'; cbn. apply lookup_insert_eq.
      + unfold cs'. by rewrite lookup_alter_eq, Hch.
    - apply (watch_ok_ctl_other fd ep'); [done|]. apply watch_ok_alter; [done|].
      specialize (Hwatch fd (Hnc fd)). unfold watch_ok in *. unfold ep'; cbn.
      by rewrite lookup_insert_ne. }
  assert (registration (ch_loop ch) w') as HR by (eexists; eauto).
  split_and!; [|by eexists|by apply registration_weaken| |].
  2:{ intros ch' ? Hreg'. congruence. }
  2:{ intros _. split; [done|]. intros ch' _ _. exists (ch <| registeredInEpoller_ := true |>).
      split; [|done]. unfold w'; cbn. by rewrite lookup_alter_eq, Hch. }
  split; try done; unfold w'; cbn; [by apply fmap_alter_id..|]. eexists. split; [done|]. by constructor.
Qed.

Lemma epollAdd_spec c ch l loop w :
  chans w !! c = Some ch → registeredInEpoller_ ch = false →
  ch_loop ch = l → loops w !! l = Some loop →
  channels_ (epoller_ loop) !! ch_fd ch = None → registration_except c l w →
  wp (epollAdd l c) (λ _ w', registers c l w w') w.
Proof.
  intros Hch Hreg Hown Hl Hfd (loop'&Hl'&Hmap&Hwatch). simplify_eq.
  assert (∀ fd, channels_ (epoller_ loop) !! fd ≠ Some c) as Hnc.
  { intros fd E. apply Hmap in E as (?&?&?&?&?). congruence. }
  assert (registration (ch_loop ch) w) as Hreg0 by (exists loop; eauto).
  unfold epollAdd, get_chan, get_loop. wp_step. eapply wp_deref; [done|]. wp_step.
  destruct (0 <? events_ ch) eqn:Eev.
  2:{ split_and!; [done|by exists loop|by apply registration_weaken|done|].
      intros _. split; [done|]. intros ch' ? Hpos. apply Z.ltb_ge in Eev. simplify_eq. lia. }
  eapply wp_deref; [done|]. wp_step. apply wp_assert; [by apply bool_decide_eq_true|].
  wp_step. apply wp_sys. intros r k _. wp_step. destruct (Z.eqb_spec (rv r) 0) as [Hr|Hr].
  - unfold upd_epoller, upd_loop, setregisteredInEpoller, upd_chan. wp_step.
    apply registers_added; auto; by apply Z.ltb_lt.
  - unfold registers; cbn [upd]. split_and!.
    + split; try done. eexists. split; [done|]. by constructor.
    + by exists loop.
    + exists loop. split_and!; [done..|]. intros fd _. cbn. specialize (Hwatch fd (Hnc fd)).
      unfold watch_ok in *. rewrite interest_snoc. cbn.
      by rewrite (proj2 (Z.eqb_neq _ _) Hr).
    + done.
    + intros Hok%ctl_ok_last. done.
Qed.

Lemma updateChannelMap_spec c ch l loop w :
  chans w !! c = Some ch → ch_loop ch = l →
  loops w !! l = Some loop → threadId_ loop = cur w → registration_except c l w →
  (registeredInEpoller_ ch = false → channels_ (epoller_ loop) !! ch_fd ch = None) →
  wp (updateChannelMap l c) (λ _ w', registers c l w w') w.
Proof.
  intros. unfold updateChannelMap, get_chan. wp_step. eapply wp_assertInLoopThread; [done..|].
  wp_step. eapply wp_deref; [done|]. wp_step.
  destruct (registeredInEpoller_ ch) eqn:Er; simpl.
  - by eapply epollMod_spec.
  - eapply epollAdd_spec; eauto.
Qed.

Lemma update_spec c ch l loop w :
  chans w !! c = Some ch → ch_loop ch = l →
  loops w !! l = Some loop → threadId_ loop = cur w → registration_except c l w →
  (registeredInEpoller_ ch = false → channels_ (epoller_ loop) !! ch_fd ch = None) →
  wp (update c) (λ _ w', registers c l w w') w.
Proof.
  intros ? <- ????. unfold update, updateChannel, get_chan. wp_step. eapply wp_deref; [done|]. wp_step.
  eapply wp_deref; [done|]. wp_step. apply wp_assert; [by apply bool_decide_eq_true|]. wp_step.
  eapply wp_assertInLoopThread; [done..|]. by eapply updateChannelMap_spec.
Qed.

(** *** Changing the mask of a channel *)

Definition set_events (c : nat) (f : Z → Z) (w : W) : W :=
  w <| chans ::= alter (λ x, x <| events_ ::= f |>) c |>.

Lemma set_events_others c f w :
  conns (set_events c f w) = conns w ∧ servers (set_events c f w) = servers w ∧
  loops (set_events c f w) = loops w ∧ trace (set_events c f w) = trace w.
Proof. done. Qed.

Lemma registration_set_events c l f w :
  registration_except c l w → registration_except c l (set_events c f w).
Proof.
  intros (loop&?&Hm&Hw). exists loop. split_and!; [done| |].
  - by apply map_ok_alter.
  - intros fd Hfd. apply watch_ok_alter; [|by apply Hw]. done.
Qed.

Definition addressable (c : nat) (ch : Channel) (loop : EventLoop) : Prop :=
  registeredInEpoller_ ch = false → channels_ (epoller_ loop) !! ch_fd ch = None.

(** The calls that change the mask. *)
Inductive mask_op := EnableReading | EnableWriting | DisableWriting | DisableAll.

Definition run_mask_op (o : mask_op) (c : nat) : M W unit :=
  match o with
  | EnableReading => enableReading c
  | EnableWriting => enableWriting c
  | DisableWriting => disableWriting c
  | DisableAll => disableAll c
  end.

Definition mask_after (o : mask_op) (ch : Channel) : Z :=
  match o with
  | EnableReading =>
      let e := Z.lor (events_ ch) kReadEvent in
      if enableet_ ch then Z.lor e EPOLLET else e
  | EnableWriting => Z.lor (events_ ch) kWriteEvent
  | DisableWriting => Z.land (events_ ch) (wrapu 32 (Z.lnot kWriteEvent))
  | DisableAll => kNoneEvent
  end.

Lemma run_mask_op_spec o c ch loop w :
  chans w !! c = Some ch → loops w !! ch_loop ch = Some loop → threadId_ loop = cur w →
  registration_except c (ch_loop ch) w → addressable c ch loop →
  wp (run_mask_op o c)
     (λ _ w', registers c (ch_loop ch) (set_events c (λ _, mask_after o ch) w) w') w.
Proof.
  intros Hc Hl Ht HR Ha.
  set (w1 := set_events c (λ _, mask_after o ch) w).
  assert (wp (update c) (λ _ w', registers c (ch_loop ch) w1 w') w1) as Hup.
  { apply (update_spec c (ch <| events_ := mask_after o ch |>) _ loop); try done; cbn.
    - by rewrite lookup_alter_eq, Hc.
    - by apply registration_set_events. }
  assert (∀ f, (f ch = ch <| events_ := mask_after o ch |>) →
               w <| chans := alter f c (chans w) |> = w1) as Hf.
  { intros f Ef. unfold w1, set_events; cbn [upd]. f_equal. apply map_eq. intros j. rewrite !lookup_alter.
    case_decide; [subst|done]. rewrite Hc; simpl. by rewrite Ef. }
  clearbody w1. destruct o; cbn [run_mask_op];
    [|unfold enableWriting, disableWriting, disableAll, upd_chan; wp_step; cbn [upd];
      (match goal with |- context [alter ?f c (chans w)] => specialize (Hf f eq_refl) end; cbn [upd] in Hf; rewrite Hf; exact Hup)..].
  unfold enableReading, upd_chan, get_chan. wp_step.
  eapply wp_deref; [cbn; by rewrite lookup_alter_eq, Hc|]. wp_step. cbn [enableet_ upd].
  unfold mask_after in Hf. destruct (enableet_ ch) eqn:Eet; wp_step; cbn [upd chans kern trace cur thisThreadLoop
    numCreated next_id loops timers conns connectors acceptors servers clients user].
  - rewrite alter_alter. (match goal with |- context [alter ?f c (chans w)] => specialize (Hf f eq_refl) end; cbn [upd] in Hf; rewrite Hf; exact Hup).
  - (match goal with |- context [alter ?f c (chans w)] => specialize (Hf f eq_refl) end; cbn [upd] in Hf; rewrite Hf; exact Hup).
Qed.

(** A channel that was just created is not registered anywhere. *)
Lemma registration_new_chan l c ch w :
  chans w !! c = None → registeredInEpoller_ ch = false → registration l w →
  registration l (w <| chans ::= <[c := ch]> |>).
Proof.
  intros Hno Hreg (loop&Hl&Hm&Hw). exists loop. split_and!; [done| |].
  - intros fd c'. rewrite (Hm fd c'). cbn. destruct (decide (c = c')) as [<-|].
    + rewrite lookup_insert_eq, Hno. split; [by intros (?&?&_)|].
      intros (ch'&[= <-]&_&_&?). congruence.
    + by rewrite lookup_insert_ne.
  - intros fd. specialize (Hw fd). unfold watch_ok in *. cbn [trace chans upd]. rewrite Hw.
    destruct (channels_ (epoller_ loop) !! fd) as [c'|] eqn:E; [|done]. cbn.
    destruct (decide (c = c')) as [<-|]; [|by rewrite lookup_insert_ne].
    apply Hm in E as (?&?&_). congruence.
Qed.

(** *** Removing a channel *)

Lemma map_ok_delete l ep cs c ch :
  cs !! c = Some ch → channels_ ep !! ch_fd ch = Some c → map_ok l ep cs →
  map_ok l (ep <| channels_ ::= delete (ch_fd ch) |>)
    (alter (λ x, x <| registeredInEpoller_ := false |>) c cs).
Proof.
  intros Hc Hfd Hm fd c'. cbn. rewrite lookup_delete, lookup_alter.
  case_decide as E1; case_decide as E2.
  - subst. rewrite Hc; simpl. split; [done|]. intros (ch'&[= <-]&?&?&?). done.
  - subst. split; [done|]. intros (ch'&Hch'&Efd&El&Er).
    assert (channels_ ep !! ch_fd ch = Some c') by (apply Hm; eauto). congruence.
  - subst c'. split.
    + intros E. apply Hm in E as (ch'&?&?&?&?). congruence.
    + rewrite Hc; simpl. by intros (ch'&[= <-]&_&_&?).
  - apply Hm.
Qed.

Definition unregisters (c l : nat) (w w' : W) : Prop :=
  poll_frame w w' ∧ mapped l w' ∧ registration_except c l w' ∧
  (ctl_ok (trace w') → registration l w' ∧
     ∃ ch loop, chans w' !! c = Some ch ∧ registeredInEpoller_ ch = false ∧
       loops w' !! l = Some loop ∧ channels_ (epoller_ loop) !! ch_fd ch = None).

Lemma removeChannel_spec c ch l loop w :
  chans w !! c = Some ch → ch_loop ch = l →
  loops w !! l = Some loop → threadId_ loop = cur w → registration_except c l w →
  events_ ch = kNoneEvent → registeredInEpoller_ ch = true →
  wp (removeChannel l c) (λ _ w', unregisters c l w w') w.
Proof.
  intros Hch Hown Hl Ht (loop'&Hl'&Hmap&Hwatch) Hev Hreg. simplify_eq.
  assert (channels_ (epoller_ loop) !! ch_fd ch = Some c) as Hfd by (apply Hmap; eauto).
  unfold removeChannel, removeChannelMap, epollDel, get_chan, get_loop. wp_step.
  eapply wp_deref; [done|]. wp_step. apply wp_assert; [by apply bool_decide_eq_true|]. wp_step.
  eapply wp_assertInLoopThread; [done..|]. wp_step. eapply wp_assertInLoopThread; [done..|].
  wp_step. eapply wp_deref; [done|]. wp_step. eapply wp_deref; [done|]. wp_step.
  apply wp_assert; [by apply bool_decide_eq_true|]. wp_step.
  apply wp_assert; [unfold isNoneEvent; by rewrite Hev|]. wp_step. apply wp_assert; [done|].
  wp_step. apply wp_sys. intros r k _. wp_step. destruct (Z.eqb_spec (rv r) 0) as [Hr|Hr].
  - unfold upd_epoller, upd_loop, setregisteredInEpoller, upd_chan. wp_step.
    set (ep' := (epoller_ loop) <| channels_ ::= delete (ch_fd ch) |>).
    set (cs' := alter (λ x, x <| registeredInEpoller_ := false |>) c (chans w)).
    set (t' := trace w ++ [(SysEpollCtl (epfd_ (epoller_ loop)) EPOLL_CTL_DEL
                              (ch_fd ch) (events_ ch), r)]).
    match goal with |- unregisters _ _ _ ?x => set (w' := x) end.
    assert (loops w' !! ch_loop ch = Some (loop <| epoller_ := ep' |>)) as Hl2.
    { unfold w'; cbn. by rewrite lookup_alter_eq, Hl. }
    assert (map_ok (ch_loop ch) ep' cs') as Hm' by by apply map_ok_delete.
    assert (∀ fd, watch_ok fd ep' cs' t') as Hw'.
    { intros fd. destruct (decide (fd = ch_fd ch)) as [->|].
      - unfold watch_ok, t', ep'; cbn. rewrite interest_snoc; cbn.
        rewrite Hr; cbn. rewrite Z.eqb_refl. by rewrite !lookup_delete_eq.
      - apply (watch_ok_ctl_other fd ep'); [done|]. apply watch_ok_alter; [done|].
        assert (watch_ok fd (epoller_ loop) (chans w) (trace w)) as Hwf.
        { apply Hwatch. intros E. apply Hmap in E as (ch'&?&?&_). congruence. }
        unfold watch_ok in *. unfold ep'; cbn. by rewrite lookup_delete_ne. }
    assert (registration (ch_loop ch) w') as HR by (eexists; eauto).
    split_and!; [|by eexists|by apply registration_weaken|].
    + split; try done; unfold w'; cbn; [by apply fmap_alter_id..|].
      eexists. split; [done|]. by constructor.
    + intros _. split; [done|].
      exists (ch <| registeredInEpoller_ := false |>), (loop <| epoller_ := ep' |>).
      split_and!; [unfold w'; cbn; by rewrite lookup_alter_eq, Hch|done|done|].
      unfold ep'; cbn. apply lookup_delete_eq.
  - unfold unregisters; cbn [upd]. split_and!.
    + split; try done. eexists. split; [done|]. by constructor.
    + by exists loop.
    + exists loop. split_and!; [done..|]. intros fd Hne. cbn. specialize (Hwatch fd Hne).
      unfold watch_ok in *. rewrite interest_snoc. cbn. by rewrite (proj2 (Z.eqb_neq _ _) Hr).
    + intros Hok%ctl_ok_last. done.
Qed.

(** C7: the calls that change a channel's mask, made in the loop's thread on
    a channel whose descriptor no other registered channel uses, never fail
    an assertion, set the mask to the documented value, change nothing but
    registration state, and leave the poller's map listing exactly the
    registered channels; when the kernel accepted every [epoll_ctl], its
    interest list is exactly the masks of the listed channels, and a channel
    that asks for events is listed. *)
Theorem mask_ops_keep_registration (o : mask_op) (c : nat) (ch : Channel) (loop : EventLoop)
  (w : W)
  (Hc : chans w !! c = Some ch) (Hl : loops w !! ch_loop ch = Some loop)
  (Ht : threadId_ loop = cur w) (HR : registration (ch_loop ch) w)
  (Ha : addressable c ch loop) :
  ∃ w', run_mask_op o c w = Ret tt w' ∧
    poll_frame (set_events c (λ _, mask_after o ch) w) w' ∧
    mapped (ch_loop ch) w' ∧
    (ctl_ok (trace w') → registration (ch_loop ch) w' ∧
       (0 < mask_after o ch → ∃ ch', chans w' !! c = Some ch' ∧ registeredInEpoller_ ch' = true)).
Proof.
  assert (wp (run_mask_op o c) (λ _ w',
    registers c (ch_loop ch) (set_events c (λ _, mask_after o ch) w) w') w) as Hwp.
  { eapply run_mask_op_spec; eauto using registration_weaken. }
  apply wp_run in Hwp as ([]&w'&Hrun&?&?&_&_&Hctl). exists w'. split_and!; [done..|].
  intros Hok. destruct (Hctl Hok) as [? Hreg]. split; [done|]. intros Hpos.
  apply (Hreg (ch <| events_ := mask_after o ch |>)); [|done]. cbn. by rewrite lookup_alter_eq, Hc.
Qed.

(** [disableAll] followed by [removeChannel] on a registered channel
    takes it out of the poller: afterwards it is unregistered, the map lists
    exactly the registered channels and, when the kernel accepted every
    request, the interest list no longer has the descriptor. *)
Theorem disable_remove_unregisters (c : nat) (ch : Channel) (loop : EventLoop) (w : W)
  (Hc : chans w !! c = Some ch) (Hl : loops w !! ch_loop ch = Some loop)
  (Ht : threadId_ loop = cur w) (HR : registration (ch_loop ch) w)
  (Hreg : registeredInEpoller_ ch = true) :
  ∃ w', (disableAll c;; removeChannel (ch_loop ch) c) w = Ret tt w' ∧
    (ctl_ok (trace w') →
      registration (ch_loop ch) w' ∧
      interest (epfd_ (epoller_ loop)) (trace w') !! ch_fd ch = None).
Proof.
  cut (wp (disableAll c;; removeChannel (ch_loop ch) c) (λ _ w', ctl_ok (trace w') →
         registration (ch_loop ch) w' ∧
         interest (epfd_ (epoller_ loop)) (trace w') !! ch_fd ch = None) w).
  { intros Hwp. apply wp_run in Hwp as ([]&w'&?&?). eauto. }
  wp_step. eapply wp_mono.
  { apply (run_mask_op_spec DisableAll c ch loop w); eauto using registration_weaken.
    by intros ?; congruence. }
  intros [] w1 (Hf1&_&HR1&Hsame&_). cbv beta. cbn [mask_after] in *.
  set (ch1 := ch <| events_ := kNoneEvent |>).
  assert (chans (set_events c (λ _, kNoneEvent) w) !! c = Some ch1) as Hc1
    by (cbn; by rewrite lookup_alter_eq, Hc).
  destruct (Hsame _ Hc1 Hreg) as [Hch1 Hl1]. rewrite <- Hch1 in Hc1. cbn in Hl1.
  eapply wp_mono.
  { apply (removeChannel_spec c ch1 (ch_loop ch) loop w1); try done.
    - by rewrite Hl1.
    - by rewrite (pf_cur _ _ Hf1). }
  intros [] w2 (Hf2&_&_&Hok) Hctl.
  destruct (Hok Hctl) as [HR2 (ch2&loop2&Hc2&_&Hl2&Hfd)]. split; [done|].
  destruct HR2 as (?&?&_&Hw2). simplify_eq. rewrite <- Hl1 in Hl.
  destruct (pf_loop _ _ _ _ Hf2 Hl) as [cs Hl2'].
  destruct (pf_chan _ _ _ _ Hf2 Hc1) as [b Hc2']. simplify_eq.
  specialize (Hw2 (ch_fd ch)). unfold watch_ok in Hw2. cbn in *. by rewrite Hw2, Hfd.
Qed.
End RegistrationInv.

(** ** Dispatching events *)

Section Dispatch.
Context {K U : Type} `{Kernel K}.
Abbreviation W := (World K U).

Definition cb_list (b : bool) (cb : option Callback) : list Callback :=
  if b then match cb with Some f => [f] | None => [] end else [].

(** The callbacks [handleEvent] owes to a set of ready events. *)
Definition dispatch (ch : Channel) : list Callback :=
  cb_list (has (revents_ ch) EPOLLRDHUP && negb (has (revents_ ch) EPOLLIN)) (closeCallback_ ch)
  ++ cb_list (has (revents_ ch) EPOLLERR) (errorCallback_ ch)
  ++ cb_list (has (revents_ ch) (Z.lor EPOLLIN (Z.lor EPOLLPRI EPOLLRDHUP))) (readCallback_ ch)
  ++ cb_list (has (revents_ ch) EPOLLOUT) (writeCallback_ ch).

(** Callbacks that keep the handled events and the callbacks of channel [c]. *)
Definition keeps_dispatch (c : nat) (run : Callback → M W unit) : Prop :=
  ∀ cb w w' ch, chans w !! c = Some ch → run cb w = Ret tt w' →
    ∃ ch', chans w' !! c = Some ch' ∧ revents_ ch' = revents_ ch ∧
           readCallback_ ch' = readCallback_ ch ∧ writeCallback_ ch' = writeCallback_ ch ∧
           errorCallback_ ch' = errorCallback_ ch ∧ closeCallback_ ch' = closeCallback_ ch.

Definition same_dispatch (c : nat) (ch : Channel) (w : W) : Prop :=
  ∃ ch', chans w !! c = Some ch' ∧ revents_ ch' = revents_ ch ∧
         readCallback_ ch' = readCallback_ ch ∧ writeCallback_ ch' = writeCallback_ ch ∧
         errorCallback_ ch' = errorCallback_ ch ∧ closeCallback_ ch' = closeCallback_ ch.

(** One test of [handleEvent] is the corresponding segment of [dispatch]. *)
Lemma handle_segment (run : Callback → M W unit) c ch w
    (b : Channel → bool) (cb : Channel → option Callback) (m : M W unit) l :
  keeps_dispatch c run → same_dispatch c ch w →
  (∀ ch', revents_ ch' = revents_ ch → b ch' = b ch) →
  (∀ ch', readCallback_ ch' = readCallback_ ch → writeCallback_ ch' = writeCallback_ ch →
          errorCallback_ ch' = errorCallback_ ch → closeCallback_ ch' = closeCallback_ ch →
          cb ch' = cb ch) →
  (∀ w', same_dispatch c ch w' → m w' = (iterM run l;; upd_chan c (λ x, x <| eventHandling_ := false |>)) w') →
  (ch ← get_chan c; whenM (b ch) (run_opt run (cb ch));; m) w =
  (iterM run (cb_list (b ch) (cb ch) ++ l);; upd_chan c (λ x, x <| eventHandling_ := false |>)) w.
Proof.
  intros Hk (ch'&Hc&Hr&H1&H2&H3&H4) Hb Hcb Hm.
  unfold get_chan, deref, mbind, M_bind, get, of_option. rewrite Hc. cbn [mret M_ret].
  rewrite (Hb ch' Hr), (Hcb ch' H1 H2 H3 H4).
  assert (same_dispatch c ch w) as Hs by (exists ch'; done).
  unfold whenM, cb_list. destruct (b ch); [|by apply Hm].
  destruct (cb ch) as [f|]; [|by apply Hm]. simpl.
  unfold mbind, M_bind. destruct (run f w) as [[] w'|] eqn:E; [|done].
  destruct (Hk _ _ _ _ Hc E) as (ch''&?&?&?&?&?&?).
  rewrite Hm; [done|]. exists ch''. split_and!; congruence.
Qed.

(** C36: [handleEvent] calls exactly the callbacks that [dispatch] lists, in
    the order close, error, read, write, bracketed by the [eventHandling_]
    flag, whenever the callbacks leave the ready events and the callbacks of
    their channel alone. *)
Theorem handleEvent_dispatch (run : Timestamp → Callback → M W unit) (t : Timestamp)
  (c : nat) (ch : Channel) (w : W)
  (Hk : keeps_dispatch c (run t)) (Hc : chans w !! c = Some ch) :
  handleEvent run t c w =
  (upd_chan c (λ x, x <| eventHandling_ := true |>);;
   iterM (run t) (dispatch ch);;
   upd_chan c (λ x, x <| eventHandling_ := false |>)) w.
Proof.
  unfold handleEvent. set (w1 := w <| chans ::= alter (λ x, x <| eventHandling_ := true |>) c |>).
  change (?m ≫= ?k) with (m ≫= k).
  assert (same_dispatch c ch w1) as Hs1.
  { eexists. split; [unfold w1; cbn; by rewrite lookup_alter_eq, Hc|]. done. }
  assert (∀ m1 m2 : M W unit, m1 w1 = m2 w1 →
    (upd_chan c (λ x, x <| eventHandling_ := true |>);; m1) w =
    (upd_chan c (λ x, x <| eventHandling_ := true |>);; m2) w) as Hb by (intros ?? E; exact E).
  apply Hb. unfold dispatch.
  apply (handle_segment (run t) c ch w1
    (λ ch, has (revents_ ch) EPOLLRDHUP && negb (has (revents_ ch) EPOLLIN)) closeCallback_);
    [done|done|by intros ? ->|done|]. intros w2 Hs2.
  apply (handle_segment (run t) c ch w2 (λ ch, has (revents_ ch) EPOLLERR) errorCallback_);
    [done|done|by intros ? ->|done|]. intros w3 Hs3.
  apply (handle_segment (run t) c ch w3
    (λ ch, has (revents_ ch) (Z.lor EPOLLIN (Z.lor EPOLLPRI EPOLLRDHUP))) readCallback_);
    [done|done|by intros ? ->|done|]. intros w4 Hs4.
  rewrite <- (app_nil_r (cb_list (has (revents_ ch) EPOLLOUT) (writeCallback_ ch))).
  apply (handle_segment (run t) c ch w4 (λ ch, has (revents_ ch) EPOLLOUT) writeCallback_);
    [done|done|by intros ? ->|done|]. done.
Qed.
End Dispatch.

(** ** Concrete instances *)

Module ChannelDemo.
Definition ch (reg : bool) (ev : Z) : Channel :=
  mkChannel 0 7 false reg false ev (Z.lor EPOLLRDHUP EPOLLERR)
    (Some (CbConnRead 9)) None (Some (CbConnError 9)) (Some (CbConnClose 9)).
Definition loop (m : gmap Z nat) : EventLoop :=
  mkEventLoop false false false 6 1 0 (mkEpoller 5 m 16) (mkTimerQueue 8 1 []) 2 [] [].
Definition w0 (reg : bool) (ev : Z) (m : gmap Z nat) (t : list (Syscall * SysRes))
    : World (list SysRes) unit :=
  (empty_world [] 1 tt) <| loops := {[0%nat := loop m]} |> <| chans := {[3%nat := ch reg ev]} |>
    <| trace := t |>.
Definition added : list (Syscall * SysRes) :=
  [(SysEpollCtl 5 EPOLL_CTL_ADD 7 kReadEvent, res_ok 0)].

Lemma reg_fresh : registration 0 (w0 false 0 ∅ []).
Proof.
  exists (loop ∅). split; [done|]. split; [|done]. intros fd c. split; [done|].
  intros (ch'&Hc&?&?&Hr). cbn in Hc. apply lookup_singleton_Some in Hc as [_ <-]. done.
Qed.

Lemma reg_added : registration 0 (w0 true kReadEvent {[7 := 3%nat]} added).
Proof.
  exists (loop {[7 := 3%nat]}). split; [done|]. split.
  - intros fd c. cbn. rewrite lookup_singleton_Some. split.
    + intros [<- <-]. exists (ch true kReadEvent). done.
    + intros (ch'&Hc&<-&_). apply lookup_singleton_Some in Hc as [<- <-]. done.
  - intros fd. unfold watch_ok. cbn. destruct (decide (fd = 7)) as [->|]; [done|].
    by rewrite lookup_insert_ne, lookup_singleton_ne.
Qed.
End ChannelDemo.

Lemma mask_ops_keep_registration_witness :
  ∃ w', run_mask_op EnableReading 3 (ChannelDemo.w0 false 0 ∅ []) = Ret tt w' ∧
    poll_frame (set_events 3 (λ _, kReadEvent) (ChannelDemo.w0 false 0 ∅ [])) w' ∧
    mapped 0 w' ∧
    (ctl_ok (trace w') → registration 0 w' ∧
       (0 < kReadEvent → ∃ ch', chans w' !! 3%nat = Some ch' ∧ registeredInEpoller_ ch' = true)).
Proof.
  apply (mask_ops_keep_registration EnableReading 3 (ChannelDemo.ch false 0) (ChannelDemo.loop ∅));
    [reflexivity|reflexivity|reflexivity|exact ChannelDemo.reg_fresh|].
  intros _. reflexivity.
Defined.

Lemma disable_remove_unregisters_witness :
  ∃ w', (disableAll 3;; removeChannel 0 3)
          (ChannelDemo.w0 true kReadEvent {[7 := 3%nat]} ChannelDemo.added) = Ret tt w' ∧
    (ctl_ok (trace w') → registration 0 w' ∧ interest 5 (trace w') !! 7 = None).
Proof.
  apply (disable_remove_unregisters 3 (ChannelDemo.ch true kReadEvent)
           (ChannelDemo.loop {[7 := 3%nat]}));
    [reflexivity|reflexivity|reflexivity|exact ChannelDemo.reg_added|reflexivity].
Defined.

Lemma handleEvent_dispatch_witness :
  handleEvent (λ _ _, mret tt) 0 3 (ChannelDemo.w0 false 0 ∅ []) =
  (upd_chan 3 (λ x, x <| eventHandling_ := true |>);;
   iterM (λ _, mret tt) [CbConnClose 9; CbConnError 9; CbConnRead 9];;
   upd_chan 3 (λ x, x <| eventHandling_ := false |>)) (ChannelDemo.w0 false 0 ∅ []).
Proof.
  apply (handleEvent_dispatch (λ _ _, mret tt) 0 3 (ChannelDemo.ch false 0)); [|reflexivity].
  intros cb w w' ch Hc [= <-]. exists ch. repeat split; assumption.
Defined.
