(* ===== verification/EventLoop.v ===== *)
(** * EventLoop

    [reactor/EventLoop.cc]: running a call in the loop's thread, queueing it
    from elsewhere, the wake-up descriptor, the pass over pending calls and
    the loop itself. *)
From S2P Require Import Prelude Buffer Timestamp World Channel.
Local Open Scope Z_scope.

Definition kPollTimeMs : Z := 10000.

Section EventLoop.
Context {K U : Type} `{Kernel K}.
Abbreviation W := (World K U).

Definition eventfd_create : M W Z :=
  r ← sys SysEventfd;
  if rv r <? 0 then fails Aborted else mret (rv r).

(** A short write or read is logged and otherwise ignored. *)
Definition wakeup (l : nat) : M W unit :=
  loop ← get_loop l;
  n ← sys (SysWrite8 (wakeupfd_ loop));
  mret tt.

Definition handleRead (l : nat) : M W unit :=
  loop ← get_loop l;
  n ← sys (SysRead8 (wakeupfd_ loop));
  mret tt.

Definition queueInLoop (l : nat) (cb : Functor) : M W unit :=
  upd_loop l (λ x, x <| pendingFunctors_ ::= λ q, q ++ [cb] |>);;
  b ← isInLoopThread l;
  loop ← get_loop l;
  whenM (b || callingdoPendingFunctions_ loop) (wakeup l).

(** [call] is the invocation [cb()]. *)
Definition runInLoop (l : nat) (cb : Functor) (call : M W unit) : M W unit :=
  b ← isInLoopThread l;
  if (b : bool) then call else queueInLoop l cb.

Definition quit (l : nat) : M W unit :=
  upd_loop l (λ x, x <| quit_ := true |>);;
  b ← isInLoopThread l;
  whenM (negb b) (wakeup l).

(** The pass over pending calls: [run] invokes one of them, [destroy] is the
    destruction of the local vector, and so of the calls in it. *)
Definition doPendingFunctions (run : Functor → M W unit) (destroy : list Functor → M W unit)
    (l : nat) : M W unit :=
  upd_loop l (λ x, x <| callingdoPendingFunctions_ := true |>);;
  loop ← get_loop l;
  let functions := pendingFunctors_ loop in
  upd_loop l (λ x, x <| pendingFunctors_ := [] |>);;
  iterM run functions;;
  upd_loop l (λ x, x <| callingdoPendingFunctions_ := false |>);;
  destroy functions.

(** The body of the [while] of [loop]. *)
Definition loop_iteration (run_cb : Timestamp → Callback → M W unit)
    (run : Functor → M W unit) (destroy : list Functor → M W unit) (l : nat) : M W unit :=
  upd_loop l (λ x, x <| channellist_ := [] |>);;
  t ← epoll l kPollTimeMs;
  upd_loop l (λ x, x <| epollReturnTime_ := t |>);;
  loop ← get_loop l;
  iterM (handleEvent run_cb (epollReturnTime_ loop)) (channellist_ loop);;
  doPendingFunctions run destroy l.

(** The [while] loop, cut after [fuel] iterations: [true] when it was left
    through its condition. *)
Fixpoint loop_while (run_cb : Timestamp → Callback → M W unit)
    (run : Functor → M W unit) (destroy : list Functor → M W unit) (fuel : nat) (l : nat) : M W bool :=
  loop ← get_loop l;
  if quit_ loop then mret true
  else match fuel with
       | O => mret false
       | S fuel' => loop_iteration run_cb run destroy l;; loop_while run_cb run destroy fuel' l
       end.

Definition loop (run_cb : Timestamp → Callback → M W unit)
    (run : Functor → M W unit) (destroy : list Functor → M W unit) (fuel : nat) (l : nat) : M W bool :=
  assertInLoopThread l;;
  upd_loop l (λ x, x <| looping_ := true |>);;
  upd_loop l (λ x, x <| quit_ := false |>);;
  ended ← loop_while run_cb run destroy fuel l;
  whenM ended (upd_loop l (λ x, x <| looping_ := false |>));;
  mret ended.
End EventLoop.

(** ** Queueing a call and waking the loop *)

(** Value of the counter of eventfd [fd] after a history of calls: a
    successful write adds one, a successful read clears it. *)
Definition eventfd_step (fd : Z) (n : Z) (ev : Syscall * SysRes) : Z :=
  match ev with
  | (SysWrite8 fd', r) => if (fd' =? fd) && (rv r =? 8) then n + 1 else n
  | (SysRead8 fd', r) => if (fd' =? fd) && (rv r =? 8) then 0 else n
  | _ => n
  end.
Definition eventfd_count (fd : Z) (t : list (Syscall * SysRes)) : Z := foldl (eventfd_step fd) 0 t.

Lemma eventfd_count_snoc fd t ev : eventfd_count fd (t ++ [ev]) = eventfd_step fd (eventfd_count fd t) ev.
Proof. unfold eventfd_count. by rewrite foldl_app. Qed.

Section EventLoopFacts.
Context {K U : Type} `{Kernel K}.
Abbreviation W := (World K U).
Implicit Types (w : W) (l : nat).

Definition enqueue (l : nat) (cb : Functor) (w : W) : W :=
  w <| loops ::= alter (λ x, x <| pendingFunctors_ ::= λ q, q ++ [cb] |>) l |>.

Lemma wakeup_run l loop w :
  loops w !! l = Some loop →
  wakeup l w = (n ← sys (SysWrite8 (wakeupfd_ loop)); mret tt) w.
Proof. intros Hl. unfold wakeup, get_loop, deref, mbind, M_bind, get, of_option. by rewrite Hl. Qed.

(** The whole of [queueInLoop]: enqueue, then possibly one system call. *)
Lemma queueInLoop_run l cb loop w :
  loops w !! l = Some loop →
  queueInLoop l cb w =
  if (threadId_ loop =? cur w) || callingdoPendingFunctions_ loop
  then (n ← sys (SysWrite8 (wakeupfd_ loop)); mret tt) (enqueue l cb w)
  else Ret tt (enqueue l cb w).
Proof.
  intros Hl. unfold queueInLoop, upd_loop, isInLoopThread, get_loop, deref.
  set (loop1 := loop <| pendingFunctors_ ::= λ q, q ++ [cb] |>).
  assert (loops (enqueue l cb w) !! l = Some loop1) as Hl1 by (cbn; by rewrite lookup_alter_eq, Hl).
  unfold mbind at 1, M_bind at 1, modify. fold (enqueue l cb w).
  unfold mbind, M_bind, get, of_option. rewrite Hl1. cbn [mret M_ret].
  rewrite Hl1. cbn [mret M_ret]. cbn [threadId_ callingdoPendingFunctions_ loop1 upd cur enqueue].
  destruct ((threadId_ loop =? cur w) || callingdoPendingFunctions_ loop); [|done].
  cbn [whenM]. by rewrite (wakeup_run _ _ _ Hl1).
Qed.

Lemma queueInLoop_Ret l cb loop w :
  loops w !! l = Some loop →
  ∃ kr tr, queueInLoop l cb w = Ret tt ((enqueue l cb w) <| kern := kr |> <| trace := tr |>).
Proof.
  intros Hl. rewrite (queueInLoop_run l cb loop w Hl). destruct (_ || _).
  - unfold mbind, M_bind, sys. destruct (syscall _ _) as [r k]. by eexists _, _.
  - by exists (kern w), (trace w).
Qed.

(** [queueInLoop] appends the call to the pending calls and changes no
    other object; it writes to the wake-up descriptor exactly when it is
    called by the loop's own thread or during a pass over pending calls. *)
Theorem queueInLoop_effect (l : nat) (cb : Functor) (loop : EventLoop) (w : W)
  (Hl : loops w !! l = Some loop) :
  ∃ w', queueInLoop l cb w = Ret tt w' ∧
    loops w' = alter (λ x, x <| pendingFunctors_ ::= λ q, q ++ [cb] |>) l (loops w) ∧
    chans w' = chans w ∧ conns w' = conns w ∧ timers w' = timers w ∧
    (if (threadId_ loop =? cur w) || callingdoPendingFunctions_ loop
     then ∃ r, trace w' = trace w ++ [(SysWrite8 (wakeupfd_ loop), r)]
     else trace w' = trace w ∧ kern w' = kern w).
Proof.
  rewrite (queueInLoop_run l cb loop w Hl).
  destruct ((threadId_ loop =? cur w) || callingdoPendingFunctions_ loop).
  - unfold mbind, M_bind, sys. destruct (syscall _ _) as [r k]. eexists. split; [done|].
    cbn. eauto 10.
  - eexists. split; [done|]. cbn. done.
Qed.

(** Calls queued from another thread while the loop is not running its
    pending calls are all enqueued, in order, but leave the wake-up
    descriptor as it was: a loop blocked in [epoll_wait] with an empty
    counter stays blocked. (The comment in the code says the opposite:
    other threads wake the loop at once.) *)
Theorem foreign_queueInLoop_never_wakes (l : nat) (cbs : list Functor) (loop : EventLoop) (w : W)
  (Hl : loops w !! l = Some loop) (Ht : threadId_ loop ≠ cur w)
  (Hc : callingdoPendingFunctions_ loop = false) :
  ∃ w' loop', iterM (queueInLoop l) cbs w = Ret tt w' ∧ loops w' !! l = Some loop' ∧
    pendingFunctors_ loop' = pendingFunctors_ loop ++ cbs ∧
    ∀ fd, eventfd_count fd (trace w') = eventfd_count fd (trace w).
Proof.
  revert loop w Hl Ht Hc. induction cbs as [|cb cbs IH]; intros loop w Hl Ht Hc.
  - exists w, loop. by rewrite app_nil_r.
  - simpl. unfold mbind, M_bind. rewrite (queueInLoop_run l cb loop w Hl).
    rewrite (proj2 (Z.eqb_neq _ _) Ht), Hc. cbn [orb].
    destruct (IH (loop <| pendingFunctors_ ::= λ q, q ++ [cb] |>) (enqueue l cb w))
      as (w'&loop'&->&Hl'&Hq&Hn); [cbn; by rewrite lookup_alter_eq, Hl|done|done|].
    exists w', loop'. split_and!; [done|done| |done]. rewrite Hq; cbn. by rewrite <- app_assoc.
Qed.

(** One pass over the pending calls runs exactly the calls that were
    pending when it started, in the order they were queued; the calls they
    queue stay pending, in order, for the next pass. ([ran] observes the
    calls made so far, [queued f] are the calls that [f] queues.) *)
Theorem doPendingFunctions_fifo (run : Functor → M W unit) (destroy : list Functor → M W unit)
  (ran : W → list Functor) (queued : Functor → list Functor) (l : nat) (loop : EventLoop) (w : W)
  (Hran : ∀ w f, ran (w <| loops ::= f |>) = ran w)
  (Hrun : ∀ f w loop, loops w !! l = Some loop →
     wp (run f) (λ _ w', ran w' = ran w ++ [f] ∧
       ∃ loop', loops w' !! l = Some loop' ∧
         pendingFunctors_ loop' = pendingFunctors_ loop ++ queued f) w)
  (Hdestroy : ∀ fs w, wp (destroy fs) (λ _ w', ran w' = ran w ∧ loops w' = loops w) w)
  (Hl : loops w !! l = Some loop) :
  ∃ w' loop', doPendingFunctions run destroy l w = Ret tt w' ∧ loops w' !! l = Some loop' ∧
    ran w' = ran w ++ pendingFunctors_ loop ∧
    pendingFunctors_ loop' = concat (map queued (pendingFunctors_ loop)) ∧
    callingdoPendingFunctions_ loop' = false.
Proof.
  cut (wp (doPendingFunctions run destroy l) (λ _ w', ∃ loop', loops w' !! l = Some loop' ∧
    ran w' = ran w ++ pendingFunctors_ loop ∧
    pendingFunctors_ loop' = concat (map queued (pendingFunctors_ loop)) ∧
    callingdoPendingFunctions_ loop' = false) w).
  { intros Hwp. apply wp_run in Hwp as ([]&w'&?&loop'&?). eauto 10. }
  unfold doPendingFunctions, upd_loop, get_loop. wp_step.
  eapply wp_deref; [cbn; by rewrite lookup_alter_eq, Hl|]. wp_step. cbn [pendingFunctors_ upd].
  set (fs := pendingFunctors_ loop).
  eapply wp_mono.
  { apply (wp_iterM run (λ done w', ran w' = ran w ++ done ∧
      ∃ loop', loops w' !! l = Some loop' ∧ pendingFunctors_ loop' = concat (map queued done))).
    - intros done f rest w1 _ (Hr&loop1&Hl1&Hp1). eapply wp_mono; [by apply Hrun|].
      intros [] w2 (Hr2&loop2&Hl2&Hp2). split; [by rewrite Hr2, Hr, app_assoc|].
      exists loop2. split; [done|]. rewrite Hp2, Hp1, map_app, concat_app. simpl.
      by rewrite app_nil_r.
    - rewrite app_nil_r. split.
      + etrans; [|apply (Hran w (λ ls, alter (λ x, x <| pendingFunctors_ := [] |>) l
          (alter (λ x, x <| callingdoPendingFunctions_ := true |>) l ls)))]. done.
      + cbn. eexists. split; [by rewrite !lookup_alter_eq, Hl|]. done. }
  intros [] w1 (Hr&loop1&Hl1&Hp). cbv beta. wp_step. eapply wp_mono; [apply Hdestroy|].
  intros [] w2 [Hr2 El2]. exists (loop1 <| callingdoPendingFunctions_ := false |>). cbn in El2.
  rewrite El2, lookup_alter_eq, Hl1. split_and!; [done| |done|done]. rewrite Hr2, <- Hr.
  exact (Hran w1 (alter (λ x, x <| callingdoPendingFunctions_ := false |>) l)).
Qed.
(** A request to quit that comes before [loop] is lost: [loop] clears the
    flag when it starts, and runs as if the request had not been made. *)
Theorem quit_before_loop_is_lost (run_cb : Timestamp → Callback → M W unit)
  (run : Functor → M W unit) (destroy : list Functor → M W unit) (fuel : nat) (l : nat)
  (x : EventLoop) (w : W) (Hl : loops w !! l = Some x) (Ht : threadId_ x = cur w) :
  (quit l;; loop run_cb run destroy fuel l) w = loop run_cb run destroy fuel l w.
Proof.
  unfold quit, loop, upd_loop. rewrite (bind_Ret _ _ _ _ _ (assertInLoopThread_run _ _ _ Hl Ht)).
  set (w1 := w <| loops ::= alter (λ x, x <| quit_ := true |>) l |>).
  set (x1 := x <| quit_ := true |>).
  assert (loops w1 !! l = Some x1) as Hl1 by (unfold w1; cbn; by rewrite lookup_alter_eq, Hl).
  assert ((modify (λ w, w <| loops ::= alter (λ x, x <| quit_ := true |>) l |>);;
           b ← isInLoopThread l; whenM (negb b) (wakeup l)) w = Ret tt w1) as Hq.
  { rewrite bind_modify. fold w1. unfold isInLoopThread, get_loop, mbind, M_bind.
    rewrite (deref_run _ _ _ _ _ Hl1). cbn. by rewrite Ht, Z.eqb_refl. }
  rewrite (bind_Ret _ _ _ _ _ Hq).
  rewrite (bind_Ret _ _ _ _ _ (assertInLoopThread_run _ x1 w1 Hl1 Ht)), !bind_modify.
  f_equal. unfold w1. cbn. by rewrite !(alter_as_insert _ _ _ _ Hl), !alter_insert_eq.
Qed.

Definition quit_flag (l : nat) (w : W) : option bool := quit_ <$> loops w !! l.

Lemma loop_while_ends (run_cb : Timestamp → Callback → M W unit) (run : Functor → M W unit)
    (destroy : list Functor → M W unit) (I : nat → W → Prop) n l fuel w :
  (∀ i w, (i < n)%nat → I i w → quit_flag l w = Some false ∧
     wp (loop_iteration run_cb run destroy l) (λ _ w', I (S i) w') w) →
  (∀ w, I n w → quit_flag l w = Some true) →
  ∀ i, (i ≤ n)%nat → (n ≤ i + fuel)%nat → I i w →
  wp (loop_while run_cb run destroy fuel l) (λ b w', b = true ∧ I n w') w.
Proof.
  intros Hiter Hquit. induction fuel as [|fuel IH] in w |- *; intros i Hi Hf HI.
  - assert (i = n) as -> by lia. specialize (Hquit w HI). unfold quit_flag in Hquit.
    apply fmap_Some in Hquit as (x&Hl&Hq). cbn [loop_while]. unfold get_loop. wp_step.
    eapply wp_deref; [done|]. rewrite <- Hq. by wp_step.
  - destruct (decide (i = n)) as [->|Hne].
    + specialize (Hquit w HI). unfold quit_flag in Hquit.
      apply fmap_Some in Hquit as (x&Hl&Hq). cbn [loop_while]. unfold get_loop. wp_step.
      eapply wp_deref; [done|]. rewrite <- Hq. by wp_step.
    + destruct (Hiter i w ltac:(lia) HI) as [Hq Hwp]. unfold quit_flag in Hq.
      apply fmap_Some in Hq as (x&Hl&Hq). cbn [loop_while]. unfold get_loop. wp_step.
      eapply wp_deref; [done|]. rewrite <- Hq. wp_step. eapply wp_mono; [exact Hwp|].
      intros [] w' HI'. apply (IH w' (S i)); [lia|lia|done].
Qed.

(** C31: the loop ends exactly when an iteration leaves the quit flag set: if
    the first [n] iterations run and only the last of them leaves it set, the
    loop runs these [n] iterations and returns, no longer looping. *)
Theorem loop_ends_after_quit (run_cb : Timestamp → Callback → M W unit)
  (run : Functor → M W unit) (destroy : list Functor → M W unit) (I : nat → W → Prop)
  (n fuel : nat) (l : nat) (x : EventLoop) (w : W)
  (Hl : loops w !! l = Some x) (Ht : threadId_ x = cur w)
  (Hstart : I 0%nat (w <| loops ::= alter (λ x, x <| looping_ := true |> <| quit_ := false |>) l |>))
  (Hiter : ∀ i w, (i < n)%nat → I i w → quit_flag l w = Some false ∧
     wp (loop_iteration run_cb run destroy l) (λ _ w', I (S i) w') w)
  (Hquit : ∀ w, I n w → quit_flag l w = Some true) (Hfuel : (n ≤ fuel)%nat) :
  ∃ w0 w', I n w0 ∧ loop run_cb run destroy fuel l w = Ret true w' ∧
    w' = w0 <| loops ::= alter (λ x, x <| looping_ := false |>) l |>.
Proof.
  unfold loop, upd_loop. rewrite (bind_Ret _ _ _ _ _ (assertInLoopThread_run _ _ _ Hl Ht)), !bind_modify.
  match goal with |- context [(loop_while _ _ _ _ _ ≫= _) ?y] => set (w1 := y) end.
  assert (I 0%nat w1) as HI.
  { unfold w1. cbn in Hstart |- *. by rewrite alter_alter. }
  destruct (wp_run (loop_while run_cb run destroy fuel l) (λ b w', b = true ∧ I n w') w1) as [Hrun _].
  destruct Hrun as (b&w0&Hrun&->&HIn).
  { apply (loop_while_ends run_cb run destroy I n l fuel w1 Hiter Hquit 0); [lia|lia|done]. }
  exists w0. eexists. split; [exact HIn|]. rewrite (bind_Ret _ _ _ _ _ Hrun). cbn [whenM].
  rewrite bind_modify. done.
Qed.
End EventLoopFacts.

(** ** What the other components rely on

    Registration survives the system calls that do not concern it, and the
    calls that enqueue or change a mask make only such calls. *)

(** System calls that neither write to a stream, nor half-close one, nor make
    a new one. *)
Definition quiet (ev : Syscall * SysRes) : Prop :=
  match ev.1 with
  | SysWrite _ _ | SysSend _ _ | SysShutdownWr _ | SysSocket | SysSocketpair | SysAccept4 _ => False
  | _ => True
  end.

Lemma is_ctl_quiet evs : Forall is_ctl evs → Forall quiet evs.
Proof. intros Hc. eapply Forall_impl; [exact Hc|]. intros [sc r]. unfold is_ctl, quiet. by destruct sc. Qed.

(** System calls that leave the interest list alone. *)
Definition no_interest (sc : Syscall) : Prop :=
  match sc with SysEpollCtl _ _ _ _ | SysClose _ => False | _ => True end.

Section RegistrationFrame.
Context {K U : Type} `{Kernel K}.
Abbreviation W := (World K U).
Implicit Types (w : W) (c l : nat).

Lemma registration_except_sys ch l w k sc r :
  no_interest sc → registration_except ch l w →
  registration_except ch l (w <| kern := k |> <| trace ::= λ t, t ++ [(sc, r)] |>).
Proof.
  intros Hno (loop&?&?&Hw). exists loop. split_and!; [done..|]. intros fd Hfd.
  specialize (Hw fd Hfd). unfold watch_ok in *. cbn [trace chans upd]. rewrite interest_snoc.
  assert (∀ e i, interest_step e i (sc, r) = i) as ->; [|done].
  intros e i. unfold interest_step. destruct (negb _); [done|]. by destruct sc.
Qed.

Lemma registration_sys l w k sc r :
  no_interest sc → registration l w →
  registration l (w <| kern := k |> <| trace ::= λ t, t ++ [(sc, r)] |>).
Proof.
  intros Hno (loop&Hl&Hm&Hw).
  destruct (registration_except_sys (next_id w) l w k sc r Hno) as (loop'&Hl'&Hm'&Hw').
  { exists loop. auto. }
  exists loop. split_and!; [done..|]. intros fd. specialize (Hw fd).
  unfold watch_ok in *. cbn [trace chans upd]. rewrite interest_snoc.
  unfold interest_step. destruct (negb _); [done|]. by destruct sc.
Qed.

Lemma registration_except_loops ch l l' f w :
  (∀ x, epoller_ (f x) = epoller_ x) → registration_except ch l w →
  registration_except ch l (w <| loops ::= alter f l' |>).
Proof.
  intros Hf (loop&Hl&Hm&Hw). cbn. unfold registration_except. cbn.
  destruct (decide (l = l')) as [<-|].
  - exists (f loop). rewrite lookup_alter_eq, Hl, Hf. done.
  - exists loop. by rewrite lookup_alter_ne.
Qed.

(** The invariant of loop [l] but for channel [ch]; and all of it while the
    kernel has accepted every [epoll_ctl]. *)
Definition poll_ok (ch l : nat) (w : W) : Prop :=
  registration_except ch l w ∧ (ctl_ok (trace w) → registration l w).

Lemma poll_ok_sys ch l w k sc r :
  no_interest sc → poll_ok ch l w →
  poll_ok ch l (w <| kern := k |> <| trace ::= λ t, t ++ [(sc, r)] |>).
Proof.
  intros Hno [HR Hok]. split; [by apply registration_except_sys|].
  intros [Hctl _]%Forall_app. by apply registration_sys, Hok.
Qed.

Lemma registration_loops l l' f w :
  (∀ x, epoller_ (f x) = epoller_ x) → registration l w →
  registration l (w <| loops ::= alter f l' |>).
Proof.
  intros Hf (loop&Hl&Hm&Hw). cbn. unfold registration. cbn.
  destruct (decide (l = l')) as [<-|].
  - exists (f loop). rewrite lookup_alter_eq, Hl, Hf. done.
  - exists loop. by rewrite lookup_alter_ne.
Qed.

Lemma poll_ok_loops ch l l' f w :
  (∀ x, epoller_ (f x) = epoller_ x) → poll_ok ch l w →
  poll_ok ch l (w <| loops ::= alter f l' |>).
Proof.
  intros Hf [HR Hok]. split; [by apply registration_except_loops|].
  intros Hctl. by apply registration_loops, Hok.
Qed.

(** Enqueueing a call keeps the registration of every channel. *)
Lemma wp_queueInLoop ch l cb loop (Q : unit → W → Prop) w :
  loops w !! l = Some loop → poll_ok ch l w →
  (∀ k evs, let w' := (enqueue l cb w) <| kern := k |> <| trace := trace w ++ evs |> in
     Forall quiet evs → poll_ok ch l w' → Q tt w') →
  wp (queueInLoop l cb) Q w.
Proof.
  intros Hl HR HQ. unfold wp. rewrite (queueInLoop_run l cb loop w Hl).
  assert (poll_ok ch l (enqueue l cb w)) as HR'
    by (by apply (poll_ok_loops ch l l (λ x, x <| pendingFunctors_ ::= λ q, q ++ [cb] |>))).
  destruct (_ || _).
  - unfold mbind, M_bind, sys. destruct (syscall _ _) as [r k].
    apply (HQ k [(SysWrite8 (wakeupfd_ loop), r)]); [by repeat constructor|].
    by apply (poll_ok_sys ch l (enqueue l cb w)).
  - specialize (HQ (kern w) []). cbn zeta in HQ. rewrite app_nil_r in HQ. by apply HQ.
Qed.
(** Changing the mask of a registered channel, in the loop's thread. *)
Lemma wp_mask_registered o ci ch loop (Q : unit → W → Prop) w :
  chans w !! ci = Some ch → loops w !! ch_loop ch = Some loop → threadId_ loop = cur w →
  registeredInEpoller_ ch = true → poll_ok ci (ch_loop ch) w →
  (∀ w', chans w' !! ci = Some (ch <| events_ := mask_after o ch |>) →
     loops w' = loops w → conns w' = conns w → cur w' = cur w →
     (∃ evs, trace w' = trace w ++ evs ∧ Forall quiet evs) →
     poll_ok ci (ch_loop ch) w' → servers w' = servers w → Q tt w') →
  wp (run_mask_op o ci) Q w.
Proof.
  intros Hc Hl Ht Hreg [HR _] HQ. eapply wp_mono.
  { apply (run_mask_op_spec o ci ch loop w); try done. by intros ?; congruence. }
  intros [] w' (Hf&_&HR'&Hsame&Hctl).
  assert (chans (set_events ci (λ _, mask_after o ch) w) !! ci
          = Some (ch <| events_ := mask_after o ch |>)) as Hc' by (cbn; by rewrite lookup_alter_eq, Hc).
  destruct (Hsame _ Hc' Hreg) as [Ec El]. destruct (pf_trace _ _ Hf) as (evs&Et&Hevs).
  apply HQ; [by rewrite Ec|done|exact (pf_conns _ _ Hf)|exact (pf_cur _ _ Hf)| | |exact (pf_servers _ _ Hf)].
  - exists evs. split; [done|by apply is_ctl_quiet].
  - split; [done|]. intros Hok. by apply Hctl.
Qed.

End RegistrationFrame.

(** ** Concrete instances *)

Module EventLoopDemo.
Definition loop (tid : Z) (q : list Functor) : EventLoop :=
  (ChannelDemo.loop ∅) <| threadId_ := tid |> <| pendingFunctors_ := q |>.
(** Thread 1 is running; the user state logs the calls made. *)
Definition w0 (tid : Z) (q : list Functor) : World (list SysRes) (list Functor) :=
  (empty_world [res_ok 8] 1 []) <| loops := {[0%nat := loop tid q]} |>.
(** Calling [FUser n] for odd [n] queues [FUser (n + 1)]. *)
Definition queued (f : Functor) : list Functor :=
  match f with FUser n => if Nat.odd n then [FUser (S n)] else [] | _ => [] end.
Definition run (f : Functor) : M (World (list SysRes) (list Functor)) unit :=
  modify (λ w, w <| user ::= λ u, u ++ [f] |>);;
  modify (λ w, w <| loops ::= alter (λ x, x <| pendingFunctors_ ::= λ q, q ++ queued f |>) 0%nat |>).
End EventLoopDemo.

Lemma queueInLoop_effect_witness :
  ∃ w', queueInLoop 0 (FUser 5) (EventLoopDemo.w0 1 [FUser 4]) = Ret tt w' ∧
    loops w' = alter (λ x, x <| pendingFunctors_ ::= λ q, q ++ [FUser 5] |>) 0%nat
                 {[0%nat := EventLoopDemo.loop 1 [FUser 4]]} ∧
    chans w' = ∅ ∧ conns w' = ∅ ∧ timers w' = ∅ ∧ ∃ r, trace w' = [(SysWrite8 6, r)].
Proof.
  apply (queueInLoop_effect 0 (FUser 5) (EventLoopDemo.loop 1 [FUser 4])
           (EventLoopDemo.w0 1 [FUser 4])). reflexivity.
Defined.

Lemma foreign_queueInLoop_never_wakes_witness :
  ∃ w' loop', iterM (queueInLoop 0) [FUser 4; FUser 5] (EventLoopDemo.w0 2 [FUser 3]) = Ret tt w' ∧
    loops w' !! 0%nat = Some loop' ∧
    pendingFunctors_ loop' = [FUser 3] ++ [FUser 4; FUser 5] ∧
    ∀ fd, eventfd_count fd (trace w') = 0.
Proof.
  apply (foreign_queueInLoop_never_wakes 0 [FUser 4; FUser 5] (EventLoopDemo.loop 2 [FUser 3])
           (EventLoopDemo.w0 2 [FUser 3])); [reflexivity|discriminate|reflexivity].
Defined.

Lemma doPendingFunctions_fifo_witness :
  ∃ w' loop', doPendingFunctions EventLoopDemo.run (λ _, mret tt) 0 (EventLoopDemo.w0 1 [FUser 1; FUser 2; FUser 3])
      = Ret tt w' ∧ loops w' !! 0%nat = Some loop' ∧
    user w' = [FUser 1; FUser 2; FUser 3] ∧ pendingFunctors_ loop' = [FUser 2; FUser 4] ∧
    callingdoPendingFunctions_ loop' = false.
Proof.
  apply (doPendingFunctions_fifo EventLoopDemo.run (λ _, mret tt) user EventLoopDemo.queued 0
    (EventLoopDemo.loop 1 [FUser 1; FUser 2; FUser 3])
    (EventLoopDemo.w0 1 [FUser 1; FUser 2; FUser 3])); [reflexivity| |by split|reflexivity].
  intros f w loop Hl. split; [reflexivity|]. cbn. rewrite lookup_alter_eq, Hl.
  eexists. split; reflexivity.
Defined.

Lemma quit_before_loop_is_lost_witness :
  (quit 0;; loop (λ _ _, mret tt) EventLoopDemo.run (λ _, mret tt) 3 0) (EventLoopDemo.w0 1 []) =
  loop (λ _ _, mret tt) EventLoopDemo.run (λ _, mret tt) 3 0 (EventLoopDemo.w0 1 []).
Proof.
  apply (quit_before_loop_is_lost _ _ _ 3 0 (EventLoopDemo.loop 1 [])); reflexivity.
Defined.

(** One iteration, whose only pending call is the user's request to quit. *)
Definition quit_script : list SysRes := [res_ok 0; mkRes 0 0 (OutTime 5 0)].
Lemma loop_ends_after_quit_witness :
  ∃ w', loop (λ _ _, mret tt) (λ _, quit 0) (λ _, mret tt) 4 0
      ((EventLoopDemo.w0 1 [FUser 0]) <| kern := quit_script |>) = Ret true w' ∧
    quit_flag 0 w' = Some true.
Proof.
  set (w := (EventLoopDemo.w0 1 [FUser 0]) <| kern := quit_script |>).
  destruct (loop_ends_after_quit (λ _ _, mret tt) (λ _, quit 0) (λ _, mret tt)
    (λ i w', match i with
             | O => w' = w <| loops ::= alter (λ x, x <| looping_ := true |> <| quit_ := false |>) 0%nat |>
             | S _ => quit_flag 0 w' = Some true end) 1 4 0 (EventLoopDemo.loop 1 [FUser 0]) w)
    as (w0&w'&Hq&Hrun&->); [reflexivity..| | |lia|].
  - intros i w' Hi Hw'. assert (i = 0%nat) as -> by lia. subst w'. split; [reflexivity|].
    vm_compute. reflexivity.
  - intros w' Hw'. exact Hw'.
  - eexists. split; [exact Hrun|]. cbn in Hq. unfold quit_flag in *. cbn.
    rewrite lookup_alter_eq. by destruct (loops w0 !! 0%nat).
Defined.
