(* ===== verification/TimerQueue.v ===== *)
(** * TimerQueue

    [reactor/Timer.h], [reactor/Timer.cc], [reactor/TimerQueue.cc] and the
    timer interface and construction of [reactor/EventLoop.cc]: the set of
    pending timers ordered by expiration, arming the timer descriptor, running
    what has expired. *)
From S2P Require Import Prelude Buffer Timestamp Atomic World Channel EventLoop.
Local Open Scope Z_scope.

Definition UINTPTR_MAX : Z := 2 ^ 64 - 1.

(** [operator<] of [std::pair<Timestamp, Timer *>], pointers as addresses. *)
Definition pair_lt (a b : Timestamp * Z) : bool :=
  Timestamp_lt a.1 b.1 || (negb (Timestamp_lt b.1 a.1) && (a.2 <? b.2)).
Definition entry_key (e : Entry) : Timestamp * Z := (e.1, Z.of_nat e.2).
Definition entry_lt (a b : Entry) : bool := pair_lt (entry_key a) (entry_key b).

(** [std::set<Entry>::insert]: the new sequence, and whether it was inserted. *)
Fixpoint set_insert (e : Entry) (s : list Entry) : list Entry * bool :=
  match s with
  | [] => ([e], true)
  | x :: s' =>
      if entry_lt e x then (e :: s, true)
      else if entry_lt x e then let '(s'', b) := set_insert e s' in (x :: s'', b)
      else (s, false)
  end.

(** [begin() .. lower_bound(key)] and [lower_bound(key) .. end()]. *)
Fixpoint split_lower_bound (key : Timestamp * Z) (s : list Entry) : list Entry * list Entry :=
  match s with
  | [] => ([], [])
  | x :: s' =>
      if pair_lt (entry_key x) key
      then let '(before, after) := split_lower_bound key s' in (x :: before, after)
      else ([], s)
  end.

(** [howMachTimeFromNow], from the current time. *)
Definition howMachTimeFromNow (now_ : Timestamp) (when : Timestamp) : option (Z * Z) :=
  microSecond ← int64_checked (microSecondsSinceEpoch when - microSecondsSinceEpoch now_);
  let microSecond := if microSecond <? 100 then 100 else microSecond in
  Some (Z.quot microSecond kMicroSecondPerSecond,
        Z.rem microSecond kMicroSecondPerSecond * 1000).

Section TimerQueue.
Context {K U : Type} `{Kernel K}.
Abbreviation W := (World K U).

(** *** Timer *)

Definition Timer_ctor (cb : Functor) (when : Timestamp) (interval : double) : M W nat :=
  t ← alloc;
  w ← get;
  seq ← zoom numCreated (λ n w, w <| numCreated := n |>) (AtomicIntegerT.incrementAndGet 64);
  modify (λ w, w <| timers ::= <[t := {|
    interval_ := interval; repeat_ := dgt interval dzero;
    expiration_ := when; callback_ := cb; sequence_ := seq |}]> |>);;
  mret t.

Definition Timer_restart (t : nat) (now_ : Timestamp) : M W unit :=
  timer ← get_timer t;
  if repeat_ timer
  then e ← of_option "double to int64_t" (addTime now_ (interval_ timer));
       upd_timer t (λ x, x <| expiration_ := e |>)
  else upd_timer t (λ x, x <| expiration_ := invaild |>).

(** *** The timer descriptor *)

Definition createtimerfd : M W Z := r ← sys SysTimerfdCreate; mret (rv r).

Definition readTimerfd (timerfd : Z) (now_ : Timestamp) : M W unit :=
  n ← sys (SysRead8 timerfd); mret tt.

Definition resetTimerfd (timerfd : Z) (expiration : Timestamp) : M W unit :=
  now_ ← now;
  ts ← of_option "signed overflow" (howMachTimeFromNow now_ expiration);
  ret ← sys (SysTimerfdSettime timerfd ts.1 ts.2);
  mret tt.

(** *** TimerQueue *)

Definition upd_timerlist (l : nat) (f : list Entry → list Entry) : M W unit :=
  upd_loop l (λ x, x <| timerqueue_ ::= λ q, q <| timerlist_ ::= f |> |>).

Definition insert (l t : nat) : M W bool :=
  timer ← get_timer t;
  loop ← get_loop l;
  let when := expiration_ timer in
  let timerlist := timerlist_ (timerqueue_ loop) in
  let earlyestChange :=
    match timerlist with [] => true | first :: _ => Timestamp_lt when first.1 end in
  let '(timerlist', inserted) := set_insert (when, t) timerlist in
  upd_timerlist l (λ _, timerlist');;
  assert_ "ret.second" inserted;;
  mret earlyestChange.

Definition addTimerInLoop (l t : nat) : M W unit :=
  assertInLoopThread l;;
  earlyestChange ← insert l t;
  loop ← get_loop l;
  timer ← get_timer t;
  whenM earlyestChange (resetTimerfd (timerfd_ (timerqueue_ loop)) (expiration_ timer)).

(** The result is the [TimerId]: the pointer and the sequence number. *)
Definition addTimer (l : nat) (cb : Functor) (when : Timestamp) (interval : double)
    : M W (nat * Z) :=
  t ← Timer_ctor cb when interval;
  runInLoop l (FAddTimerInLoop l t) (addTimerInLoop l t);;
  timer ← get_timer t;
  mret (t, sequence_ timer).

Definition getexpiration (l : nat) (now_ : Timestamp) : M W (list Entry) :=
  loop ← get_loop l;
  let '(expirated, rest) :=
    split_lower_bound (now_, UINTPTR_MAX) (timerlist_ (timerqueue_ loop)) in
  assert_ "iter == timerlist_.end() || now < iter->first"
    (match rest with [] => true | e :: _ => Timestamp_lt now_ e.1 end);;
  upd_timerlist l (λ _, rest);;
  mret expirated.

Definition reset (l : nat) (expirated : list Entry) (now_ : Timestamp) : M W unit :=
  iterM (λ e : Entry,
    timer ← get_timer e.2;
    if repeat_ timer
    then Timer_restart e.2 now_;; b ← insert l e.2; mret tt
    else modify (λ w, w <| timers ::= delete e.2 |>)) expirated;;
  loop ← get_loop l;
  let nextExpire :=
    match timerlist_ (timerqueue_ loop) with [] => Timestamp_ctor | e :: _ => e.1 end in
  whenM (valid nextExpire) (resetTimerfd (timerfd_ (timerqueue_ loop)) nextExpire).

(** [run] invokes a timer callback. *)
Definition TimerQueue_handleRead (run : Functor → M W unit) (l : nat) : M W unit :=
  assertInLoopThread l;;
  now_ ← now;
  loop ← get_loop l;
  readTimerfd (timerfd_ (timerqueue_ loop)) now_;;
  expirated ← getexpiration l now_;
  iterM (λ e : Entry, timer ← get_timer e.2; run (callback_ timer)) expirated;;
  reset l expirated now_.

Definition TimerQueue_ctor (l : nat) : M W unit :=
  fd ← createtimerfd;
  c ← Channel_ctor l fd false;
  upd_loop l (λ x, x <| timerqueue_ := mkTimerQueue fd c [] |>);;
  setreadCallback c (CbTimerRead l);;
  enableReading c.

(** *** EventLoop: timers and construction *)

Definition runAt (l : nat) (time : Timestamp) (cb : Functor) : M W (nat * Z) :=
  addTimer l cb time dzero.

Definition runAfter (l : nat) (delay : double) (cb : Functor) : M W (nat * Z) :=
  now_ ← now;
  time ← of_option "double to int64_t" (addTime now_ delay);
  runAt l time cb.

Definition runEvery (l : nat) (interval : double) (cb : Functor) : M W (nat * Z) :=
  now_ ← now;
  when ← of_option "double to int64_t" (addTime now_ interval);
  addTimer l cb when interval.

(** The members are initialised in the order of their declaration. *)
Definition EventLoop_ctor : M W nat :=
  l ← alloc;
  fd ← eventfd_create;
  w ← get;
  let tid := cur w in
  ep ← Epoller_ctor;
  modify (λ w, w <| loops ::= <[l := {|
    looping_ := false; quit_ := false; callingdoPendingFunctions_ := false;
    wakeupfd_ := fd; threadId_ := tid; epollReturnTime_ := Timestamp_ctor;
    epoller_ := ep; timerqueue_ := mkTimerQueue 0 0 []; wakeupchannel_ := 0%nat;
    channellist_ := []; pendingFunctors_ := [] |}]> |>);;
  TimerQueue_ctor l;;
  c ← Channel_ctor l fd false;
  upd_loop l (λ x, x <| wakeupchannel_ := c |>);;
  (if thisThreadLoop w !! tid is Some _
   then fails (LogFatal "Another EventLoop exists in this thread")
   else modify (λ w, w <| thisThreadLoop ::= <[tid := l]> |>));;
  setreadCallback c (CbLoopRead l);;
  enableReading c;;
  mret l.

(** [delete iter->second]. *)
Definition delete_timer (t : nat) : M W unit :=
  timer ← get_timer t;
  modify (λ w, w <| timers ::= delete t |>).

(** The channel is a member: it is destroyed after the body. *)
Definition TimerQueue_dtor (l : nat) : M W unit :=
  loop ← get_loop l;
  r ← sys (SysClose (timerfd_ (timerqueue_ loop)));
  iterM (λ e : Entry, delete_timer e.2) (timerlist_ (timerqueue_ loop));;
  Channel_dtor (timerfdchannel_ (timerqueue_ loop)).

(** The members are destroyed after the body, the last one first;
    [~Epoller] is empty. *)
Definition EventLoop_dtor (l : nat) : M W unit :=
  loop ← get_loop l;
  assert_ "!looping_" (negb (looping_ loop));;
  r ← sys (SysClose (wakeupfd_ loop));
  modify (λ w, w <| thisThreadLoop ::= delete (cur w) |>);;
  Channel_dtor (wakeupchannel_ loop);;
  TimerQueue_dtor l;;
  modify (λ w, w <| loops ::= delete l |>).
End TimerQueue.

(** ** The sorted sequence *)

Definition entry_before (a b : Entry) : Prop := entry_lt a b = true.

Lemma pair_lt_spec a b : pair_lt a b = true ↔ a.1 < b.1 ∨ (a.1 = b.1 ∧ a.2 < b.2).
Proof.
  unfold pair_lt, Timestamp_lt, microSecondsSinceEpoch.
  rewrite orb_true_iff, andb_true_iff, negb_true_iff, !Z.ltb_lt, Z.ltb_ge. lia.
Qed.

Lemma entry_lt_spec a b : entry_lt a b = true ↔ a.1 < b.1 ∨ (a.1 = b.1 ∧ (a.2 < b.2)%nat).
Proof. unfold entry_lt. rewrite pair_lt_spec. simpl. lia. Qed.

#[export] Instance entry_before_trans : Transitive entry_before.
Proof. intros a b c. unfold entry_before. rewrite !entry_lt_spec. lia. Qed.

Lemma entry_before_irrefl a : ¬ entry_before a a.
Proof. unfold entry_before. rewrite entry_lt_spec. lia. Qed.

Lemma entry_lt_total a b : entry_lt a b = false → entry_lt b a = false → a = b.
Proof.
  rewrite <- !not_true_iff_false, !entry_lt_spec. destruct a, b; simpl. intros.
  f_equal; lia.
Qed.

Lemma entry_before_NoDup (s : list Entry) : StronglySorted entry_before s → NoDup s.
Proof.
  induction 1 as [|x s Hs IH Hx]; constructor; [|done].
  intros Hin. rewrite Forall_forall in Hx. by apply (entry_before_irrefl x), Hx.
Qed.

(** Insertion of a new entry succeeds and keeps the order. *)
Lemma set_insert_new e s :
  StronglySorted entry_before s → e ∉ s →
  ∃ s', set_insert e s = (s', true) ∧ StronglySorted entry_before s' ∧ s' ≡ₚ e :: s ∧
    match s with [] => s' = [e]
    | x :: _ => if entry_lt e x then s' = e :: s else ∃ s2, s' = x :: s2 end.
Proof.
  induction 1 as [|x s Hs IH Hx]; intros Hin; simpl.
  - exists [e]. by repeat constructor.
  - apply not_elem_of_cons in Hin as [Hne Hin]. destruct (entry_lt e x) eqn:E.
    + exists (e :: x :: s). split_and!; try done. constructor; [by constructor|].
      constructor; [done|]. eapply Forall_impl; [done|]. intros y ?. by trans x.
    + destruct (entry_lt x e) eqn:E2; [|by destruct Hne; apply entry_lt_total].
      destruct (IH Hin) as (s'&->&Hs'&Hp&_). exists (x :: s'). split_and!; [done| | |by eauto].
      * constructor; [done|]. rewrite Hp. by constructor.
      * rewrite Hp. apply Permutation_swap.
Qed.

(** Inserting an entry that is there changes nothing. *)
Lemma set_insert_old e s :
  StronglySorted entry_before s → e ∈ s → set_insert e s = (s, false).
Proof.
  induction 1 as [|x s Hs IH Hx]; intros Hin; [by apply not_elem_of_nil in Hin|]. simpl.
  destruct (decide (e = x)) as [->|Hne].
  - destruct (entry_lt x x) eqn:E; [by apply entry_before_irrefl in E|done].
  - apply elem_of_cons in Hin as [?|Hin]; [done|]. rewrite Forall_forall in Hx.
    pose proof (Hx e Hin) as Hxe. destruct (entry_lt e x) eqn:E.
    + destruct (entry_before_irrefl x). by trans e.
    + unfold entry_before in Hxe. by rewrite Hxe, IH.
Qed.

(** The entries of a sorted set before and after time [now_]. *)
Lemma split_lower_bound_spec (now_ : Timestamp) s :
  StronglySorted entry_before s → Forall (λ e : Entry, Z.of_nat e.2 < UINTPTR_MAX) s →
  split_lower_bound (now_, UINTPTR_MAX) s =
    (filter (λ e : Entry, e.1 ≤ now_) s, filter (λ e : Entry, now_ < e.1) s).
Proof.
  unfold Timestamp in *.
  induction 1 as [|[ts t] s Hs IH Hx]; intros Hb; [done|]. inversion_clear Hb as [|?? Hbx Hbs].
  cbn [split_lower_bound]. destruct (pair_lt _ _) eqn:E.
  - apply pair_lt_spec in E. simpl in E, Hbx. rewrite (IH Hbs), !filter_cons. simpl.
    by rewrite decide_True, decide_False by lia.
  - rewrite <- not_true_iff_false, pair_lt_spec in E. simpl in E, Hbx.
    assert (Forall (λ e : Entry, now_ < e.1) ((ts, t) :: s)) as Hall.
    { constructor; [simpl; lia|]. eapply Forall_impl; [exact Hx|]. intros [ts' t'] Hy.
      apply entry_lt_spec in Hy. simpl in *. lia. }
    f_equal.
    + symmetry. apply filter_none. eapply Forall_impl; [exact Hall|]. intros []; simpl. lia.
    + symmetry. by apply filter_all.
Qed.

(** ** Arming the timer descriptor *)

Definition kMaxTime : Z := 2 ^ 61.

Lemma clock_range (z : Z) : 0 < z < kMaxTime / 2 → 0 ≤ z < kMaxTime.
Proof. unfold kMaxTime. change (2 ^ 61 / 2) with (2 ^ 60). lia. Qed.

(** The relative time handed to [timerfd_settime] is a valid [itimerspec], at
    least 100 microseconds, and otherwise the distance to the deadline. *)
Lemma howMachTimeFromNow_spec (now_ when : Timestamp) :
  0 ≤ now_ < kMaxTime → 0 ≤ when < kMaxTime →
  ∃ tv_sec tv_nsec, howMachTimeFromNow now_ when = Some (tv_sec, tv_nsec) ∧
    0 ≤ tv_sec ∧ 0 ≤ tv_nsec < 1000000000 ∧ 0 < tv_sec + tv_nsec ∧
    tv_sec * kMicroSecondPerSecond + tv_nsec / 1000 = Z.max 100 (when - now_).
Proof.
  unfold Timestamp, kMaxTime in *. intros Hn Hw.
  unfold howMachTimeFromNow, microSecondsSinceEpoch, kMicroSecondPerSecond.
  rewrite int64_checked_Some by lia. cbn [mbind option_bind].
  assert ((if when - now_ <? 100 then 100 else when - now_) = Z.max 100 (when - now_)) as ->
    by (destruct (Z.ltb_spec (when - now_) 100); lia).
  set (m := Z.max 100 (when - now_)).
  assert (100 ≤ m) by lia.
  rewrite Z.quot_div_nonneg, Z.rem_mod_nonneg by lia.
  pose proof (Z.div_mod m (1000 * 1000) ltac:(lia)).
  pose proof (Z.mod_pos_bound m (1000 * 1000) ltac:(lia)).
  pose proof (Z.div_pos m (1000 * 1000) ltac:(lia) ltac:(lia)).
  eexists _, _. split; [done|]. rewrite Z.div_mul by lia. lia.
Qed.

(** The deadline that descriptor [fd] was last armed for, and the time at
    which that was done, after a history of calls. *)
Definition deadline_step (fd : Z) (st : Z * option (Z * Z)) (ev : Syscall * SysRes)
    : Z * option (Z * Z) :=
  match ev with
  | (SysGettimeofday, r) =>
      match out r with OutTime tv_sec tv_usec => (now_of tv_sec tv_usec, st.2) | _ => st end
  | (SysTimerfdSettime fd' tv_sec tv_nsec, r) =>
      if fd' =? fd
      then (st.1, Some (st.1, st.1 + tv_sec * kMicroSecondPerSecond + tv_nsec / 1000))
      else st
  | _ => st
  end.
Definition deadline (fd : Z) (t : list (Syscall * SysRes)) : option (Z * Z) :=
  (foldl (deadline_step fd) (0, None) t).2.

(** The descriptor of the queue is armed for the earliest entry, if any. *)
Definition armed (q : TimerQueue) (t : list (Syscall * SysRes)) : Prop :=
  match timerlist_ q with
  | [] => True
  | (ts, _) :: _ => ∃ now_, deadline (timerfd_ q) t = Some (now_, Z.max (now_ + 100) ts)
  end.

(** ** The invariant of the queue *)

(** What the code needs of a timer: an expiration in range, and for a
    repeating timer that restarting it gives one. *)
Definition timer_ok (timer : Timer) : Prop :=
  0 < expiration_ timer < kMaxTime ∧
  (repeat_ timer = true → ∀ now_, 0 ≤ now_ < kMaxTime / 2 →
     ∃ e, addTime now_ (interval_ timer) = Some e ∧ 0 < e < kMaxTime).

(** The queue [s] is sorted and refers to live timers by their expirations;
    the timers [flying] are alive and not in the queue. *)
Record list_ok (flying : list nat) (s : list Entry) (tm : gmap nat Timer) : Prop := {
  lo_sorted : StronglySorted entry_before s;
  lo_entry : ∀ ts t, (ts, t) ∈ s → Z.of_nat t < UINTPTR_MAX ∧ (t ∉ flying) ∧
    ∃ timer, tm !! t = Some timer ∧ expiration_ timer = ts ∧ timer_ok timer;
  lo_flying : ∀ t, t ∈ flying → Z.of_nat t < UINTPTR_MAX ∧
    ∃ timer, tm !! t = Some timer ∧ timer_ok timer;
}.

Lemma list_ok_insert flying t timer s tm :
  list_ok (t :: flying) s tm → t ∉ flying → tm !! t = Some timer →
  ∃ s', set_insert (expiration_ timer, t) s = (s', true) ∧ list_ok flying s' tm ∧
    s' ≡ₚ (expiration_ timer, t) :: s ∧
    match s with [] => s' = [(expiration_ timer, t)]
    | x :: _ => if entry_lt (expiration_ timer, t) x then s' = (expiration_ timer, t) :: s
                else ∃ s2, s' = x :: s2 end.
Proof.
  intros [Hs He Hf] Ht Htm.
  destruct (Hf t) as (Hid&timer'&?&Hok); [by left|]. simplify_eq.
  destruct (set_insert_new (expiration_ timer, t) s Hs) as (s'&E&Hs'&Hp&Hhd).
  { intros Hin. apply He in Hin as (_&Hin&_). by destruct Hin; left. }
  exists s'. split_and!; try done. split; [done| |].
  - intros ts t'. rewrite Hp, elem_of_cons. intros [[= -> ->]|Hin]; [by eauto 6|].
    apply He in Hin as (?&Hin&?). split_and!; [done| |done]. intros ?. by destruct Hin; right.
  - intros t' Ht'. apply Hf. by right.
Qed.

(** Storing a timer that is not queued puts it in flight. *)
Lemma list_ok_put flying t timer s tm :
  list_ok flying s tm → t ∉ (s.*2) → Z.of_nat t < UINTPTR_MAX → timer_ok timer →
  list_ok (t :: flying) s (<[t := timer]> tm).
Proof.
  intros [Hs He Hf] Ht Hid Hok. split; [done| |].
  - intros ts t' Hin. assert (t ≠ t') as Hne.
    { intros ->. apply Ht, list_elem_of_fmap. by exists (ts, t'). }
    apply He in Hin as (?&Hnf&timer'&Ht'&?). split_and!; [done| |].
    + intros [->|?]%elem_of_cons; done.
    + exists timer'. by rewrite lookup_insert_ne.
  - intros t' Hin. destruct (decide (t = t')) as [->|]; [rewrite lookup_insert_eq; eauto|].
    rewrite lookup_insert_ne by done. apply elem_of_cons in Hin as [->|Hin]; [done|]. by apply Hf.
Qed.

Lemma list_ok_queued flying s tm t :
  list_ok flying s tm → t ∈ (s.*2) → (t ∉ flying) ∧ is_Some (tm !! t).
Proof.
  intros [_ He _] ([ts t']&->&Hin)%list_elem_of_fmap. apply He in Hin as (_&?&?&?&_). eauto.
Qed.

(** A timer that was just created is in flight. *)
Lemma list_ok_new flying t timer s tm :
  list_ok flying s tm → tm !! t = None → Z.of_nat t < UINTPTR_MAX → timer_ok timer →
  list_ok (t :: flying) s (<[t := timer]> tm) ∧ t ∉ flying.
Proof.
  intros Hlo Ht Hid Hok. split; [apply list_ok_put; [done| |done..]|].
  - intros [_ [? ?]]%(list_ok_queued _ _ _ _ Hlo). congruence.
  - intros (_&?&?&_)%Hlo. congruence.
Qed.

Lemma list_ok_mono flying flying' s tm :
  flying' ⊆ flying → list_ok flying s tm → list_ok flying' s tm.
Proof.
  intros Hsub [Hs He Hf]. split; [done| |by auto].
  intros ts t Hin. destruct (He ts t Hin) as (?&?&?). split_and!; auto.
Qed.

(** Timers that are neither queued nor in flight can change. *)
Lemma list_ok_timers flying s tm tm' :
  list_ok flying s tm →
  (∀ t, t ∈ flying ∨ t ∈ (s.*2) → tm' !! t = tm !! t) → list_ok flying s tm'.
Proof.
  intros [Hs He Hf] Heq. split; [done| |].
  - intros ts t Hin. rewrite Heq; [by apply He|]. right. apply list_elem_of_fmap. by exists (ts, t).
  - intros t Hin. rewrite Heq; [by apply Hf|]. by left.
Qed.

Lemma list_ok_ids flying s tm : list_ok flying s tm → NoDup (s.*2).
Proof.
  intros [Hs He _]. apply NoDup_fmap_2_strong; [|by apply entry_before_NoDup].
  intros [ts1 t1] [ts2 t2] H1 H2 E. simpl in E. subst t2.
  apply He in H1 as (_&_&timer1&?&?&_). apply He in H2 as (_&_&timer2&?&?&_). congruence.
Qed.

(** What [reset] does to an expired timer: restart it or delete it. *)
Lemma list_ok_restart t flying timer s tm :
  list_ok (t :: flying) s tm → timer_ok timer → list_ok (t :: flying) s (<[t := timer]> tm).
Proof.
  intros Hlo Hok. apply list_ok_put; [| |by apply Hlo; left|done].
  - eapply list_ok_mono; [|exact Hlo]. by intros ? ?; right.
  - intros [Hnf _]%(list_ok_queued _ _ _ _ Hlo). destruct Hnf. by left.
Qed.

Lemma list_ok_delete t flying s tm :
  list_ok (t :: flying) s tm → t ∉ flying → list_ok flying s (delete t tm).
Proof.
  intros Hlo Ht. eapply list_ok_timers; [eapply list_ok_mono; [|exact Hlo]; by intros ? ?; right|].
  intros t' Hin. rewrite lookup_delete_ne; [done|]. intros ->. destruct Hin as [|Hin]; [done|].
  apply (list_ok_queued _ _ _ _ Hlo) in Hin as [Hnf _]. destruct Hnf. by left.
Qed.

(** Taking the entries that have expired puts their timers in flight. *)
Lemma list_ok_split now_ s tm (expired := filter (λ e : Entry, e.1 ≤ now_) s) :
  list_ok [] s tm → list_ok (expired.*2) (filter (λ e : Entry, now_ < e.1) s) tm.
Proof.
  intros Hlo. destruct Hlo as [Hs He _]. split.
  - by apply StronglySorted_filter.
  - intros ts t Hin. apply list_elem_of_filter in Hin as [Hlt Hin].
    destruct (He _ _ Hin) as (?&_&timer&?&Hts&?). split_and!; [done| |by eauto].
    intros Hex. apply list_elem_of_fmap in Hex as ([ts2 t2]&E&Hex). simpl in E. subst t2.
    apply list_elem_of_filter in Hex as [Hle Hex]. simpl in *.
    apply He in Hex as (_&_&timer2&?&?&_). simplify_eq. unfold Timestamp in *. lia.
  - intros t Hin. apply list_elem_of_fmap in Hin as ([ts2 t2]&->&Hin).
    apply list_elem_of_filter in Hin as [_ Hin]. apply He in Hin as (?&_&timer&?&_&?). eauto.
Qed.

(** What the queue relies on: [gettimeofday] fills in a time in range. *)
Class Clock (K : Type) `{Kernel K} :=
  clock_ok : ∀ k, ∃ tv_sec tv_usec e k',
    syscall SysGettimeofday k = (mkRes 0 e (OutTime tv_sec tv_usec), k') ∧
    0 < now_of tv_sec tv_usec < kMaxTime / 2.

Section QueueInv.
Context {K U : Type} `{Kernel K} `{!Clock K}.
Abbreviation W := (World K U).
Implicit Types (w : W) (l t : nat).

Definition timer_queue (w : W) (l : nat) : option TimerQueue := timerqueue_ <$> loops w !! l.

(** The queue of loop [l], running in its thread; [flying] are the timers
    taken out by [getexpiration] and not yet given back by [reset]. *)
Record queue_ok (flying : list nat) (l : nat) (q : TimerQueue) (w : W) : Prop := {
  qo_loop : ∃ loop, loops w !! l = Some loop ∧ threadId_ loop = cur w ∧ timerqueue_ loop = q;
  qo_list : list_ok flying (timerlist_ q) (timers w);
  qo_fresh : ∀ t, is_Some (timers w !! t) → (t < next_id w)%nat;
}.

Lemma wp_now (Q : Timestamp → W → Prop) w :
  (∀ k tv_sec tv_usec e (now_ := now_of tv_sec tv_usec), 0 < now_ < kMaxTime / 2 →
     Q now_ (w <| kern := k |>
               <| trace ::= λ tr, tr ++ [(SysGettimeofday, mkRes 0 e (OutTime tv_sec tv_usec))] |>)) →
  wp now Q w.
Proof.
  intros HQ. unfold now. wp_step. apply wp_sys. intros r k E.
  destruct (clock_ok (kern w)) as (sec&usec&e&k'&E'&Hr). rewrite E' in E. simplify_eq.
  simpl. wp_step. by apply HQ.
Qed.

(** The system calls that arm a timer. *)
Definition arming (ev : Syscall * SysRes) : Prop :=
  match ev.1 with SysGettimeofday | SysTimerfdSettime _ _ _ => True | _ => False end.

(** Only the queue of [l] and the system have moved. *)
Definition timer_frame (w w' : W) : Prop :=
  w' = w <| loops := loops w' |> <| kern := kern w' |> <| trace := trace w' |> ∧
  ∃ evs, trace w' = trace w ++ evs ∧ Forall arming evs.

Lemma wp_resetTimerfd fd (ts : Timestamp) (Q : unit → W → Prop) w :
  0 ≤ ts < kMaxTime →
  (∀ k tr now_, deadline fd tr = Some (now_, Z.max (now_ + 100) ts) →
     (∃ evs, tr = trace w ++ evs ∧ Forall arming evs) → Q tt (w <| kern := k |> <| trace := tr |>)) →
  wp (resetTimerfd fd ts) Q w.
Proof.
  intros Hts HQ. unfold resetTimerfd. wp_step. apply wp_now. intros k sec usec e now_ Hn.
  destruct (howMachTimeFromNow_spec now_ ts) as (s&ns&E&_&_&_&Hsum);
    [by apply clock_range|done|].
  wp_step. eapply wp_of_option; [exact E|]. cbn [fst snd]. wp_step.
  apply wp_sys. intros r k' _. wp_step. apply (HQ _ _ now_).
  - cbn [trace upd]. unfold deadline. rewrite !foldl_app.
    cbn [foldl deadline_step fst snd out]. rewrite Z.eqb_refl. cbn [snd fst]. fold now_.
    do 2 f_equal. rewrite <- Z.add_assoc, Hsum. unfold Timestamp in *. lia.
  - eexists. cbn. rewrite <- app_assoc. split; [done|]. by repeat constructor.
Qed.

(** [insert] of a timer that is in flight. *)
Lemma wp_insert flying l t timer q (Q : bool → W → Prop) w :
  queue_ok (t :: flying) l q w → t ∉ flying → timers w !! t = Some timer →
  (∀ s', let q' := q <| timerlist_ := s' |> in
     let w' := w <| loops ::= alter (λ x, x <| timerqueue_ ::= λ q, q <| timerlist_ := s' |> |>) l |> in
     queue_ok flying l q' w' →
     s' ≡ₚ (expiration_ timer, t) :: timerlist_ q →
     let first := match timerlist_ q with [] => true
                  | x :: _ => Timestamp_lt (expiration_ timer) x.1 end in
     (if first then head s' = Some (expiration_ timer, t)
      else fst <$> head s' = fst <$> head (timerlist_ q)) →
     Q first w') →
  wp (insert l t) Q w.
Proof.
  intros [(loop&Hl&Hth&<-) Hlo Hfr] Hnf Ht HQ.
  unfold insert, get_timer, get_loop, upd_timerlist, upd_loop.
  wp_step. eapply wp_deref; [done|]. wp_step. eapply wp_deref; [done|].
  destruct (list_ok_insert flying t timer _ _ Hlo Hnf Ht) as (s'&->&Hlo'&Hp&Hhd).
  wp_step. apply wp_assert; [done|]. wp_step. apply HQ; [|done|].
  - split; [|done|done]. cbn. rewrite lookup_alter_eq, Hl. eexists. by split_and!.
  - destruct (timerlist_ (timerqueue_ loop)) as [|[ts2 t2] s]; [by rewrite Hhd|].
    unfold Timestamp_lt, microSecondsSinceEpoch. destruct (entry_lt _ _) eqn:E.
    + rewrite Hhd. apply entry_lt_spec in E. simpl in *.
      destruct (Z.ltb_spec (expiration_ timer) ts2); [done|].
      simpl. f_equal. unfold Timestamp in *. lia.
    + destruct Hhd as [s2 ->]. rewrite <- not_true_iff_false, entry_lt_spec in E. simpl in *.
      destruct (Z.ltb_spec (expiration_ timer) ts2); [lia|done].
Qed.

Lemma armed_head q q' tr :
  timerfd_ q' = timerfd_ q → fst <$> head (timerlist_ q') = fst <$> head (timerlist_ q) →
  armed q tr → armed q' tr.
Proof.
  unfold armed. intros -> Hhd.
  destruct (timerlist_ q) as [|[]], (timerlist_ q') as [|[]]; simpl in Hhd; by simplify_eq.
Qed.

Lemma queue_ok_sys flying l q w k tr :
  queue_ok flying l q w → queue_ok flying l q (w <| kern := k |> <| trace := tr |>).
Proof. intros []. by split. Qed.

Lemma wp_addTimerInLoop flying l t timer q (Q : unit → W → Prop) w :
  queue_ok (t :: flying) l q w → t ∉ flying → timers w !! t = Some timer →
  (∀ w' q', queue_ok flying l q' w' → timerfd_ q' = timerfd_ q →
     timerlist_ q' ≡ₚ (expiration_ timer, t) :: timerlist_ q →
     timer_frame w w' →
     (armed q (trace w) → armed q' (trace w')) → Q tt w') →
  wp (addTimerInLoop l t) Q w.
Proof.
  intros Hq Hnf Ht HQ. unfold addTimerInLoop, get_loop, get_timer. wp_step.
  destruct (qo_loop _ _ _ _ Hq) as (loop&Hl&Hth&Eq).
  eapply wp_assertInLoopThread; [done..|]. wp_step. eapply wp_insert; [done..|].
  intros s' q' w' Hq' Hp first Hhd. wp_step.
  destruct (qo_loop _ _ _ _ Hq') as (loop'&Hl'&_&Eq').
  eapply wp_deref; [exact Hl'|]. wp_step. eapply wp_deref; [exact Ht|]. rewrite Eq'. wp_step.
  destruct (lo_flying _ _ _ (qo_list _ _ _ _ Hq) t) as (_&timer'&?&[? _]); [by left|].
  assert (timer' = timer) as -> by congruence. destruct first eqn:Efirst.
  - apply wp_resetTimerfd; [lia|]. intros k tr now_ Hd Hev.
    apply (HQ _ q'); [by apply queue_ok_sys|done..|]. intros _. unfold armed. simpl.
    destruct s' as [|[]]; [done|]. simpl in Hhd. simplify_eq. eauto.
  - apply (HQ _ q'); [done|done|done| |by apply armed_head].
    split; [done|]. exists []. split; [|done]. unfold w'; cbn. by rewrite app_nil_r.
Qed.

(** The world in which [addTimer] has made the timer object. *)
Definition with_timer (timer : Timer) (w : W) : W :=
  w <| next_id := S (next_id w) |> <| numCreated := numCreated w + 1 |>
    <| timers ::= <[next_id w := timer]> |>.

Lemma wp_addTimer flying l q cb (when : Timestamp) interval (Q : nat * Z → W → Prop) w
    (timer := mkTimer interval (dgt interval dzero) when cb (numCreated w + 1)) :
  queue_ok flying l q w → timer_ok timer →
  Z.of_nat (next_id w) < UINTPTR_MAX → 0 ≤ numCreated w < 2 ^ 63 - 1 →
  (∀ w' q', queue_ok flying l q' w' → timerfd_ q' = timerfd_ q →
     timerlist_ q' ≡ₚ (when, next_id w) :: timerlist_ q →
     timer_frame (with_timer timer w) w' →
     (armed q (trace w) → armed q' (trace w')) → Q (next_id w, numCreated w + 1) w') →
  wp (addTimer l cb when interval) Q w.
Proof.
  intros [(loop&Hl&Hth&Eq) Hlo Hfr] Htimer Hid Hnum HQ.
  assert (timers w !! next_id w = None) as Hnew.
  { apply eq_None_not_Some. intros Ht%Hfr. lia. }
  destruct (list_ok_new _ _ _ _ _ Hlo Hnew Hid Htimer) as [Hlo' Hnf].
  unfold addTimer, Timer_ctor, alloc, runInLoop, get_timer. wp_step.
  apply AtomicIntegerT.wp_incrementAndGet; [done|done|]. wp_step.
  eapply wp_isInLoopThread; [exact Hl|]. cbn [cur upd]. rewrite Hth, Z.eqb_refl.
  eapply wp_addTimerInLoop; [split; [eauto|exact Hlo'|]|done|apply lookup_insert_eq|].
  - intros t. cbn. destruct (decide (t = next_id w)) as [->|]; [lia|].
    rewrite lookup_insert_ne by done. intros ?%Hfr. lia.
  - intros w' q' Hq' Hfd Hp Htm Harm. wp_step. eapply wp_deref.
    + rewrite (proj1 Htm). apply lookup_insert_eq.
    + wp_step. by apply (HQ w' q').
Qed.

(** The delay of a timer in microseconds. *)
Definition delay_us (delay : double) : option Z :=
  int64_of_double (dmul delay (double_of_Z kMicroSecondPerSecond)).

Lemma wp_runAfter flying l q cb delay d (Q : nat * Z → W → Prop) w :
  queue_ok flying l q w → delay_us delay = Some d → 0 ≤ d < kMaxTime / 2 →
  Z.of_nat (next_id w) < UINTPTR_MAX → 0 ≤ numCreated w < 2 ^ 63 - 1 →
  (∀ w' q' tv_sec tv_usec e evs (now_ := now_of tv_sec tv_usec),
     let timer := mkTimer dzero false (now_ + d) cb (numCreated w + 1) in
     queue_ok flying l q' w' →
     trace w' = trace w ++ (SysGettimeofday, mkRes 0 e (OutTime tv_sec tv_usec)) :: evs →
     Forall arming evs →
     w' = with_timer timer w <| loops := loops w' |> <| kern := kern w' |> <| trace := trace w' |> →
     Q (next_id w, numCreated w + 1) w') →
  wp (runAfter l delay cb) Q w.
Proof.
  intros Hq Hd Hrange Hid Hnum HQ. unfold runAfter, runAt. wp_step.
  apply wp_now. intros k sec usec e now_ Hnow. wp_step.
  assert (addTime now_ delay = Some (now_ + d)) as Hadd.
  { unfold addTime. fold (delay_us delay). rewrite Hd. cbn. apply int64_checked_Some.
    unfold microSecondsSinceEpoch, kMaxTime in *. change (2 ^ 61 / 2) with (2 ^ 60) in *. lia. }
  eapply wp_of_option; [exact Hadd|].
  eapply wp_addTimer; [by apply (queue_ok_sys _ _ _ _ k (trace w ++ _))| |done|done|].
  { split; [|done]. cbn. unfold Timestamp, kMaxTime in *. change (2 ^ 61 / 2) with (2 ^ 60) in *. lia. }
  intros w' q' Hq' _ _ [Ew (evs&Ht&Hevs)] _. apply (HQ w' q' sec usec e evs); [done| |done|exact Ew].
  rewrite Ht. cbn. by rewrite <- app_assoc.
Qed.

(** C17: a timer added in the loop's thread is a fresh object with the next
    sequence number; it joins the queue, which stays sorted and alive, and
    the timer descriptor stays armed for the earliest deadline. *)
Theorem addTimer_queues (flying : list nat) (l : nat) (q : TimerQueue) (cb : Functor)
  (when : Timestamp) (interval : double) (w : W)
  (timer := mkTimer interval (dgt interval dzero) when cb (numCreated w + 1))
  (Hq : queue_ok flying l q w) (Htimer : timer_ok timer)
  (Hid : Z.of_nat (next_id w) < UINTPTR_MAX) (Hnum : 0 ≤ numCreated w < 2 ^ 63 - 1) :
  ∃ w' q', addTimer l cb when interval w = Ret (next_id w, numCreated w + 1) w' ∧
    queue_ok flying l q' w' ∧ timerfd_ q' = timerfd_ q ∧
    timerlist_ q' ≡ₚ (when, next_id w) :: timerlist_ q ∧
    timers w' = <[next_id w := timer]> (timers w) ∧
    (armed q (trace w) → armed q' (trace w')).
Proof.
  cut (wp (addTimer l cb when interval) (λ r w', r = (next_id w, numCreated w + 1) ∧
    ∃ q', queue_ok flying l q' w' ∧ timerfd_ q' = timerfd_ q ∧
    timerlist_ q' ≡ₚ (when, next_id w) :: timerlist_ q ∧
    timers w' = <[next_id w := timer]> (timers w) ∧
    (armed q (trace w) → armed q' (trace w'))) w).
  { intros Hwp. apply wp_run in Hwp as (r&w'&?&->&q'&?). eauto. }
  eapply wp_addTimer; [done..|]. intros w' q' Hq' Hfd Hp Htm Harm. split; [done|].
  exists q'. split_and!; [done..| |done]. by rewrite (proj1 Htm).
Qed.

(** *** Handling expired timers *)

(** What becomes of an expired timer at time [now_]: a repeating one expires
    next one interval later, another one is deleted. *)
Definition after_expiry (now_ : Timestamp) (timer : Timer) : option Timer :=
  if repeat_ timer
  then e ← addTime now_ (interval_ timer); Some (timer <| expiration_ := e |>)
  else None.

Definition rescheduled (now_ : Timestamp) (tm : gmap nat Timer) (expired : list Entry)
    : list Entry :=
  omap (λ e : Entry, timer ← tm !! e.2; timer' ← after_expiry now_ timer;
                     Some (expiration_ timer', e.2)) expired.

Lemma after_expiry_ok now_ timer :
  timer_ok timer → 0 ≤ now_ < kMaxTime / 2 → repeat_ timer = true →
  ∃ e, addTime now_ (interval_ timer) = Some e ∧
    after_expiry now_ timer = Some (timer <| expiration_ := e |>) ∧
    timer_ok (timer <| expiration_ := e |>).
Proof.
  intros [_ Hr] Hn Hrep. destruct (Hr Hrep now_ Hn) as (e&He&?). exists e.
  unfold after_expiry. rewrite Hrep, He. done.
Qed.

(** One round of the loop of [reset]. *)
Lemma wp_reset_timer now_ flying l t ts q (Q : unit → W → Prop) w timer :
  queue_ok (t :: flying) l q w → t ∉ flying → timers w !! t = Some timer →
  0 ≤ now_ < kMaxTime / 2 →
  (∀ w' q', queue_ok flying l q' w' → timerfd_ q' = timerfd_ q → user w' = user w →
     timerlist_ q' ≡ₚ rescheduled now_ (timers w) [(ts, t)] ++ timerlist_ q →
     timers w' = partial_alter (λ _, after_expiry now_ timer) t (timers w) → Q tt w') →
  wp (timer ← get_timer t;
      if repeat_ timer
      then Timer_restart t now_;; b ← insert l t; mret tt
      else modify (λ w, w <| timers ::= delete t |>)) Q w.
Proof.
  intros Hq Hnf Ht Hn HQ. unfold get_timer. wp_step. eapply wp_deref; [exact Ht|].
  unfold rescheduled in HQ. cbn [omap list_omap fst snd] in HQ. rewrite Ht in HQ.
  destruct Hq as [Hl Hlo Hfr].
  assert (timer_ok timer) as Hok.
  { destruct (lo_flying _ _ _ Hlo t) as (_&?&?&?); [by left|]. congruence. }
  destruct (repeat_ timer) eqn:Hrep.
  - unfold Timer_restart, get_timer, upd_timer. wp_step. eapply wp_deref; [exact Ht|].
    rewrite Hrep. destruct (after_expiry_ok now_ timer Hok Hn Hrep) as (e&He&Ha&Hok').
    wp_step. eapply wp_of_option; [exact He|]. wp_step.
    eapply (wp_insert flying l t (timer <| expiration_ := e |>) q); [|done| |].
    + split; [done| |].
      * cbn. rewrite (alter_as_insert _ _ _ _ Ht). by apply list_ok_restart.
      * intros t' Ht'. cbn in *. apply Hfr. rewrite lookup_alter in Ht'.
        case_decide; [subst|done]. by rewrite Ht.
    + cbn. by rewrite lookup_alter_eq, Ht.
    + intros s' q' w' Hq' Hp first Hhd. wp_step. apply (HQ w' q'); [done..| |].
      * cbn. rewrite Ha. exact Hp.
      * rewrite Ha. cbn. by rewrite (alter_as_insert _ _ _ _ Ht).
  - assert (after_expiry now_ timer = None) as Ha by (unfold after_expiry; by rewrite Hrep).
    wp_step. apply (HQ _ q); [|done|done|cbn; by rewrite Ha|by rewrite Ha].
    split; [done|by apply list_ok_delete|].
    cbn. intros t' [x Hx]. apply lookup_delete_Some in Hx as [_ Hx]. eauto.
Qed.

Lemma rescheduled_app now_ tm es1 es2 :
  rescheduled now_ tm (es1 ++ es2) = rescheduled now_ tm es1 ++ rescheduled now_ tm es2.
Proof. apply omap_app. Qed.

Lemma rescheduled_ext now_ tm tm' es :
  (∀ t, t ∈ (es.*2) → tm' !! t = tm !! t) → rescheduled now_ tm' es = rescheduled now_ tm es.
Proof.
  intros Heq. apply list_omap_ext, Forall_Forall2_diag, Forall_forall. intros e He.
  rewrite Heq; [done|]. by apply list_elem_of_fmap_2.
Qed.

(** The loop of [reset], after the timers [done] of [expired]. *)
Definition reset_inv (now_ : Timestamp) (expired : list Entry) (l : nat) (q : TimerQueue) (w : W)
    (done : list Entry) (w' : W) : Prop :=
  ∃ q', (∀ rest, done ++ rest = expired → queue_ok (rest.*2) l q' w') ∧
    timerfd_ q' = timerfd_ q ∧ user w' = user w ∧
    timerlist_ q' ≡ₚ rescheduled now_ (timers w) done ++ timerlist_ q ∧
    (∀ t, t ∉ (done.*2) → timers w' !! t = timers w !! t) ∧
    (∀ t, t ∈ (done.*2) → timers w' !! t = (timer ← timers w !! t; after_expiry now_ timer)).

Lemma wp_reset_loop l expired now_ q w :
  queue_ok (expired.*2) l q w → NoDup (expired.*2) → 0 ≤ now_ < kMaxTime / 2 →
  wp (iterM (λ e : Entry,
        timer ← get_timer e.2;
        if repeat_ timer
        then Timer_restart e.2 now_;; b ← insert l e.2; mret tt
        else modify (λ w, w <| timers ::= delete e.2 |>)) expired)
     (λ _ w', reset_inv now_ expired l q w expired w') w.
Proof.
  intros Hq Hnd Hn. apply (wp_iterM _ (reset_inv now_ expired l q w)).
  - intros done [ts t] rest w1 Hsplit (q1&Hq1&Hfd1&Hu1&Hp1&Hout1&Hin1).
    specialize (Hq1 _ Hsplit). rewrite <- Hsplit, fmap_app, fmap_cons in Hnd.
    apply NoDup_app in Hnd as (_&Hdone&(Hrest&_)%NoDup_cons).
    assert (t ∉ (done.*2)) as Htd by (intros Hin; apply (Hdone t Hin); by left).
    destruct (lo_flying _ _ _ (qo_list _ _ _ _ Hq1) t) as (_&timer&Ht&_); [by left|].
    eapply (wp_reset_timer now_ (rest.*2) l t ts q1 _ w1 timer); [done..|].
    intros w2 q2 Hq2 Hfd2 Hu2 Hp2 Htm2. exists q2. split_and!.
    + intros rest' Hs'. rewrite <- Hsplit, <- app_assoc in Hs'.
      apply app_inv_head in Hs'. simpl in Hs'. by simplify_eq.
    + congruence.
    + congruence.
    + rewrite rescheduled_app, Hp2, Hp1. rewrite (rescheduled_ext now_ (timers w) (timers w1)).
      * by rewrite app_assoc, (Permutation_app_comm (rescheduled _ _ [_])).
      * intros t'. simpl. intros [->|[]%not_elem_of_nil]%elem_of_cons. by apply Hout1.
    + intros t'. rewrite fmap_app, elem_of_app. intros Hnin. rewrite Htm2.
      rewrite lookup_partial_alter_ne; [apply Hout1; tauto|].
      intros ->. apply Hnin. right. by left.
    + intros t'. rewrite fmap_app, elem_of_app. rewrite Htm2. intros Hin.
      destruct (decide (t = t')) as [<-|Hne].
      * rewrite lookup_partial_alter_eq. rewrite <- (Hout1 t Htd), Ht. done.
      * rewrite lookup_partial_alter_ne by done. apply Hin1. destruct Hin as [|Hin]; [done|].
        simpl in Hin. apply elem_of_cons in Hin as [->|[]%not_elem_of_nil]. done.
  - exists q. split_and!; [by intros rest <-|done..|]. by intros t ?%not_elem_of_nil.
Qed.

Lemma wp_reset l expired now_ q w :
  queue_ok (expired.*2) l q w → NoDup (expired.*2) → 0 ≤ now_ < kMaxTime / 2 →
  wp (reset l expired now_) (λ _ w', ∃ q', queue_ok [] l q' w' ∧ armed q' (trace w') ∧
    timerfd_ q' = timerfd_ q ∧ user w' = user w ∧
    timerlist_ q' ≡ₚ rescheduled now_ (timers w) expired ++ timerlist_ q ∧
    (∀ t, t ∉ (expired.*2) → timers w' !! t = timers w !! t) ∧
    (∀ t, t ∈ (expired.*2) → timers w' !! t = (timer ← timers w !! t; after_expiry now_ timer))) w.
Proof.
  intros Hq Hnd Hn. unfold reset, get_loop. wp_step.
  eapply wp_mono; [by apply wp_reset_loop|].
  intros [] w1 (q1&Hq1&Hfd1&Hu1&Hp1&Hout1&Hin1). cbv beta.
  specialize (Hq1 [] (app_nil_r _)). destruct (qo_loop _ _ _ _ Hq1) as (loop&Hl&_&Eq).
  wp_step. eapply wp_deref; [exact Hl|]. rewrite Eq. wp_step.
  destruct (timerlist_ q1) as [|[ts t] s] eqn:Els; cbn [valid Timestamp_ctor microSecondsSinceEpoch].
  - exists q1. unfold armed. rewrite Els. by split_and!.
  - destruct (lo_entry _ _ _ (qo_list _ _ _ _ Hq1) ts t) as (_&_&timer&_&Hts&[Hpos _]).
    { rewrite Els. by left. }
    rewrite Hts in Hpos. cbn [fst]. unfold valid, microSecondsSinceEpoch.
    rewrite (proj2 (Z.ltb_lt _ _)) by apply Hpos.
    apply wp_resetTimerfd; [lia|]. intros k tr now' Hd _. exists q1.
    unfold armed. rewrite Els. split_and!; try done; [by apply queue_ok_sys|by eauto].
Qed.

Lemma wp_getexpiration l (now_ : Timestamp) q (Q : list Entry → W → Prop) w :
  queue_ok [] l q w →
  (∀ w' q', let expired := filter (λ e : Entry, e.1 ≤ now_) (timerlist_ q) in
     queue_ok (expired.*2) l q' w' → timerfd_ q' = timerfd_ q →
     timers w' = timers w → user w' = user w → Q expired w') →
  wp (getexpiration l now_) Q w.
Proof.
  intros [(loop&Hl&Hth&<-) Hlo Hfr] HQ. unfold getexpiration, get_loop, upd_timerlist, upd_loop.
  wp_step. eapply wp_deref; [exact Hl|].
  rewrite split_lower_bound_spec; [|by apply Hlo|].
  2: { apply Forall_forall. intros [ts t] Hin. by apply (lo_entry _ _ _ Hlo) in Hin as (?&_). }
  wp_step. apply wp_assert.
  { destruct (filter (λ e : Entry, now_ < e.1) _) as [|e s] eqn:E; [done|].
    assert (e ∈ filter (λ e : Entry, now_ < e.1) (timerlist_ (timerqueue_ loop))) as Hin
      by (rewrite E; by left).
    apply list_elem_of_filter in Hin as [Hlt _]. by apply Z.ltb_lt. }
  wp_step. apply (HQ _ ((timerqueue_ loop)
    <| timerlist_ := filter (λ e : Entry, now_ < e.1) (timerlist_ (timerqueue_ loop)) |>)); try done.
  split; [|by apply list_ok_split|done].
  cbn. rewrite lookup_alter_eq, Hl. eexists. by split_and!.
Qed.

Lemma now_run w : ∃ k tr now_, now w = Ret now_ (w <| kern := k |> <| trace := tr |>) ∧
  0 < now_ < kMaxTime / 2.
Proof.
  assert (wp now (λ now_ w0, (∃ k tr, w0 = w <| kern := k |> <| trace := tr |>) ∧
    0 < now_ < kMaxTime / 2) w) as Hwp by (apply wp_now; eauto).
  apply wp_run in Hwp as (now_&?&?&(k&tr&->)&?). by exists k, tr, now_.
Qed.

(** The pass over the expired timers, which stay in flight. *)
Lemma wp_run_expired (run : Functor → M W unit) (ran : U → list Functor) l q w expired :
  (∀ cb flying q w, queue_ok flying l q w →
     wp (run cb) (λ _ w', ran (user w') = ran (user w) ++ [cb] ∧
       (∀ t, t ∈ flying → timers w' !! t = timers w !! t) ∧
       ∃ q', queue_ok flying l q' w' ∧ timerfd_ q' = timerfd_ q) w) →
  queue_ok (expired.*2) l q w →
  wp (iterM (λ e : Entry, timer ← get_timer e.2; run (callback_ timer)) expired)
     (λ _ w', (∃ q', queue_ok (expired.*2) l q' w' ∧ timerfd_ q' = timerfd_ q) ∧
        (∀ t, t ∈ (expired.*2) → timers w' !! t = timers w !! t) ∧
        ran (user w') = ran (user w) ++ omap (λ e, callback_ <$> timers w !! e.2) expired) w.
Proof.
  intros Hrun Hq.
  apply (wp_iterM _ (λ done w', (∃ q', queue_ok (expired.*2) l q' w' ∧ timerfd_ q' = timerfd_ q) ∧
    (∀ t, t ∈ (expired.*2) → timers w' !! t = timers w !! t) ∧
    ran (user w') = ran (user w) ++ omap (λ e, callback_ <$> timers w !! e.2) done)).
  - intros done [ts t] rest w1 Hsplit ((q1&Hq1&Hfd1)&Hsame&Hran).
    assert (t ∈ (expired.*2)) as Hin.
    { rewrite <- Hsplit, fmap_app, elem_of_app. right. by left. }
    destruct (lo_flying _ _ _ (qo_list _ _ _ _ Hq1) t Hin) as (_&timer&Ht&_).
    unfold get_timer. wp_step. eapply wp_deref; [exact Ht|].
    eapply wp_mono; [by eapply Hrun|]. intros [] w2 (Hran2&Hsame2&q2&Hq2&Hfd2).
    split_and!; [exists q2; by split; [|congruence]| |].
    + intros t' Ht'. by rewrite Hsame2, Hsame.
    + rewrite Hran2, Hran, omap_app. simpl. rewrite Hsame in Ht by done. rewrite Ht.
      by rewrite <- app_assoc.
  - split_and!; [by exists q|done|]. by rewrite app_nil_r.
Qed.

(** ** The end of a loop *)

Lemma wp_delete_timer t (Q : unit → W → Prop) w :
  is_Some (timers w !! t) → Q tt (w <| timers ::= delete t |>) → wp (delete_timer t) Q w.
Proof.
  intros [timer Ht] HQ. unfold delete_timer, get_timer. wp_step. eapply wp_deref; [exact Ht|]. by wp_step.
Qed.

Lemma wp_delete_timers (s : list Entry) (Q : unit → W → Prop) w :
  NoDup (s.*2) → (∀ t, t ∈ s.*2 → is_Some (timers w !! t)) →
  Q tt (w <| timers := foldl (λ m t, delete t m) (timers w) (s.*2) |>) →
  wp (iterM (λ e : Entry, delete_timer e.2) s) Q w.
Proof.
  induction s as [|[ts t] s IH] in w |- *; cbn [fmap list_fmap iterM snd]; intros Hnd Hin HQ.
  - wp_step. by destruct w.
  - inversion Hnd as [|? ? Hni Hnd']; subst. wp_step. apply wp_delete_timer; [apply Hin; by left|].
    apply IH; [done| |by destruct w]. intros t' Ht'. cbn. rewrite lookup_delete_ne by (by intros ->).
    apply Hin. by right.
Qed.

Lemma lookup_delete_all {A} (s : list nat) (m : gmap nat A) t :
  foldl (λ m t, delete t m) m s !! t = if bool_decide (t ∈ s) then None else m !! t.
Proof.
  induction s as [|u s IH] in m |- *; cbn [foldl]; [done|]. rewrite IH.
  destruct (decide (t ∈ s)) as [Hin|Hin].
  - by rewrite !bool_decide_true by (by try right).
  - rewrite (bool_decide_false _ Hin). destruct (decide (t = u)) as [->|Hne].
    + rewrite bool_decide_true by left. apply lookup_delete_eq.
    + rewrite bool_decide_false by (by intros [->|?]%elem_of_cons). by apply lookup_delete_ne.
Qed.

Lemma wp_Channel_dtor c ch (Q : unit → W → Prop) w :
  chans w !! c = Some ch → eventHandling_ ch = false → Q tt (w <| chans ::= delete c |>) →
  wp (Channel_dtor c) Q w.
Proof.
  intros Hc He HQ. unfold Channel_dtor, get_chan. wp_step. eapply wp_deref; [exact Hc|]. wp_step.
  apply wp_assert; [by rewrite He|]. by wp_step.
Qed.

End QueueInv.

(** ** A concrete queue *)

(** An operating system whose clock advances by a microsecond per reading; all
    else succeeds. *)
Definition tick (k : Z) : Z := k `mod` 2 ^ 59 + 1.
#[export] Instance clock_kernel : Kernel Z := λ c k,
  match c with
  | SysGettimeofday => (mkRes 0 0 (OutTime (tick k / 1000000) (tick k `mod` 1000000)), k + 1)
  | _ => (mkRes 0 0 NoOut, k)
  end.

#[export] Instance clock_kernel_ok : Clock Z.
Proof.
  intros k. eexists _, _, _, _. split; [reflexivity|].
  pose proof (Z.mod_pos_bound k (2 ^ 59) ltac:(lia)).
  unfold now_of, kMicroSecondPerSecond. rewrite (Z.mul_comm _ (1000 * 1000)).
  change (1000 * 1000) with 1000000. rewrite <- Z.div_mod by lia.
  unfold tick, kMaxTime. change (2 ^ 61 / 2) with (2 ^ 60). rewrite wraps_small by lia. lia.
Qed.

Module TimerDemo.
Definition one_shot (ts : Timestamp) (n : nat) : Timer := mkTimer dzero false ts (FUser n) 1.
Definition every_second (ts : Timestamp) (n : nat) : Timer :=
  mkTimer (double_of_Z 1) true ts (FUser n) 2.
Definition queue : TimerQueue :=
  mkTimerQueue 7 1 [(100, 11%nat); (500, 12%nat); (9000000, 13%nat)].
Definition loop : EventLoop :=
  (ChannelDemo.loop ∅) <| threadId_ := 1 |> <| timerqueue_ := queue |>.
Definition w0 : World Z (list Functor) :=
  (mkWorld 1000 [] 1 ∅ 3 20%nat ∅ {[0%nat := loop]}
    (<[11%nat := one_shot 100 1]> (<[12%nat := every_second 500 2]>
      {[13%nat := one_shot 9000000 3]})) ∅ ∅ ∅ ∅ ∅ []).
Definition run (f : Functor) : M (World Z (list Functor)) unit :=
  modify (λ w, w <| user ::= λ u, u ++ [f] |>).

Lemma one_shot_ok ts n : 0 < ts < kMaxTime → timer_ok (one_shot ts n).
Proof. by split. Qed.
Lemma every_second_ok ts n : 0 < ts < kMaxTime → timer_ok (every_second ts n).
Proof.
  intros Hts. split; [done|]. intros _ now_ Hn. exists (now_ + 1000000).
  unfold addTime. change (int64_of_double _) with (Some 1000000). cbn [mbind option_bind].
  unfold microSecondsSinceEpoch, kMaxTime in *. change (2 ^ 61 / 2) with (2 ^ 60) in Hn.
  rewrite int64_checked_Some by lia. split; [done|lia].
Qed.

Lemma w0_ok : queue_ok [] 0 queue w0.
Proof.
  split; [by exists loop| |].
  - split.
    + repeat constructor.
    + intros ts t Hin. repeat (apply elem_of_cons in Hin as [[= -> ->]|Hin]);
        [..|by apply not_elem_of_nil in Hin]; (split_and!; [done|apply not_elem_of_nil|]);
        eexists; (split_and!; [reflexivity|reflexivity|]); first [by apply one_shot_ok | by apply every_second_ok].
    + by intros t ?%not_elem_of_nil.
  - intros t Ht. cbn in *.
    destruct (decide (t = 11%nat)) as [->|]; [lia|]. rewrite lookup_insert_ne in Ht by done.
    destruct (decide (t = 12%nat)) as [->|]; [lia|]. rewrite lookup_insert_ne in Ht by done.
    destruct (decide (t = 13%nat)) as [->|]; [lia|]. rewrite lookup_singleton_ne in Ht by done.
    by destruct Ht.
Qed.

Definition idle : Channel := mkChannel 0 7 false true false 0 0 None None None None.
Definition w1 : World Z (list Functor) := w0 <| chans := {[1%nat := idle; 2%nat := idle]} |>.
Lemma w1_ok : queue_ok [] 0 queue w1.
Proof. destruct w0_ok. by split. Qed.
End TimerDemo.

Lemma addTimer_queues_witness :
  ∃ w' q', addTimer 0 (FUser 9) 50 dzero TimerDemo.w0 = Ret (20%nat, 4) w' ∧
    queue_ok [] 0 q' w' ∧ timerlist_ q' ≡ₚ (50, 20%nat) :: timerlist_ TimerDemo.queue.
Proof.
  destruct (addTimer_queues [] 0 TimerDemo.queue (FUser 9) 50 dzero TimerDemo.w0)
    as (w'&q'&?&?&_&?&_); [exact TimerDemo.w0_ok|by split|done|done|]. by exists w', q'.
Defined.


