(* ===== verification/Net.v ===== *)
(** * Net

    [reactor/Socketops.h], [reactor/Socketops.cc], [reactor/InetAddress.h],
    [reactor/InetAddress.cc], [reactor/Socket.h] and [reactor/Socket.cc]: byte
    order, addresses and their text form, and the wrappers of the socket calls.
    A [LOG_SYSFATAL] line logs and goes on (its macro passes [false] for
    [toAbort]), so the functions named [...OrDie] return. *)
From S2P Require Import Prelude Printf World.
Local Open Scope Z_scope.

(** ** Byte order (the host is little-endian) *)

Fixpoint bytes_le (n : nat) (z : Z) : list Z :=
  match n with
  | O => []
  | S n' => z mod 256 :: bytes_le n' (z / 256)
  end.
Fixpoint of_bytes_le (bs : list Z) : Z :=
  match bs with
  | [] => 0
  | b :: bs' => b + 256 * of_bytes_le bs'
  end.
Definition byteswap (n : nat) (z : Z) : Z := of_bytes_le (rev (bytes_le n z)).

Definition hostToNetwork64 (ip : Z) : Z := byteswap 8 ip.
Definition hostToNetwork32 (ip : Z) : Z := byteswap 4 ip.
Definition hostToNetwork16 (ip : Z) : Z := byteswap 2 ip.
Definition networkToHost64 (ip : Z) : Z := byteswap 8 ip.
Definition networkToHost32 (ip : Z) : Z := byteswap 4 ip.
Definition networkToHost16 (ip : Z) : Z := byteswap 2 ip.

(** ** Text form of an address *)

Definition AF_INET : Z := 2.
Definition INADDR_ANY : Z := 0.
Definition kInaddrAny : Z := hostToNetwork32 INADDR_ANY.

Definition dot : char := "."%char.
Definition colon : char := ":"%char.

Fixpoint join (sep : char) (parts : list (list char)) : list char :=
  match parts with
  | [] => []
  | [p] => p
  | p :: parts' => p ++ sep :: join sep parts'
  end.

Fixpoint split_on (sep : char) (s : list char) : list (list char) :=
  match s with
  | [] => [[]]
  | c :: s' =>
      if ascii_dec c sep then [] :: split_on sep s'
      else match split_on sep s' with
           | p :: ps => (c :: p) :: ps
           | [] => [[c]]
           end
  end.

(** [inet_ntop(AF_INET, ...)]: the bytes in memory order, dotted. *)
Definition inet_ntop (s_addr : Z) : list char := join dot (map fmt_d (bytes_le 4 s_addr)).

(** [inet_pton(AF_INET, ...)]: four decimal octets, without leading zeros. *)
Definition octet (s : list char) : option Z :=
  if forallb is_digit s && (length s <=? 3)%nat
     && ((length s =? 1)%nat || negb (bool_decide (head s = Some "0"%char)))
  then b ← parse_d s; if b <=? 255 then Some b else None
  else None.
Definition inet_pton (s : list char) : option Z :=
  let parts := split_on dot s in
  if (length parts =? 4)%nat then of_bytes_le <$> mapM octet parts else None.

(** A C string ends at its first null character. *)
Fixpoint c_str (s : list char) : list char :=
  match s with
  | [] => []
  | c :: s' => if ascii_dec c Ascii.zero then [] else c :: c_str s'
  end.

(** [socketops::toHostPort]: what is left in a buffer of [size] bytes. *)
Definition toHostPort (size : Z) (addr : sockaddr_in) : list char :=
  let host := inet_ntop (s_addr addr) in
  let port := networkToHost16 (sin_port addr) in
  (snprintf size (host ++ colon :: fmt_d port)).1.

(** [inet_pton] returns 0 on bad text, which the code does not treat as an
    error: the field keeps its value. *)
Definition fromHostToPort (ip : list char) (port : Z) (addr : sockaddr_in) : sockaddr_in :=
  mkAddr AF_INET (hostToNetwork16 port)
    (match inet_pton ip with Some a => a | None => s_addr addr end).

Definition bzero_addr : sockaddr_in := mkAddr 0 0 0.

(** *** InetAddress *)

Definition InetAddress_port (port : Z) : sockaddr_in :=
  mkAddr AF_INET (hostToNetwork16 port) kInaddrAny.
Definition InetAddress_ip (ip : list char) (port : Z) : sockaddr_in :=
  fromHostToPort (c_str ip) port (mkAddr AF_INET (sin_port bzero_addr) (s_addr bzero_addr)).
Definition InetAddress_toHostPort (addr : sockaddr_in) : list char := toHostPort 32 addr.

(** ** Socket calls *)

Definition SO_REUSEADDR : Z := 2.
Definition TCP_NODELAY : Z := 1.

Section Socketops.
Context {K U : Type} `{Kernel K}.
Abbreviation W := (World K U).

Definition createNonblockingOrDie : M W Z := r ← sys SysSocket; mret (rv r).

(** The return value and, on failure, [errno]. *)
Definition sock_connect (sockfd : Z) (addr : sockaddr_in) : M W (Z * Z) :=
  r ← sys (SysConnect sockfd addr); mret (rv r, errno r).

Definition bindOrDie (sockfd : Z) (addr : sockaddr_in) : M W unit :=
  r ← sys (SysBind sockfd addr); mret tt.

Definition listenOrDie (sockfd : Z) : M W unit := r ← sys (SysListen sockfd); mret tt.

(** The accepted descriptor and the address stored, if any. *)
Definition sock_accept (listenfd : Z) (addr : sockaddr_in) : M W (Z * sockaddr_in) :=
  r ← sys (SysAccept4 listenfd);
  mret (rv r, match out r with OutAddr a => a | _ => addr end).

Definition closefd (connfd : Z) : M W unit := r ← sys (SysClose connfd); mret tt.

Definition sock_shutdownWrite (sockfd : Z) : M W unit := r ← sys (SysShutdownWr sockfd); mret tt.

Definition getLocalAddr (sockfd : Z) : M W sockaddr_in :=
  r ← sys (SysGetsockname sockfd);
  mret (match out r with OutAddr a => a | _ => bzero_addr end).

Definition getPeerAddr (sockfd : Z) : M W sockaddr_in :=
  r ← sys (SysGetpeername sockfd);
  mret (match out r with OutAddr a => a | _ => bzero_addr end).

Definition getSocketError (sockfd : Z) : M W Z :=
  r ← sys (SysGetSocketError sockfd);
  if rv r <? 0 then mret (errno r)
  else match out r with
       | OutInt optval => mret optval
       | _ => fails (Undefined "optval not initialised")
       end.

Definition isSelfConnect (sockfd : Z) : M W bool :=
  localaddr ← getLocalAddr sockfd;
  peeraddr ← getPeerAddr sockfd;
  mret ((sin_port localaddr =? sin_port peeraddr) && (s_addr localaddr =? s_addr peeraddr)).

(** *** Socket *)

Definition Socket_dtor (sockfd : Z) : M W unit := closefd sockfd.
Definition bindAddress (sockfd : Z) (localaddr : sockaddr_in) : M W unit :=
  bindOrDie sockfd localaddr.
Definition Socket_listen (sockfd : Z) : M W unit := listenOrDie sockfd.
Definition Socket_accept (sockfd : Z) : M W (Z * sockaddr_in) := sock_accept sockfd bzero_addr.
Definition setReuseAddr (sockfd : Z) (on : bool) : M W unit :=
  r ← sys (SysSetsockopt sockfd SO_REUSEADDR (if on then 1 else 0)); mret tt.
Definition shutdownWrite (sockfd : Z) : M W unit := sock_shutdownWrite sockfd.
Definition Socket_setTcpNoDelay (sockfd : Z) (on : bool) : M W unit :=
  r ← sys (SysSetsockopt sockfd TCP_NODELAY (if on then 1 else 0)); mret tt.
End Socketops.

(** ** Byte order facts *)

Definition bytes_ok (bs : list Z) : Prop := Forall (λ b, 0 ≤ b < 256) bs.

Lemma bytes_le_ok n z : bytes_ok (bytes_le n z) ∧ length (bytes_le n z) = n.
Proof.
  revert z. induction n as [|n IH]; intros z; cbn; [by split; [constructor|]|].
  destruct (IH (z / 256)) as [? ?]. split; [constructor; [by apply Z.mod_pos_bound|done]|lia].
Qed.

Lemma of_bytes_le_bytes n z : 0 ≤ z < 256 ^ Z.of_nat n → of_bytes_le (bytes_le n z) = z.
Proof.
  revert z. induction n as [|n IH]; intros z Hz; cbn [bytes_le of_bytes_le]; [cbn in Hz; lia|].
  replace (Z.of_nat (S n)) with (1 + Z.of_nat n) in Hz by lia. rewrite Z.pow_add_r in Hz by lia.
  rewrite IH; [rewrite (Z.div_mod z 256) at 3; lia|].
  split; [apply Z.div_pos; lia|apply Z.div_lt_upper_bound; lia].
Qed.

Lemma bytes_of_bytes_le bs : bytes_ok bs → bytes_le (length bs) (of_bytes_le bs) = bs.
Proof.
  induction 1 as [|b bs Hb Hbs IH]; [done|]. cbn [length bytes_le of_bytes_le].
  rewrite (Z.mul_comm 256), Z_mod_plus_full, Z.div_add, Z.div_small, Z.mod_small by lia.
  by rewrite Z.add_0_l, IH.
Qed.

Lemma of_bytes_le_range bs : bytes_ok bs → 0 ≤ of_bytes_le bs < 256 ^ Z.of_nat (length bs).
Proof.
  induction 1 as [|b bs Hb Hbs IH]; [done|]. cbn [length of_bytes_le].
  replace (Z.of_nat (S (length bs))) with (1 + Z.of_nat (length bs)) by lia.
  rewrite Z.pow_add_r by lia. lia.
Qed.

Lemma byteswap_range n z : 0 ≤ byteswap n z < 256 ^ Z.of_nat n.
Proof.
  unfold byteswap. destruct (bytes_le_ok n z) as [Hok Hlen]. rewrite <- Hlen at 3.
  rewrite <- length_rev. apply of_bytes_le_range. unfold bytes_ok. by apply Forall_rev.
Qed.

Lemma byteswap_involutive n z : 0 ≤ z < 256 ^ Z.of_nat n → byteswap n (byteswap n z) = z.
Proof.
  intros Hz. unfold byteswap. destruct (bytes_le_ok n z) as [Hok Hlen].
  pose proof (bytes_of_bytes_le (rev (bytes_le n z))) as E. rewrite length_rev, Hlen in E.
  rewrite E by (unfold bytes_ok; by apply Forall_rev). by rewrite rev_involutive, of_bytes_le_bytes.
Qed.

(** ** Reading back the text of an address *)

Lemma split_on_app sep p s :
  sep ∉ p → split_on sep (p ++ sep :: s) = p :: split_on sep s.
Proof.
  induction p as [|c p IH]; intros Hp; cbn.
  - destruct (ascii_dec sep sep); done.
  - apply not_elem_of_cons in Hp as [Hc Hp]. destruct (ascii_dec c sep); [done|].
    by rewrite IH.
Qed.

Lemma split_on_last sep p : sep ∉ p → split_on sep p = [p].
Proof.
  induction p as [|c p IH]; intros Hp; cbn; [done|].
  apply not_elem_of_cons in Hp as [Hc Hp]. destruct (ascii_dec c sep); [done|]. by rewrite IH.
Qed.

Lemma split_on_join sep ps :
  ps ≠ [] → Forall (λ p, sep ∉ p) ps → split_on sep (join sep ps) = ps.
Proof.
  intros Hne Hps. induction Hps as [|p ps Hp Hps IH]; [done|]. destruct ps as [|p' ps].
  - by apply split_on_last.
  - cbn [join]. rewrite split_on_app by done. f_equal. by apply IH.
Qed.

Lemma digits_not_in c s : is_digit c = false → Forall (λ c, is_digit c = true) s → c ∉ s.
Proof. intros Hc Hs Hin. rewrite Forall_forall in Hs. apply Hs in Hin. congruence. Qed.

Lemma byte_cases (P : Z → bool) :
  forallb P (map Z.of_nat (seq 0 256)) = true → ∀ b, 0 ≤ b < 256 → P b = true.
Proof.
  intros Hall b Hb. rewrite forallb_forall in Hall. apply Hall.
  apply in_map_iff. exists (Z.to_nat b). rewrite in_seq. lia.
Qed.

(** A byte is printed as an octet that reads back. *)
Lemma octet_fmt_d b : 0 ≤ b < 256 → octet (fmt_d b) = Some b.
Proof.
  intros Hb.
  pose proof (byte_cases (λ b, match octet (fmt_d b) with Some b' => b' =? b | None => false end)
    ltac:(by vm_compute) b Hb) as E. cbv beta in E.
  destruct (octet (fmt_d b)) as [b'|]; [|done]. apply Z.eqb_eq in E. by subst.
Qed.

Lemma inet_pton_ntop a : 0 ≤ a < 2 ^ 32 → inet_pton (inet_ntop a) = Some a.
Proof.
  intros Ha. destruct (bytes_le_ok 4 a) as [Hok Hlen]. unfold inet_pton, inet_ntop.
  rewrite split_on_join.
  - rewrite length_map, Hlen. cbn [Nat.eqb].
    assert (mapM octet (map fmt_d (bytes_le 4 a)) = Some (bytes_le 4 a)) as ->.
    { apply mapM_Some_2, Forall2_fmap_l, Forall_Forall2_diag.
      eapply Forall_impl; [exact Hok|]. apply octet_fmt_d. }
    cbn [fmap option_fmap option_map]. by rewrite of_bytes_le_bytes.
  - by destruct (bytes_le 4 a).
  - apply Forall_map. eapply Forall_impl; [exact Hok|]. intros b Hb. cbn in *.
    apply digits_not_in; [done|]. apply fmt_d_digits. lia.
Qed.

Lemma inet_ntop_chars a c : c ∈ inet_ntop a → is_digit c = true ∨ c = dot.
Proof.
  unfold inet_ntop. destruct (bytes_le_ok 4 a) as [Hok _]. revert Hok.
  induction (bytes_le 4 a) as [|b bs IH]; intros Hok Hin; [by apply not_elem_of_nil in Hin|].
  inversion_clear Hok as [|?? Hb Hbs].
  assert (∀ c, c ∈ fmt_d b → is_digit c = true) as Hd.
  { intros c'. destruct (fmt_d_digits b) as [Hd _]; [lia|]. rewrite Forall_forall in Hd. apply Hd. }
  destruct bs as [|b' bs]; [left; by apply Hd|]. cbn [map join] in Hin.
  apply elem_of_app in Hin as [|[->|Hin]%elem_of_cons]; [left; by apply Hd|by right|].
  by apply IH.
Qed.

Lemma length_inet_ntop a : zlen (inet_ntop a) ≤ 15.
Proof.
  unfold inet_ntop. destruct (bytes_le_ok 4 a) as [Hok Hlen].
  assert (Forall (λ p, (length p ≤ 3)%nat) (map fmt_d (bytes_le 4 a))) as Hp.
  { apply Forall_map. eapply Forall_impl; [exact Hok|]. intros b Hb. cbn in *.
    apply length_fmt_d; [lia|]. change (10 ^ Z.of_nat 3) with 1000. lia. }
  assert (length (map fmt_d (bytes_le 4 a)) = 4%nat) as Hl by (by rewrite length_map).
  revert Hp Hl. generalize (map fmt_d (bytes_le 4 a)). intros ps Hp Hl.
  destruct ps as [|p1 [|p2 [|p3 [|p4 [|]]]]]; try done.
  repeat match goal with H : Forall _ (_ :: _) |- _ => inversion_clear H end.
  unfold zlen. simpl. repeat (rewrite length_app; simpl). lia.
Qed.

Lemma c_str_id s : Ascii.zero ∉ s → c_str s = s.
Proof.
  induction s as [|c s IH]; intros Hs; [done|]. cbn.
  apply not_elem_of_cons in Hs as [Hc Hs]. destruct (ascii_dec c Ascii.zero); [done|]. by rewrite IH.
Qed.

(** The 32-byte buffer holds any printed address. *)
Lemma toHostPort_full addr :
  InetAddress_toHostPort addr =
    inet_ntop (s_addr addr) ++ colon :: fmt_d (networkToHost16 (sin_port addr)) ∧
  zlen (InetAddress_toHostPort addr) ≤ 21.
Proof.
  pose proof (byteswap_range 2 (sin_port addr)) as Hp. fold (networkToHost16 (sin_port addr)) in Hp.
  set (port := networkToHost16 (sin_port addr)) in *.
  assert (length (fmt_d port) ≤ 5)%nat.
  { apply length_fmt_d; [lia|]. change (256 ^ Z.of_nat 2) with 65536 in Hp.
    change (10 ^ Z.of_nat 5) with 100000. lia. }
  pose proof (length_inet_ntop (s_addr addr)).
  assert (zlen (inet_ntop (s_addr addr) ++ colon :: fmt_d port) ≤ 21).
  { rewrite zlen_app. unfold zlen in *. cbn [length]. lia. }
  unfold InetAddress_toHostPort, toHostPort. fold port. rewrite snprintf_fits by lia. done.
Qed.

(** C37: an address is printed in full (nothing is truncated by the 32-byte
    buffer) as its dotted host, a colon and its port in host order, and
    constructing an address from that host and port gives the address back. *)
Theorem host_port_roundtrip (addr : sockaddr_in)
  (Hfam : sin_family addr = AF_INET) (Haddr : 0 ≤ s_addr addr < 2 ^ 32)
  (Hport : 0 ≤ sin_port addr < 2 ^ 16) :
  let host := inet_ntop (s_addr addr) in
  let port := networkToHost16 (sin_port addr) in
  InetAddress_toHostPort addr = host ++ colon :: fmt_d port ∧
  InetAddress_ip host port = addr.
Proof.
  intros host port. split.
  - apply toHostPort_full.
  - unfold InetAddress_ip, fromHostToPort. rewrite c_str_id.
    + unfold host. rewrite inet_pton_ntop by done.
      unfold port, networkToHost16, hostToNetwork16. rewrite byteswap_involutive by done.
      destruct addr; cbn in *. by subst.
    + intros [Hin|Hin]%inet_ntop_chars; [discriminate|discriminate].
Qed.

Lemma in_split_on sep c s : c ∈ s → c ≠ sep → ∃ p, p ∈ split_on sep s ∧ c ∈ p.
Proof.
  induction s as [|c' s IH]; intros Hin Hne; [by apply not_elem_of_nil in Hin|]. cbn.
  destruct (ascii_dec c' sep) as [->|].
  - apply elem_of_cons in Hin as [?|Hin]; [done|]. destruct (IH Hin Hne) as (p&?&?).
    exists p. split; [by right|done].
  - destruct (split_on sep s) as [|p ps] eqn:E.
    + exists [c']. split; [by left|]. apply elem_of_cons in Hin as [->|Hin]; [by left|].
      destruct (IH Hin Hne) as (p&Hp&_). by apply not_elem_of_nil in Hp.
    + apply elem_of_cons in Hin as [->|Hin]; [exists (c' :: p); split; by left|].
      destruct (IH Hin Hne) as (p'&[->|Hp]%elem_of_cons&?).
      * exists (c' :: p). split; [by left|by right].
      * exists p'. split; [by right|done].
Qed.

(** A host name is accepted in silence: text with any character other than
    a digit or a dot gives the wildcard address with the port given. *)
Theorem host_name_is_wildcard (ip : list char) (port : Z) (c : char)
  (Hin : c ∈ c_str ip) (Hdigit : is_digit c = false) (Hdot : c ≠ dot) :
  InetAddress_ip ip port = InetAddress_port port.
Proof.
  unfold InetAddress_ip, fromHostToPort, inet_pton.
  destruct (in_split_on dot c (c_str ip) Hin Hdot) as (p&Hp&Hc).
  assert (mapM octet (split_on dot (c_str ip)) = None) as ->; [|by destruct (_ =? _)%nat].
  apply mapM_None. apply Exists_exists. exists p. split; [done|].
  unfold octet. assert (forallb is_digit p = false) as ->; [|done].
  apply not_true_iff_false. rewrite forallb_forall. intros Hall.
  rewrite (Hall c) in Hdigit; [done|]. by apply list_elem_of_In.
Qed.

(** ** Concrete instances *)

Example host_port_roundtrip_witness :
  InetAddress_toHostPort (mkAddr AF_INET 36895 16777343) = str "127.0.0.1:8080" ∧
  InetAddress_ip (str "127.0.0.1") 8080 = mkAddr AF_INET 36895 16777343.
Proof. apply (host_port_roundtrip (mkAddr AF_INET 36895 16777343)); by_computation. Defined.

Example host_name_is_wildcard_witness :
  InetAddress_ip (str "localhost") 8080 = mkAddr AF_INET 36895 0.
Proof. apply (host_name_is_wildcard (str "localhost") 8080 "l"%char); [left|done|done]. Defined.
