(* ===== verification/TcpConnection.v ===== *)
(** * TcpConnection

    [reactor/TcpConnection.h] and [reactor/TcpConnection.cc]: the life of a
    connection, its input and output buffers, and the refinement of sending,
    writing and shutting down to a byte stream. *)
From S2P Require Import Prelude Buffer Timestamp World Channel EventLoop Net.
Local Open Scope Z_scope.

(** Calling an empty [boost::function]. *)
Definition call_opt {S A} (cb : option A) (call : A → M S unit) : M S unit :=
  match cb with Some f => call f | None => fails (Thrown "bad_function_call") end.

Section TcpConnection.
Context {K U : Type} `{Kernel K} `{UserCode K U}.
Abbreviation W := (World K U).

(** A call on the output buffer of a connection. *)
Definition on_output {A} (c : nat) (m : M Buffer A) : M W A :=
  conn ← get_conn c;
  match m (outputBuffer_ conn) with
  | Ret a b => upd_conn c (λ x, x <| outputBuffer_ := b |>);; mret a
  | Crash r => fails r
  end.
Definition on_input {A} (c : nat) (m : M Buffer A) : M W A :=
  conn ← get_conn c;
  match m (inputBuffer_ conn) with
  | Ret a b => upd_conn c (λ x, x <| inputBuffer_ := b |>);; mret a
  | Crash r => fails r
  end.

(** [peerAddr_(peerAddr_)] initialises the member with itself: it is never
    given a value. *)
Definition TcpConnection_ctor (loop : nat) (name : string) (sockfd : Z)
    (localAddr peerAddr : sockaddr_in) : M W nat :=
  c ← alloc;
  ch ← Channel_ctor loop sockfd false;
  modify (λ w, w <| conns ::= <[c := {|
    c_loop := loop; c_state := kConnecting; c_name := name; c_fd := sockfd; c_channel := ch;
    localAddr_ := localAddr; peerAddr_ := None;
    connectionCallback_ := None; messageCallback_ := None; writeCompleteCallback_ := None;
    c_closeCallback := None; inputBuffer_ := Buffer_ctor; outputBuffer_ := Buffer_ctor |}]> |>);;
  setreadCallback ch (CbConnRead c);;
  setcloseCallback ch (CbConnClose c);;
  setwriteCallback ch (CbConnWrite c);;
  seterrorCallback ch (CbConnError c);;
  mret c.

(** The members are destroyed in the reverse order of their declaration. *)
Definition TcpConnection_dtor (c : nat) : M W unit :=
  conn ← get_conn c;
  Channel_dtor (c_channel conn);;
  Socket_dtor (c_fd conn);;
  modify (λ w, w <| conns ::= delete c |>).

(** *** Ownership

    A connection lives as long as a [TcpConnectionPtr] to it. Calls bound to
    [shared_from_this()] or to such a pointer hold one; those bound to [this]
    ([sendInLoop], [shutdownInLoop]) do not. *)
Definition functor_conn (f : Functor) : option nat :=
  match f with
  | FConnectDestoryed c | FWriteComplete _ c | FSetCloseCallBack c _
  | FRemoveConnectionInLoop _ c => Some c
  | _ => None
  end.
Definition functors_hold (c : nat) (fs : list Functor) : bool :=
  existsb (λ f, bool_decide (functor_conn f = Some c)) fs.

(** Is there a pointer to [c] in the store, or in one of the calls [fs]? *)
Definition owned (c : nat) (fs : list Functor) (w : W) : bool :=
  functors_hold c fs
  || existsb (λ x, bool_decide (c ∈ (map_to_list (connections_ x.2)).*2)) (map_to_list (servers w))
  || existsb (λ x, bool_decide (connection_ x.2 = Some c)) (map_to_list (clients w))
  || existsb (λ x, functors_hold c (pendingFunctors_ x.2)) (map_to_list (loops w))
  || existsb (λ x, functors_hold c [callback_ x.2]) (map_to_list (timers w))
  || bool_decide (c ∈ u_holds (user w)).

(** A pointer to [c] goes away, while the calls [fs] still exist. *)
Definition release (c : nat) (fs : list Functor) : M W unit :=
  w ← get;
  whenM (negb (owned c fs w)) (TcpConnection_dtor c).

(** The destruction of a vector of calls, the first one first. *)
Fixpoint destroy_functions (fs : list Functor) : M W unit :=
  match fs with
  | [] => mret tt
  | f :: fs' =>
      match functor_conn f with Some c => release c fs' | None => mret tt end;;
      destroy_functions fs'
  end.

Definition connected (conn : TcpConnection) : bool := bool_decide (c_state conn = kConnected).
Definition setState (c : nat) (s : stateE) : M W unit := upd_conn c (λ x, x <| c_state := s |>).
Definition setConnectionCallBack (c : nat) (cb : option nat) : M W unit :=
  upd_conn c (λ x, x <| connectionCallback_ := cb |>).
Definition setMessageConnectionCallBack (c : nat) (cb : option nat) : M W unit :=
  upd_conn c (λ x, x <| messageCallback_ := cb |>).
Definition setWriteCompeleteCallback (c : nat) (cb : option nat) : M W unit :=
  upd_conn c (λ x, x <| writeCompleteCallback_ := cb |>).
Definition setCloseCallBack (c : nat) (cb : CloseCallBack) : M W unit :=
  upd_conn c (λ x, x <| c_closeCallback := Some cb |>).

(** *** Sending *)

Definition sendInLoop (c : nat) (message : list char) : M W unit :=
  conn ← get_conn c;
  assertInLoopThread (c_loop conn);;
  ch ← get_chan (c_channel conn);
  nwrote ←
    (if negb (isWriting ch) && negb (readableBytes (outputBuffer_ conn) =? 0) then
       r ← sys (SysWrite (ch_fd ch) message);
       if 0 <=? rv r then
         (if rv r <? zlen message then mret tt
          else match writeCompleteCallback_ conn with
               | Some f => queueInLoop (c_loop conn) (FWriteComplete f c)
               | None => mret tt
               end);;
         mret (rv r)
       else mret 0
     else mret 0);
  assert_ "nwrote >= 0" (0 <=? nwrote);;
  whenM (nwrote <? zlen message)
    (on_output c (append (drop (Z.to_nat nwrote) message));;
     ch ← get_chan (c_channel conn);
     whenM (negb (isWriting ch)) (enableWriting (c_channel conn))).

Definition send (c : nat) (message : list char) : M W unit :=
  conn ← get_conn c;
  if bool_decide (c_state conn = kConnected) then
    b ← isInLoopThread (c_loop conn);
    if (b : bool) then sendInLoop c message
    else runInLoop (c_loop conn) (FSendInLoop c message) (sendInLoop c message)
  else mret tt.

(** *** Shutting down *)

Definition shutdownInLoop (c : nat) : M W unit :=
  conn ← get_conn c;
  assertInLoopThread (c_loop conn);;
  ch ← get_chan (c_channel conn);
  whenM (negb (isWriting ch)) (shutdownWrite (c_fd conn)).

Definition shutdown (c : nat) : M W unit :=
  conn ← get_conn c;
  if bool_decide (c_state conn = kConnected) then
    setState c kDisconnecting;;
    runInLoop (c_loop conn) (FShutdownInLoop c) (shutdownInLoop c)
  else mret tt.

(** *** Establishing and destroying *)

Definition connectEstablished (c : nat) : M W unit :=
  conn ← get_conn c;
  assertInLoopThread (c_loop conn);;
  assert_ "state_ == kConnecting" (bool_decide (c_state conn = kConnecting));;
  enableReading (c_channel conn);;
  setState c kConnected;;
  conn ← get_conn c;
  call_opt (connectionCallback_ conn) (λ f, u_connection f c).

Definition connectDestoryed (c : nat) : M W unit :=
  conn ← get_conn c;
  assertInLoopThread (c_loop conn);;
  assert_ "state_ == kConnected || state_ == kDisconnecting"
    (bool_decide (c_state conn = kConnected) || bool_decide (c_state conn = kDisconnecting));;
  setState c kDisConnected;;
  disableAll (c_channel conn);;
  conn ← get_conn c;
  call_opt (connectionCallback_ conn) (λ f, u_connection f c);;
  conn ← get_conn c;
  removeChannel (c_loop conn) (c_channel conn).

(** *** Events. [close] invokes a close callback. *)

Definition handleClose (close : CloseCallBack → nat → M W unit) (c : nat) : M W unit :=
  conn ← get_conn c;
  assertInLoopThread (c_loop conn);;
  assert_ "state_ == kConnected || state_ == kDisconnecting"
    (bool_decide (c_state conn = kConnected) || bool_decide (c_state conn = kDisconnecting));;
  disableAll (c_channel conn);;
  conn ← get_conn c;
  call_opt (c_closeCallback conn) (λ cb, close cb c).

Definition handleError (c : nat) : M W unit :=
  conn ← get_conn c;
  ch ← get_chan (c_channel conn);
  err ← getSocketError (ch_fd ch);
  mret tt.

(** [readv] on the descriptor, as the call [Buffer::readFd] makes. *)
Definition sys_readv (fd : Z) (len0 len1 : Z) : M (Buffer * W) (Z * list char * Z) :=
  zoom snd (λ w p, (p.1, w))
    (r ← sys (SysReadv fd len0 len1);
     mret (rv r, match out r with OutBytes bytes => bytes | _ => [] end, errno r)).

Definition read_input (c : nat) (fd : Z) : M W (Z * option Z) := λ w,
  match conns w !! c with
  | None => Crash (Undefined "TcpConnection")
  | Some conn =>
      match readFd fst (λ b p, (b, p.2)) (sys_readv fd) (inputBuffer_ conn, w) with
      | Ret a (b, w') => (upd_conn c (λ x, x <| inputBuffer_ := b |>);; mret a) w'
      | Crash r => Crash r
      end
  end.

Definition TcpConnection_handleRead (close : CloseCallBack → nat → M W unit)
    (receiveTime : Timestamp) (c : nat) : M W unit :=
  conn ← get_conn c;
  ch ← get_chan (c_channel conn);
  res ← read_input c (ch_fd ch);
  let '(n, savedErrno) := res in
  if 0 <? n then
    conn ← get_conn c;
    call_opt (messageCallback_ conn) (λ f, u_message f c receiveTime)
  else if n =? 0 then handleClose close c
  else handleError c.

Definition handleWrite (c : nat) : M W unit :=
  conn ← get_conn c;
  assertInLoopThread (c_loop conn);;
  ch ← get_chan (c_channel conn);
  if isWriting ch then
    data ← on_output c peekString;
    r ← sys (SysWrite (ch_fd ch) data);
    if 0 <? rv r then
      on_output c (retrieve (rv r));;
      conn ← get_conn c;
      if readableBytes (outputBuffer_ conn) =? 0 then
        disableWriting (c_channel conn);;
        (match writeCompleteCallback_ conn with
         | Some f => queueInLoop (c_loop conn) (FWriteComplete f c)
         | None => mret tt
         end);;
        whenM (bool_decide (c_state conn = kDisconnecting)) (shutdownInLoop c)
      else mret tt
    else mret tt
  else mret tt.

Definition TcpConnection_setTcpNoDelay (c : nat) (on : bool) : M W unit :=
  conn ← get_conn c;
  Socket_setTcpNoDelay (c_fd conn) on.
End TcpConnection.

(** ** The byte stream of a connection *)

(** The bytes the kernel accepted on the connection that last had the
    descriptor [fd], and whether that was half-closed, after a history of
    calls. *)
Definition is_pair (fd : Z) (r : SysRes) : bool :=
  match out r with OutPair fd0 fd1 => (fd0 =? fd) || (fd1 =? fd) | _ => false end.
Definition written_step (fd : Z) (s : list char) (ev : Syscall * SysRes) : list char :=
  match ev with
  | (SysWrite fd' data, r) | (SysSend fd' data, r) =>
      if fd' =? fd then s ++ take (Z.to_nat (rv r)) data else s
  | (SysSocket, r) | (SysAccept4 _, r) => if rv r =? fd then [] else s
  | (SysSocketpair, r) => if is_pair fd r then [] else s
  | _ => s
  end.
Definition written (fd : Z) (t : list (Syscall * SysRes)) : list char :=
  foldl (written_step fd) [] t.

Definition fin_step (fd : Z) (b : bool) (ev : Syscall * SysRes) : bool :=
  match ev with
  | (SysShutdownWr fd', _) => b || (fd' =? fd)
  | (SysSocket, r) | (SysAccept4 _, r) => if rv r =? fd then false else b
  | (SysSocketpair, r) => if is_pair fd r then false else b
  | _ => b
  end.
Definition fin_sent (fd : Z) (t : list (Syscall * SysRes)) : bool := foldl (fin_step fd) false t.

Lemma written_snoc fd t ev : written fd (t ++ [ev]) = written_step fd (written fd t) ev.
Proof. unfold written. by rewrite foldl_app. Qed.
Lemma fin_sent_snoc fd t ev : fin_sent fd (t ++ [ev]) = fin_step fd (fin_sent fd t) ev.
Proof. unfold fin_sent. by rewrite foldl_app. Qed.

Lemma quiet_stream fd t evs :
  Forall quiet evs → written fd (t ++ evs) = written fd t ∧ fin_sent fd (t ++ evs) = fin_sent fd t.
Proof.
  induction 1 as [|[sc r] evs Hq Hqs IH] in t |- *; [by rewrite app_nil_r|].
  rewrite cons_middle, app_assoc.
  destruct (IH (t ++ [(sc, r)])) as [-> ->]. rewrite written_snoc, fin_sent_snoc.
  by destruct sc.
Qed.

Arguments written : simpl never.
Arguments fin_sent : simpl never.

(** The kernel never accepts more than it is given. *)
Class Writes (K : Type) `{Kernel K} :=
  write_le : ∀ fd data k r k', syscall (SysWrite fd data) k = (r, k') → rv r ≤ zlen data.

(** *** Abstract specification: a byte stream that is closed at its end *)

Record stream := mkStream {
  accepted : list char;     (* the bytes given to [send] while connected *)
  open : bool;              (* not shut down yet *)
}.

(** What happens to an established connection in its loop's thread: the user
    sends or shuts down, the poller reports that it is writable. *)
Inductive conn_action := ASend (message : list char) | AShutdown | AWritable.

Definition stream_step (s : stream) (a : conn_action) : stream :=
  match a with
  | ASend m => if open s then mkStream (accepted s ++ m) true else s
  | AShutdown => mkStream (accepted s) false
  | AWritable => s
  end.

Definition sent_by (a : conn_action) : Z := match a with ASend m => zlen m | _ => 0 end.

Section StreamInv.
Context {K U : Type} `{Kernel K} `{!Writes K} `{UserCode K U}.
Abbreviation W := (World K U).
Implicit Types (w : W) (c l : nat).

Definition run_action (c : nat) (a : conn_action) : M W unit :=
  match a with
  | ASend m => send c m
  | AShutdown => shutdown c
  | AWritable => handleWrite c
  end.

(** The objects of connection [c]: its channel is registered in its loop,
    which is run by the calling thread. *)
Record conn_live (c : nat) (conn : TcpConnection) (ch : Channel) (loop : EventLoop) (w : W)
    : Prop := {
  lv_conn : conns w !! c = Some conn;
  lv_chan : chans w !! c_channel conn = Some ch;
  lv_loop : loops w !! c_loop conn = Some loop;
  lv_thread : threadId_ loop = cur w;
  lv_owner : ch_loop ch = c_loop conn;
  lv_fd : ch_fd ch = c_fd conn;
  lv_registered : registeredInEpoller_ ch = true;
  lv_registration : poll_ok (c_channel conn) (c_loop conn) w;
  lv_wf : wf (outputBuffer_ conn);
}.

(** The established connection [c] implements the stream [s], with [room]
    bytes left before its output buffer could overflow: what was accepted is
    what the kernel took followed by what is buffered, the poller is asked
    for writability exactly while bytes are buffered, and the connection has
    been half-closed exactly when it is shut down with nothing buffered. *)
Record stream_inv (c : nat) (conn : TcpConnection) (ch : Channel) (loop : EventLoop)
    (room : Z) (s : stream) (w : W) : Prop := {
  si_live : conn_live c conn ch loop w;
  si_room : writerIndex_ (outputBuffer_ conn) + room ≤ max_size;
  si_writing : isWriting ch = negb (bool_decide (content (outputBuffer_ conn) = []));
  si_stream : accepted s = written (c_fd conn) (trace w) ++ content (outputBuffer_ conn);
  si_state : c_state conn = if open s then kConnected else kDisconnecting;
  si_fin : fin_sent (c_fd conn) (trace w) =
    negb (open s) && bool_decide (content (outputBuffer_ conn) = []);
}.
Definition stream_ok (c : nat) (room : Z) (s : stream) (w : W) : Prop :=
  ∃ conn ch loop, stream_inv c conn ch loop room s w.

Lemma wp_on_output {A} c conn (m : M Buffer A) (Q : A → W → Prop) w :
  conns w !! c = Some conn →
  wp m (λ a b, Q a (w <| conns ::= alter (λ x, x <| outputBuffer_ := b |>) c |>)) (outputBuffer_ conn) →
  wp (on_output c m) Q w.
Proof.
  intros Hc Hm. unfold on_output, get_conn. wp_step. eapply wp_deref; [exact Hc|].
  unfold wp in *. by destruct (m (outputBuffer_ conn)).
Qed.

Lemma isWriting_enable ch : isWriting (ch <| events_ := mask_after EnableWriting ch |>) = true.
Proof.
  unfold isWriting, has. cbn [events_ upd mask_after]. apply negb_true_iff, Z.eqb_neq.
  rewrite Z.land_lor_distr_l. intros [_ E]%Z.lor_eq_0_iff. done.
Qed.

Lemma isWriting_disable ch : isWriting (ch <| events_ := mask_after DisableWriting ch |>) = false.
Proof.
  unfold isWriting, has. cbn [events_ upd mask_after]. apply negb_false_iff, Z.eqb_eq.
  rewrite <- Z.land_assoc. apply Z.land_0_r.
Qed.

Lemma content_readable b : wf b → (readableBytes b =? 0) = bool_decide (content b = []).
Proof.
  intros Hwf. rewrite <- zlen_content by done. unfold zlen.
  destruct (content b); [done|]. by rewrite bool_decide_eq_false_2.
Qed.

(** Under the invariant nothing is ever written directly: a message goes to
    the output buffer. *)
Lemma wp_sendInLoop c conn ch loop room s m (Q : unit → W → Prop) w :
  stream_inv c conn ch loop room s w → zlen m ≤ room → open s = true →
  (∀ w', written (c_fd conn) (trace w') = written (c_fd conn) (trace w) →
     stream_ok c (room - zlen m) (stream_step s (ASend m)) w' → Q tt w') →
  wp (sendInLoop c m) Q w.
Proof.
  intros [[]] Hm Hopen HQ. pose proof (zlen_nonneg m).
  unfold sendInLoop, get_conn, get_chan. wp_step. eapply wp_deref; [done|]. wp_step.
  eapply wp_assertInLoopThread; [done..|]. wp_step. eapply wp_deref; [done|]. wp_step.
  rewrite si_writing0, negb_involutive, content_readable by done.
  replace (bool_decide _ && negb (bool_decide _)) with false
    by (by destruct (bool_decide (content (outputBuffer_ conn) = []))).
  wp_step. apply wp_assert; [done|]. wp_step. rewrite drop_0.
  destruct (Z.ltb_spec 0 (zlen m)) as [Hpos|Hz]; cbn [whenM]; wp_step.
  2: { assert (m = []) as -> by (destruct m; [done|unfold zlen in *; cbn in *; lia]).
       apply HQ; [done|]. exists conn, ch, loop. unfold stream_step. rewrite Hopen, app_nil_r.
       split; [split|..]; try done; [cbn; lia|by rewrite Hopen in *..]. }
  eapply wp_on_output; [done|]. eapply wp_mono; [apply append_spec; [done|lia]|].
  intros [] b (Hwf&Hcont&Hgrow). wp_step. eapply wp_deref; [exact lv_chan0|].
  set (conn' := conn <| outputBuffer_ := b |>).
  set (w1 := w <| conns ::= alter (λ x, x <| outputBuffer_ := b |>) c |>).
  assert (conns w1 !! c = Some conn') as Hc1 by (unfold w1; cbn; by rewrite lookup_alter_eq, lv_conn0).
  assert (content b ≠ []) as Hne.
  { rewrite Hcont. destruct m; [unfold zlen in *; cbn in *; lia|]. by destruct (content (outputBuffer_ conn)). }
  assert (∀ w' ch', conns w' = conns w1 → chans w' !! c_channel conn = Some ch' →
    loops w' = loops w1 → cur w' = cur w1 → ch_loop ch' = ch_loop ch → ch_fd ch' = ch_fd ch →
    registeredInEpoller_ ch' = true → poll_ok (c_channel conn) (c_loop conn) w' →
    isWriting ch' = true → (∃ evs, trace w' = trace w1 ++ evs ∧ Forall quiet evs) → Q tt w') as Hdone.
  { intros w' ch' E1 E2 E3 E4 E5 E6 E7 E8 E9 (evs&E10&Hq).
    destruct (quiet_stream (c_fd conn) (trace w1) evs Hq) as [Hwr Hfin].
    rewrite <- E10 in Hwr, Hfin. apply HQ; [done|]. exists conn', ch', loop.
    unfold stream_step. rewrite Hopen. split; [split|..]; cbn; try congruence.
    - by rewrite E3.
    - by rewrite E4.
    - unfold grows in Hgrow. lia.
    - by rewrite E9, bool_decide_eq_false_2.
    - rewrite Hwr, Hcont, si_stream0. cbn. by rewrite <- app_assoc.
    - by rewrite si_state0, Hopen.
    - etrans; [exact Hfin|]. etrans; [exact si_fin0|]. by rewrite Hopen. }
  destruct (isWriting ch) eqn:Ew; cbn [negb whenM]; wp_step.
  - apply (Hdone w1 ch); try done. exists []. by rewrite app_nil_r.
  - eapply (wp_mask_registered EnableWriting _ ch loop); [done|by rewrite lv_owner0|done..| |].
    + by rewrite lv_owner0.
    + intros w' Hc' El Ec Ecur Htr HR _. apply (Hdone w' _ Ec Hc'); try done.
      * by rewrite <- lv_owner0.
      * apply isWriting_enable.
Qed.

Lemma wp_send c room s m (Q : unit → W → Prop) w :
  stream_ok c room s w → zlen m ≤ room →
  (∀ w', stream_ok c (room - zlen m) (stream_step s (ASend m)) w' → Q tt w') →
  wp (send c m) Q w.
Proof.
  intros (conn&ch&loop&Hinv) Hm HQ. pose proof Hinv as [[]]. pose proof (zlen_nonneg m).
  unfold send, get_conn. wp_step. eapply wp_deref; [done|]. rewrite si_state0.
  destruct (open s) eqn:Hopen; cbn; wp_step.
  - eapply wp_isInLoopThread; [done|]. rewrite lv_thread0, Z.eqb_refl.
    eapply wp_sendInLoop; [done..|]. intros w' _ Hok. by apply HQ.
  - apply HQ. exists conn, ch, loop. unfold stream_step. rewrite Hopen.
    split; [split|..]; try done; [lia|by rewrite Hopen..].
Qed.

(** [shutdownInLoop] once the state is [kDisconnecting]. *)
Lemma wp_shutdownInLoop c conn ch loop (Q : unit → W → Prop) w :
  conns w !! c = Some conn → chans w !! c_channel conn = Some ch →
  loops w !! c_loop conn = Some loop → threadId_ loop = cur w →
  (isWriting ch = true → Q tt w) →
  (∀ k r, isWriting ch = false →
     Q tt (w <| kern := k |> <| trace ::= λ t, t ++ [(SysShutdownWr (c_fd conn), r)] |>)) →
  wp (shutdownInLoop c) Q w.
Proof.
  intros Hc Hch Hl Ht HQ1 HQ2. unfold shutdownInLoop, get_conn, get_chan. wp_step.
  eapply wp_deref; [done|]. wp_step. eapply wp_assertInLoopThread; [done..|]. wp_step.
  eapply wp_deref; [done|]. destruct (isWriting ch); cbn; wp_step; [by apply HQ1|].
  unfold shutdownWrite, sock_shutdownWrite. wp_step. apply wp_sys. intros r k _. wp_step. by apply HQ2.
Qed.

Lemma wp_shutdown c room s (Q : unit → W → Prop) w :
  stream_ok c room s w →
  (∀ w', stream_ok c room (stream_step s AShutdown) w' → Q tt w') →
  wp (shutdown c) Q w.
Proof.
  intros (conn&ch&loop&[[]]) HQ. unfold shutdown, get_conn, setState, upd_conn, runInLoop. wp_step.
  eapply wp_deref; [done|]. rewrite si_state0. destruct (open s) eqn:Hopen; cbn; wp_step.
  2: { apply HQ. exists conn, ch, loop. unfold stream_step. split; [split|..]; try done; by rewrite Hopen in *. }
  eapply wp_isInLoopThread; [done|]. cbn [cur upd]. rewrite lv_thread0, Z.eqb_refl.
  set (conn' := conn <| c_state := kDisconnecting |>).
  match goal with |- wp _ _ ?x => set (w1 := x) end.
  assert (conns w1 !! c = Some conn') as Hc1 by (unfold w1; cbn; by rewrite lookup_alter_eq, lv_conn0).
  eapply (wp_shutdownInLoop c conn' ch loop); try done.
  - intros Ew. apply HQ. exists conn', ch, loop. split; [split|..]; try done; cbn.
    rewrite si_fin0. rewrite Ew in si_writing0. by destruct (bool_decide _).
  - intros k r Ew. apply HQ. exists conn', ch, loop. split; [split|..]; try done; cbn.
    + by apply (poll_ok_sys _ _ w k).
    + by rewrite written_snoc.
    + rewrite fin_sent_snoc. rewrite Ew in si_writing0. cbn.
      rewrite Z.eqb_refl, orb_true_r. by destruct (bool_decide _).
Qed.

Lemma conn_live_sys c conn ch loop w k sc r :
  no_interest sc → conn_live c conn ch loop w →
  conn_live c conn ch loop (w <| kern := k |> <| trace ::= λ t, t ++ [(sc, r)] |>).
Proof. intros Hno []. split; try done. by apply poll_ok_sys. Qed.

Lemma conn_live_output c conn ch loop b w :
  wf b → conn_live c conn ch loop w →
  conn_live c (conn <| outputBuffer_ := b |>) ch loop
    (w <| conns ::= alter (λ x, x <| outputBuffer_ := b |>) c |>).
Proof. intros Hwf []. split; try done. cbn. by rewrite lookup_alter_eq, lv_conn0. Qed.

(** Queueing a call in the connection's loop. *)
Lemma wp_queue_live c conn ch loop cb (Q : unit → W → Prop) w :
  conn_live c conn ch loop w →
  (∀ w' evs, conn_live c conn ch (loop <| pendingFunctors_ ::= λ q, q ++ [cb] |>) w' →
     trace w' = trace w ++ evs → Forall quiet evs → servers w' = servers w → Q tt w') →
  wp (queueInLoop (c_loop conn) cb) Q w.
Proof.
  intros [] HQ. eapply (wp_queueInLoop (c_channel conn)); [done..|].
  intros k evs w' Hq HR. apply (HQ w' evs); [|done..].
  split; try done. cbn. by rewrite lookup_alter_eq, lv_loop0.
Qed.

(** Queueing the write-complete callback, if there is one. *)
Lemma wp_writeComplete c conn ch loop (Q : unit → W → Prop) w :
  conn_live c conn ch loop w →
  (∀ w' loop' evs, conn_live c conn ch loop' w' → trace w' = trace w ++ evs → Forall quiet evs →
     Q tt w') →
  wp (match writeCompleteCallback_ conn with
      | Some f => queueInLoop (c_loop conn) (FWriteComplete f c)
      | None => mret tt
      end) Q w.
Proof.
  intros Hlive HQ. destruct (writeCompleteCallback_ conn) as [f|].
  - eapply wp_queue_live; [exact Hlive|]. intros w' evs Hlive' Ht Hq _. by eapply HQ.
  - wp_step. apply (HQ w loop []); [done|by rewrite app_nil_r|done].
Qed.

(** The output buffer has just been drained. *)
Lemma wp_drained c conn ch loop room s (Q : unit → W → Prop) w :
  conn_live c conn ch loop w → writerIndex_ (outputBuffer_ conn) + room ≤ max_size →
  content (outputBuffer_ conn) = [] → accepted s = written (c_fd conn) (trace w) →
  c_state conn = (if open s then kConnected else kDisconnecting) →
  fin_sent (c_fd conn) (trace w) = false →
  (∀ w', stream_ok c room s w' → Q tt w') →
  wp (disableWriting (c_channel conn))
     (λ _ w', wp ((match writeCompleteCallback_ conn with
                   | Some f => queueInLoop (c_loop conn) (FWriteComplete f c)
                   | None => mret tt
                   end);;
                  whenM (bool_decide (c_state conn = kDisconnecting)) (shutdownInLoop c)) Q w') w.
Proof.
  intros Hlive Hroom Hempty Hacc Hst Hfin HQ. destruct Hlive.
  eapply (wp_mask_registered DisableWriting _ ch loop); try done; [by rewrite lv_owner0..|].
  intros w1 Hc1 El1 Ec1 Ecur1 (evs1&Et1&Hq1) HR1 _. pose proof (isWriting_disable ch) as Ew.
  cbv beta. wp_step.
  set (ch1 := ch <| events_ := mask_after DisableWriting ch |>) in *.
  eapply (wp_writeComplete c conn ch1 loop).
  { split; first [done | by rewrite ?Ec1, ?El1, ?Ecur1 | by rewrite <- lv_owner0]. }
  intros w2 loop2 evs2 Hlive2 Et2 Hq2.
  assert (written (c_fd conn) (trace w2) = written (c_fd conn) (trace w) ∧
          fin_sent (c_fd conn) (trace w2) = fin_sent (c_fd conn) (trace w)) as [Hwr2 Hfin2].
  { rewrite Et2, Et1, <- app_assoc. apply quiet_stream. by apply Forall_app. }
  wp_step. rewrite Hst. destruct (open s) eqn:Hopen; cbn [bool_decide]; wp_step.
  - apply HQ. exists conn, ch1, loop2. split; try done; rewrite ?Hempty, ?Ew, ?Hopen; try done.
    + by rewrite Hwr2, app_nil_r.
    + by rewrite Hfin2.
  - pose proof Hlive2 as []. eapply (wp_shutdownInLoop c conn ch1 loop2); try done; [congruence|].
    intros k r _. apply HQ. exists conn, ch1, loop2.
    split; [by apply conn_live_sys|done|by rewrite Ew, Hempty| |by rewrite Hopen|].
    + cbn. by rewrite written_snoc, Hempty, app_nil_r, Hwr2.
    + cbn. rewrite fin_sent_snoc, Hopen, Hempty. cbn.
      by rewrite Z.eqb_refl, orb_true_r.
Qed.

Lemma wp_handleWrite c room s (Q : unit → W → Prop) w :
  stream_ok c room s w → (∀ w', stream_ok c room s w' → Q tt w') → wp (handleWrite c) Q w.
Proof.
  intros (conn&ch&loop&Hinv) HQ. pose proof Hinv as [Hlive Hroom Hwr Hacc Hst Hfin].
  pose proof Hlive as []. unfold handleWrite, get_conn, get_chan. wp_step.
  eapply wp_deref; [done|]. wp_step. eapply wp_assertInLoopThread; [done..|]. wp_step.
  eapply wp_deref; [done|]. destruct (isWriting ch) eqn:Ew; wp_step.
  2: { apply HQ. exists conn, ch, loop. exact Hinv. }
  assert (bool_decide (content (outputBuffer_ conn) = []) = false) as Hne
    by (by destruct (bool_decide _)).
  eapply wp_on_output; [done|]. apply peekString_spec; [done|].
  pose proof (conn_live_output c conn ch loop _ w lv_wf0 Hlive) as Hlive1.
  wp_step. apply wp_sys. intros r k Hsys. apply write_le in Hsys as Hr. wp_step.
  apply (conn_live_sys _ _ _ _ _ k (SysWrite (ch_fd ch) (content (outputBuffer_ conn))) r)
    in Hlive1; [|done].
  set (w2 := (w <| conns ::= _ |>) <| kern := k |> <| trace ::= _ |>) in *.
  set (conn1 := conn <| outputBuffer_ := outputBuffer_ conn |>) in *.
  assert (written (c_fd conn) (trace w2) = written (c_fd conn) (trace w) ++
            take (Z.to_nat (rv r)) (content (outputBuffer_ conn))) as Hwr2.
  { unfold w2. cbn. rewrite written_snoc. cbn. by rewrite lv_fd0, Z.eqb_refl. }
  assert (fin_sent (c_fd conn) (trace w2) = false) as Hfin2.
  { unfold w2. cbn. rewrite fin_sent_snoc, Hfin. cbn. by rewrite Hne, andb_false_r. }
  destruct (Z.ltb_spec 0 (rv r)) as [Hpos|Hneg]; wp_step.
  2: { apply HQ. exists conn1, ch, loop. split; try done; [by rewrite Ew| |].
       - etrans; [exact Hacc|]. f_equal. symmetry. etrans; [exact Hwr2|].
         replace (Z.to_nat (rv r)) with 0%nat by lia. by rewrite app_nil_r.
       - etrans; [exact Hfin2|]. change (outputBuffer_ conn1) with (outputBuffer_ conn).
         by rewrite Hne, andb_false_r. }
  pose proof (zlen_content _ lv_wf0).
  eapply wp_on_output; [apply Hlive1|]. eapply wp_mono; [apply retrieve_spec; [done|cbn; lia]|].
  intros [] b (Hwfb&Hcb&_&Hwb). cbv beta. wp_step.
  apply (conn_live_output _ _ _ _ b) in Hlive1; [|done].
  set (conn2 := conn1 <| outputBuffer_ := b |>) in *.
  eapply wp_deref; [apply Hlive1|].
  change (outputBuffer_ conn2) with b. rewrite (content_readable _ Hwfb). wp_step.
  assert (accepted s = written (c_fd conn) (trace w2) ++ content b) as Hacc2.
  { rewrite Hwr2, Hacc, Hcb, <- app_assoc. cbn. by rewrite take_drop. }
  destruct (bool_decide (content b = [])) eqn:Hbd.
  - apply bool_decide_eq_true in Hbd as Hempty. rewrite Hempty, app_nil_r in Hacc2.
    apply (wp_drained c conn2 ch loop room s); try done. cbn in *. lia.
  - wp_step. apply HQ. exists conn2, ch, loop. split; try done; cbn in *.
    + lia.
    + by rewrite Ew, Hbd.
    + by rewrite Hfin2, Hbd, andb_false_r.
Qed.

(** C2: an established connection refines a byte stream: whatever sequence of
    sends, shutdowns and writable events its loop handles, and however much
    of each write the kernel takes, no assertion fails and the bytes given to
    [send] before the shutdown are, in order, those the kernel has taken
    followed by those still buffered; writability is watched exactly while
    bytes are buffered; and the connection is half-closed exactly when it has
    been shut down and the last byte was taken. *)
Theorem connection_refines_stream (c : nat) (acts : list conn_action) (room : Z) (s : stream)
  (w : W) (Hroom : 0 ≤ room)
  (Hok : stream_ok c (room + foldr (λ a n, sent_by a + n) 0 acts) s w) :
  ∃ w', iterM (run_action c) acts w = Ret tt w' ∧
    stream_ok c room (foldl stream_step s acts) w'.
Proof.
  cut (wp (iterM (run_action c) acts) (λ _ w', stream_ok c room (foldl stream_step s acts) w') w).
  { intros Hwp. apply wp_run in Hwp as ([]&w'&?&?). eauto. }
  revert s w Hok. induction acts as [|a acts IH]; intros s w Hok; cbn [iterM foldl].
  - wp_step. cbn in Hok. by rewrite Z.add_0_r in Hok.
  - wp_step. cbn [foldr] in Hok.
    assert (0 ≤ foldr (λ a n, sent_by a + n) 0 acts) as Hnn.
    { clear. induction acts as [|a acts IH]; cbn; [lia|].
      assert (0 ≤ sent_by a) by (destruct a; cbn; [apply zlen_nonneg|lia..]). lia. }
    destruct a as [m| |]; cbn [run_action sent_by] in *.
    + eapply (wp_send c _ s m); [exact Hok|lia|]. intros w' Hok'. apply IH.
      replace (room + _) with (room + (zlen m + foldr (λ a n, sent_by a + n) 0 acts) - zlen m) by lia.
      exact Hok'.
    + eapply (wp_shutdown c _ s); [exact Hok|]. intros w' Hok'. by apply IH.
    + eapply (wp_handleWrite c _ s); [exact Hok|]. intros w' Hok'. by apply IH.
Qed.

(** While the connection is healthy, [send] never calls [write]: even
    with nothing buffered the message waits for the poller to report the
    descriptor writable. (The direct write is guarded by the buffer being
    non-empty instead of empty.) *)
Theorem send_only_buffers (c : nat) (conn : TcpConnection) (ch : Channel) (loop : EventLoop)
  (room : Z) (s : stream) (m : list char) (w : W)
  (Hinv : stream_inv c conn ch loop room s w) (Hopen : open s = true) (Hm : zlen m ≤ room) :
  ∃ w', send c m w = Ret tt w' ∧
    written (c_fd conn) (trace w') = written (c_fd conn) (trace w) ∧
    stream_ok c (room - zlen m) (stream_step s (ASend m)) w'.
Proof.
  cut (wp (send c m) (λ _ w', written (c_fd conn) (trace w') = written (c_fd conn) (trace w) ∧
    stream_ok c (room - zlen m) (stream_step s (ASend m)) w') w).
  { intros Hwp. apply wp_run in Hwp as ([]&w'&?&?). eauto. }
  pose proof Hinv as [[] _ _ _ Hst _]. unfold send, get_conn. wp_step. eapply wp_deref; [done|].
  rewrite Hst, Hopen. cbn. wp_step. eapply wp_isInLoopThread; [done|].
  rewrite lv_thread0, Z.eqb_refl. by eapply wp_sendInLoop.
Qed.

(** *** After the peer has closed *)

(** All of [handleClose] but the close callback. *)
Lemma handleClose_run (close : CloseCallBack → nat → M W unit) c conn ch loop cb w :
  conn_live c conn ch loop w → c_state conn = kConnected ∨ c_state conn = kDisconnecting →
  c_closeCallback conn = Some cb →
  ∃ w' evs, handleClose close c w = close cb c w' ∧
    conn_live c conn (ch <| events_ := kNoneEvent |>) loop w' ∧
    trace w' = trace w ++ evs ∧ Forall quiet evs ∧ servers w' = servers w.
Proof.
  intros [] Hst Hcb.
  assert (wp (disableAll (c_channel conn)) (λ _ w', ∃ evs,
    conn_live c conn (ch <| events_ := kNoneEvent |>) loop w' ∧
    trace w' = trace w ++ evs ∧ Forall quiet evs ∧ servers w' = servers w) w) as Hwp.
  { eapply (wp_mask_registered DisableAll _ ch loop); try done; [by rewrite lv_owner0..|].
    intros w1 Hc1 El1 Ec1 Ecur1 (evs&Et&Hq) HR1 Es1. exists evs. split; [|done].
    split; first [done | by rewrite ?Ec1, ?El1, ?Ecur1 | by rewrite <- lv_owner0]. }
  apply wp_run in Hwp as ([]&w1&Hrun&evs&Hlive1&Ht1). exists w1, evs. split; [|done].
  unfold handleClose, get_conn.
  rewrite (bind_Ret _ _ _ _ _ (deref_run _ _ _ _ _ lv_conn0)).
  rewrite (bind_Ret _ _ _ _ _ (assertInLoopThread_run _ _ _ lv_loop0 lv_thread0)).
  rewrite (bind_Ret (assert_ _ _) _ w tt w) by (by destruct Hst as [-> | ->]).
  rewrite (bind_Ret _ _ _ _ _ Hrun).
  rewrite (bind_Ret _ _ _ _ _ (deref_run _ _ _ _ _ (lv_conn _ _ _ _ _ Hlive1))).
  by rewrite Hcb.
Qed.

Lemma wp_handleClose (close : CloseCallBack → nat → M W unit) c conn ch loop cb
    (Q : unit → W → Prop) w :
  conn_live c conn ch loop w → c_state conn = kConnected ∨ c_state conn = kDisconnecting →
  c_closeCallback conn = Some cb →
  (∀ w' evs, conn_live c conn (ch <| events_ := kNoneEvent |>) loop w' →
     trace w' = trace w ++ evs → Forall quiet evs → servers w' = servers w →
     wp (close cb c) Q w') →
  wp (handleClose close c) Q w.
Proof.
  intros Hlive Hst Hcb HQ.
  destruct (handleClose_run close c conn ch loop cb w Hlive Hst Hcb) as (w'&evs&E&?&?&?&?).
  unfold wp. rewrite E. by eapply HQ.
Qed.

(** Once [handleClose] has run while bytes were still buffered, a message
    sent before [connectDestoryed] overtakes them: it is written to the
    descriptor at once, and the older bytes stay in the buffer for good. *)
Theorem send_after_close_overtakes (close : CloseCallBack → nat → M W unit) (c : nat)
  (conn : TcpConnection) (ch : Channel) (loop : EventLoop) (cb : CloseCallBack)
  (m : list char) (w : W)
  (Hlive : conn_live c conn ch loop w) (Hst : c_state conn = kConnected)
  (Hcb : c_closeCallback conn = Some cb)
  (Hpending : content (outputBuffer_ conn) ≠ [])
  (Hclose : ∀ ch loop w, conn_live c conn ch loop w →
     wp (close cb c) (λ _ w', (∃ loop', conn_live c conn ch loop' w') ∧
                              written (c_fd conn) (trace w') = written (c_fd conn) (trace w)) w)
  (Haccept : ∀ k, rv (syscall (SysWrite (c_fd conn) m) k).1 = zlen m) :
  ∃ w' conn', (handleClose close c;; send c m) w = Ret tt w' ∧
    written (c_fd conn) (trace w') = written (c_fd conn) (trace w) ++ m ∧
    conns w' !! c = Some conn' ∧
    content (outputBuffer_ conn') = content (outputBuffer_ conn).
Proof.
  cut (wp (handleClose close c;; send c m) (λ _ w',
    written (c_fd conn) (trace w') = written (c_fd conn) (trace w) ++ m ∧
    conns w' !! c = Some conn) w).
  { intros Hwp. apply wp_run in Hwp as ([]&w'&?&?&?). eauto 10. }
  wp_step. eapply wp_handleClose; [done|by left|done|].
  intros w1 evs Hlive1 Et1 Hq1 _. eapply wp_mono; [eapply Hclose; exact Hlive1|].
  intros [] w2 [(loop2&Hlive2) Hwr2]. cbv beta. pose proof Hlive2 as [].
  unfold send, get_conn. wp_step. eapply wp_deref; [done|]. rewrite Hst. cbn. wp_step.
  eapply wp_isInLoopThread; [done|]. rewrite lv_thread0, Z.eqb_refl.
  unfold sendInLoop, get_conn, get_chan. wp_step. eapply wp_deref; [done|]. wp_step.
  eapply wp_assertInLoopThread; [done..|]. wp_step. eapply wp_deref; [done|].
  rewrite (content_readable _ lv_wf0), bool_decide_eq_false_2 by done.
  change (isWriting (ch <| events_ := kNoneEvent |>)) with false. cbn [negb andb]. wp_step.
  apply wp_sys. intros r k Hsys. pose proof (Haccept (kern w2)) as Hr.
  cbn [ch_fd upd] in *. rewrite lv_fd0 in *. rewrite Hsys in Hr. cbn in Hr. rewrite Hr.
  pose proof (zlen_nonneg m). rewrite (proj2 (Z.leb_le _ _)), Z.ltb_irrefl by done. wp_step.
  eapply (wp_writeComplete c conn _ loop2); [by apply conn_live_sys|].
  intros w3 loop3 evs3 Hlive3 Et3 Hq3. wp_step. apply wp_assert; [by apply Z.leb_le|].
  rewrite Z.ltb_irrefl. wp_step. split; [|apply Hlive3].
  rewrite Et3. etrans; [by apply quiet_stream|]. cbn. rewrite written_snoc. cbn.
  rewrite Z.eqb_refl, Hr, Hwr2, Et1. rewrite take_ge by (unfold zlen; lia).
  f_equal. by apply quiet_stream.
Qed.

(** *** Destroying *)

Lemma wp_connectDestoryed c conn ch loop f (Q : unit → W → Prop) w :
  conn_live c conn ch loop w → c_state conn = kConnected ∨ c_state conn = kDisconnecting →
  connectionCallback_ conn = Some f →
  (∀ conn' ch' loop' w', conn_live c conn' ch' loop' w' →
     wp (u_connection f c) (λ _ w'', (∃ loop'', conn_live c conn' ch' loop'' w'') ∧
                                     servers w'' = servers w') w') →
  (∀ w', conns w' !! c = Some (conn <| c_state := kDisConnected |>) → servers w' = servers w →
     (ctl_ok (trace w') → registration (c_loop conn) w' ∧
        ∃ ch', chans w' !! c_channel conn = Some ch' ∧ registeredInEpoller_ ch' = false) →
     Q tt w') →
  wp (connectDestoryed c) Q w.
Proof.
  intros [] Hst Hf Hcode HQ. unfold connectDestoryed, get_conn, setState, upd_conn. wp_step.
  eapply wp_deref; [done|]. wp_step. eapply wp_assertInLoopThread; [done..|]. wp_step.
  apply wp_assert; [by destruct Hst as [-> | ->]|]. wp_step.
  eapply (wp_mask_registered DisableAll _ ch loop); try done; [by rewrite lv_owner0..|].
  intros w1 Hc1 El1 Ec1 Ecur1 _ HR1 Es1. cbv beta. wp_step.
  set (conn1 := conn <| c_state := kDisConnected |>).
  set (ch1 := ch <| events_ := mask_after DisableAll ch |>) in *.
  assert (conns w1 !! c = Some conn1) as Hconn1.
  { rewrite Ec1. cbn. by rewrite lookup_alter_eq, lv_conn0. }
  assert (conn_live c conn1 ch1 loop w1) as Hlive1.
  { rewrite lv_owner0 in HR1.
    split; [exact Hconn1|exact Hc1|by rewrite El1|by rewrite Ecur1|done|done|done|exact HR1|done]. }
  eapply wp_deref; [exact Hconn1|]. cbn [connectionCallback_ upd conn1]. rewrite Hf. cbn [call_opt].
  wp_step. eapply wp_mono; [by eapply Hcode|]. intros [] w2 [(loop2&Hlive2) Es2]. cbv beta. wp_step.
  pose proof Hlive2 as [Hc2 Hch2 Hl2 Ht2 Ho2 _ Hr2 [HR2 _] _]. eapply wp_deref; [exact Hc2|].
  eapply wp_mono; [by apply (removeChannel_spec (c_channel conn1) ch1 (c_loop conn1) loop2)|].
  intros [] w3 (Hf3&_&_&Hctl). cbv beta. apply HQ.
  - by rewrite (pf_conns _ _ Hf3).
  - by rewrite (pf_servers _ _ Hf3), Es2, Es1.
  - intros Hok. destruct (Hctl Hok) as [? (ch3&?&?&?&_)]. split; [done|]. by exists ch3.
Qed.
End StreamInv.

(** ** Receiving *)

(** A successful [readv] reports the bytes it stored, at most the room given. *)
Class Reads (K : Type) `{Kernel K} :=
  readv_ok : ∀ fd len0 len1 k r k', syscall (SysReadv fd len0 len1) k = (r, k') →
    rv r < 0 ∨ ∃ bytes, out r = OutBytes bytes ∧ rv r = zlen bytes ∧ rv r ≤ len0 + len1.

Section Receive.
Context {K U : Type} `{Kernel K} `{!Reads K} `{UserCode K U}.
Abbreviation W := (World K U).

(** The world after the [readv], with [b] as the input buffer. *)
Definition received (c : nat) (call : Syscall) (w : W) (b : Buffer) : W :=
  let '(r, k) := syscall call (kern w) in
  w <| kern := k |> <| trace ::= λ tr, tr ++ [(call, r)] |>
    <| conns ::= alter (λ x, x <| inputBuffer_ := b |>) c |>.

Lemma read_input_run c conn fd w :
  conns w !! c = Some conn → wf (inputBuffer_ conn) →
  writerIndex_ (inputBuffer_ conn) + writableBytes (inputBuffer_ conn) + extrabuf_size ≤ max_size →
  let call := SysReadv fd (writableBytes (inputBuffer_ conn)) extrabuf_size in
  let r := (syscall call (kern w)).1 in
  if rv r <? 0
  then read_input c fd w = Ret (rv r, Some (errno r)) (received c call w (inputBuffer_ conn))
  else ∃ bytes b, out r = OutBytes bytes ∧ rv r = zlen bytes ∧ wf b ∧
    content b = content (inputBuffer_ conn) ++ bytes ∧
    grows (rv r) (rv r) (inputBuffer_ conn) b ∧
    read_input c fd w = Ret (rv r, None) (received c call w b).
Proof.
  intros Hc Hwf Hmax call r. unfold received. destruct (syscall call (kern w)) as [r' k] eqn:Hsys.
  cbn in r. subst r. set (w1 := w <| kern := k |> <| trace ::= λ tr, tr ++ [(call, r')] |>).
  assert (wp (readFd fst (λ b (p : Buffer * W), (b, p.2)) (sys_readv fd)) (λ x p, p.2 = w1 ∧
    if rv r' <? 0 then x = (rv r', Some (errno r')) ∧ p.1 = inputBuffer_ conn
    else ∃ bytes, out r' = OutBytes bytes ∧ rv r' = zlen bytes ∧ x = (rv r', None) ∧ wf p.1 ∧
         content p.1 = content (inputBuffer_ conn) ++ bytes ∧
         grows (rv r') (rv r') (inputBuffer_ conn) p.1) (inputBuffer_ conn, w)) as Hwp.
  { apply readFd_spec; [done|done|done|]. unfold sys_readv. wp_step. cbn [snd fst].
    apply wp_sys. intros r1 k1 Hsys1. fold call in Hsys1, k1 |- *. rewrite Hsys in Hsys1. simplify_eq. wp_step.
    split; [done|]. destruct (Z.ltb_spec (rv r1) 0); [done|].
    destruct (readv_ok _ _ _ _ _ _ Hsys) as [?|(bytes&Ho&Hn&Hle)]; [lia|]. rewrite Ho.
    split_and!; [done|done|cbn; lia|]. intros b' Hwf' Hcont Hgrow. cbn. split; [done|].
    exists bytes. done. }
  apply wp_run in Hwp as (x&[b w']&Hrun&Hw&Hx). cbn in Hw. subst w'.
  unfold read_input. rewrite Hc, Hrun. destruct (rv r' <? 0).
  - cbn in Hx. destruct Hx as [-> ->]. done.
  - destruct Hx as (bytes&?&?&->&?&?&?). exists bytes, b. done.
Qed.

Lemma handleRead_unfold close (t : Timestamp) c conn ch w :
  conns w !! c = Some conn → chans w !! c_channel conn = Some ch →
  TcpConnection_handleRead close t c w =
    (res ← read_input c (ch_fd ch);
     let '(n, savedErrno) := res in
     if 0 <? n then conn ← get_conn c; call_opt (messageCallback_ conn) (λ f, u_message f c t)
     else if n =? 0 then handleClose close c else handleError c) w.
Proof.
  intros Hc Hch. unfold TcpConnection_handleRead, get_conn, get_chan.
  rewrite (bind_Ret _ _ _ _ _ (deref_run _ _ _ _ _ Hc)).
  by rewrite (bind_Ret _ _ _ _ _ (deref_run _ _ _ _ _ Hch)).
Qed.

(** C16: one readable event makes one [readv]. Bytes received are appended to
    the input buffer, all of them and in order (whether or not they fitted),
    before the message callback sees it; end of file closes the connection;
    an error is queried and otherwise ignored. *)
Theorem handleRead_delivers (close : CloseCallBack → nat → M W unit) (t : Timestamp) (c : nat)
  (conn : TcpConnection) (ch : Channel) (code : nat) (w : W)
  (Hc : conns w !! c = Some conn) (Hch : chans w !! c_channel conn = Some ch)
  (Hcode : messageCallback_ conn = Some code) (Hwf : wf (inputBuffer_ conn))
  (Hmax : writerIndex_ (inputBuffer_ conn) + writableBytes (inputBuffer_ conn) + extrabuf_size
          ≤ max_size) :
  let call := SysReadv (ch_fd ch) (writableBytes (inputBuffer_ conn)) extrabuf_size in
  let r := (syscall call (kern w)).1 in
  if rv r <? 0
  then TcpConnection_handleRead close t c w =
         handleError c (received c call w (inputBuffer_ conn))
  else ∃ bytes b, out r = OutBytes bytes ∧ rv r = zlen bytes ∧ wf b ∧
    content b = content (inputBuffer_ conn) ++ bytes ∧
    TcpConnection_handleRead close t c w =
      if rv r =? 0 then handleClose close c (received c call w b)
      else u_message code c t (received c call w b).
Proof.
  intros call r. pose proof (read_input_run c conn (ch_fd ch) w Hc Hwf Hmax) as Hread.
  cbv zeta in Hread. fold call r in Hread.
  rewrite (handleRead_unfold close t c conn ch w Hc Hch).
  destruct (Z.ltb_spec (rv r) 0) as [Hneg|Hpos].
  - rewrite (bind_Ret _ _ _ _ _ Hread). rewrite (proj2 (Z.ltb_ge _ _)), (proj2 (Z.eqb_neq _ _)) by lia. done.
  - destruct Hread as (bytes&b&Ho&Hn&Hwfb&Hcb&_&Hread). exists bytes, b. split_and!; try done.
    rewrite (bind_Ret _ _ _ _ _ Hread).
    destruct (Z.ltb_spec 0 (rv r)) as [Hp|Hp].
    + rewrite (proj2 (Z.eqb_neq _ _)) by lia.
      unfold get_conn, deref, mbind, M_bind, get, of_option, received.
      destruct (syscall call (kern w)) as [r1 k1]. cbn. rewrite lookup_alter_eq, Hc. cbn.
      by rewrite Hcode.
    + by rewrite (proj2 (Z.eqb_eq _ _)) by lia.
Qed.
End Receive.

(** ** Construction and establishment *)

Section Lifecycle.
Context {K U : Type} `{Kernel K} `{UserCode K U}.
Abbreviation W := (World K U).

(** The objects that [TcpConnection_ctor] makes. *)
Definition new_channel (l c : nat) (fd : Z) : Channel :=
  mkChannel l fd false false false 0 0 (Some (CbConnRead c)) (Some (CbConnWrite c))
    (Some (CbConnError c)) (Some (CbConnClose c)).
Definition new_conn (l ci : nat) (name : string) (fd : Z) (la : sockaddr_in) : TcpConnection :=
  mkConn l kConnecting name fd ci la None None None None None Buffer_ctor Buffer_ctor.

Lemma wp_TcpConnection_ctor l name fd la pa (Q : nat → W → Prop) w :
  (let c := next_id w in
   Q c (w <| next_id := S (S c) |> <| chans ::= <[S c := new_channel l c fd]> |>
          <| conns ::= <[c := new_conn l (S c) name fd la]> |>)) →
  wp (TcpConnection_ctor l name fd la pa) Q w.
Proof.
  intros HQ. unfold TcpConnection_ctor, Channel_ctor, alloc, setreadCallback, setcloseCallback,
    setwriteCallback, seterrorCallback, upd_chan. wp_step. cbn -[insert alter Buffer_ctor] in *.
  by rewrite !alter_insert_eq.
Qed.

Lemma wp_connectEstablished c conn ch loop f (Q : unit → W → Prop) w :
  conns w !! c = Some conn → chans w !! c_channel conn = Some ch →
  loops w !! c_loop conn = Some loop → threadId_ loop = cur w → ch_loop ch = c_loop conn →
  c_state conn = kConnecting → connectionCallback_ conn = Some f →
  registration (c_loop conn) w → addressable (c_channel conn) ch loop →
  (∀ w0, registers (c_channel conn) (c_loop conn)
           (set_events (c_channel conn) (λ _, mask_after EnableReading ch) w) w0 →
     wp (u_connection f c) Q (w0 <| conns ::= alter (λ x, x <| c_state := kConnected |>) c |>)) →
  wp (connectEstablished c) Q w.
Proof.
  intros Hc Hch Hl Ht Hown Hst Hcb HR Ha HQ. unfold connectEstablished, get_conn, setState, upd_conn.
  wp_step. eapply wp_deref; [done|]. wp_step. eapply wp_assertInLoopThread; [done..|]. wp_step.
  apply wp_assert; [by rewrite Hst|]. wp_step. eapply wp_mono.
  { apply (run_mask_op_spec EnableReading (c_channel conn) ch loop); rewrite ?Hown; try done.
    by apply registration_weaken. }
  intros [] w0 Hreg. rewrite Hown in Hreg. cbv beta. wp_step. pose proof Hreg as [Hf _].
  eapply wp_deref; [cbn; by rewrite (pf_conns _ _ Hf), lookup_alter_eq; cbn; rewrite Hc|].
  cbn [connectionCallback_ upd]. rewrite Hcb. cbn [call_opt]. by apply HQ.
Qed.

(** Establishing a connection whose channel asks for nothing yet. *)
Lemma wp_establish c conn ch loop f (Q : unit → W → Prop) w :
  conns w !! c = Some conn → chans w !! c_channel conn = Some ch →
  loops w !! c_loop conn = Some loop → threadId_ loop = cur w → ch_loop ch = c_loop conn →
  c_state conn = kConnecting → connectionCallback_ conn = Some f →
  registration (c_loop conn) w → addressable (c_channel conn) ch loop →
  events_ ch = 0 → enableet_ ch = false →
  (∀ w', conns w' !! c = Some (conn <| c_state := kConnected |>) →
     servers w' = servers w → clients w' = clients w →
     (ctl_ok (trace w') → registration (c_loop conn) w' ∧
        ∃ ch', chans w' !! c_channel conn = Some ch' ∧ registeredInEpoller_ ch' = true ∧
               ch_fd ch' = ch_fd ch ∧ events_ ch' = kReadEvent) →
     wp (u_connection f c) Q w') →
  wp (connectEstablished c) Q w.
Proof.
  intros Hc Hch Hl Ht Hown Hst Hcb HR Ha Hev Het HQ.
  eapply (wp_connectEstablished c conn ch loop f); try done.
  intros w0 (Hf&_&_&_&Hctl).
  destruct (set_events_others (c_channel conn) (λ _, mask_after EnableReading ch) w)
    as (Ec&Es&_).
  assert (chans (set_events (c_channel conn) (λ _, mask_after EnableReading ch) w) !! c_channel conn
          = Some (ch <| events_ := kReadEvent |>)) as Hch2.
  { assert (mask_after EnableReading ch = kReadEvent) as -> by (unfold mask_after; by rewrite Hev, Het).
    cbn [set_events chans upd]. by rewrite lookup_alter_eq, Hch. }
  apply HQ.
  - cbn [conns upd]. by rewrite lookup_alter_eq, (pf_conns _ _ Hf), Ec, Hc.
  - cbn [servers upd]. by rewrite (pf_servers _ _ Hf), Es.
  - cbn [clients upd]. by rewrite (pf_clients _ _ Hf).
  - intros Hok. destruct (Hctl Hok) as [HR0 Hreg]. split; [done|].
    destruct (Hreg _ Hch2) as (ch'&Hch'&Hr'); [done|].
    destruct (pf_chan _ _ _ _ Hf Hch2) as [b Hb]. rewrite Hb in Hch'. injection Hch' as <-.
    eexists. split; [exact Hb|done].
Qed.
End Lifecycle.

(** ** Concrete instances *)

(** An operating system that takes [n] bytes of the next write for the number
    [n] that heads its state, whole writes when none is left, and whose peers
    always have something to say. *)
#[export] Instance stream_kernel : Kernel (list Z) := λ sc caps,
  match sc with
  | SysWrite _ data =>
      match caps with
      | n :: caps' => (res_ok (Z.min n (zlen data)), caps')
      | [] => (res_ok (zlen data), [])
      end
  | SysReadv _ len0 len1 =>
      if len0 + len1 <? 4 then (res_err 11, caps)
      else (mkRes 4 0 (OutBytes (Printf.str "pong")), caps)
  | _ => (res_ok 0, caps)
  end.

(** One that takes every write whole. *)
#[export] Instance generous_kernel : Kernel unit := λ sc _,
  match sc with SysWrite _ data => (res_ok (zlen data), tt) | _ => (res_ok 0, tt) end.

#[export] Instance stream_kernel_writes : Writes (list Z).
Proof. intros fd data [|n caps] r k'; cbn; intros [= <- <-]; cbn; lia. Qed.
#[export] Instance generous_kernel_writes : Writes unit.
Proof. intros fd data k r k' [= <- <-]. done. Qed.

#[export] Instance stream_kernel_reads : Reads (list Z).
Proof.
  intros fd len0 len1 k r k'. cbn. destruct (Z.ltb_spec (len0 + len1) 4); intros [= <- <-].
  - by left.
  - right. eexists. split_and!; [done|done|]. cbn. lia.
Qed.

Module ConnDemo.
Definition buffer (s : string) : Buffer :=
  match append (Printf.str s) Buffer_ctor with Ret _ b => b | Crash _ => Buffer_ctor end.
Definition addr : sockaddr_in := InetAddress_port 80.
Definition conn_with (cb : CloseCallBack) (out : string) (inp : Buffer) : TcpConnection :=
  mkConn 0 kConnected "srv#1" 7 3 addr None (Some 0%nat) (Some 1%nat) (Some 2%nat)
    (Some cb) inp (buffer out).
Definition conn : string → Buffer → TcpConnection := conn_with (CloseDetail 0).
Definition ch (writing : bool) : Channel :=
  mkChannel 0 7 false true false (if writing then Z.lor kReadEvent kWriteEvent else kReadEvent) 0
    (Some (CbConnRead 5)) (Some (CbConnWrite 5)) (Some (CbConnError 5)) (Some (CbConnClose 5)).
Definition loop : EventLoop := ChannelDemo.loop {[7 := 3%nat]}.
Definition history (writing : bool) : list (Syscall * SysRes) :=
  ChannelDemo.added ++ if writing then [(SysEpollCtl 5 EPOLL_CTL_MOD 7 (events_ (ch true)), res_ok 0)] else [].
Definition w_user {K U} (u : U) (k : K) (cb : CloseCallBack) (srv : gmap nat TcpServer) (out : string)
    (writing : bool) : World K U :=
  mkWorld k (history writing) 1 ∅ 0 9%nat {[3%nat := ch writing]} {[0%nat := loop]} ∅
    {[5%nat := conn_with cb out Buffer_ctor]} ∅ ∅ srv ∅ u.
Definition w_with {K} : K → CloseCallBack → gmap nat TcpServer → string → bool → World K unit := w_user tt.
Definition w0 {K} (k : K) : string → bool → World K unit := w_with k (CloseDetail 0) ∅.

Lemma live {K U} `{Kernel K} (u : U) (k : K) cb srv out writing :
  wf (buffer out) →
  conn_live 5 (conn_with cb out Buffer_ctor) (ch writing) loop (w_user u k cb srv out writing).
Proof.
  intros Hwf.
  assert (registration 0 (w_user u k cb srv out writing)) as HR.
  2: { split; try done. split; [by apply registration_weaken|done]. }
  exists loop. split; [done|]. split.
  - intros fd c. cbn. rewrite lookup_singleton_Some. split.
    + intros [<- <-]. by exists (ch writing).
    + intros (ch'&Hc&<-&_). by apply lookup_singleton_Some in Hc as [<- <-].
  - intros fd. unfold watch_ok. cbn. destruct (decide (fd = 7)) as [->|]; [by destruct writing|].
    destruct writing; cbn; by rewrite ?lookup_insert_ne, lookup_singleton_ne.
Qed.

Lemma inv_pending_user {K U} `{Kernel K} (u : U) (k : K) :
  stream_inv 5 (conn "abc" Buffer_ctor) (ch true) loop 1000
    (mkStream (Printf.str "abc") true) (w_user u k (CloseDetail 0) ∅ "abc" true).
Proof. split; [apply live; by vm_compute|..]; by vm_compute. Qed.

Lemma inv_pending {K} `{Kernel K} (k : K) :
  stream_inv 5 (conn "abc" Buffer_ctor) (ch true) loop 1000
    (mkStream (Printf.str "abc") true) (w0 k "abc" true).
Proof. exact (inv_pending_user tt k). Qed.

Lemma inv_empty {K} `{Kernel K} (k : K) :
  stream_inv 5 (conn "" Buffer_ctor) (ch false) loop 1000 (mkStream [] true) (w0 k "" false).
Proof. split; [apply live; by vm_compute|..]; by vm_compute. Qed.
End ConnDemo.

Lemma connection_refines_stream_witness :
  ∃ w', iterM (run_action 5)
      [ASend (Printf.str "de"); AWritable; AShutdown; ASend (Printf.str "f"); AWritable]
      (ConnDemo.w0 [2] "abc" true) = Ret tt w' ∧
    stream_ok 5 997 (mkStream (Printf.str "abcde") false) w'.
Proof.
  apply (connection_refines_stream 5
    [ASend (Printf.str "de"); AWritable; AShutdown; ASend (Printf.str "f"); AWritable] 997
    (mkStream (Printf.str "abc") true)); [done|].
  eexists _, _, _. exact (ConnDemo.inv_pending [2]).
Defined.

Lemma send_only_buffers_witness :
  ∃ w', send 5 (Printf.str "hello") (ConnDemo.w0 tt "" false) = Ret tt w' ∧
    written 7 (trace w') = [] ∧ stream_ok 5 995 (mkStream (Printf.str "hello") true) w'.
Proof.
  apply (send_only_buffers 5 (ConnDemo.conn "" Buffer_ctor) (ConnDemo.ch false) ConnDemo.loop 1000
    (mkStream [] true) (Printf.str "hello")); [exact (ConnDemo.inv_empty tt)|done|by_computation].
Defined.

Lemma send_after_close_overtakes_witness :
  ∃ w' conn', (handleClose (λ _ _, mret tt) 5;; send 5 (Printf.str "late"))
      (ConnDemo.w0 tt "abc" true) = Ret tt w' ∧
    written 7 (trace w') = Printf.str "late" ∧ conns w' !! 5%nat = Some conn' ∧
    content (outputBuffer_ conn') = Printf.str "abc".
Proof.
  apply (send_after_close_overtakes (λ _ _, mret tt) 5 (ConnDemo.conn "abc" Buffer_ctor)
    (ConnDemo.ch true) ConnDemo.loop (CloseDetail 0) (Printf.str "late") (ConnDemo.w0 tt "abc" true));
    [apply ConnDemo.live; by vm_compute|reflexivity|reflexivity|discriminate| |reflexivity].
  intros ch loop w Hlive. split; [by exists loop|reflexivity].
Defined.

Lemma handleRead_delivers_witness :
  ∃ bytes b, bytes = Printf.str "pong" ∧ wf b ∧ content b = bytes ∧
    TcpConnection_handleRead (H0 := idle_code) (λ _ _, mret tt) 0 5 (ConnDemo.w0 [] "" false) =
    Ret tt (received 5 (SysReadv 7 1024 65536) (ConnDemo.w0 [] "" false) b).
Proof.
  destruct (handleRead_delivers (H0 := idle_code) (λ _ _, mret tt) 0 5
    (ConnDemo.conn "" Buffer_ctor) (ConnDemo.ch false) 1 (ConnDemo.w0 [] "" false))
    as (bytes&b&Hout&_&Hwf&Hcont&Hrun); [reflexivity..|by_computation|by_computation|].
  exists bytes, b. split_and!; [by injection Hout|done|exact Hcont|exact Hrun].
Defined.
