(* ===== verification/Acceptor.v ===== *)
(** * Acceptor

    [reactor/Acceptor.h], [reactor/Acceptor.cc], [reactor/EventLoopThread.cc]
    and [reactor/EventLoopThreadPool.cc]: the listening socket, and the loops
    that a server hands its connections to. *)
From S2P Require Import Prelude Buffer Timestamp World Channel EventLoop TimerQueue Net.
Local Open Scope Z_scope.

Section Acceptor.
Context {K U : Type} `{Kernel K}.
Abbreviation W := (World K U).

(** ** Acceptor *)

Definition Acceptor_ctor (loop : nat) (listenAddr : sockaddr_in) : M W nat :=
  a ← alloc;
  fd ← createNonblockingOrDie;
  ch ← Channel_ctor loop fd false;
  modify (λ w, w <| acceptors ::= <[a := {|
    a_loop := loop; a_fd := fd; acceptChannel_ := ch;
    newConnectionCallback_ := None; listenning_ := false |}]> |>);;
  setReuseAddr fd true;;
  bindAddress fd listenAddr;;
  setreadCallback ch (CbAcceptorRead a);;
  mret a.

Definition Acceptor_setNewConnectionCallBack (a : nat) (cb : NewConnectionCallBack) : M W unit :=
  upd_acceptor a (λ x, x <| newConnectionCallback_ := Some cb |>).

Definition Acceptor_listen (a : nat) : M W unit :=
  acceptor ← get_acceptor a;
  assertInLoopThread (a_loop acceptor);;
  enableReading (acceptChannel_ acceptor);;
  upd_acceptor a (λ x, x <| listenning_ := true |>);;
  listenOrDie (a_fd acceptor).

(** The members are destroyed in the reverse order of their declaration. *)
Definition Acceptor_dtor (a : nat) : M W unit :=
  acceptor ← get_acceptor a;
  Channel_dtor (acceptChannel_ acceptor);;
  Socket_dtor (a_fd acceptor);;
  modify (λ w, w <| acceptors ::= delete a |>).

(** [call] invokes a new-connection callback. *)
Definition Acceptor_handleRead (call : NewConnectionCallBack → Z → sockaddr_in → M W unit) (a : nat)
    : M W unit :=
  acceptor ← get_acceptor a;
  assertInLoopThread (a_loop acceptor);;
  res ← Socket_accept (a_fd acceptor);
  let '(connfd, addr) := res in
  if 0 <=? connfd then
    match newConnectionCallback_ acceptor with
    | Some cb => call cb connfd addr
    | None => closefd connfd
    end
  else mret tt.

(** ** EventLoopThread, EventLoopThreadPool *)

(** [startLoop] returns the loop that the new thread, with kernel id [tid],
    has constructed; that thread then runs [loop] on its own. *)
Definition startLoop (tid : Z) : M W nat :=
  w ← get;
  modify (λ w, w <| cur := tid |>);;
  l ← EventLoop_ctor;
  modify (λ w', w' <| cur := cur w |>);;
  mret l.

Definition EventLoopThreadPool_ctor (baseloop : nat) : EventLoopThreadPool :=
  mkPool baseloop false 0 0 [].

Definition Pool_setThreadNum (numThreads : Z) (p : EventLoopThreadPool) : EventLoopThreadPool :=
  p <| numThreads_ := numThreads |>.

(** [tids] are the kernel ids of the threads created, in order. *)
Fixpoint start_threads (n : nat) (tids : list Z) (loops : list nat) : M W (list nat) :=
  match n, tids with
  | O, _ => mret loops
  | S n', tid :: tids' => l ← startLoop tid; start_threads n' tids' (loops ++ [l])
  | S _, [] => fails (Thrown "thread creation failed")
  end.

Definition Pool_start (tids : list Z) (p : EventLoopThreadPool) : M W EventLoopThreadPool :=
  assert_ "!started_" (negb (p_started p));;
  assertInLoopThread (baseLoop_ p);;
  let p := p <| p_started := true |> in
  ls ← start_threads (Z.to_nat (numThreads_ p)) tids (loops_ p);
  mret (p <| loops_ := ls |>).

(** The loop chosen and the pool afterwards. *)
Definition getNextLoop (p : EventLoopThreadPool) : M W (nat * EventLoopThreadPool) :=
  assertInLoopThread (baseLoop_ p);;
  if bool_decide (loops_ p = []) then mret (baseLoop_ p, p)
  else
    loop ← of_option "loops_[next_]" (loops_ p !! Z.to_nat (next_ p));
    let next := next_ p + 1 in
    let next := if zlen (loops_ p) <=? next then 0 else next in
    mret (loop, p <| next_ := next |>).

Fixpoint getNextLoops (n : nat) (p : EventLoopThreadPool) : M W (list nat * EventLoopThreadPool) :=
  match n with
  | O => mret ([], p)
  | S n' => r ← getNextLoop p; rs ← getNextLoops n' r.2; mret (r.1 :: rs.1, rs.2)
  end.
End Acceptor.

(** ** Round robin *)

Definition pool_ok (p : EventLoopThreadPool) : Prop :=
  if bool_decide (loops_ p = []) then next_ p = 0 else 0 ≤ next_ p < zlen (loops_ p).

Lemma pool_ok_ctor base : pool_ok (EventLoopThreadPool_ctor base).
Proof. done. Qed.

(** The loop that the [i]-th call from now on returns. *)
Definition chosen (p : EventLoopThreadPool) (i : nat) : option nat :=
  if bool_decide (loops_ p = []) then Some (baseLoop_ p)
  else loops_ p !! Z.to_nat ((next_ p + Z.of_nat i) mod zlen (loops_ p)).

Section RoundRobin.
Context {K U : Type} `{Kernel K}.
Abbreviation W := (World K U).

Lemma getNextLoop_run (p : EventLoopThreadPool) loop (w : W) :
  pool_ok p → loops w !! baseLoop_ p = Some loop → threadId_ loop = cur w →
  ∃ l next, getNextLoop p w = Ret (l, p <| next_ := next |>) w ∧ chosen p 0 = Some l ∧
    pool_ok (p <| next_ := next |>) ∧
    (∀ i, chosen (p <| next_ := next |>) i = chosen p (S i)).
Proof.
  intros Hok Hl Ht. unfold getNextLoop.
  assert (∀ k : M W (nat * EventLoopThreadPool), (assertInLoopThread (baseLoop_ p);; k) w = k w) as ->.
  { intros k. unfold assertInLoopThread, isInLoopThread, get_loop, deref, mbind, M_bind, get, of_option.
    rewrite Hl. cbn. by rewrite Ht, Z.eqb_refl. }
  unfold pool_ok, chosen in *. cbn [loops_ next_ baseLoop_ upd].
  destruct (bool_decide (loops_ p = [])) eqn:E.
  - exists (baseLoop_ p), (next_ p). split_and!; [by destruct p|done|done|done].
  - destruct (lookup_lt_is_Some_2 (loops_ p) (Z.to_nat (next_ p))) as [l Hlk].
    { unfold zlen in Hok. lia. }
    rewrite Hlk. cbn [of_option]. eexists l, _.
    split; [reflexivity|split; [|split]].
    + rewrite Z.add_0_r, Z.mod_small by done. done.
    + destruct (Z.leb_spec (zlen (loops_ p)) (next_ p + 1)); lia.
    + intros i. do 2 f_equal.
      replace (next_ p + Z.of_nat (S i)) with (next_ p + 1 + Z.of_nat i) by lia.
      destruct (Z.leb_spec (zlen (loops_ p)) (next_ p + 1)); [|done].
      replace (next_ p + 1 + Z.of_nat i) with (0 + Z.of_nat i + 1 * zlen (loops_ p)) by lia.
      by rewrite Z.mod_add by lia.
Qed.

(** A pool hands its loops out round robin: from any state reached, the
    next calls return the loops in cyclic order starting at the current one,
    or always the base loop when the pool has no threads. *)
Theorem getNextLoop_round_robin (n : nat) (p : EventLoopThreadPool) (loop : EventLoop) (w : W)
  (Hok : pool_ok p) (Hl : loops w !! baseLoop_ p = Some loop) (Ht : threadId_ loop = cur w) :
  ∃ ls next, getNextLoops n p w = Ret (ls, p <| next_ := next |>) w ∧
    pool_ok (p <| next_ := next |>) ∧
    map Some ls = map (chosen p) (seq 0 n).
Proof.
  induction n as [|n IH] in p, Hok, Hl |- *; cbn [getNextLoops].
  - exists [], (next_ p). by destruct p.
  - destruct (getNextLoop_run p loop w Hok Hl Ht) as (l&next&Hrun&Hl0&Hok'&Hch).
    destruct (IH (p <| next_ := next |>) Hok' Hl) as (ls&next'&Hruns&Hok''&Hls).
    exists (l :: ls), next'. rewrite (bind_Ret _ _ _ _ _ Hrun). cbn [fst snd].
    rewrite (bind_Ret _ _ _ _ _ Hruns). split_and!; [done|done|].
    cbn [map seq]. rewrite Hl0, Hls. f_equal. rewrite <- seq_shift, map_map.
    apply map_ext. done.
Qed.
End RoundRobin.

(** ** Destroying an EventLoopThread

    The destructor and the thread that runs the loop, as a transition system.
    The loop object lives on the thread's stack. *)
Module LoopThread.
Inductive dtor_pc := DtorStart | DtorJoin | DtorQuit | DtorDone | DtorDangling.

Record state := mkState {
  existing_ : bool;
  lt_quit : bool;        (* quit_ of the loop *)
  lt_running : bool;     (* ThreadFunc has not returned *)
  lt_dtor : dtor_pc;
}.

Definition started : state := mkState false false true DtorStart.

Inductive step : state → state → Prop :=
  | loop_iterates s : lt_running s = true → lt_quit s = false → step s s
  | loop_returns e d : step (mkState e true true d) (mkState e true false d)
  | user_quits e q d : step (mkState e q true d) (mkState e true true d)
  | dtor_existing e q r : step (mkState e q r DtorStart) (mkState true q r DtorJoin)
  | dtor_join e q : step (mkState e q false DtorJoin) (mkState e q false DtorQuit)
  | dtor_quit e q : step (mkState e q true DtorQuit) (mkState e true true DtorDone)
  | dtor_quit_dangling e q : step (mkState e q false DtorQuit) (mkState e q false DtorDangling).

Definition waits (s : state) : Prop := lt_dtor s = DtorStart ∨ lt_dtor s = DtorJoin.

(** C35: the destructor joins the thread before it asks the loop to quit, so it
    never completes: unless someone else makes the loop quit it waits for ever,
    and if someone does, the loop it then calls no longer exists. *)
Theorem dtor_never_completes (s : state) (Hreach : rtc step started s) :
  lt_dtor s ≠ DtorDone ∧ (lt_quit s = false → waits s).
Proof.
  cut ((lt_running s = true → waits s) ∧ lt_dtor s ≠ DtorDone ∧ (lt_running s = false → lt_quit s = true)).
  { intros (Hrun&Hdone&Hq). split; [done|]. intros Hnq. apply Hrun.
    destruct (lt_running s); [done|]. by rewrite Hq in Hnq. }
  refine (rtc_ind_r (λ s, (lt_running s = true → waits s) ∧ lt_dtor s ≠ DtorDone ∧
    (lt_running s = false → lt_quit s = true)) started _ _ s Hreach).
  - split_and!; [by left|done|done].
  - intros s1 s2 _ Hstep (Hw&Hd&Hq).
    inversion Hstep; subst; cbn in *; split_and!; unfold waits in *; cbn in *;
      try done; try (intros; destruct Hw as [?|?]; [done|discriminate..]); intuition congruence.
Qed.
End LoopThread.

Lemma dtor_never_completes_witness :
  rtc LoopThread.step LoopThread.started (LoopThread.mkState true false true LoopThread.DtorJoin) ∧
  LoopThread.waits (LoopThread.mkState true false true LoopThread.DtorJoin).
Proof.
  assert (rtc LoopThread.step LoopThread.started
            (LoopThread.mkState true false true LoopThread.DtorJoin)) as Hr
    by apply rtc_once, LoopThread.dtor_existing.
  split; [exact Hr|]. exact (proj2 (LoopThread.dtor_never_completes _ Hr) eq_refl).
Defined.

Lemma getNextLoop_round_robin_witness :
  ∃ ls next, getNextLoops 5 (mkPool 0 true 3 1 [10%nat; 11%nat; 12%nat]) (EventLoopDemo.w0 1 [])
      = Ret (ls, mkPool 0 true 3 next [10%nat; 11%nat; 12%nat]) (EventLoopDemo.w0 1 []) ∧
    map Some ls = map Some [11%nat; 12%nat; 10%nat; 11%nat; 12%nat].
Proof.
  destruct (getNextLoop_round_robin 5 (mkPool 0 true 3 1 [10%nat; 11%nat; 12%nat])
    (EventLoopDemo.loop 1 []) (EventLoopDemo.w0 1 [])) as (ls&next&Hrun&_&Hls);
    [by_computation|reflexivity|reflexivity|].
  exists ls, next. split; [exact Hrun|exact Hls].
Defined.
