(* ===== verification/TcpServer.v ===== *)
(** * TcpServer

    [reactor/TcpServer.h] and [reactor/TcpServer.cc]: accepting connections,
    naming them, handing them to a loop, and removing them. *)
From S2P Require Import Prelude Printf Buffer Timestamp World Channel EventLoop TimerQueue Net.
From S2P Require Import TcpConnection Acceptor.
Local Open Scope Z_scope.

Section TcpServer.
Context {K U : Type} `{Kernel K} `{UserCode K U}.
Abbreviation W := (World K U).

Definition TcpServer_ctor (loop : nat) (listenaddr : sockaddr_in) : M W nat :=
  s ← alloc;
  let name := String.string_of_list_ascii (InetAddress_toHostPort listenaddr) in
  a ← Acceptor_ctor loop listenaddr;
  modify (λ w, w <| servers ::= <[s := {|
    s_loop := loop; s_started := false; nextConnfd_ := 1; s_name := name; acceptor_ := a;
    threadPool_ := EventLoopThreadPool_ctor loop;
    s_connectionCallback := None; s_messageCallback := None; connections_ := ∅ |}]> |>);;
  Acceptor_setNewConnectionCallBack a (NewConnServer s);;
  mret s.

Definition setThreadNum (s : nat) (numThreads : Z) : M W unit :=
  assert_ "0 <= numThreads" (0 <=? numThreads);;
  upd_server s (λ x, x <| threadPool_ ::= Pool_setThreadNum numThreads |>).

Definition TcpServer_setConnectionCallBack (s : nat) (cb : nat) : M W unit :=
  upd_server s (λ x, x <| s_connectionCallback := Some cb |>).
Definition TcpServer_setMessageCallBack (s : nat) (cb : nat) : M W unit :=
  upd_server s (λ x, x <| s_messageCallback := Some cb |>).

(** [tids]: the ids of the threads that the pool may create. *)
Definition TcpServer_start (tids : list Z) (s : nat) : M W unit :=
  server ← get_server s;
  (if negb (s_started server) then
     upd_server s (λ x, x <| s_started := true |>);;
     pool ← Pool_start tids (threadPool_ server);
     upd_server s (λ x, x <| threadPool_ := pool |>)
   else mret tt);;
  acceptor ← get_acceptor (acceptor_ server);
  whenM (negb (listenning_ acceptor))
    (runInLoop (s_loop server) (FListen (acceptor_ server)) (Acceptor_listen (acceptor_ server))).

(** The name of the [n]-th connection. *)
Definition conn_suffix (n : Z) : list char := (snprintf 32 ("#"%char :: fmt_d n)).1.
Definition conn_name (name : string) (n : Z) : string :=
  (name +:+ String.string_of_list_ascii (conn_suffix n))%string.

Definition TcpServer_newConnection (s : nat) (sockfd : Z) (peeraddr : sockaddr_in) : M W unit :=
  server ← get_server s;
  assertInLoopThread (s_loop server);;
  let connName := conn_name (s_name server) (nextConnfd_ server) in
  next ← of_option "signed overflow"
    (if nextConnfd_ server + 1 <? 2 ^ 31 then Some (nextConnfd_ server + 1) else None);
  upd_server s (λ x, x <| nextConnfd_ := next |>);;
  localaddr ← getLocalAddr sockfd;
  r ← getNextLoop (threadPool_ server);
  let '(ioLoop, pool) := r in
  upd_server s (λ x, x <| threadPool_ := pool |>);;
  c ← TcpConnection_ctor ioLoop connName sockfd localaddr peeraddr;
  upd_server s (λ x, x <| connections_ ::= <[connName := c]> |>);;
  setConnectionCallBack c (s_connectionCallback server);;
  setMessageConnectionCallBack c (s_messageCallback server);;
  setCloseCallBack c (CloseServer s);;
  connectEstablished c.

(** The entry is erased by the name of the connection. *)
Definition removeConnectionInLoop (s c : nat) : M W unit :=
  server ← get_server s;
  assertInLoopThread (s_loop server);;
  conn ← get_conn c;
  let n := if connections_ server !! c_name conn is Some _ then 1 else 0 in
  upd_server s (λ x, x <| connections_ ::= delete (c_name conn) |>);;
  assert_ "n == 1" (n =? 1);;
  queueInLoop (c_loop conn) (FConnectDestoryed c).

Definition TcpServer_removeConnection (s c : nat) : M W unit :=
  server ← get_server s;
  runInLoop (s_loop server) (FRemoveConnectionInLoop s c) (removeConnectionInLoop s c).

(** *** The destructor

    Its body is empty; the members with a destructor of their own are
    [connections_], [threadPool_] and [acceptor_], destroyed in this order. The
    order of the connections is that of [map_to_list]; the standard leaves it
    open. The result is false when the destructor does not return: that of the
    pool's first thread waits for ever (see [LoopThread] in Acceptor.v). *)
Definition forget (s : nat) (entry : string * nat) : M W unit :=
  upd_server s (λ x, x <| connections_ ::= delete entry.1 |>);;
  release entry.2 [].

Definition TcpServer_dtor (s : nat) : M W bool :=
  server ← get_server s;
  iterM (forget s) (map_to_list (connections_ server));;
  if bool_decide (loops_ (threadPool_ server) = []) then
    Acceptor_dtor (acceptor_ server);;
    modify (λ w, w <| servers ::= delete s |>);;
    mret true
  else mret false.
End TcpServer.

(** ** Names *)

Lemma conn_suffix_full n : 0 ≤ n < 2 ^ 31 → conn_suffix n = "#"%char :: fmt_d n.
Proof.
  intros Hn. unfold conn_suffix. rewrite snprintf_fits; [done|].
  assert (length (fmt_d n) ≤ 10)%nat.
  { apply length_fmt_d; [lia|]. change (10 ^ Z.of_nat 10) with 10000000000. lia. }
  unfold zlen. cbn [length]. lia.
Qed.

Lemma string_app_inj (a b c : string) : (a +:+ b = a +:+ c → b = c)%string.
Proof. induction a as [|x a IH]; [done|]. intros [=E]. by apply IH. Qed.

Lemma conn_name_inj name n m :
  0 ≤ n < 2 ^ 31 → 0 ≤ m < 2 ^ 31 → conn_name name n = conn_name name m → n = m.
Proof.
  intros Hn Hm E%string_app_inj. apply (f_equal String.list_ascii_of_string) in E.
  rewrite !String.list_ascii_of_string_of_list_ascii, !conn_suffix_full in E by done.
  simplify_eq. done.
Qed.

(** Every connection is filed under the name its number gave it. *)
Definition names_ok (server : TcpServer) : Prop :=
  1 ≤ nextConnfd_ server < 2 ^ 31 ∧
  ∀ key c, connections_ server !! key = Some c →
    ∃ i, 1 ≤ i < nextConnfd_ server ∧ key = conn_name (s_name server) i.

Lemma names_ok_fresh server :
  names_ok server → connections_ server !! conn_name (s_name server) (nextConnfd_ server) = None.
Proof.
  intros [Hn Hk]. apply eq_None_not_Some. intros [c Hc].
  apply Hk in Hc as (i&Hi&E). apply conn_name_inj in E; lia.
Qed.

Lemma names_ok_next server c pool :
  names_ok server → nextConnfd_ server + 1 < 2 ^ 31 →
  names_ok (server <| nextConnfd_ := nextConnfd_ server + 1 |> <| threadPool_ := pool |>
    <| connections_ ::= <[conn_name (s_name server) (nextConnfd_ server) := c]> |>).
Proof.
  intros [Hn Hk] Hmax. split; cbn; [lia|]. intros key c' Hc.
  destruct (decide (key = conn_name (s_name server) (nextConnfd_ server))) as [->|Hne].
  - exists (nextConnfd_ server). split; [lia|done].
  - rewrite lookup_insert_ne in Hc by done. apply Hk in Hc as (i&?&?). exists i. split; [lia|done].
Qed.

Lemma names_ok_delete server key :
  names_ok server → names_ok (server <| connections_ ::= delete key |>).
Proof.
  intros [Hn Hk]. split; [done|]. intros key' c Hc. cbn in Hc. apply lookup_delete_Some in Hc as [_ Hc].
  by apply (Hk key' c).
Qed.

Section ServerFacts.
Context {K U : Type} `{Kernel K} `{UserCode K U}.
Abbreviation W := (World K U).

(** The world in which the user is told of the new connection [c] of server
    [s], as the server [server] was before. *)
Record accepted_conn (s c : nat) (sockfd : Z) (server : TcpServer) (w1 : W) : Prop := {
  ac_server : ∃ server', servers w1 !! s = Some server' ∧ names_ok server' ∧
    connections_ server' =
      <[conn_name (s_name server) (nextConnfd_ server) := c]> (connections_ server);
  ac_conn : ∃ conn, conns w1 !! c = Some conn ∧ c_state conn = kConnected ∧
    c_name conn = conn_name (s_name server) (nextConnfd_ server) ∧ c_fd conn = sockfd ∧
    c_closeCallback conn = Some (CloseServer s) ∧ c_loop conn = s_loop server ∧
    messageCallback_ conn = s_messageCallback server ∧
    (ctl_ok (trace w1) → registration (s_loop server) w1 ∧
       ∃ ch, chans w1 !! c_channel conn = Some ch ∧ registeredInEpoller_ ch = true ∧
             ch_fd ch = sockfd ∧ events_ ch = kReadEvent);
}.

(** C18: a single-threaded server gives each accepted connection a name no
    other connection has, files it without displacing another, and establishes
    it: connected, wired to the server's callbacks and registered for reading,
    before the user's connection callback runs. *)
Theorem newConnection_establishes (s : nat) (sockfd : Z) (peeraddr : sockaddr_in)
  (server : TcpServer) (loop : EventLoop) (f : nat) (w : W) (Q : unit → W → Prop)
  (Hs : servers w !! s = Some server) (Hl : loops w !! s_loop server = Some loop)
  (Ht : threadId_ loop = cur w)
  (Hpool : threadPool_ server = EventLoopThreadPool_ctor (s_loop server))
  (Hcb : s_connectionCallback server = Some f)
  (Hnames : names_ok server) (Hmax : nextConnfd_ server + 1 < 2 ^ 31)
  (HR : registration (s_loop server) w) (Hfd : channels_ (epoller_ loop) !! sockfd = None)
  (Hfresh : chans w !! S (next_id w) = None)
  (Hcode : ∀ w1, connections_ server !! conn_name (s_name server) (nextConnfd_ server) = None →
     accepted_conn s (next_id w) sockfd server w1 → wp (u_connection f (next_id w)) Q w1) :
  wp (TcpServer_newConnection s sockfd peeraddr) Q w.
Proof.
  unfold TcpServer_newConnection, get_server, upd_server, getLocalAddr, getNextLoop. wp_step.
  eapply wp_deref; [done|]. wp_step. eapply wp_assertInLoopThread; [done..|]. wp_step.
  eapply wp_of_option; [by rewrite (proj2 (Z.ltb_lt _ _)) by done|]. wp_step. apply wp_sys. intros r k _. wp_step.
  rewrite Hpool. cbn [baseLoop_ loops_ EventLoopThreadPool_ctor].
  eapply wp_assertInLoopThread; [exact Hl|done|]. wp_step.
  apply wp_TcpConnection_ctor. intros c. unfold setConnectionCallBack, setMessageConnectionCallBack,
    setCloseCallBack, upd_conn. wp_step.
  match goal with |- wp _ _ ?x => set (w1 := x) end.
  set (conn := (new_conn (s_loop server) (S c) (conn_name (s_name server) (nextConnfd_ server)) sockfd
                 (match out r with OutAddr a => a | _ => bzero_addr end))
    <| connectionCallback_ := s_connectionCallback server |>
    <| messageCallback_ := s_messageCallback server |>
    <| c_closeCallback := Some (CloseServer s) |>).
  set (server' := server <| nextConnfd_ := nextConnfd_ server + 1 |>
      <| threadPool_ := EventLoopThreadPool_ctor (s_loop server) |>
      <| connections_ ::= <[conn_name (s_name server) (nextConnfd_ server) := c]> |>).
  set (ch := new_channel (s_loop server) c sockfd).
  assert (conns w1 !! c = Some conn) as Hc1.
  { unfold w1; cbn. by rewrite !lookup_alter_eq, lookup_insert_eq. }
  assert (servers w1 !! s = Some server') as Hs1.
  { unfold w1; cbn. by rewrite !lookup_alter_eq, Hs. }
  assert (chans w1 !! S c = Some ch) as Hch1 by apply lookup_insert_eq.
  assert (loops w1 !! s_loop server = Some loop) as Hl1 by exact Hl.
  assert (threadId_ loop = cur w1) as Ht1 by exact Ht.
  assert (registration (s_loop server) w1) as HR1.
  { pose proof (registration_sys (s_loop server) w k (SysGetsockname sockfd) r I HR) as HR1.
    apply (registration_new_chan _ (S c) ch) in HR1; [|done..]. exact HR1. }
  assert (c_channel conn = S c ∧ c_loop conn = s_loop server) as [Eci El] by done.
  assert (names_ok server') as Hnames' by by apply names_ok_next.
  clearbody w1.
  eapply (wp_establish c conn ch loop f); rewrite ?Eci, ?El; try done; [by intros _|].
  intros w0 Hc0 Es0 _ Hctl. apply Hcode; [by apply names_ok_fresh|]. split.
  - exists server'. by rewrite Es0.
  - exists (conn <| c_state := kConnected |>). by rewrite ?Eci, ?El in Hctl.
Qed.

(** C34: a server with a thread pool whose loops run in threads of their own
    does not survive its first connection: [connectEstablished] is called in the
    acceptor's thread on a connection of another loop, which is fatal. *)
Theorem pooled_server_aborts (s : nat) (sockfd : Z) (peeraddr : sockaddr_in)
  (server : TcpServer) (loop : EventLoop) (w : W)
  (Hs : servers w !! s = Some server) (Hl : loops w !! s_loop server = Some loop)
  (Ht : threadId_ loop = cur w) (Hbase : baseLoop_ (threadPool_ server) = s_loop server)
  (Hpool : pool_ok (threadPool_ server)) (Hne : loops_ (threadPool_ server) ≠ [])
  (Hforeign : ∀ l, l ∈ loops_ (threadPool_ server) →
     ∃ ioLoop, loops w !! l = Some ioLoop ∧ threadId_ ioLoop ≠ cur w)
  (Hmax : nextConnfd_ server + 1 < 2 ^ 31) :
  TcpServer_newConnection s sockfd peeraddr w =
    Crash (LogFatal "EventLoop::abortNotInLoopThread").
Proof.
  unfold TcpServer_newConnection, get_server, upd_server, getLocalAddr.
  apply crash_bind. eapply wp_deref; [done|].
  apply crash_bind. eapply wp_assertInLoopThread; [done..|].
  apply crash_bind. eapply wp_of_option; [by rewrite (proj2 (Z.ltb_lt _ _)) by done|].
  apply crash_bind. wp_step. apply crash_bind. wp_step. apply wp_sys. intros r k _. wp_step.
  apply crash_bind.
  match goal with |- wp _ _ ?x => set (w1 := x) end.
  destruct (getNextLoop_run (threadPool_ server) loop w1 Hpool) as (l&next&Hrun&Hch&_);
    [by rewrite Hbase|done|].
  eapply wp_exec; [exact Hrun|]. cbv beta iota.
  assert (l ∈ loops_ (threadPool_ server)) as Hin.
  { unfold chosen in Hch. rewrite bool_decide_eq_false_2 in Hch by done.
    by eapply list_elem_of_lookup_2. }
  destruct (Hforeign l Hin) as (ioLoop&Hio&Hthread).
  apply crash_bind. wp_step. apply crash_bind. apply wp_TcpConnection_ctor. intros c.
  unfold setConnectionCallBack, setMessageConnectionCallBack, setCloseCallBack, upd_conn.
  do 4 (apply crash_bind; wp_step).
  unfold connectEstablished, get_conn. apply crash_bind.
  eapply wp_deref; [cbn; by rewrite !lookup_alter_eq, lookup_insert_eq|].
  apply crash_here. by apply (assertInLoopThread_foreign l ioLoop).
Qed.

(** *** Removing a connection *)

Lemma wp_removeConnection s c server conn ch loop c' (Q : unit → W → Prop) w :
  conn_live c conn ch loop w → c_loop conn = s_loop server → servers w !! s = Some server →
  connections_ server !! c_name conn = Some c' →
  (∀ w' evs, conn_live c conn ch (loop <| pendingFunctors_ ::= λ q, q ++ [FConnectDestoryed c] |>) w' →
     servers w' !! s = Some (server <| connections_ ::= delete (c_name conn) |>) →
     trace w' = trace w ++ evs → Forall quiet evs → Q tt w') →
  wp (TcpServer_removeConnection s c) Q w.
Proof.
  intros Hlive El Hs Hin HQ. pose proof Hlive as [Hc _ Hl Ht _ _ _ _ _]. rewrite El in Hl.
  unfold TcpServer_removeConnection, removeConnectionInLoop, get_server, get_conn, runInLoop, upd_server.
  wp_step. eapply wp_deref; [done|]. wp_step. eapply wp_isInLoopThread; [done|].
  rewrite Ht, Z.eqb_refl. wp_step. eapply wp_deref; [done|]. wp_step.
  eapply wp_assertInLoopThread; [done..|]. wp_step. eapply wp_deref; [done|]. wp_step.
  rewrite Hin. apply wp_assert; [done|].
  eapply (wp_queue_live c conn ch loop); [destruct Hlive; by split|].
  intros w' evs Hlive' Htr Hq Es. apply (HQ w' evs); try done.
  rewrite Es. cbn. by rewrite lookup_alter_eq, Hs.
Qed.

(** Without an entry of that name, the assertion fails. *)
Lemma removeConnection_crash s c server conn ch loop (w : W) :
  conn_live c conn ch loop w → c_loop conn = s_loop server → servers w !! s = Some server →
  connections_ server !! c_name conn = None →
  TcpServer_removeConnection s c w = Crash (AssertFailed "n == 1").
Proof.
  intros [Hc _ Hl Ht _ _ _ _ _] El Hs Hno. rewrite El in Hl.
  unfold TcpServer_removeConnection, removeConnectionInLoop, get_server, get_conn, runInLoop, upd_server.
  apply crash_bind. eapply wp_deref; [done|]. apply crash_bind. eapply wp_isInLoopThread; [done|].
  rewrite Ht, Z.eqb_refl. apply crash_bind. eapply wp_deref; [done|]. apply crash_bind.
  eapply wp_assertInLoopThread; [done..|]. apply crash_bind. eapply wp_deref; [done|].
  apply crash_bind. wp_step. apply crash_here. by rewrite Hno.
Qed.

(** Closing a server's connection twice is fatal. [handleClose] leaves the
    connection's state alone, so a second call (as [handleEvent] makes when it
    reports a hang-up without input and the read then meets end of file) passes
    its assertion and fails that of the server, whose entry is gone. *)
Theorem second_close_aborts (close : CloseCallBack → nat → M W unit) (s c : nat)
  (server : TcpServer) (conn : TcpConnection) (ch : Channel) (loop : EventLoop) (w : W)
  (Hclose : close (CloseServer s) c = TcpServer_removeConnection s c)
  (Hlive : conn_live c conn ch loop w) (Hst : c_state conn = kConnected)
  (Hcb : c_closeCallback conn = Some (CloseServer s))
  (El : c_loop conn = s_loop server) (Hs : servers w !! s = Some server)
  (Hin : connections_ server !! c_name conn = Some c) :
  (handleClose close c;; handleClose close c) w = Crash (AssertFailed "n == 1").
Proof.
  apply crash_bind. eapply wp_handleClose; [done|by left|done|]. rewrite Hclose.
  intros w1 evs Hlive1 _ _ Es1. rewrite <- Es1 in Hs.
  eapply wp_removeConnection; [done..|]. intros w2 evs2 Hlive2 Hs2 _ _.
  destruct (handleClose_run close c conn _ _ (CloseServer s) w2 Hlive2) as (w3&evs3&->&Hlive3&_&_&Es3);
    [by left|done|].
  rewrite Hclose. rewrite <- Es3 in Hs2. 
  eapply (removeConnection_crash s c (server <| connections_ ::= delete (c_name conn) |>));
    [exact Hlive3|exact El|exact Hs2|].
  cbn. apply lookup_delete_eq.
Qed.

(** C19: closing and then destroying a connection takes it out of everything:
    the server no longer files it, its state is final, and its channel is out
    of the poller, provided the user's callback leaves it alone. *)
Theorem connection_teardown (close : CloseCallBack → nat → M W unit) (s c : nat) (f : nat)
  (server : TcpServer) (conn : TcpConnection) (ch : Channel) (loop : EventLoop) (w : W)
  (Hclose : close (CloseServer s) c = TcpServer_removeConnection s c)
  (Hlive : conn_live c conn ch loop w) (Hst : c_state conn = kConnected ∨ c_state conn = kDisconnecting)
  (Hcb : c_closeCallback conn = Some (CloseServer s))
  (Hf : connectionCallback_ conn = Some f)
  (El : c_loop conn = s_loop server) (Hs : servers w !! s = Some server)
  (Hin : connections_ server !! c_name conn = Some c)
  (Hcode : ∀ conn' ch' loop' w', conn_live c conn' ch' loop' w' →
     wp (u_connection f c) (λ _ w'', (∃ loop'', conn_live c conn' ch' loop'' w'') ∧
                                     servers w'' = servers w') w') :
  ∃ w' server' conn', (handleClose close c;; connectDestoryed c) w = Ret tt w' ∧
    servers w' !! s = Some server' ∧
    connections_ server' = delete (c_name conn) (connections_ server) ∧
    conns w' !! c = Some conn' ∧ c_state conn' = kDisConnected ∧
    (ctl_ok (trace w') → registration (c_loop conn) w' ∧
       ∃ ch', chans w' !! c_channel conn = Some ch' ∧ registeredInEpoller_ ch' = false).
Proof.
  cut (wp (handleClose close c;; connectDestoryed c) (λ _ w', ∃ server' conn',
    servers w' !! s = Some server' ∧
    connections_ server' = delete (c_name conn) (connections_ server) ∧
    conns w' !! c = Some conn' ∧ c_state conn' = kDisConnected ∧
    (ctl_ok (trace w') → registration (c_loop conn) w' ∧
       ∃ ch', chans w' !! c_channel conn = Some ch' ∧ registeredInEpoller_ ch' = false)) w).
  { intros Hwp. apply wp_run in Hwp as ([]&w'&?&server'&conn'&?). by exists w', server', conn'. }
  wp_step. eapply wp_handleClose; [done..|]. rewrite Hclose. intros w1 evs1 Hlive1 _ _ Es1.
  rewrite <- Es1 in Hs. eapply wp_removeConnection; [done..|]. intros w2 evs2 Hlive2 Hs2 _ _.
  eapply (wp_connectDestoryed c conn _ _ f); [exact Hlive2|done|done| |].
  { intros conn' ch' loop' w' Hlive'. eapply wp_mono; [by eapply Hcode|]. intros [] w'' [? Es].
    split; [done|exact Es]. }
  intros w3 Hc3 Es3 Hctl. exists (server <| connections_ ::= delete (c_name conn) |>), (conn <| c_state := kDisConnected |>).
  split_and!; [by rewrite Es3|done|done|done|done].
Qed.
(** *** Destroying a server *)

(** Does a server hold the connection [c]? *)
Definition filed (c : nat) (w : W) : Prop :=
  ∃ s server name, servers w !! s = Some server ∧ connections_ server !! name = Some c.

Lemma filed_bool c w :
  existsb (λ x, bool_decide (c ∈ (map_to_list (connections_ x.2)).*2)) (map_to_list (servers w)) = true ↔ filed c w.
Proof.
  rewrite existsb_exists. setoid_rewrite bool_decide_eq_true. setoid_rewrite <- list_elem_of_In. split.
  - intros ([s server]&Hs%elem_of_map_to_list&([name c']&->&Hc%elem_of_map_to_list)%list_elem_of_fmap).
    by exists s, server, name.
  - intros (s&server&name&Hs&Hc). exists (s, server). rewrite elem_of_map_to_list. split; [done|].
    apply list_elem_of_fmap. exists (name, c). by rewrite elem_of_map_to_list.
Qed.

Lemma owned_same c fs (w w' : W) :
  clients w' = clients w → loops w' = loops w → timers w' = timers w → user w' = user w →
  (filed c w' ↔ filed c w) → owned c fs w' = owned c fs w.
Proof.
  intros Ec El Et Eu Hf. unfold owned. rewrite Ec, El, Et, Eu. do 4 f_equal. f_equal.
  apply Bool.eq_iff_eq_true. by rewrite !filed_bool.
Qed.

(** Is the connection [c] held by anything but the server [s]? *)
Definition kept (s c : nat) (w : W) : bool := owned c [] (w <| servers ::= delete s |>).

(** The connections, in this order, that die with the server. *)
Definition dying (s : nat) (w : W) (entries : list (string * nat)) : list nat :=
  filter (λ c, kept s c w = false) entries.*2.
Definition closed_fds (w : W) (cs : list nat) : list Z := omap (λ c, c_fd <$> conns w !! c) cs.

Lemma dying_snoc s w done e :
  dying s w (done ++ [e]) = dying s w done ++ if kept s e.2 w then [] else [e.2].
Proof.
  unfold dying. rewrite fmap_app, filter_app. f_equal. cbn [fmap list_fmap].
  destruct (kept s e.2 w) eqn:E; [by rewrite filter_cons_False by congruence|by rewrite filter_cons_True].
Qed.

Lemma elem_of_dying s w entries c :
  c ∈ dying s w entries ↔ kept s c w = false ∧ ∃ name, (name, c) ∈ entries.
Proof.
  unfold dying. rewrite list_elem_of_filter, list_elem_of_fmap. split.
  - intros [? ([name c']&->&?)]. eauto.
  - intros [? [name ?]]. split; [done|]. by exists (name, c).
Qed.

Section Destroy.
Context (s : nat) (server : TcpServer) (w : W).
Context (Hs : servers w !! s = Some server).
Context (Hinj : ∀ n1 n2 c, connections_ server !! n1 = Some c → connections_ server !! n2 = Some c → n1 = n2).

(** After the entries [done] have been destroyed. *)
Record forgotten (done : list (string * nat)) (w' : W) : Prop := {
  fg_servers : ∃ server', servers w' = <[s := server']> (servers w) ∧ acceptor_ server' = acceptor_ server ∧
    ∀ name c, connections_ server' !! name = Some c ↔
              connections_ server !! name = Some c ∧ (name, c) ∉ done;
  fg_conns c : conns w' !! c = if decide (c ∈ dying s w done) then None else conns w !! c;
  fg_chans i : (∀ c conn, c ∈ dying s w done → conns w !! c = Some conn → c_channel conn ≠ i) →
    chans w' !! i = chans w !! i;
  fg_dead c conn : c ∈ dying s w done → conns w !! c = Some conn → chans w' !! c_channel conn = None;
  fg_rest : (clients w', loops w', timers w', user w', acceptors w') =
            (clients w, loops w, timers w, user w, acceptors w);
  fg_trace : ∃ evs, trace w' = trace w ++ evs ∧ evs.*1 = SysClose <$> closed_fds w (dying s w done);
}.

(** A connection filed by the server: it exists, and its channel is its own. *)
Record filed_conn (c : nat) (conn : TcpConnection) : Prop := {
  fc_conn : conns w !! c = Some conn;
  fc_chan : ∃ ch, chans w !! c_channel conn = Some ch ∧ eventHandling_ ch = false;
  fc_own c' conn' : conns w !! c' = Some conn' → c_channel conn' = c_channel conn → c' = c;
}.
Context (Hconns : ∀ name c, connections_ server !! name = Some c → ∃ conn, filed_conn c conn).

Lemma in_middle done name c rest :
  done ++ (name, c) :: rest = map_to_list (connections_ server) → connections_ server !! name = Some c.
Proof. intros Hdone. apply elem_of_map_to_list. rewrite <- Hdone. apply elem_of_app. right. left. Qed.

Lemma kept_now done name c rest w' :
  done ++ (name, c) :: rest = map_to_list (connections_ server) → forgotten done w' →
  owned c [] (w' <| servers ::= alter (λ x, x <| connections_ ::= delete name |>) s |>) = kept s c w.
Proof.
  intros Hdone [(server'&Es&_&Hf) _ _ _ [= E1 E2 E3 E4 _] _]. apply owned_same; try done.
  pose proof (in_middle done name c rest Hdone) as Hnc.
  unfold filed. cbn. rewrite Es, alter_insert_eq. split.
  - intros (s'&x&name'&Hx&Hc). destruct (decide (s = s')) as [<-|Hne].
    + rewrite lookup_insert_eq in Hx. injection Hx as <-. cbn in Hc. apply lookup_delete_Some in Hc as [Hne Hc].
      apply Hf in Hc as [Hc _]. destruct Hne. by eapply Hinj.
    + rewrite lookup_insert_ne in Hx by done. exists s', x, name'. by rewrite lookup_delete_ne.
  - intros (s'&x&name'&[Hne Hx]%lookup_delete_Some&Hc). exists s', x, name'. by rewrite lookup_insert_ne.
Qed.

Lemma forget_entry (connections : gmap string nat) done name c :
  (∀ n c', connections !! n = Some c' ↔ connections_ server !! n = Some c' ∧ (n, c') ∉ done) →
  connections_ server !! name = Some c →
  ∀ n c', delete name connections !! n = Some c' ↔
          connections_ server !! n = Some c' ∧ (n, c') ∉ done ++ [(name, c)].
Proof.
  intros Hf Hnc n c'. rewrite lookup_delete_Some, Hf, elem_of_app, list_elem_of_singleton. split.
  - intros (Hne&Hc'&Hn). split; [done|]. intros [?|[= ? _]]; [done|]. by destruct Hne.
  - intros (Hc'&Hn). split; [|tauto]. intros <-. rewrite Hnc in Hc'. injection Hc' as <-. tauto.
Qed.

Lemma forget_kept done name c rest w' :
  done ++ (name, c) :: rest = map_to_list (connections_ server) → forgotten done w' → kept s c w = true →
  forgotten (done ++ [(name, c)]) (w' <| servers ::= alter (λ x, x <| connections_ ::= delete name |>) s |>).
Proof.
  intros Hdone [(server'&Es&Ea&Hf) Hc Hch Hd Hr Ht] Hk.
  assert (dying s w (done ++ [(name, c)]) = dying s w done) as E
    by (rewrite dying_snoc; cbn [snd]; by rewrite Hk, app_nil_r).
  split; rewrite ?E; try done. eexists. cbn. rewrite Es, alter_insert_eq. split_and!; [done..|].
  apply forget_entry; [exact Hf|exact (in_middle done name c rest Hdone)].
Qed.

Lemma forget_dies done name c conn rest w' k r :
  done ++ (name, c) :: rest = map_to_list (connections_ server) → forgotten done w' → kept s c w = false →
  filed_conn c conn →
  forgotten (done ++ [(name, c)]) (w' <| servers ::= alter (λ x, x <| connections_ ::= delete name |>) s |>
    <| chans ::= delete (c_channel conn) |> <| kern := k |> <| trace ::= λ t, t ++ [(SysClose (c_fd conn), r)] |>
    <| conns ::= delete c |>).
Proof.
  intros Hdone Hfg Hk [Hc _ _]. pose proof Hfg as [(server'&Es&Ea&Hf) Hcs Hch Hd Hr (evs&Ht&Hevs)].
  assert (dying s w (done ++ [(name, c)]) = dying s w done ++ [c]) as E
    by (rewrite dying_snoc; cbn [snd]; by rewrite Hk).
  pose proof (in_middle done name c rest Hdone) as Hnc.
  split; rewrite ?E; cbn.
  - eexists. rewrite Es, alter_insert_eq. split_and!; [done..|]. by apply forget_entry.
  - intros c'. destruct (decide (c' = c)) as [->|Hne].
    + rewrite lookup_delete_eq, decide_True; [done|]. apply elem_of_app. right. left.
    + rewrite lookup_delete_ne, Hcs by done. apply decide_ext. rewrite elem_of_app, list_elem_of_singleton. tauto.
  - intros i Hi. setoid_rewrite elem_of_app in Hi. setoid_rewrite list_elem_of_singleton in Hi.
    rewrite lookup_delete_ne by (apply (Hi c); tauto). apply Hch. intros c' conn' Hin. apply Hi. by left.
  - intros c' conn' [Hin| ->%list_elem_of_singleton]%elem_of_app Hc'; [|by simplify_eq; rewrite lookup_delete_eq].
    apply lookup_delete_None. right. by apply (Hd c').
  - exact Hr.
  - exists (evs ++ [(SysClose (c_fd conn), r)]). rewrite Ht, <- app_assoc. split; [done|].
    unfold closed_fds. rewrite omap_app, !fmap_app, Hevs. f_equal. cbn. by rewrite Hc.
Qed.

Lemma wp_forget done e rest w' :
  done ++ e :: rest = map_to_list (connections_ server) → forgotten done w' →
  wp (forget s e) (λ _, forgotten (done ++ [e])) w'.
Proof.
  destruct e as [name c]. intros Hdone Hfg. unfold forget, release, upd_server. cbn [fst snd]. wp_step.
  rewrite (kept_now done name c rest w' Hdone Hfg).
  pose proof (in_middle done name c rest Hdone) as Hnc.
  destruct (kept s c w) eqn:Hk; cbn [negb]; wp_step; [by eapply forget_kept|].
  destruct (Hconns name c Hnc) as [conn Hfc]. pose proof Hfc as [Hc (ch&Hch&He) Hown].
  assert (c ∉ dying s w done) as Hnew.
  { rewrite elem_of_dying. intros [_ [name' Hin]].
    assert (connections_ server !! name' = Some c) as Hnc'.
    { apply elem_of_map_to_list. rewrite <- Hdone. apply elem_of_app. by left. }
    rewrite <- (Hinj name name' c Hnc Hnc') in Hin. pose proof (NoDup_map_to_list (connections_ server)) as Hnd.
    rewrite <- Hdone in Hnd. apply NoDup_app in Hnd as (_&Hnd&_). apply (Hnd _ Hin). left. }
  unfold TcpConnection_dtor, Socket_dtor, closefd, get_conn. wp_step.
  eapply wp_deref; [cbn; by rewrite (fg_conns _ _ Hfg), decide_False|]. wp_step.
  eapply wp_Channel_dtor; [|exact He|].
  { cbn. rewrite (fg_chans _ _ Hfg); [exact Hch|]. intros c' conn' Hin Hc' E.
    by rewrite (Hown c' conn' Hc' E) in Hin. }
  wp_step. apply wp_sys. intros r k _. wp_step. by eapply forget_dies.
Qed.

Lemma forgotten_nil : forgotten [] w.
Proof.
  split; try done.
  - exists server. rewrite insert_id by done. split_and!; [done..|]. intros name c. split; [|by intros [? _]].
    intros ?. split; [done|]. apply not_elem_of_nil.
  - by intros ?? ?%elem_of_nil.
  - exists []. by rewrite app_nil_r.
Qed.

(** Destroying a server whose pool has no threads destroys the connections that
    nothing else holds and its acceptor, and closes their descriptors, once
    each, the listening one last. It makes no other call: every channel stays
    in its poller's map, where the pointers to those destroyed now dangle. *)
Theorem server_dtor_releases (acceptor : Acceptor) (ch : Channel) :
  loops_ (threadPool_ server) = [] →
  acceptors w !! acceptor_ server = Some acceptor → chans w !! acceptChannel_ acceptor = Some ch →
  eventHandling_ ch = false →
  (∀ c conn, conns w !! c = Some conn → c_channel conn ≠ acceptChannel_ acceptor) →
  let dead := dying s w (map_to_list (connections_ server)) in
  ∃ w' evs, TcpServer_dtor s w = Ret true w' ∧
    trace w' = trace w ++ evs ∧ evs.*1 = SysClose <$> closed_fds w dead ++ [a_fd acceptor] ∧
    (∀ c, conns w' !! c = if decide (c ∈ dead) then None else conns w !! c) ∧
    (∀ c conn, c ∈ dead → conns w !! c = Some conn → chans w' !! c_channel conn = None) ∧
    chans w' !! acceptChannel_ acceptor = None ∧
    servers w' = delete s (servers w) ∧ acceptors w' = delete (acceptor_ server) (acceptors w) ∧
    loops w' = loops w.
Proof.
  intros Hpool Ha Hch He Hsep dead.
  cut (wp (TcpServer_dtor s) (λ b w', b = true ∧ ∃ evs,
    trace w' = trace w ++ evs ∧ evs.*1 = SysClose <$> closed_fds w dead ++ [a_fd acceptor] ∧
    (∀ c, conns w' !! c = if decide (c ∈ dead) then None else conns w !! c) ∧
    (∀ c conn, c ∈ dead → conns w !! c = Some conn → chans w' !! c_channel conn = None) ∧
    chans w' !! acceptChannel_ acceptor = None ∧
    servers w' = delete s (servers w) ∧ acceptors w' = delete (acceptor_ server) (acceptors w) ∧
    loops w' = loops w) w).
  { intros Hwp. apply wp_run in Hwp as (?&w'&Hrun&->&evs&Hw'). by exists w', evs. }
  unfold TcpServer_dtor, get_server. wp_step. eapply wp_deref; [exact Hs|]. wp_step.
  eapply wp_mono; [apply (wp_iterM_gen (forget s) forgotten _ [])|]; [|exact forgotten_nil|].
  { intros done e rest w' Hdone. by apply wp_forget with (rest := rest). }
  intros [] w1 [(server'&Es&_&_) Hcs Hchs Hdead [= _ El _ _ Eas] (evs&Ht&Hevs)]. fold dead in Hcs, Hchs, Hdead, Hevs.
  rewrite bool_decide_eq_true_2 by done. unfold Acceptor_dtor, Socket_dtor, closefd, get_acceptor. wp_step.
  eapply wp_deref; [by rewrite Eas|]. wp_step. eapply wp_Channel_dtor; [|exact He|].
  { rewrite Hchs; [exact Hch|]. intros c conn _. apply Hsep. }
  wp_step. apply wp_sys. intros r k _. wp_step. split; [done|]. exists (evs ++ [(SysClose (a_fd acceptor), r)]). cbn.
  split_and!; [by rewrite Ht, app_assoc|by rewrite !fmap_app, Hevs|done| |apply lookup_delete_eq|..|done].
  - intros c conn Hin Hc. apply lookup_delete_None. right. by eapply Hdead.
  - by rewrite Es, delete_insert_eq.
  - by rewrite Eas.
Qed.
End Destroy.
End ServerFacts.

(** ** Concrete instances *)

Module ServerDemo.
Definition server (conns : gmap string nat) (pool : EventLoopThreadPool) : TcpServer :=
  mkServer 0 true 2 "srv" 4 pool (Some 0%nat) (Some 1%nat) conns.
Definition loop_of (tid : Z) : EventLoop := (ChannelDemo.loop ∅) <| threadId_ := tid |>.
(** A server with one connection filed and an idle loop of its own, and a
    second loop that belongs to thread 2. *)
Definition w0 (pool : EventLoopThreadPool) : World (list SysRes) unit :=
  mkWorld [] [] 1 ∅ 0 20%nat ∅ {[0%nat := loop_of 1; 8%nat := loop_of 2]} ∅ ∅ ∅ ∅
    {[0%nat := server {["srv#1"%string := 5%nat]} pool]} ∅ tt.
Definition close {K} `{Kernel K} (cb : CloseCallBack) (c : nat) : M (World K unit) unit :=
  match cb with CloseServer s => TcpServer_removeConnection s c | _ => mret tt end.

Lemma names : names_ok (server {["srv#1"%string := 5%nat]} (EventLoopThreadPool_ctor 0)).
Proof.
  split; [by vm_compute|]. intros key c Hc. cbn in Hc. apply lookup_singleton_Some in Hc as [<- _].
  exists 1. by vm_compute.
Qed.

Lemma reg pool : registration 0 (w0 pool).
Proof.
  exists (loop_of 1). split; [done|]. split.
  - intros fd c. split; [done|]. by intros (?&?&_).
  - intros fd. reflexivity.
Qed.
End ServerDemo.

Lemma newConnection_establishes_witness :
  wp (TcpServer_newConnection (H0 := idle_code) 0 11 ConnDemo.addr)
     (λ _ w', is_Some (conns w' !! 20%nat)) (ServerDemo.w0 (EventLoopThreadPool_ctor 0)).
Proof.
  apply (newConnection_establishes (H0 := idle_code) 0 11 ConnDemo.addr
    (ServerDemo.server {["srv#1"%string := 5%nat]} (EventLoopThreadPool_ctor 0))
    (ServerDemo.loop_of 1) 0%nat); [try reflexivity..|].
  - exact ServerDemo.names.
  - exact (ServerDemo.reg _).
  - intros w1 _ Hacc. destruct (ac_conn _ _ _ _ _ Hacc) as (conn&Hc&_).
    exists conn. exact Hc.
Defined.

Lemma pooled_server_aborts_witness :
  TcpServer_newConnection (H0 := idle_code) 0 11 ConnDemo.addr
    (ServerDemo.w0 ((EventLoopThreadPool_ctor 0) <| loops_ := [8%nat] |>)) =
  Crash (LogFatal "EventLoop::abortNotInLoopThread").
Proof.
  apply (pooled_server_aborts (H0 := idle_code) 0 11 ConnDemo.addr
    (ServerDemo.server {["srv#1"%string := 5%nat]} ((EventLoopThreadPool_ctor 0) <| loops_ := [8%nat] |>))
    (ServerDemo.loop_of 1)); [try reflexivity..|].
  - by vm_compute.
  - discriminate.
  - intros l Hl. cbn in Hl. apply list_elem_of_singleton in Hl as ->.
    exists (ServerDemo.loop_of 2). split; [reflexivity|discriminate].
  - reflexivity.
Defined.

Lemma second_close_aborts_witness :
  (handleClose ServerDemo.close 5;; handleClose ServerDemo.close 5)
    (ConnDemo.w_with ([] : list SysRes) (CloseServer 0)
      {[0%nat := ServerDemo.server {["srv#1"%string := 5%nat]} (EventLoopThreadPool_ctor 0)]} "" false) =
  Crash (AssertFailed "n == 1").
Proof.
  apply (second_close_aborts ServerDemo.close 0 5
    (ServerDemo.server {["srv#1"%string := 5%nat]} (EventLoopThreadPool_ctor 0))
    (ConnDemo.conn_with (CloseServer 0) "" Buffer_ctor) (ConnDemo.ch false) ConnDemo.loop);
    [reflexivity|apply ConnDemo.live; by vm_compute|reflexivity..].
Defined.

Lemma connection_teardown_witness :
  ∃ w' server' conn', (handleClose ServerDemo.close 5;; connectDestoryed (H0 := idle_code) 5)
      (ConnDemo.w_with ([] : list SysRes) (CloseServer 0)
        {[0%nat := ServerDemo.server {["srv#1"%string := 5%nat]} (EventLoopThreadPool_ctor 0)]} "ab" true) = Ret tt w' ∧
    servers w' !! 0%nat = Some server' ∧ connections_ server' = ∅ ∧
    conns w' !! 5%nat = Some conn' ∧ c_state conn' = kDisConnected.
Proof.
  edestruct (connection_teardown (H0 := idle_code) ServerDemo.close 0 5 0
    (ServerDemo.server {["srv#1"%string := 5%nat]} (EventLoopThreadPool_ctor 0))
    (ConnDemo.conn_with (CloseServer 0) "ab" Buffer_ctor) (ConnDemo.ch true) ConnDemo.loop
    (ConnDemo.w_with ([] : list SysRes) (CloseServer 0)
      {[0%nat := ServerDemo.server {["srv#1"%string := 5%nat]} (EventLoopThreadPool_ctor 0)]} "ab" true))
    as (w'&server'&conn'&Hrun&Hs&Hcs&Hc&Hst&_);
    [reflexivity|apply ConnDemo.live; by vm_compute|left; reflexivity|reflexivity..| |].
  { intros conn' ch' loop' w' Hlive. split; [by exists loop'|reflexivity]. }
  exists w', server', conn'. split; [exact Hrun|]. split; [exact Hs|]. split; [exact Hcs|].
  split; [exact Hc|exact Hst].
Defined.

(** An operating system that gives out the lowest descriptors. *)
#[local] Instance fixed_fds : Kernel unit := λ sc u,
  (match sc with
   | SysEpollCreate => res_ok 3
   | SysTimerfdCreate => res_ok 4
   | SysEventfd => res_ok 5
   | SysSocket => res_ok 6
   | _ => res_ok 0
   end, u).

(** A server made and destroyed leaves its descriptor in the loop's poller: a
    second one on the same loop, whose socket has the number that the first
    had, cannot be started. *)
Definition server_twice : M (World unit unit) unit :=
  loop ← EventLoop_ctor;
  s ← TcpServer_ctor loop (InetAddress_port 80);
  TcpServer_start [] s;;
  gone ← TcpServer_dtor (H0 := idle_code) s;
  s ← TcpServer_ctor loop (InetAddress_port 80);
  TcpServer_start [] s.

Example second_server_aborts :
  server_twice (mkWorld tt [] 1 ∅ 0 0%nat ∅ ∅ ∅ ∅ ∅ ∅ ∅ ∅ tt) =
  Crash (AssertFailed "channels_.find(channel->fd()) == channels_.end()").
Proof. by vm_compute. Qed.
