(* ===== verification/Connector.v ===== *)
(** * Connector

    [reactor/Connector.h] and [reactor/Connector.cc]: establishing a
    connection, with retries after growing delays. The logging of the
    [LOG_...] lines is not modelled. *)
From Stdlib Require Import SpecFloat.
From S2P Require Import Prelude Buffer Timestamp World Channel EventLoop TimerQueue Net.
Local Open Scope Z_scope.

Definition kMaxRetryDelayMs : Z := 30 * 1000.
Definition kInitRetryDalayMs : Z := 500.

(** Linux error numbers. *)
Definition EPERM : Z := 1.
Definition EINTR : Z := 4.
Definition EBADF : Z := 9.
Definition EAGAIN : Z := 11.
Definition EACCES : Z := 13.
Definition EFAULT : Z := 14.
Definition ENOTSOCK : Z := 88.
Definition EAFNOSUPPORT : Z := 97.
Definition EADDRINUSE : Z := 98.
Definition EADDRNOTAVAIL : Z := 99.
Definition ENETUNREACH : Z := 101.
Definition EISCONN : Z := 106.
Definition ECONNREFUSED : Z := 111.
Definition EALREADY : Z := 114.
Definition EINPROGRESS : Z := 115.

Section Connector.
Context {K U : Type} `{Kernel K}.
Abbreviation W := (World K U).

Definition Connector_ctor (loop : nat) (serverAddr : sockaddr_in) : M W nat :=
  k ← alloc;
  modify (λ w, w <| connectors ::= <[k := {|
    k_loop := loop; serverAddr_ := serverAddr; k_connect := false; k_state := kDisconnected_;
    k_channel := None; k_newConnection := None; retryDelayMs_ := kInitRetryDalayMs |}]> |>);;
  mret k.

Definition Connector_dtor (k : nat) : M W unit :=
  x ← get_connector k;
  assert_ "!channel_" (bool_decide (k_channel x = None));;
  modify (λ w, w <| connectors ::= delete k |>).

Definition Connector_setNewConnectionCallBack (k : nat) (cb : NewConnectionCallBack) : M W unit :=
  upd_connector k (λ x, x <| k_newConnection := Some cb |>).

Definition Connector_setState (k : nat) (s : States) : M W unit :=
  upd_connector k (λ x, x <| k_state := s |>).

Definition retry (k : nat) (sockfd : Z) : M W unit :=
  closefd sockfd;;
  Connector_setState k kDisconnected_;;
  x ← get_connector k;
  whenM (k_connect x) (
    timerId ← runAfter (k_loop x) (ddiv (double_of_Z (retryDelayMs_ x)) (double_of_Z 1000))
                       (FStartInLoop k);
    upd_connector k (λ x, x <| retryDelayMs_ ::= λ d, Z.min (d * 2) kMaxRetryDelayMs |>)).

Definition connecting (k : nat) (sockfd : Z) : M W unit :=
  Connector_setState k kConnecting_;;
  x ← get_connector k;
  assert_ "!channel_" (bool_decide (k_channel x = None));;
  ch ← Channel_ctor (k_loop x) sockfd true;
  upd_connector k (λ x, x <| k_channel := Some ch |>);;
  setwriteCallback ch (CbConnectorWrite k);;
  seterrorCallback ch (CbConnectorError k);;
  enableWriting ch.

(** The cases of the [switch]: what is done about each error number. *)
Inductive connect_case := ConnectProgress | ConnectRetry | ConnectFail.
Definition connect_switch (savedErrno : Z) : connect_case :=
  if bool_decide (savedErrno ∈ [0; EINPROGRESS; EINTR; EISCONN]) then ConnectProgress
  else if bool_decide (savedErrno ∈ [EAGAIN; EADDRINUSE; EADDRNOTAVAIL; ECONNREFUSED; ENETUNREACH])
  then ConnectRetry
  else if bool_decide (savedErrno ∈ [EACCES; EPERM; EAFNOSUPPORT; EALREADY; EBADF; EFAULT; ENOTSOCK])
  then ConnectFail
  else ConnectFail.

Definition connect (k : nat) : M W unit :=
  sockfd ← createNonblockingOrDie;
  x ← get_connector k;
  ret ← sock_connect sockfd (serverAddr_ x);
  let savedErrno := if ret.1 =? 0 then 0 else ret.2 in
  match connect_switch savedErrno with
  | ConnectProgress => connecting k sockfd
  | ConnectRetry => retry k sockfd
  | ConnectFail => closefd sockfd
  end.

Definition startInLoop (k : nat) : M W unit :=
  x ← get_connector k;
  assertInLoopThread (k_loop x);;
  assert_ "state_ == kDisconnected" (bool_decide (k_state x = kDisconnected_));;
  whenM (k_connect x) (connect k).

Definition Connector_start (k : nat) : M W unit :=
  upd_connector k (λ x, x <| k_connect := true |>);;
  x ← get_connector k;
  runInLoop (k_loop x) (FStartInLoop k) (startInLoop k).

Definition restart (k : nat) : M W unit :=
  x ← get_connector k;
  assertInLoopThread (k_loop x);;
  Connector_setState k kDisconnected_;;
  upd_connector k (λ x, x <| retryDelayMs_ := kInitRetryDalayMs |>);;
  upd_connector k (λ x, x <| k_connect := true |>);;
  startInLoop k.

Definition Connector_stop (k : nat) : M W unit :=
  upd_connector k (λ x, x <| k_connect := false |>).

(** [scoped_ptr] asserts that it is not null when it is dereferenced. *)
Definition removeAndResetChannel (k : nat) : M W Z :=
  x ← get_connector k;
  c ← of_option "px != 0" (k_channel x);
  disableAll c;;
  removeChannel (k_loop x) c;;
  ch ← get_chan c;
  queueInLoop (k_loop x) (FResetChannel k);;
  mret (ch_fd ch).

Definition resetChannel (k : nat) : M W unit :=
  x ← get_connector k;
  match k_channel x with
  | Some c => upd_connector k (λ x, x <| k_channel := None |>);; Channel_dtor c
  | None => mret tt
  end.

(** [call] invokes the new-connection callback. *)
Definition Connector_handleWrite (call : NewConnectionCallBack → Z → M W unit) (k : nat) : M W unit :=
  x ← get_connector k;
  if bool_decide (k_state x = kConnecting_) then
    sockfd ← removeAndResetChannel k;
    err ← getSocketError sockfd;
    if negb (err =? 0) then retry k sockfd
    else
      self ← isSelfConnect sockfd;
      if (self : bool) then retry k sockfd
      else
        Connector_setState k kConnected_;;
        x ← get_connector k;
        if k_connect x then
          match k_newConnection x with
          | Some cb => call cb sockfd
          | None => fails (Thrown "bad_function_call")
          end
        else closefd sockfd
  else assert_ "state_ == kDisconnected" (bool_decide (k_state x = kDisconnected_)).

Definition Connector_handleError (k : nat) : M W unit :=
  x ← get_connector k;
  assert_ "state_ == kConnecting" (bool_decide (k_state x = kConnecting_));;
  sockfd ← removeAndResetChannel k;
  err ← getSocketError sockfd;
  retry k sockfd.
End Connector.

(** ** Retrying after growing delays *)

(** The delay in milliseconds before attempt [n + 1]. *)
Definition backoff (n : nat) : Z := Z.min (kInitRetryDalayMs * 2 ^ Z.of_nat n) kMaxRetryDelayMs.

Lemma backoff_next n : Z.min (backoff n * 2) kMaxRetryDelayMs = backoff (S n).
Proof.
  unfold backoff. rewrite Nat2Z.inj_succ, Z.pow_succ_r by lia.
  unfold kInitRetryDalayMs, kMaxRetryDelayMs. lia.
Qed.

Lemma backoff_values n : backoff n ∈ [500; 1000; 2000; 4000; 8000; 16000; 30000].
Proof.
  destruct (decide (n < 6)%nat) as [Hn|Hn].
  - do 6 (destruct n as [|n]; [by apply (bool_decide_eq_true_1 _); vm_compute|]). lia.
  - assert (2 ^ 6 ≤ 2 ^ Z.of_nat n) by (apply Z.pow_le_mono_r; lia).
    unfold backoff. replace (Z.min _ _) with 30000 by (unfold kInitRetryDalayMs, kMaxRetryDelayMs; lia).
    by apply (bool_decide_eq_true_1 _).
Qed.

(** The floating-point arithmetic on the delays is exact. *)
Lemma backoff_exact n :
  delay_us (ddiv (double_of_Z (backoff n)) (double_of_Z 1000)) = Some (1000 * backoff n).
Proof.
  pose proof (backoff_values n) as Hv.
  repeat (apply elem_of_cons in Hv as [->|Hv]; [by vm_compute|]). by apply not_elem_of_nil in Hv.
Qed.

Section Retry.
Context {K U : Type} `{Kernel K} `{!Clock K}.
Abbreviation W := (World K U).

(** The connector [k], whose loop the caller runs, is about to make its
    attempt number [n]. *)
Record retrying (k : nat) (n : nat) (addr : sockaddr_in) (l : nat) (w : W) : Prop := {
  re_connector : ∃ x, connectors w !! k = Some x ∧ k_loop x = l ∧ serverAddr_ x = addr ∧
    k_connect x = true ∧ k_state x = kDisconnected_ ∧ retryDelayMs_ x = backoff n;
  re_queue : ∃ q, queue_ok [] l q w;
}.

Lemma retrying_sys k n addr l w kr tr :
  retrying k n addr l w → retrying k n addr l (w <| kern := kr |> <| trace := tr |>).
Proof. intros [Hx (q&Hq)]. split; [exact Hx|]. exists q. by apply queue_ok_sys. Qed.

(** The calls of a failed attempt on descriptor [fd] that read time [now_]. *)
Definition attempt (addr : sockaddr_in) (fd : Z) (now_ : Timestamp) (evs : list (Syscall * SysRes))
    : Prop :=
  ∃ r1 r2 r3 e tv_sec tv_usec evs',
    evs = (SysSocket, r1) :: (SysConnect fd addr, r2) :: (SysClose fd, r3) ::
          (SysGettimeofday, mkRes 0 e (OutTime tv_sec tv_usec)) :: evs' ∧
    rv r1 = fd ∧ now_ = now_of tv_sec tv_usec ∧ Forall arming evs'.

Definition retry_timer (k n : nat) (now_ : Timestamp) (seq : Z) : Timer :=
  mkTimer dzero false (now_ + 1000 * backoff n) (FStartInLoop k) seq.

Lemma wp_retry k n addr l fd (Q : unit → W → Prop) w :
  (∃ x, connectors w !! k = Some x ∧ k_loop x = l ∧ serverAddr_ x = addr ∧
     k_connect x = true ∧ retryDelayMs_ x = backoff n) →
  (∃ q, queue_ok [] l q w) →
  Z.of_nat (next_id w) < UINTPTR_MAX → 0 ≤ numCreated w < 2 ^ 63 - 1 →
  (∀ w' r tv_sec tv_usec e evs,
     retrying k (S n) addr l w' →
     trace w' = trace w ++ (SysClose fd, r) ::
       (SysGettimeofday, mkRes 0 e (OutTime tv_sec tv_usec)) :: evs → Forall arming evs →
     timers w' = <[next_id w := retry_timer k n (now_of tv_sec tv_usec) (numCreated w + 1)]> (timers w) →
     next_id w' = S (next_id w) → numCreated w' = numCreated w + 1 → Q tt w') →
  wp (retry k fd) Q w.
Proof.
  intros (x&Hx&El&Ea&Hcon&Ed) (q&Hq) Hid Hnum HQ.
  unfold retry, closefd, Connector_setState, get_connector, upd_connector. wp_step.
  apply wp_sys. intros r kr _. wp_step. set (x1 := x <| k_state := kDisconnected_ |>).
  eapply wp_deref; [cbn; by rewrite lookup_alter_eq, Hx|]. cbn [k_connect upd]. rewrite Hcon.
  cbn [k_loop retryDelayMs_ upd]. rewrite El, Ed. wp_step.
  eapply (wp_runAfter [] l q _ _ _ _ _); [|apply backoff_exact| |done|done|].
  { by destruct Hq. }
  { pose proof (backoff_values n) as Hv. unfold kMaxTime. change (2 ^ 61 / 2) with (2 ^ 60).
    rewrite !elem_of_cons, elem_of_nil in Hv. lia. }
  intros w' q' sec usec e evs now_ timer Hq' Ht Hevs Ew. wp_step.
  apply (HQ _ r sec usec e evs); [|cbn; rewrite Ht; cbn; by rewrite <- app_assoc|done|..];
    [|cbn; by rewrite Ew..].
  split; [|exists q'; by destruct Hq']. exists (x1 <| retryDelayMs_ := backoff (S n) |>).
  cbn. rewrite Ew. cbn. rewrite !lookup_alter_eq, Hx. cbn. by rewrite Ed, backoff_next.
Qed.

(** Every [connect] fails with an error that is retried. *)
Context (Hrefused : ∀ fd addr k, let r := (syscall (SysConnect fd addr) k).1 in
           rv r ≠ 0 ∧ connect_switch (errno r) = ConnectRetry).

Lemma wp_refused_attempt k n addr l (Q : unit → W → Prop) w :
  retrying k n addr l w → Z.of_nat (next_id w) < UINTPTR_MAX → 0 ≤ numCreated w < 2 ^ 63 - 1 →
  (∀ w' fd now_ evs, retrying k (S n) addr l w' → attempt addr fd now_ evs →
     trace w' = trace w ++ evs →
     timers w' = <[next_id w := retry_timer k n now_ (numCreated w + 1)]> (timers w) →
     next_id w' = S (next_id w) → numCreated w' = numCreated w + 1 → Q tt w') →
  wp (startInLoop k) Q w.
Proof.
  intros [(x&Hx&El&Ea&Hcon&Hst&Ed) (q&Hq)] Hid Hnum HQ.
  destruct (qo_loop _ _ _ _ Hq) as (loop&Hl&Hth&Eq).
  unfold startInLoop, connect, createNonblockingOrDie, sock_connect, get_connector. wp_step.
  eapply wp_deref; [done|]. wp_step. rewrite El. eapply wp_assertInLoopThread; [done..|]. wp_step.
  apply wp_assert; [by rewrite Hst|]. rewrite Hcon. wp_step. apply wp_sys. intros r1 k1 _. wp_step.
  eapply wp_deref; [done|]. wp_step. apply wp_sys. intros r2 k2 E2. wp_step. cbn [fst snd].
  destruct (Hrefused (rv r1) (serverAddr_ x) k1) as [Hr2 Hsw]. cbn in E2. rewrite E2 in Hr2, Hsw.
  cbn in Hr2, Hsw. rewrite (proj2 (Z.eqb_neq _ _) Hr2), Hsw.
  eapply (wp_retry k n addr l); [by exists x|exists q; by destruct Hq|done|done|].
  intros w' r3 sec usec e evs Hre Ht Hevs Htm Hn Hs.
  eapply HQ; [done| | |exact Htm|done|done].
  - exists r1, r2, r3, e, sec, usec, evs. by split_and!.
  - rewrite Ht. cbn. by rewrite <- !app_assoc, Ea.
Qed.

(** C20: while a connector's attempts are refused, each attempt closes the
    socket it created and schedules the next after a delay that doubles from
    500 ms up to 30 s: attempt [i] adds exactly one timer, a one-shot call of
    [startInLoop] for [backoff i] milliseconds after the time it read. *)
Theorem refused_attempts_back_off (k n : nat) (addr : sockaddr_in) (l : nat) (m : nat) (w : W)
  (Hre : retrying k n addr l w)
  (Hid : Z.of_nat (next_id w) + Z.of_nat m < UINTPTR_MAX)
  (Hnum : 0 ≤ numCreated w ∧ numCreated w + Z.of_nat m < 2 ^ 63) :
  ∃ w' attempts, iterM (λ _, startInLoop k) (seq 0 m) w = Ret tt w' ∧
    length attempts = m ∧
    trace w' = trace w ++ concat (map snd attempts) ∧
    (∀ i fd now_ evs, attempts !! i = Some (fd, now_, evs) →
       attempt addr fd now_ evs ∧
       timers w' !! (next_id w + i)%nat
         = Some (retry_timer k (n + i) now_ (numCreated w + 1 + Z.of_nat i))) ∧
    retrying k (n + m) addr l w'.
Proof.
  cut (∀ pre, wp (iterM (λ _, startInLoop k) (seq pre m)) (λ _ w', ∃ attempts, length attempts = m ∧
    trace w' = trace w ++ concat (map snd attempts) ∧
    (∀ t, (t < next_id w)%nat → timers w' !! t = timers w !! t) ∧
    (∀ i fd now_ evs, attempts !! i = Some (fd, now_, evs) →
       attempt addr fd now_ evs ∧
       timers w' !! (next_id w + i)%nat
         = Some (retry_timer k (n + i) now_ (numCreated w + 1 + Z.of_nat i))) ∧
    retrying k (n + m) addr l w') w).
  { intros Hwp. specialize (Hwp 0%nat). apply wp_run in Hwp as ([]&w'&?&att&?&?&_&?&?). by exists w', att. }
  induction m as [|m IH] in n, w, Hre, Hid, Hnum |- *; intros pre; cbn [seq iterM].
  - wp_step. exists []. cbn. rewrite app_nil_r, Nat.add_0_r. by split_and!.
  - wp_step. eapply wp_refused_attempt; [exact Hre|lia|lia|].
    intros w1 fd now_ evs Hre1 Hatt Ht1 Htm1 Hn1 Hs1.
    eapply wp_mono; [apply (IH (S n)); [done|lia|lia]|].
    intros [] w' (att&Hlen&Ht&Hold&Hnew&Hre'). exists ((fd, now_, evs) :: att).
    split_and!; [cbn; lia|by rewrite Ht, Ht1, <- app_assoc| | |].
    + intros t Hlt. rewrite Hold, Htm1 by lia. by rewrite lookup_insert_ne by lia.
    + intros [|i] fd' now' evs' Hi; cbn in Hi.
      * simplify_eq. split; [done|]. rewrite Nat.add_0_r, Hold, Htm1, lookup_insert_eq by lia.
        by rewrite !Nat.add_0_r, !Z.add_0_r.
      * destruct (Hnew i fd' now' evs' Hi) as [? E]. split; [done|].
        rewrite Hn1, Hs1 in E. rewrite <- Nat.add_succ_comm, E. do 2 f_equal; lia.
    + by rewrite <- Nat.add_succ_comm.
Qed.
End Retry.

(** ** The descriptor of an attempt *)

Section Attempt.
Context {K U : Type} `{Kernel K}.
Abbreviation W := (World K U).

(** The connector [k] waits for [fd] to become writable, on channel [c]. *)
Record watching (k : nat) (x : Connector) (c : nat) (ch : Channel) (fd : Z) (w : W) : Prop := {
  wt_connector : connectors w !! k = Some x;
  wt_state : k_state x = kConnecting_;
  wt_channel : k_channel x = Some c;
  wt_chan : chans w !! c = Some ch;
  wt_fd : ch_fd ch = fd;
  wt_loop : ch_loop ch = k_loop x;
  wt_events : events_ ch = kWriteEvent;
  wt_callbacks : writeCallback_ ch = Some (CbConnectorWrite k) ∧
                 errorCallback_ ch = Some (CbConnectorError k);
}.

Lemma wp_connecting k x fd loop (Q : unit → W → Prop) w :
  connectors w !! k = Some x → k_channel x = None →
  loops w !! k_loop x = Some loop → threadId_ loop = cur w → registration (k_loop x) w →
  channels_ (epoller_ loop) !! fd = None → chans w !! next_id w = None →
  (∀ w' ch evs, let x' := x <| k_state := kConnecting_ |> <| k_channel := Some (next_id w) |> in
     watching k x' (next_id w) ch fd w' → trace w' = trace w ++ evs → Forall is_ctl evs →
     timers w' = timers w →
     (ctl_ok (trace w') → registration (k_loop x) w' ∧ registeredInEpoller_ ch = true) → Q tt w') →
  wp (connecting k fd) Q w.
Proof.
  intros Hx Hnone Hl Ht HR Hfd Hfresh HQ.
  unfold connecting, Connector_setState, get_connector, upd_connector. wp_step.
  eapply (wp_deref _ _ _ (x <| k_state := kConnecting_ |>)); [cbn; by rewrite lookup_alter_eq, Hx|].
  wp_step. apply wp_assert; [by apply bool_decide_eq_true_2|].
  change (k_loop (x <| k_state := kConnecting_ |>)) with (k_loop x).
  unfold Channel_ctor, alloc, setwriteCallback, seterrorCallback, upd_chan. wp_step.
  set (c := next_id w). set (x' := x <| k_state := kConnecting_ |> <| k_channel := Some c |>).
  set (ch := mkChannel (k_loop x) fd true false false 0 0 None
               (Some (CbConnectorWrite k)) (Some (CbConnectorError k)) None).
  match goal with |- context [enableWriting ?i] => change i with c end.
  match goal with |- wp _ _ ?y => set (w1 := y) end.
  assert (connectors w1 !! k = Some x') as Hx1 by (unfold w1; cbn; by rewrite !lookup_alter_eq, Hx).
  assert (chans w1 !! c = Some ch) as Hch1 by (unfold w1; cbn; by rewrite !lookup_alter_eq, lookup_insert_eq).
  assert (registration (k_loop x) w1) as HR1.
  { apply (registration_new_chan _ c ch) in HR; [|done..]. unfold w1; cbn.
    by rewrite !alter_insert_eq. }
  assert (loops w1 !! k_loop x = Some loop ∧ cur w1 = cur w ∧ trace w1 = trace w ∧ timers w1 = timers w)
    as (Hl1&Hcur1&Htr1&Htm1) by done.
  clearbody w1. rewrite <- Hcur1 in Ht. eapply wp_mono.
  { apply (run_mask_op_spec EnableWriting c ch loop); [done..|by apply registration_weaken|by intros _]. }
  intros [] w2 (Hf&_&_&_&Hctl).
  assert (chans (set_events c (λ _, mask_after EnableWriting ch) w1) !! c
          = Some (ch <| events_ := kWriteEvent |>)) as Hch2 by (cbn; by rewrite lookup_alter_eq, Hch1).
  destruct (pf_chan _ _ _ _ Hf Hch2) as [b Hb]. destruct (pf_trace _ _ Hf) as (evs&Et&Hevs).
  eapply (HQ w2 _ evs).
  - split; [by rewrite (pf_connectors _ _ Hf)|done|done|exact Hb|done..].
  - rewrite Et. cbn. by rewrite Htr1.
  - done.
  - rewrite (pf_timers _ _ Hf). by rewrite <- Htm1.
  - intros Hok. destruct (Hctl Hok) as [HR2 Hreg]. split; [done|].
    destruct (Hreg _ Hch2) as (ch'&Hch'&Hr'); [done|]. rewrite Hb in Hch'. injection Hch' as <-. done.
Qed.

(** C21: every attempt accounts for the descriptor it opened: when the
    connection is made or under way the connector waits for the descriptor to
    become writable; after an error worth retrying it is closed and a new
    attempt is scheduled; after any other error it is closed and nothing
    changes. *)
Theorem attempt_owns_descriptor `{!Clock K} (k : nat) (x : Connector) (n : nat) (loop : EventLoop)
  (q : TimerQueue) (w : W)
  (fd := rv (syscall SysSocket (kern w)).1)
  (r := (syscall (SysConnect fd (serverAddr_ x)) (syscall SysSocket (kern w)).2).1)
  (Hx : connectors w !! k = Some x) (Hst : k_state x = kDisconnected_) (Hcon : k_connect x = true)
  (Hnone : k_channel x = None) (Hdelay : retryDelayMs_ x = backoff n)
  (Hl : loops w !! k_loop x = Some loop) (Ht : threadId_ loop = cur w)
  (HR : registration (k_loop x) w) (Hfd : channels_ (epoller_ loop) !! fd = None)
  (Hfresh : chans w !! next_id w = None) (Hq : queue_ok [] (k_loop x) q w)
  (Hid : Z.of_nat (next_id w) < UINTPTR_MAX) (Hnum : 0 ≤ numCreated w < 2 ^ 63 - 1) :
  ∃ w' r0 evs, startInLoop k w = Ret tt w' ∧
    trace w' = trace w ++ (SysSocket, r0) :: (SysConnect fd (serverAddr_ x), r) :: evs ∧
    match connect_switch (if rv r =? 0 then 0 else errno r) with
    | ConnectProgress => Forall is_ctl evs ∧ timers w' = timers w ∧
        ∃ x' ch, watching k x' (next_id w) ch fd w' ∧
          (ctl_ok (trace w') → registration (k_loop x) w' ∧ registeredInEpoller_ ch = true)
    | ConnectRetry => retrying k (S n) (serverAddr_ x) (k_loop x) w' ∧
        ∃ rc e sec usec evs',
          evs = (SysClose fd, rc) :: (SysGettimeofday, mkRes 0 e (OutTime sec usec)) :: evs' ∧
          Forall arming evs' ∧
          timers w' = <[next_id w := retry_timer k n (now_of sec usec) (numCreated w + 1)]> (timers w)
    | ConnectFail => (∃ rc, evs = [(SysClose fd, rc)]) ∧ connectors w' = connectors w ∧
        timers w' = timers w ∧ chans w' = chans w
    end.
Proof.
  destruct (syscall SysSocket (kern w)) as [r0 k0] eqn:E0. cbn in fd, r.
  cut (wp (startInLoop k) (λ _ w', ∃ evs,
    trace w' = trace w ++ (SysSocket, r0) :: (SysConnect fd (serverAddr_ x), r) :: evs ∧
    match connect_switch (if rv r =? 0 then 0 else errno r) with
    | ConnectProgress => Forall is_ctl evs ∧ timers w' = timers w ∧
        ∃ x' ch, watching k x' (next_id w) ch fd w' ∧
          (ctl_ok (trace w') → registration (k_loop x) w' ∧ registeredInEpoller_ ch = true)
    | ConnectRetry => retrying k (S n) (serverAddr_ x) (k_loop x) w' ∧
        ∃ rc e sec usec evs',
          evs = (SysClose fd, rc) :: (SysGettimeofday, mkRes 0 e (OutTime sec usec)) :: evs' ∧
          Forall arming evs' ∧
          timers w' = <[next_id w := retry_timer k n (now_of sec usec) (numCreated w + 1)]> (timers w)
    | ConnectFail => (∃ rc, evs = [(SysClose fd, rc)]) ∧ connectors w' = connectors w ∧
        timers w' = timers w ∧ chans w' = chans w
    end) w).
  { intros Hwp. apply wp_run in Hwp as ([]&w'&?&evs&?). by exists w', r0, evs. }
  unfold startInLoop, connect, createNonblockingOrDie, sock_connect, get_connector. wp_step.
  eapply wp_deref; [done|]. wp_step. eapply wp_assertInLoopThread; [done..|]. wp_step.
  apply wp_assert; [by rewrite Hst|]. rewrite Hcon. wp_step. apply wp_sys. intros r0' k0' E0'. wp_step.
  rewrite E0 in E0'. injection E0' as <- <-. eapply wp_deref; [done|]. wp_step.
  apply wp_sys. intros r' k1 E1. cbn in E1. fold fd in E1. wp_step. cbn [fst snd].
  assert (r' = r) as -> by (unfold r; by rewrite E1).
  destruct (connect_switch _) eqn:Esw.
  - eapply (wp_connecting k x _ loop); [exact Hx|done|exact Hl|exact Ht| |exact Hfd|exact Hfresh|].
    { apply (registration_sys _ _ k1 (SysConnect fd (serverAddr_ x)) r I).
      by apply (registration_sys _ _ k0 SysSocket r0 I). }
    intros w' ch evs x' Hw Htr Hevs Htm Hctl. exists evs. rewrite Htr. cbn. rewrite <- !app_assoc.
    split_and!; [done|done|done|]. exists x', ch. split; [exact Hw|].
    rewrite Htr in Hctl. cbn in Hctl. by rewrite <- !app_assoc in Hctl.
  - eapply (wp_retry k n (serverAddr_ x) (k_loop x)); [by exists x|exists q; by destruct Hq|done|done|].
    intros w' rc sec usec e evs Hre Htr Hevs Htm _ _. eexists. rewrite Htr. cbn.
    rewrite <- !app_assoc. split; [done|]. split; [done|]. by exists rc, e, sec, usec, evs.
  - unfold closefd. wp_step. apply wp_sys. intros rc k2 _. wp_step. eexists. cbn.
    rewrite <- !app_assoc. split; [done|]. split_and!; [by exists rc|done..].
Qed.
(** *** The descriptor becomes writable *)

(** The attempt on [fd] is over: the connector is [x'], the channel [c] is
    out of use and will be deleted by the next pass over pending calls. *)
Record detached (k : nat) (x' : Connector) (c : nat) (w w' : W) : Prop := {
  dt_connector : connectors w' !! k = Some x';
  dt_events : ∃ ch', chans w' !! c = Some ch' ∧ events_ ch' = kNoneEvent ∧
     (ctl_ok (trace w') → registration (k_loop x') w' ∧ registeredInEpoller_ ch' = false);
  dt_pending : ∃ loop', loops w' !! k_loop x' = Some loop' ∧ threadId_ loop' = cur w' ∧
     last (pendingFunctors_ loop') = Some (FResetChannel k);
  dt_timers : timers w' = timers w;
}.

Lemma wp_removeAndResetChannel k x c ch fd loop (Q : Z → W → Prop) w :
  watching k x c ch fd w → registeredInEpoller_ ch = true →
  loops w !! k_loop x = Some loop → threadId_ loop = cur w → registration (k_loop x) w →
  (∀ w', detached k x c w w' → Q fd w') →
  wp (removeAndResetChannel k) Q w.
Proof.
  intros [Hx Hst Hc Hch Hfd Hown _ _] Hreg Hl Ht HR HQ.
  unfold removeAndResetChannel, get_connector, get_chan. wp_step. eapply wp_deref; [done|]. wp_step.
  eapply wp_of_option; [exact Hc|]. wp_step. eapply wp_mono.
  { apply (run_mask_op_spec DisableAll c ch loop); rewrite ?Hown; try done.
    - by apply registration_weaken.
    - by intros ?; congruence. }
  intros [] w1 (Hf1&_&HR1&Hsame&_). cbv beta. rewrite Hown in *.
  set (ch1 := ch <| events_ := kNoneEvent |>).
  assert (chans (set_events c (λ _, kNoneEvent) w) !! c = Some ch1) as Hc1
    by (cbn; by rewrite lookup_alter_eq, Hch).
  destruct (Hsame _ Hc1 Hreg) as [Ec1 El1]. cbn [mask_after] in Ec1. rewrite <- Ec1 in Hc1.
  cbn in El1. wp_step. eapply wp_mono.
  { apply (removeChannel_spec c ch1 (k_loop x) loop w1); try done; [by rewrite El1|].
    by rewrite (pf_cur _ _ Hf1). }
  intros [] w2 (Hf2&_&HR2&Hctl). cbv beta. wp_step.
  destruct (pf_chan _ _ _ _ Hf2 Hc1) as [b Hc2]. rewrite <- El1 in Hl.
  destruct (pf_loop _ _ _ _ Hf2 Hl) as [cs Hl2]. eapply wp_deref; [exact Hc2|]. wp_step.
  eapply (wp_queueInLoop c); [exact Hl2|split; [exact HR2|by intros Hok; apply Hctl]|].
  intros kr evs w' Hq [_ HR'].
  wp_step. change (ch_fd _) with (ch_fd ch). rewrite Hfd. apply HQ. split.
  - cbn. by rewrite (pf_connectors _ _ Hf2), (pf_connectors _ _ Hf1).
  - eexists. split; [exact Hc2|]. split; [done|]. intros Hok. cbn in Hok.
    split; [by apply HR'|]. apply Forall_app in Hok as [Hok _].
    destruct (Hctl Hok) as [_ (ch2&loop2&Hc2'&Hr2&_)]. congruence.
  - eexists. split; [cbn; by rewrite lookup_alter_eq, Hl2|]. split; [|apply last_snoc].
    cbn. by rewrite Ht, (pf_cur _ _ Hf2), (pf_cur _ _ Hf1).
  - cbn. by rewrite (pf_timers _ _ Hf2), (pf_timers _ _ Hf1).
Qed.

Lemma detached_sys k x c w w' kr sc r :
  no_interest sc → detached k x c w w' →
  detached k x c w (w' <| kern := kr |> <| trace ::= λ t, t ++ [(sc, r)] |>).
Proof.
  intros Hno [Hx (ch'&Hch&Hev&Hok) Hp Htm]. split; try done. exists ch'. split_and!; [done..|].
  intros [Hctl _]%Forall_app. destruct (Hok Hctl) as [HR Hr]. split; [|done].
  by apply registration_sys.
Qed.

Lemma detached_connected k x c w w' :
  detached k x c w w' →
  detached k (x <| k_state := kConnected_ |>) c w
    (w' <| connectors ::= alter (λ y, y <| k_state := kConnected_ |>) k |>).
Proof. intros [Hx Hch Hp Htm]. split; [cbn; by rewrite lookup_alter_eq, Hx|done..]. Qed.

(** What the system reports about descriptor [fd]. *)
Record socket_report (fd err : Z) (la pa : sockaddr_in) : Prop := {
  sr_error : ∀ kr, ∃ r kr', syscall (SysGetSocketError fd) kr = (r, kr') ∧
     0 ≤ rv r ∧ out r = OutInt err;
  sr_local : ∀ kr, ∃ r kr', syscall (SysGetsockname fd) kr = (r, kr') ∧ out r = OutAddr la;
  sr_peer : ∀ kr, ∃ r kr', syscall (SysGetpeername fd) kr = (r, kr') ∧ out r = OutAddr pa;
}.

Definition same_endpoint (la pa : sockaddr_in) : bool :=
  (sin_port la =? sin_port pa) && (s_addr la =? s_addr pa).

Lemma wp_getSocketError k x c fd err la pa (w w' : W) (Q : Z → W → Prop) :
  socket_report fd err la pa → detached k x c w w' →
  (∀ w2, detached k x c w w2 → Q err w2) → wp (getSocketError fd) Q w'.
Proof.
  intros [He _ _] Hd HQ. unfold getSocketError. wp_step. apply wp_sys. intros r kr E.
  destruct (He (kern w')) as (r'&kr'&E'&Hr&Ho). rewrite E in E'. simplify_eq.
  destruct (Z.ltb_spec (rv r') 0); [lia|]. rewrite Ho. wp_step.
  apply HQ. by apply (detached_sys k x c w).
Qed.

Lemma wp_isSelfConnect k x c fd err la pa (w w' : W) (Q : bool → W → Prop) :
  socket_report fd err la pa → detached k x c w w' →
  (∀ w2, detached k x c w w2 → Q (same_endpoint la pa) w2) → wp (isSelfConnect fd) Q w'.
Proof.
  intros [_ Hl Hp] Hd HQ. unfold isSelfConnect, getLocalAddr, getPeerAddr. wp_step.
  apply wp_sys. intros r1 k1 E1. wp_step. apply wp_sys. intros r2 k2 E2. wp_step.
  destruct (Hl (kern w')) as (?&?&E1'&Ho1), (Hp k1) as (?&?&E2'&Ho2). cbn in E2.
  rewrite E1 in E1'. rewrite E2 in E2'. simplify_eq.
  rewrite Ho1, Ho2. apply HQ.
  apply (detached_sys k x c w); [done|]. by apply (detached_sys k x c w).
Qed.

(** C22: when the descriptor of an attempt becomes writable, its channel is
    detached and the descriptor goes to exactly one place: it is retried (and
    so closed) when the socket reports an error or a connection to itself; it
    is handed to the new-connection callback when the connector is still
    wanted; it is closed when the connector was stopped meanwhile. *)
Theorem writable_disposes_descriptor (call : NewConnectionCallBack → Z → M W unit) (k c : nat)
  (x : Connector) (ch : Channel) (fd : Z) (cb : NewConnectionCallBack) (loop : EventLoop)
  (err : Z) (la pa : sockaddr_in) (w : W) (Q : unit → W → Prop)
  (Hw : watching k x c ch fd w) (Hreg : registeredInEpoller_ ch = true)
  (Hl : loops w !! k_loop x = Some loop) (Ht : threadId_ loop = cur w)
  (HR : registration (k_loop x) w) (Hcb : k_newConnection x = Some cb)
  (Hreport : socket_report fd err la pa)
  (HQ : ∀ w',
     if negb (err =? 0) || same_endpoint la pa
     then detached k x c w w' → wp (retry k fd) Q w'
     else detached k (x <| k_state := kConnected_ |>) c w w' →
          wp (if k_connect x then call cb fd else closefd fd) Q w') :
  wp (Connector_handleWrite call k) Q w.
Proof.
  unfold Connector_handleWrite, get_connector, Connector_setState, upd_connector. wp_step.
  eapply wp_deref; [by apply wt_connector in Hw|].
  rewrite bool_decide_eq_true_2 by (by destruct Hw). wp_step.
  eapply wp_removeAndResetChannel; [done..|]. intros w1 Hd1. cbv beta. wp_step.
  eapply wp_getSocketError; [done..|]. intros w2 Hd2. cbv beta.
  destruct (negb (err =? 0)); [by apply HQ|]. wp_step.
  eapply wp_isSelfConnect; [done..|]. intros w3 Hd3. cbv beta.
  destruct (same_endpoint la pa); [by apply HQ|]. wp_step.
  apply detached_connected in Hd3. eapply wp_deref; [by apply dt_connector in Hd3|].
  cbn [k_connect k_newConnection upd]. rewrite Hcb. specialize (HQ _ Hd3).
  by destruct (k_connect x).
Qed.
End Attempt.

(** ** A stale retry *)

Section Stale.
Context {K U : Type} `{Kernel K}.
Abbreviation W := (World K U).

(** A retry timer is never cancelled, and [startInLoop] asserts that no
    attempt is under way: while the connector waits for an attempt, a call of
    [startInLoop] left over from an earlier retry, and a [start] by the user,
    abort the process. *)
Theorem stale_retry_aborts (k c : nat) (x : Connector) (ch : Channel) (fd : Z) (loop : EventLoop)
  (w : W)
  (Hw : watching k x c ch fd w) (Hl : loops w !! k_loop x = Some loop) (Ht : threadId_ loop = cur w) :
  startInLoop k w = Crash (AssertFailed "state_ == kDisconnected") ∧
  Connector_start k w = Crash (AssertFailed "state_ == kDisconnected").
Proof.
  destruct Hw as [Hx Hst _ _ _ _ _ _].
  assert (∀ (w : W) x, connectors w !! k = Some x → k_state x = kConnecting_ → loops w !! k_loop x = Some loop →
    threadId_ loop = cur w → startInLoop k w = Crash (AssertFailed "state_ == kDisconnected")) as Hs.
  { intros w' x' Hx' Hst' Hl' Ht'. unfold startInLoop, get_connector. apply crash_bind.
    eapply wp_deref; [exact Hx'|]. apply crash_bind. eapply wp_assertInLoopThread; [done..|].
    apply crash_here. by rewrite Hst'. }
  split; [by eapply Hs|].
  unfold Connector_start, upd_connector, get_connector, runInLoop. apply crash_bind. wp_step.
  apply crash_bind. eapply wp_deref; [cbn; by rewrite lookup_alter_eq, Hx|].
  apply crash_bind. eapply wp_isInLoopThread; [done|]. cbn [cur upd]. rewrite Ht, Z.eqb_refl.
  eapply Hs; [cbn; by rewrite lookup_alter_eq, Hx|done..].
Qed.
End Stale.

(** ** Concrete instances *)

(** An operating system in which every [connect] has error number [e]. *)
Definition net_kernel (e : Z) : Kernel Z := λ sc t,
  match sc with
  | SysSocket => (res_ok 9, t)
  | SysConnect _ _ => (if e =? 0 then res_ok 0 else res_err e, t)
  | SysGetSocketError _ => (mkRes 0 0 (OutInt 0), t)
  | SysGetsockname _ => (mkRes 0 0 (OutAddr (InetAddress_port 4000)), t)
  | SysGetpeername _ => (mkRes 0 0 (OutAddr (InetAddress_port 80)), t)
  | _ => clock_kernel sc t
  end.

#[export] Instance net_kernel_ok e : Clock Z (H := net_kernel e).
Proof. exact clock_kernel_ok. Qed.

Module ConnectorDemo.
Definition addr : sockaddr_in := InetAddress_port 80.
Definition loop : EventLoop :=
  (ChannelDemo.loop ∅) <| threadId_ := 1 |> <| timerqueue_ := mkTimerQueue 5 1 [] |>.
Definition connector (st : States) (ch : option nat) : Connector :=
  mkConnector 0 addr true st ch (Some (NewConnUser 3)) 500.
Definition w0 {K} (k : K) : World K unit :=
  mkWorld k [] 1 ∅ 0 20%nat ∅ {[0%nat := loop]} ∅ ∅ {[4%nat := connector kDisconnected_ None]} ∅ ∅ ∅ tt.
(** Connector 4 waits on channel 3 for descriptor 7. *)
Definition ch : Channel :=
  mkChannel 0 7 true true false kWriteEvent 0 None
    (Some (CbConnectorWrite 4)) (Some (CbConnectorError 4)) None.
Definition w1 {K} (k : K) : World K unit :=
  (w0 k) <| connectors := {[4%nat := connector kConnecting_ (Some 3%nat)]} |>
    <| chans := {[3%nat := ch]} |>
    <| loops := {[0%nat := loop <| epoller_ ::= λ e, e <| channels_ := {[7 := 3%nat]} |> |>]} |>
    <| trace := [(SysEpollCtl 5 EPOLL_CTL_ADD 7 kWriteEvent, res_ok 0)] |>.

Lemma queue_w0 {K} `{Kernel K} (k : K) : queue_ok [] 0 (mkTimerQueue 5 1 []) (w0 k).
Proof.
  split; [by exists loop| |by intros t [? ?]].
  split; [constructor|by intros ts t ?%not_elem_of_nil|by intros t ?%not_elem_of_nil].
Qed.

Lemma retrying_w0 {K} `{Kernel K} (k : K) : retrying 4 0 addr 0 (w0 k).
Proof.
  split; [by exists (connector kDisconnected_ None)|].
  eexists. exact (queue_w0 k).
Qed.

Lemma registration_w0 {K} `{Kernel K} (k : K) : registration 0 (w0 k).
Proof.
  exists loop. split; [done|]. split.
  - intros fd c. split; [done|]. by intros (?&?&_).
  - intros fd. reflexivity.
Qed.

Lemma watching_w1 {K} `{Kernel K} (k : K) :
  watching 4 (connector kConnecting_ (Some 3%nat)) 3 ch 7 (w1 k).
Proof. by split. Qed.

Lemma registration_w1 {K} `{Kernel K} (k : K) : registration 0 (w1 k).
Proof.
  eexists. split; [reflexivity|]. split.
  - intros fd c. cbn. rewrite lookup_singleton_Some. split.
    + intros [<- <-]. by exists ch.
    + intros (ch'&Hc&<-&_). by apply lookup_singleton_Some in Hc as [<- <-].
  - intros fd. unfold watch_ok. cbn. destruct (decide (fd = 7)) as [->|]; [reflexivity|].
    by rewrite lookup_insert_ne, lookup_singleton_ne.
Qed.
End ConnectorDemo.

Lemma refused_attempts_back_off_witness :
  ∃ w', iterM (λ _, startInLoop (H := net_kernel ECONNREFUSED) 4) (seq 0 8) (ConnectorDemo.w0 1000)
      = Ret tt w' ∧
    ∃ now_, timers w' !! 27%nat = Some (mkTimer dzero false (now_ + 30000000) (FStartInLoop 4) 8).
Proof.
  destruct (refused_attempts_back_off (H := net_kernel ECONNREFUSED)
    ltac:(by intros fd addr k) 4 0 ConnectorDemo.addr 0 8 (ConnectorDemo.w0 1000)) as (w'&att&Hrun&Hlen&_&Hatt&_);
    [apply ConnectorDemo.retrying_w0|by_computation|by_computation|].
  exists w'. split; [exact Hrun|]. destruct (lookup_lt_is_Some_2 att 7) as [[[fd now_] evs] Hi]; [lia|].
  exists now_. exact (proj2 (Hatt _ _ _ _ Hi)).
Defined.

Lemma attempt_owns_descriptor_witness :
  ∃ w', startInLoop (H := net_kernel EINPROGRESS) 4 (ConnectorDemo.w0 1000) = Ret tt w' ∧
    ∃ x' ch, watching 4 x' 20 ch 9 w'.
Proof.
  destruct (attempt_owns_descriptor (H := net_kernel EINPROGRESS) 4
    (ConnectorDemo.connector kDisconnected_ None) 0 ConnectorDemo.loop (mkTimerQueue 5 1 [])
    (ConnectorDemo.w0 1000)) as (w'&r0&evs&Hrun&_&_&_&x'&ch&Hw&_);
    [reflexivity..|apply ConnectorDemo.registration_w0|reflexivity|reflexivity
    |apply ConnectorDemo.queue_w0|by_computation|by_computation|].
  exists w'. split; [exact Hrun|]. exists x', ch. exact Hw.
Defined.

Lemma writable_disposes_descriptor_witness :
  wp (Connector_handleWrite (H := net_kernel 0) (λ _ fd, modify (λ w, w <| numCreated := fd |>)) 4)
     (λ _ w', numCreated w' = 7) (ConnectorDemo.w1 1000).
Proof.
  apply (writable_disposes_descriptor (H := net_kernel 0) _ 4 3
    (ConnectorDemo.connector kConnecting_ (Some 3%nat)) ConnectorDemo.ch 7 (NewConnUser 3)
    (ConnectorDemo.loop <| epoller_ ::= λ e, e <| channels_ := {[7 := 3%nat]} |> |>)
    0 (InetAddress_port 4000) (InetAddress_port 80));
    [apply ConnectorDemo.watching_w1|reflexivity..|apply ConnectorDemo.registration_w1|reflexivity| |].
  - split; intros kr; eexists _, _; (split; [reflexivity|]); [split; [discriminate|reflexivity]|reflexivity..].
  - intros w' _. reflexivity.
Defined.

Lemma stale_retry_aborts_witness :
  startInLoop (H := net_kernel 0) 4 (ConnectorDemo.w1 1000) =
    Crash (AssertFailed "state_ == kDisconnected") ∧
  Connector_start (H := net_kernel 0) 4 (ConnectorDemo.w1 1000) =
    Crash (AssertFailed "state_ == kDisconnected").
Proof.
  apply (stale_retry_aborts (H := net_kernel 0) 4 3 (ConnectorDemo.connector kConnecting_ (Some 3%nat))
    ConnectorDemo.ch 7
    (ConnectorDemo.loop <| epoller_ ::= λ e, e <| channels_ := {[7 := 3%nat]} |> |>));
    [apply ConnectorDemo.watching_w1|reflexivity|reflexivity].
Defined.

(** The first attempt is refused; a second [start] is under way when the timer
    of the first fires. *)
Example stale_retry_scenario :
  let script := [res_ok 9; res_err ECONNREFUSED; res_ok 0; mkRes 0 0 (OutTime 1 0);
                 mkRes 0 0 (OutTime 1 1); res_ok 0; res_ok 10; res_err EINPROGRESS; res_ok 0] in
  (Connector_start 4;; Connector_start 4;;
   timer ← get_timer 20; startInLoop (match callback_ timer with FStartInLoop k => k | _ => O end))
    (ConnectorDemo.w0 script) = Crash (AssertFailed "state_ == kDisconnected").
Proof. by vm_compute. Qed.
