(* ===== verification/TcpClient.v ===== *)
(** * TcpClient

    [reactor/TcpClient.h] and [reactor/TcpClient.cc]: one connection at a time
    to a server, made again after it was lost when the user asked for that.
    The mutex around [connection_] is not modelled (its critical sections are
    single assignments). *)
From S2P Require Import Prelude Printf Buffer Timestamp World Channel EventLoop TimerQueue Net.
From S2P Require Import TcpConnection Connector.
Local Open Scope Z_scope.

Section TcpClient.
Context {K U : Type} `{Kernel K} `{UserCode K U}.
Abbreviation W := (World K U).

(** [detail::removeConnection] and [detail::removeConnector]. *)
Definition detail_removeConnection (loop c : nat) : M W unit :=
  queueInLoop loop (FConnectDestoryed c).
Definition detail_removeConnector (connector : nat) : M W unit := mret tt.

Definition TcpClient_ctor (loop : nat) (serverAddr : sockaddr_in) : M W nat :=
  cl ← alloc;
  k ← Connector_ctor loop serverAddr;
  modify (λ w, w <| clients ::= <[cl := {|
    cl_loop := loop; connector_ := k; cl_connectionCallback := None; cl_messageCallback := None;
    cl_writeCompleteCallback := None; cl_retry := false; cl_connect := true; nextConnId_ := 1;
    connection_ := None |}]> |>);;
  Connector_setNewConnectionCallBack k (NewConnClient cl);;
  mret cl.

Definition TcpClient_dtor (cl : nat) : M W unit :=
  client ← get_client cl;
  (match connection_ client with
   | Some c =>
       runInLoop (cl_loop client) (FSetCloseCallBack c (CloseDetail (cl_loop client)))
                 (setCloseCallBack c (CloseDetail (cl_loop client)))
   | None =>
       Connector_stop (connector_ client);;
       timerId ← runAfter (cl_loop client) (double_of_Z 1) (FRemoveConnector (connector_ client));
       mret tt
   end);;
  modify (λ w, w <| clients ::= delete cl |>);;
  match connection_ client with Some c => release c [] | None => mret tt end.

Definition TcpClient_connect (cl : nat) : M W unit :=
  upd_client cl (λ x, x <| cl_connect := true |>);;
  client ← get_client cl;
  Connector_start (connector_ client).

Definition TcpClient_disconnect (cl : nat) : M W unit :=
  upd_client cl (λ x, x <| cl_connect := false |>);;
  client ← get_client cl;
  match connection_ client with
  | Some c => shutdown c
  | None => mret tt
  end.

Definition TcpClient_stop (cl : nat) : M W unit :=
  upd_client cl (λ x, x <| cl_connect := false |>);;
  client ← get_client cl;
  Connector_stop (connector_ client).

Definition TcpClient_connection (client : TcpClient) : option nat := connection_ client.
Definition enableRetry (cl : nat) : M W unit := upd_client cl (λ x, x <| cl_retry := true |>).
Definition TcpClient_setConnectionCallback (cl : nat) (cb : nat) : M W unit :=
  upd_client cl (λ x, x <| cl_connectionCallback := Some cb |>).
Definition TcpClient_setMessageCallback (cl : nat) (cb : nat) : M W unit :=
  upd_client cl (λ x, x <| cl_messageCallback := Some cb |>).
Definition TcpClient_setWriteCompleteCallback (cl : nat) (cb : nat) : M W unit :=
  upd_client cl (λ x, x <| cl_writeCompleteCallback := Some cb |>).

(** The name of the [n]-th connection, to [peer]: what fits in 32 bytes. *)
Definition client_conn_name (peer : sockaddr_in) (n : Z) : list char :=
  (snprintf 32 (colon :: c_str (InetAddress_toHostPort peer) ++ "#"%char :: fmt_d n)).1.

Definition TcpClient_newConnection (cl : nat) (sockfd : Z) : M W unit :=
  client ← get_client cl;
  assertInLoopThread (cl_loop client);;
  peerAddr ← getPeerAddr sockfd;
  let connName := String.string_of_list_ascii (client_conn_name peerAddr (nextConnId_ client)) in
  next ← of_option "signed overflow"
    (if nextConnId_ client + 1 <? 2 ^ 31 then Some (nextConnId_ client + 1) else None);
  upd_client cl (λ x, x <| nextConnId_ := next |>);;
  localAddr ← getLocalAddr sockfd;
  c ← TcpConnection_ctor (cl_loop client) connName sockfd localAddr peerAddr;
  setConnectionCallBack c (cl_connectionCallback client);;
  setMessageConnectionCallBack c (cl_messageCallback client);;
  setWriteCompeleteCallback c (cl_writeCompleteCallback client);;
  setCloseCallBack c (CloseClient cl);;
  upd_client cl (λ x, x <| connection_ := Some c |>);;
  connectEstablished c.

Definition TcpClient_removeConnection (cl c : nat) : M W unit :=
  client ← get_client cl;
  assertInLoopThread (cl_loop client);;
  conn ← get_conn c;
  assert_ "loop_ == conn->getLoop()" (cl_loop client =? c_loop conn)%nat;;
  assert_ "connection_ == conn" (bool_decide (connection_ client = Some c));;
  upd_client cl (λ x, x <| connection_ := None |>);;
  queueInLoop (cl_loop client) (FConnectDestoryed c);;
  whenM (cl_retry client && cl_connect client) (restart (connector_ client)).
End TcpClient.

(** ** Names *)

(** The names of a client's connections are never truncated, and so all
    different, for its first hundred million connections. From some peers the
    buffer of 32 bytes is too small for the numbers after that: two
    connections then get the same name. *)
Theorem client_conn_names (peer : sockaddr_in) :
  (∀ n, 0 ≤ n < 10 ^ 8 →
     client_conn_name peer n = colon :: InetAddress_toHostPort peer ++ "#"%char :: fmt_d n) ∧
  (∀ n m, 0 ≤ n < 10 ^ 8 → 0 ≤ m < 10 ^ 8 →
     client_conn_name peer n = client_conn_name peer m → n = m) ∧
  (zlen (InetAddress_toHostPort peer) = 21 →
     client_conn_name peer (10 ^ 9) = client_conn_name peer (10 ^ 9 + 1)).
Proof.
  destruct (toHostPort_full peer) as [E Hlen].
  assert (c_str (InetAddress_toHostPort peer) = InetAddress_toHostPort peer) as Ec.
  { apply c_str_id. rewrite E. intros [[Hin|Hin]%inet_ntop_chars|[Hin|Hin]%elem_of_cons]%elem_of_app;
      try discriminate.
    pose proof (byteswap_range 2 (sin_port peer)).
    destruct (fmt_d_digits (networkToHost16 (sin_port peer))) as [Hd _]; [unfold networkToHost16; lia|].
    rewrite Forall_forall in Hd. by apply Hd in Hin. }
  assert (∀ n, 0 ≤ n < 10 ^ 8 →
     client_conn_name peer n = colon :: InetAddress_toHostPort peer ++ "#"%char :: fmt_d n) as Hfull.
  { intros n Hn. unfold client_conn_name. rewrite Ec, snprintf_fits; [done|].
    assert (length (fmt_d n) ≤ 8)%nat by (apply length_fmt_d; [lia|exact Hn]).
    unfold zlen in *. cbn [length]. rewrite length_app. cbn [length]. lia. }
  split_and!; [exact Hfull| |].
  - intros n m Hn Hm. rewrite !Hfull by done. intros [= Hnm%app_inv_head]. by simplify_eq.
  - intros H21. unfold client_conn_name. rewrite Ec. unfold snprintf. cbn [fst].
    change (colon :: InetAddress_toHostPort peer ++ "#"%char :: fmt_d (10 ^ 9))
      with ((colon :: InetAddress_toHostPort peer) ++ "#"%char :: fmt_d (10 ^ 9)).
    change (colon :: InetAddress_toHostPort peer ++ "#"%char :: fmt_d (10 ^ 9 + 1))
      with ((colon :: InetAddress_toHostPort peer) ++ "#"%char :: fmt_d (10 ^ 9 + 1)).
    rewrite !take_app. f_equal. unfold zlen in H21. cbn [length].
    replace (length (InetAddress_toHostPort peer)) with 21%nat by lia. by vm_compute.
Qed.

Section ClientFacts.
Context {K U : Type} `{Kernel K} `{UserCode K U}.
Abbreviation W := (World K U).

(** The world in which the user is told of the new connection [c] of client [cl]. *)
Record client_connected (cl c : nat) (sockfd : Z) (client : TcpClient) (w1 : W) : Prop := {
  cc_client : clients w1 !! cl =
    Some (client <| nextConnId_ := nextConnId_ client + 1 |> <| connection_ := Some c |>);
  cc_conn : ∃ conn, conns w1 !! c = Some conn ∧ c_state conn = kConnected ∧ c_fd conn = sockfd ∧
    c_closeCallback conn = Some (CloseClient cl) ∧ c_loop conn = cl_loop client ∧
    messageCallback_ conn = cl_messageCallback client ∧
    writeCompleteCallback_ conn = cl_writeCompleteCallback client ∧
    (ctl_ok (trace w1) → registration (cl_loop client) w1 ∧
       ∃ ch, chans w1 !! c_channel conn = Some ch ∧ registeredInEpoller_ ch = true ∧
             ch_fd ch = sockfd ∧ events_ ch = kReadEvent);
}.

(** Given a connected descriptor, the client makes a connection object for
    it, with its own callbacks, remembers it, and establishes it: connected
    and registered for reading before the user's connection callback runs. *)
Theorem client_newConnection_establishes (cl : nat) (sockfd : Z) (client : TcpClient)
  (loop : EventLoop) (f : nat) (w : W) (Q : unit → W → Prop)
  (Hcl : clients w !! cl = Some client) (Hl : loops w !! cl_loop client = Some loop)
  (Ht : threadId_ loop = cur w) (Hcb : cl_connectionCallback client = Some f)
  (Hmax : nextConnId_ client + 1 < 2 ^ 31)
  (HR : registration (cl_loop client) w) (Hfd : channels_ (epoller_ loop) !! sockfd = None)
  (Hfresh : chans w !! S (next_id w) = None)
  (Hcode : ∀ w1, client_connected cl (next_id w) sockfd client w1 →
                 wp (u_connection f (next_id w)) Q w1) :
  wp (TcpClient_newConnection cl sockfd) Q w.
Proof.
  unfold TcpClient_newConnection, get_client, upd_client, getLocalAddr, getPeerAddr. wp_step.
  eapply wp_deref; [done|]. wp_step. eapply wp_assertInLoopThread; [done..|]. wp_step.
  apply wp_sys. intros rp kp _. wp_step.
  eapply wp_of_option; [by rewrite (proj2 (Z.ltb_lt _ _)) by done|]. wp_step.
  apply wp_sys. intros rl kl _. wp_step. apply wp_TcpConnection_ctor. intros c.
  unfold setConnectionCallBack, setMessageConnectionCallBack, setWriteCompeleteCallback,
    setCloseCallBack, upd_conn. wp_step.
  match goal with |- wp (connectEstablished ?i) _ _ => change i with c end.
  match goal with |- wp _ _ ?x => set (w1 := x) end.
  set (conn := (new_conn (cl_loop client) (S c)
      (String.string_of_list_ascii (client_conn_name
         (match out rp with OutAddr a => a | _ => bzero_addr end) (nextConnId_ client)))
      sockfd (match out rl with OutAddr a => a | _ => bzero_addr end))
    <| connectionCallback_ := cl_connectionCallback client |>
    <| messageCallback_ := cl_messageCallback client |>
    <| writeCompleteCallback_ := cl_writeCompleteCallback client |>
    <| c_closeCallback := Some (CloseClient cl) |>).
  set (ch := new_channel (cl_loop client) c sockfd).
  assert (conns w1 !! c = Some conn) as Hc1.
  { unfold w1; cbn. by rewrite !lookup_alter_eq, lookup_insert_eq. }
  assert (clients w1 !! cl = Some (client <| nextConnId_ := nextConnId_ client + 1 |>
                                          <| connection_ := Some c |>)) as Hcl1.
  { unfold w1; cbn. by rewrite !lookup_alter_eq, Hcl. }
  assert (chans w1 !! S c = Some ch) as Hch1 by apply lookup_insert_eq.
  assert (loops w1 !! cl_loop client = Some loop) as Hl1 by exact Hl.
  assert (threadId_ loop = cur w1) as Ht1 by exact Ht.
  assert (registration (cl_loop client) w1) as HR1.
  { pose proof (registration_sys _ _ kp (SysGetpeername sockfd) rp I HR) as HR1.
    pose proof (registration_sys _ _ kl (SysGetsockname sockfd) rl I HR1) as HR2.
    apply (registration_new_chan _ (S c) ch) in HR2; [|done..]. exact HR2. }
  assert (c_channel conn = S c ∧ c_loop conn = cl_loop client ∧ c_state conn = kConnecting ∧
    connectionCallback_ conn = Some f ∧ c_fd conn = sockfd ∧
    c_closeCallback conn = Some (CloseClient cl) ∧
    messageCallback_ conn = cl_messageCallback client ∧
    writeCompleteCallback_ conn = cl_writeCompleteCallback client) as (Eci&El&Est&Ecb&Efd&Ecc&Em&Ewc)
    by done.
  clearbody w1 conn.
  eapply (wp_establish c conn ch loop f); rewrite ?Eci, ?El; try done; [by intros _|].
  intros w0 Hc0 _ Ecl0 Hctl. rewrite ?Eci, ?El in Hctl. apply Hcode. split; [by rewrite Ecl0|].
  exists (conn <| c_state := kConnected |>).
  change (c_channel (conn <| c_state := kConnected |>)) with (c_channel conn). rewrite ?Eci. by split_and!.
Qed.

(** C23: when its connection is closed, a client forgets it and has it
    destroyed by the next pass over pending calls; if retrying is enabled and
    the client was not told to disconnect or stop, it goes straight on to a
    new attempt, with the delay back at its initial value. Reporting a
    connection closed that is not the client's aborts. *)
Theorem client_reconnects (cl c : nat) (client : TcpClient) (conn : TcpConnection) (x : Connector)
  (loop : EventLoop) (w : W)
  (Hcl : clients w !! cl = Some client) (Hc : conns w !! c = Some conn)
  (El : c_loop conn = cl_loop client) (Hl : loops w !! cl_loop client = Some loop)
  (Ht : threadId_ loop = cur w) (Hx : connectors w !! connector_ client = Some x)
  (Ek : k_loop x = cl_loop client) :
  if bool_decide (connection_ client = Some c) then
    ∃ w', TcpClient_removeConnection cl c w =
        (if cl_retry client && cl_connect client then startInLoop (connector_ client) w'
         else Ret tt w') ∧
      clients w' !! cl = Some (client <| connection_ := None |>) ∧
      (∃ loop', loops w' !! cl_loop client = Some loop' ∧
         pendingFunctors_ loop' = pendingFunctors_ loop ++ [FConnectDestoryed c]) ∧
      connectors w' !! connector_ client = Some
        (if cl_retry client && cl_connect client
         then x <| k_state := kDisconnected_ |> <| retryDelayMs_ := backoff 0 |>
                <| k_connect := true |>
         else x)
  else TcpClient_removeConnection cl c w = Crash (AssertFailed "connection_ == conn").
Proof.
  destruct (bool_decide (connection_ client = Some c)) eqn:Econn.
  2: { unfold TcpClient_removeConnection, get_client, get_conn. apply crash_bind.
    eapply wp_deref; [done|]. apply crash_bind. eapply wp_assertInLoopThread; [done..|].
    apply crash_bind. eapply wp_deref; [done|]. apply crash_bind.
    apply wp_assert; [by apply Nat.eqb_eq|]. apply crash_here. by rewrite Econn. }
  unfold TcpClient_removeConnection, get_client, get_conn, upd_client, assert_.
  rewrite (bind_Ret _ _ _ _ _ (deref_run _ _ _ _ _ Hcl)).
  rewrite (bind_Ret _ _ _ _ _ (assertInLoopThread_run _ _ _ Hl Ht)).
  rewrite (bind_Ret _ _ _ _ _ (deref_run _ _ _ _ _ Hc)).
  rewrite El, Nat.eqb_refl, Econn, (bind_Ret _ _ _ _ _ eq_refl), (bind_Ret _ _ _ _ _ eq_refl).
  rewrite bind_modify. set (w0 := w <| clients ::= _ |>).
  destruct (queueInLoop_Ret (cl_loop client) (FConnectDestoryed c) loop w0 Hl) as (kr&tr&Hrun).
  rewrite (bind_Ret _ _ _ _ _ Hrun). set (w1 := _ <| trace := tr |>).
  assert (clients w1 !! cl = Some (client <| connection_ := None |>)) as Hcl1
    by (unfold w1, w0; cbn; by rewrite lookup_alter_eq, Hcl).
  assert (loops w1 !! cl_loop client = Some (loop <| pendingFunctors_ ::= λ q, q ++ [FConnectDestoryed c] |>))
    as Hl1 by (unfold w1, w0; cbn; by rewrite lookup_alter_eq, Hl).
  assert (connectors w1 !! connector_ client = Some x ∧ cur w1 = cur w) as [Hx1 Hcur1] by done.
  clearbody w1. rewrite <- Hcur1 in Ht. destruct (cl_retry client && cl_connect client).
  - cbn [whenM]. unfold restart, get_connector, Connector_setState, upd_connector.
    rewrite (bind_Ret _ _ _ _ _ (deref_run _ _ _ _ _ Hx1)), Ek.
    rewrite (bind_Ret _ _ _ _ _ (assertInLoopThread_run _ _ _ Hl1 Ht)).
    eexists. split; [reflexivity|]. split_and!; [exact Hcl1|by eexists|].
    cbn. by rewrite !lookup_alter_eq, Hx1.
  - exists w1. split_and!; [done|done|by eexists|done].
Qed.
End ClientFacts.

(** ** Concrete instances *)

Module ClientDemo.
(** Client 6 uses connector 4 of the connector's example and wants retries. *)
Definition client (c : option nat) : TcpClient :=
  mkClient 0 4 (Some 0%nat) (Some 1%nat) None true true 1 c.
Definition w0 {K} (k : K) (c : option nat) : World K unit :=
  (ConnectorDemo.w0 k) <| clients := {[6%nat := client c]} |>
    <| conns := {[5%nat := ConnDemo.conn_with (CloseClient 6) "" Buffer_ctor]} |>.
(** 255.255.255.255:65535, the longest text of an address. *)
Definition peer : sockaddr_in := mkAddr AF_INET 65535 (2 ^ 32 - 1).
End ClientDemo.

Lemma client_conn_names_witness :
  client_conn_name ClientDemo.peer (10 ^ 9) = client_conn_name ClientDemo.peer (10 ^ 9 + 1).
Proof. apply (proj2 (proj2 (client_conn_names ClientDemo.peer))). by_computation. Defined.

Lemma client_newConnection_establishes_witness :
  wp (TcpClient_newConnection (H0 := idle_code) 6 11)
     (λ _ w', clients w' !! 6%nat = Some (mkClient 0 4 (Some 0%nat) (Some 1%nat) None true true 2 (Some 20%nat)))
     (ClientDemo.w0 tt None).
Proof.
  apply (client_newConnection_establishes (H0 := idle_code) 6 11 (ClientDemo.client None)
    ConnectorDemo.loop 0%nat); [try reflexivity..|].
  - apply (ConnectorDemo.registration_w0 tt).
  - intros w1 Hw1. exact (cc_client _ _ _ _ _ Hw1).
Defined.

Lemma client_reconnects_witness :
  ∃ w', TcpClient_removeConnection 6 5 (ClientDemo.w0 tt (Some 5%nat)) = startInLoop 4 w' ∧
    clients w' !! 6%nat = Some (ClientDemo.client None) ∧
    connectors w' !! 4%nat = Some (ConnectorDemo.connector kDisconnected_ None).
Proof.
  destruct (client_reconnects 6 5 (ClientDemo.client (Some 5%nat))
    (ConnDemo.conn_with (CloseClient 6) "" Buffer_ctor) (ConnectorDemo.connector kDisconnected_ None)
    ConnectorDemo.loop (ClientDemo.w0 tt (Some 5%nat))) as (w'&Hrun&Hcl&_&Hx); [reflexivity..|].
  exists w'. split; [exact Hrun|]. split; [exact Hcl|exact Hx].
Defined.
