(* ===== verification/Reactor.v ===== *)
(** * Reactor

    The whole program: what each callback and each queued call invokes, the
    loop run with them, and what one iteration of the loop delivers. *)
From S2P Require Import Prelude Printf Buffer Timestamp World Channel EventLoop TimerQueue Net.
From S2P Require Import TcpConnection Acceptor TcpServer Connector TcpClient.
Local Open Scope Z_scope.

Section Reactor.
Context {K U : Type} `{Kernel K} `{UserCode K U}.
Abbreviation W := (World K U).

(** The target of a close callback. *)
Definition run_close (cb : CloseCallBack) (c : nat) : M W unit :=
  match cb with
  | CloseServer s => TcpServer_removeConnection s c
  | CloseClient cl => TcpClient_removeConnection cl c
  | CloseDetail l => detail_removeConnection l c
  end.

(** The target of a new-connection callback. *)
Definition run_new (cb : NewConnectionCallBack) (sockfd : Z) (peer : sockaddr_in) : M W unit :=
  match cb with
  | NewConnServer s => TcpServer_newConnection s sockfd peer
  | NewConnClient cl => TcpClient_newConnection cl sockfd
  | NewConnUser code => u_newConnection code sockfd peer
  end.

(** The target of a queued call. *)
Definition run_functor (f : Functor) : M W unit :=
  match f with
  | FAddTimerInLoop l t => addTimerInLoop l t
  | FSendInLoop c message => sendInLoop c message
  | FShutdownInLoop c => shutdownInLoop c
  | FConnectDestoryed c => connectDestoryed c
  | FWriteComplete code c => u_writeComplete code c
  | FSetCloseCallBack c cb => setCloseCallBack c cb
  | FRemoveConnectionInLoop s c => removeConnectionInLoop s c
  | FListen a => Acceptor_listen a
  | FStartInLoop k => startInLoop k
  | FResetChannel k => resetChannel k
  | FRemoveConnector k => detail_removeConnector k
  | FUser code => u_functor code
  end.

(** The target of a channel's callback. *)
Definition run_cb (receiveTime : Timestamp) (cb : Callback) : M W unit :=
  match cb with
  | CbLoopRead l => handleRead l
  | CbTimerRead l => TimerQueue_handleRead run_functor l
  | CbAcceptorRead a => Acceptor_handleRead run_new a
  | CbConnRead c => TcpConnection_handleRead run_close receiveTime c
  | CbConnWrite c => handleWrite c
  | CbConnClose c => handleClose run_close c
  | CbConnError c => handleError c
  | CbConnectorWrite k => Connector_handleWrite (λ cb fd, run_new cb fd bzero_addr) k
  | CbConnectorError k => Connector_handleError k
  | CbUser code => u_channel code receiveTime
  end.

Definition reactor_loop (fuel : nat) (l : nat) : M W bool :=
  loop run_cb run_functor destroy_functions fuel l.
End Reactor.

(** ** One iteration of the loop *)

Section Iteration.
Context {K U : Type} `{Kernel K} `{!Clock K}.
Abbreviation W := (World K U).
Implicit Types (w : W) (l c : nat).

(** Channels [cs] have been told the events [evs] that were reported. *)
Record told (evs : list (Z * Z)) (cs : list nat) (w w' : W) : Prop := {
  tl_told : ∀ i fd ev c ch, evs !! i = Some (fd, ev) → cs !! i = Some c → chans w !! c = Some ch →
    chans w' !! c = Some (ch <| revents_ := ev |>);
  tl_others : ∀ c, c ∉ cs → chans w' !! c = chans w !! c;
  tl_conns : conns w' = conns w;
  tl_timers : timers w' = timers w;
  tl_user : user w' = user w;
  tl_cur : cur w' = cur w;
}.

(** One more channel is told its events, and put among the active ones. *)
Lemma told_next pre precs fd ev c (l : nat) f w w0 :
  length pre = length precs → c ∉ precs → told pre precs w w0 →
  told (pre ++ [(fd, ev)]) (precs ++ [c]) w
    (w0 <| chans ::= alter (λ x, x <| revents_ := ev |>) c |> <| loops ::= alter f l |>).
Proof.
  intros Hlen Hcpre [Htold Hoth ? ? ? ?]. split; try done.
  - intros i fd' ev' c' ch Hi Hci Hch. cbn.
    apply lookup_snoc_Some in Hi as [[Hlt Hi]|[-> [= <- <-]]].
    + rewrite lookup_app_l in Hci by lia. rewrite lookup_alter_ne; [by eapply Htold|].
      intros <-. apply Hcpre. by eapply list_elem_of_lookup_2.
    + rewrite lookup_app_r, Hlen, Nat.sub_diag in Hci by lia. cbn in Hci. simplify_eq.
      rewrite lookup_alter_eq, Hoth, Hch by done. done.
  - intros c' Hc'. rewrite elem_of_app, elem_of_cons in Hc'. cbn.
    rewrite lookup_alter_ne by (intros ->; apply Hc'; by right; left). apply Hoth. intros ?; apply Hc'; by left.
Qed.

Lemma wp_fillActiveChannels l loop fdNum evs cs (Q : unit → W → Prop) w :
  loops w !! l = Some loop → fdNum = zlen evs → fdNum ≤ nevents_ (epoller_ loop) →
  Forall2 (λ ev c, channels_ (epoller_ loop) !! ev.1 = Some c) evs cs → NoDup cs →
  (∀ w', told evs cs w w' → trace w' = trace w → kern w' = kern w →
     loops w' = <[l := loop <| channellist_ ::= λ x, x ++ cs |>]> (loops w) → Q tt w') →
  wp (fillActiveChannels l fdNum evs) Q w.
Proof.
  intros Hl -> Hn Hdom Hnd HQ. unfold fillActiveChannels, get_loop. wp_step.
  eapply wp_deref; [exact Hl|]. wp_step. apply wp_assert; [by apply Z.leb_le|].
  rewrite Z.ltb_irrefl, take_ge by (unfold zlen; lia).
  assert (∀ pre precs post postcs w0, evs = pre ++ post → cs = precs ++ postcs →
    length pre = length precs → told pre precs w w0 → trace w0 = trace w → kern w0 = kern w →
    loops w0 = <[l := loop <| channellist_ ::= λ x, x ++ precs |>]> (loops w) →
    wp (iterM (λ ev : Z * Z, let '(fd, events) := ev in
      loop ← deref "EventLoop" loops l;
      match channels_ (epoller_ loop) !! fd with
      | None => fails (AssertFailed "ch != channels_.end()")
      | Some channel => setrevents channel events;;
          upd_loop l (λ x, x <| channellist_ ::= λ cs, cs ++ [channel] |>)
      end) post) Q w0) as Hgen.
  2: { apply (Hgen [] [] evs cs); try done.
    symmetry. apply insert_id. rewrite Hl. destruct loop. cbn. by rewrite app_nil_r. }
  intros pre precs post. induction post as [|[fd ev] post IH] in pre, precs |- *;
    intros postcs w0 Eevs Ecs Hlen Ht Htr Hk Hlo; cbn [iterM].
  - rewrite app_nil_r in Eevs. subst pre.
    assert (postcs = []) as ->.
    { apply Forall2_length in Hdom. rewrite Ecs, length_app in Hdom. destruct postcs; [done|simpl in *; lia]. }
    rewrite app_nil_r in Ecs. subst precs. wp_step. by apply HQ.
  - wp_step. eapply wp_deref; [rewrite Hlo; apply lookup_insert_eq|]. cbn [epoller_ upd].
    pose proof Hdom as Hdom'. rewrite Eevs, Ecs in Hdom'.
    apply Forall2_app_inv in Hdom' as [_ Hpost]; [|done].
    apply Forall2_cons_inv_l in Hpost as (c&postcs'&Hc&Hpost&->). cbn in Hc. rewrite Hc.
    unfold setrevents, upd_chan, upd_loop. wp_step.
    assert (c ∉ precs) as Hcpre.
    { rewrite Ecs in Hnd. apply NoDup_app in Hnd as (_&Hdis&_). intros Hin. apply (Hdis c Hin). by left. }
    eapply (IH (pre ++ [(fd, ev)]) (precs ++ [c]) postcs').
    + by rewrite <- app_assoc.
    + by rewrite <- app_assoc.
    + rewrite !length_app. simpl. lia.
    + by apply told_next.
    + done.
    + done.
    + cbn. rewrite Hlo. rewrite alter_insert_eq. f_equal. cbn. by rewrite <- app_assoc.
Qed.

Lemma wp_epoll l loop timeoutMs evs cs (Q : Timestamp → W → Prop) w
    (call := SysEpollWait (epfd_ (epoller_ loop)) (wraps 32 (nevents_ (epoller_ loop))) timeoutMs)
    (r := (syscall call (kern w)).1) :
  loops w !! l = Some loop → threadId_ loop = cur w →
  (rv r ≤ 0 ∧ evs = []) ∨ (0 < rv r ∧ rv r = zlen evs ∧ out r = OutEvents evs) →
  zlen evs ≤ nevents_ (epoller_ loop) →
  Forall2 (λ ev c, channels_ (epoller_ loop) !! ev.1 = Some c) evs cs → NoDup cs →
  (∀ w' e tv_sec tv_usec, told evs cs w w' →
     trace w' = trace w ++ [(call, r); (SysGettimeofday, mkRes 0 e (OutTime tv_sec tv_usec))] →
     loops w' !! l = Some (loop <| channellist_ ::= λ x, x ++ cs |>
       <| epoller_ ::= λ e, e <| nevents_ :=
            (if (0 <? rv r) && (rv r =? nevents_ (epoller_ loop)) then nevents_ (epoller_ loop) * 2
             else nevents_ (epoller_ loop)) |> |>) →
     Q (now_of tv_sec tv_usec) w') →
  wp (epoll l timeoutMs) Q w.
Proof.
  intros Hl Ht Hr Hn Hdom Hnd HQ. unfold epoll, get_loop. wp_step.
  eapply wp_assertInLoopThread; [done..|]. wp_step. eapply wp_deref; [done|]. wp_step.
  apply wp_sys. fold call. intros r' k E. assert (r' = r) as -> by (unfold r; by rewrite E). clearbody r.
  wp_step. apply wp_now. intros k2 sec usec e now_ _. wp_step.
  set (w1 := w <| kern := k |> <| trace ::= λ t, t ++ [(call, r)] |>).
  destruct Hr as [[Hr ->]|(Hr&Ern&Eo)].
  - rewrite (proj2 (Z.ltb_ge _ _) Hr) in HQ |- *. wp_step. inversion Hdom; subst cs.
    apply (HQ _ e sec usec).
    + by split.
    + cbn. by rewrite <- app_assoc.
    + cbn. rewrite Hl. f_equal. destruct loop as [? ? ? ? ? ? []]. cbn. by rewrite app_nil_r.
  - rewrite (proj2 (Z.ltb_lt _ _) Hr) in HQ |- *. rewrite Eo. wp_step.
    eapply (wp_fillActiveChannels l loop); [exact Hl|done|by rewrite Ern|done|done|].
    intros w' [Htold Hoth Hco Htm Hus Hcu] Htr _ Hlo. wp_step.
    assert (trace w' = trace w ++ [(call, r); (SysGettimeofday, mkRes 0 e (OutTime sec usec))]) as Htr'.
    { rewrite Htr. cbn. by rewrite <- app_assoc. }
    cbn [andb] in HQ. destruct (rv r =? nevents_ (epoller_ loop)); cbn [whenM].
    + unfold upd_epoller, upd_loop. wp_step. apply (HQ _ e sec usec); [by split|exact Htr'|].
      cbn. by rewrite Hlo, lookup_alter_eq, lookup_insert_eq.
    + wp_step. apply (HQ _ e sec usec); [by split|exact Htr'|]. rewrite Hlo, lookup_insert_eq.
      f_equal. by destruct loop as [? ? ? ? ? ? []].
Qed.

(** C9: one iteration of the loop delivers what the kernel reports: every
    channel with a reported event is handled exactly once, in the order of
    the report, with its events as reported and the time read after the wait;
    then the pending calls are run. The array given to the kernel doubles
    when a report filled it. *)
Theorem iteration_delivers (run_cb : Timestamp → Callback → M W unit) (run : Functor → M W unit)
  (destroy : list Functor → M W unit) (l : nat) (loop : EventLoop) (evs : list (Z * Z)) (cs : list nat) (w : W)
  (call := SysEpollWait (epfd_ (epoller_ loop)) (wraps 32 (nevents_ (epoller_ loop))) kPollTimeMs)
  (r := (syscall call (kern w)).1)
  (Hl : loops w !! l = Some loop) (Ht : threadId_ loop = cur w)
  (Hr : (rv r ≤ 0 ∧ evs = []) ∨ (0 < rv r ∧ rv r = zlen evs ∧ out r = OutEvents evs))
  (Hn : zlen evs ≤ nevents_ (epoller_ loop))
  (Hdom : Forall2 (λ ev c, channels_ (epoller_ loop) !! ev.1 = Some c) evs cs) (Hnd : NoDup cs) :
  ∃ w1 r0 now_ loop1,
    loop_iteration run_cb run destroy l w =
      (iterM (handleEvent run_cb now_) cs;; doPendingFunctions run destroy l) w1 ∧
    trace w1 = trace w ++ [(call, r); (SysGettimeofday, r0)] ∧
    (∃ tv_sec tv_usec, out r0 = OutTime tv_sec tv_usec ∧ now_ = now_of tv_sec tv_usec) ∧
    told evs cs w w1 ∧
    loops w1 !! l = Some loop1 ∧ channellist_ loop1 = cs ∧ epollReturnTime_ loop1 = now_ ∧
    pendingFunctors_ loop1 = pendingFunctors_ loop ∧
    nevents_ (epoller_ loop1) =
      (if (0 <? rv r) && (rv r =? nevents_ (epoller_ loop)) then nevents_ (epoller_ loop) * 2
       else nevents_ (epoller_ loop)).
Proof.
  set (n := if (0 <? rv r) && (rv r =? nevents_ (epoller_ loop)) then nevents_ (epoller_ loop) * 2
            else nevents_ (epoller_ loop)).
  set (w0 := w <| loops ::= alter (λ x, x <| channellist_ := [] |>) l |>).
  set (loop0 := loop <| channellist_ := [] |>).
  assert (wp (epoll l kPollTimeMs) (λ t w1, ∃ e tv_sec tv_usec, t = now_of tv_sec tv_usec ∧
    told evs cs w0 w1 ∧
    trace w1 = trace w ++ [(call, r); (SysGettimeofday, mkRes 0 e (OutTime tv_sec tv_usec))] ∧
    loops w1 !! l = Some (loop0 <| channellist_ ::= λ x, x ++ cs |>
       <| epoller_ ::= λ e, e <| nevents_ := n |> |>)) w0) as Hwp.
  { eapply (wp_epoll l loop0 kPollTimeMs evs cs); try done.
    - cbn. by rewrite lookup_alter_eq, Hl.
    - intros w' e sec usec ???. by exists e, sec, usec. }
  apply wp_run in Hwp as (t&w1&Hrun&e&sec&usec&->&[Htold Hoth Hco Htm Hus Hcu]&Htr&Hl1).
  set (now_ := now_of sec usec) in *.
  set (w2 := w1 <| loops ::= alter (λ x, x <| epollReturnTime_ := now_ |>) l |>).
  set (loop2 := loop0 <| channellist_ ::= λ x, x ++ cs |>
       <| epoller_ ::= λ e, e <| nevents_ := n |> |> <| epollReturnTime_ := now_ |>).
  assert (loops w2 !! l = Some loop2) as Hl2 by (unfold w2; cbn; by rewrite lookup_alter_eq, Hl1).
  exists w2, (mkRes 0 e (OutTime sec usec)), now_, loop2. split_and!; try done; [|by exists sec, usec].
  unfold loop_iteration, upd_loop, get_loop. rewrite bind_modify.
  change (w <| loops ::= _ |>) with w0. rewrite (bind_Ret _ _ _ _ _ Hrun), bind_modify.
  change (w1 <| loops ::= _ |>) with w2. by rewrite (bind_Ret _ _ _ _ _ (deref_run _ _ _ _ _ Hl2)).
Qed.
End Iteration.

(** ** Concrete instances *)

(** An operating system in which descriptors 8 and 7 are ready at every wait. *)
Definition poll_kernel : Kernel Z := λ sc t,
  match sc with
  | SysEpollWait _ _ _ => (mkRes 2 0 (OutEvents [(8, EPOLLOUT); (7, EPOLLIN)]), t)
  | _ => clock_kernel sc t
  end.
#[export] Instance poll_kernel_ok : Clock Z (H := poll_kernel).
Proof. exact clock_kernel_ok. Qed.

Module ReactorDemo.
Definition loop : EventLoop :=
  (ChannelDemo.loop {[7 := 3%nat; 8 := 4%nat]}) <| threadId_ := 1 |>.
Definition w0 : World Z unit :=
  mkWorld 1000 [] 1 ∅ 0 9%nat
    {[3%nat := ConnDemo.ch false; 4%nat := (ConnDemo.ch true) <| ch_fd := 8 |>]}
    {[0%nat := loop]} ∅ ∅ ∅ ∅ ∅ ∅ tt.
End ReactorDemo.

Lemma iteration_delivers_witness :
  ∃ w1 now_, loop_iteration (H := poll_kernel) (λ _ _, mret tt) (λ _, mret tt) (λ _, mret tt) 0 ReactorDemo.w0 =
      (iterM (handleEvent (λ _ _, mret tt) now_) [4%nat; 3%nat];;
       doPendingFunctions (λ _, mret tt) (λ _, mret tt) 0) w1 ∧
    told [(8, EPOLLOUT); (7, EPOLLIN)] [4%nat; 3%nat] ReactorDemo.w0 w1.
Proof.
  destruct (iteration_delivers (H := poll_kernel) (λ _ _, mret tt) (λ _, mret tt) (λ _, mret tt) 0 ReactorDemo.loop
    [(8, EPOLLOUT); (7, EPOLLIN)] [4%nat; 3%nat] ReactorDemo.w0)
    as (w1&r0&now_&loop1&Hrun&_&_&Htold&_); [reflexivity|reflexivity| |by_computation| | |].
  - right. split; [reflexivity|split; reflexivity].
  - repeat constructor.
  - apply (bool_decide_eq_true_1 _). vm_compute. reflexivity.
  - exists w1, now_. split; [exact Hrun|exact Htold].
Defined.
