(* ===== verification/Echo.v ===== *)
(** * Echo

    [example/echo.cc], [example/EchoMain.cc] and the handlers of
    [example/pingpong_server.cc]: servers written with the library, and what
    they send back. *)
From S2P Require Import Prelude Printf Buffer Timestamp World Channel EventLoop TimerQueue Net.
From S2P Require Import TcpConnection Acceptor TcpServer Connector TcpClient Reactor.
Local Open Scope Z_scope.

Section Echo.
Context {K U : Type} `{Kernel K}.
Abbreviation W := (World K U).

(** The line logged includes the text of [peerAddress()]. *)
Definition EchoServer_onConnection (c : nat) : M W unit :=
  conn ← get_conn c;
  peer ← of_option "peerAddr_ not initialised" (peerAddr_ conn);
  mret tt.

Definition EchoServer_onMessage (c : nat) (time : Timestamp) : M W unit :=
  msg ← on_input c retrieveAsString;
  send c msg.

Definition pingpong_onConnection (c : nat) : M W unit := TcpConnection_setTcpNoDelay c true.
Definition pingpong_onMessage (c : nat) (time : Timestamp) : M W unit :=
  msg ← on_input c retrieveAsString;
  send c msg.

Definition kEcho : nat := 0.
Definition kPingpong : nat := 1.

(** The code of the two servers, as the library calls it. *)
Definition echo_code : UserCode K U := {|
  u_holds _ := [];
  u_functor _ := mret tt;
  u_channel _ _ := mret tt;
  u_connection code := if (code =? kEcho)%nat then EchoServer_onConnection else pingpong_onConnection;
  u_message code := if (code =? kEcho)%nat then EchoServer_onMessage else pingpong_onMessage;
  u_writeComplete _ _ := mret tt;
  u_newConnection _ _ _ := mret tt;
|}.

Definition EchoServer_ctor (loop : nat) (listenAddr : sockaddr_in) : M W nat :=
  s ← TcpServer_ctor loop listenAddr;
  TcpServer_setConnectionCallBack s kEcho;;
  TcpServer_setMessageCallBack s kEcho;;
  mret s.

Definition EchoServer_start (s : nat) : M W unit := TcpServer_start [] s.

(** The end of [main], when its loop has [ended]: the server and the loop are
    destroyed. False when it does not get to its end. *)
Definition finish_main (s loop : nat) (ended : bool) : M W bool :=
  gone ← (if ended then TcpServer_dtor (H0 := echo_code) s else mret false);
  whenM gone (EventLoop_dtor loop);;
  mret gone.

(** [main], with the loop cut after [fuel] iterations. *)
Definition EchoMain (fuel : nat) : M W bool :=
  loop ← EventLoop_ctor;
  s ← EchoServer_ctor loop (InetAddress_port 9981);
  EchoServer_start s;;
  ended ← reactor_loop (H0 := echo_code) fuel loop;
  finish_main s loop ended.

(** The pingpong server once its arguments have been parsed. [tids] are the
    ids of the threads it may create, [fuel] the number of iterations to run. *)
Definition pingpong_main (ip : list char) (port threadCount : Z) (tids : list Z) (fuel : nat)
    : M W bool :=
  let listenAddr := InetAddress_ip ip port in
  loop ← EventLoop_ctor;
  s ← TcpServer_ctor loop listenAddr;
  TcpServer_setConnectionCallBack s kPingpong;;
  TcpServer_setMessageCallBack s kPingpong;;
  whenM (1 <? threadCount) (setThreadNum s threadCount);;
  TcpServer_start tids s;;
  ended ← reactor_loop (H0 := echo_code) fuel loop;
  finish_main s loop ended.

(** [main]; [None] when it has printed its usage. *)
Definition PingpongMain (argv : list (list char)) (tids : list Z) (fuel : nat) : M W (option bool) :=
  if zlen argv <? 4 then mret None
  else
    ip ← of_option "argv[1]" (argv !! 1%nat);
    port ← of_option "atoi(argv[2])" (argv !! 2%nat ≫= atoi);
    threadCount ← of_option "atoi(argv[3])" (argv !! 3%nat ≫= atoi);
    ended ← pingpong_main ip (wrapu 16 port) threadCount tids fuel;
    mret (Some ended).
End Echo.

(** ** Sending leaves the input side of a connection alone *)

Section Input.
Context {K U : Type} `{Kernel K}.
Abbreviation W := (World K U).

Definition input_side (x : TcpConnection) : Buffer * option nat := (inputBuffer_ x, messageCallback_ x).
Definition same_input (c : nat) (w w' : W) : Prop :=
  input_side <$> conns w' !! c = input_side <$> conns w !! c ∧ user w' = user w.
#[export] Instance same_input_preorder c : PreOrder (same_input c).
Proof. split; [done|]. intros w1 w2 w3 [E1 F1] [E2 F2]. split; congruence. Qed.

Lemma same_input_modify c f :
  (∀ w : W, conns (f w) = conns w) → (∀ w : W, user (f w) = user w) → preserves (same_input c) (modify f).
Proof. intros Hf Hu. apply preserves_modify. intros w. unfold same_input. by rewrite Hf, Hu. Qed.

Lemma same_input_upd_conn c c' f :
  (∀ x, input_side (f x) = input_side x) → preserves (same_input c) (upd_conn c' f).
Proof.
  intros Hf. apply preserves_modify. intros w. split; [|done]. cbn.
  destruct (decide (c = c')) as [<-|].
  - rewrite lookup_alter_eq. destruct (conns w !! c); cbn; [by rewrite Hf|done].
  - by rewrite lookup_alter_ne.
Qed.

Lemma same_input_sys c sc : preserves (same_input c) (sys sc).
Proof. intros w a w'. unfold sys. destruct (syscall sc (kern w)). by intros [= <- <-]. Qed.

Lemma same_input_deref {T} c what (store : W → gmap nat T) p :
  preserves (same_input c) (deref what store p).
Proof. unfold deref. preserve. Qed.

#[local] Hint Resolve same_input_modify same_input_upd_conn same_input_sys same_input_deref : preserves.

Lemma same_input_output {A} c c' (m : M Buffer A) : preserves (same_input c) (on_output c' m).
Proof. unfold on_output, get_conn. preserve. Qed.

Lemma same_input_queueInLoop c l f : preserves (same_input c) (queueInLoop l f).
Proof.
  unfold queueInLoop, isInLoopThread, wakeup, get_loop, upd_loop. preserve.
Qed.

Lemma same_input_update c ch : preserves (same_input c) (update ch).
Proof.
  unfold update, updateChannel, updateChannelMap, epollAdd, epollMod, assertInLoopThread,
    abortNotInLoopThread, isInLoopThread, upd_epoller, setregisteredInEpoller, get_loop, get_chan,
    upd_loop, upd_chan. preserve.
Qed.

#[local] Hint Resolve same_input_output same_input_queueInLoop same_input_update : preserves.

Lemma same_input_send c c' m : preserves (same_input c) (send c' m).
Proof.
  unfold send, sendInLoop, runInLoop, assertInLoopThread, abortNotInLoopThread, isInLoopThread,
    enableWriting, upd_chan, get_conn, get_chan, get_loop. preserve.
Qed.

Lemma same_input_handleWrite c c' : preserves (same_input c) (handleWrite c').
Proof.
  unfold handleWrite, shutdownInLoop, shutdownWrite, sock_shutdownWrite, assertInLoopThread,
    abortNotInLoopThread, isInLoopThread, disableWriting, upd_chan, get_conn, get_chan, get_loop. preserve.
Qed.
End Input.

(** ** What comes in goes out *)

Section Reflect.
Context {K U : Type} `{Kernel K} `{!Writes K} `{!Reads K}.
Abbreviation W := (World K U).

Lemma stream_inv_input c conn ch loop room s (w : W) b :
  stream_inv c conn ch loop room s w →
  stream_inv c (conn <| inputBuffer_ := b |>) ch loop room s
    (w <| conns ::= alter (λ x, x <| inputBuffer_ := b |>) c |>).
Proof.
  intros [[] ? ? ? ? ?]. split; try done. split; try done.
  cbn. by rewrite lookup_alter_eq, lv_conn.
Qed.

(** What a handler does that sends back all it has: the connection's input
    buffer is emptied into the stream it sends. *)
Lemma wp_send_back (c : nat) (conn : TcpConnection) (ch : Channel) (loop : EventLoop) (room : Z)
    (s : stream) (bytes : list char) (Q : unit → W → Prop) (w : W) :
  stream_inv c conn ch loop room s w → open s = true →
  wf (inputBuffer_ conn) → content (inputBuffer_ conn) = bytes → zlen bytes ≤ room →
  (∀ w' conn', stream_ok c (room - zlen bytes) (mkStream (accepted s ++ bytes) true) w' →
     conns w' !! c = Some conn' → messageCallback_ conn' = messageCallback_ conn →
     wf (inputBuffer_ conn') → content (inputBuffer_ conn') = [] →
     buffer_ (inputBuffer_ conn') = buffer_ (inputBuffer_ conn) → user w' = user w → Q tt w') →
  wp (msg ← on_input c retrieveAsString; send c msg) Q w.
Proof.
  intros Hinv Hopen Hwf Hcont Hroom HQ. pose proof (si_live _ _ _ _ _ _ _ Hinv) as [Hc].
  unfold on_input, get_conn. wp_step. eapply wp_deref; [exact Hc|].
  pose proof (retrieveAsString_spec (inputBuffer_ conn) Hwf) as Hwp.
  apply wp_run in Hwp as (msg&b2&Hrun&->&Hwf2&Hempty2&Hsame2&_). rewrite Hrun. unfold upd_conn. wp_step.
  set (w2 := w <| conns ::= alter (λ x, x <| inputBuffer_ := b2 |>) c |>).
  pose proof (stream_inv_input c conn ch loop room s w b2 Hinv) as Hinv2. fold w2 in Hinv2.
  apply (wp_preserves (same_input c)); [apply same_input_send|].
  eapply (wp_send c room s); [by eexists _, _, _|by rewrite Hcont|].
  intros w' Hok [Hsame Hu]. unfold stream_step in Hok. rewrite Hopen, Hcont in Hok.
  unfold w2 in Hsame. cbn [conns upd] in Hsame. rewrite lookup_alter_eq, Hc in Hsame.
  apply fmap_Some in Hsame as (conn'&Hc'&E). injection E as Eb Em.
  eapply (HQ w' conn'); [exact Hok|exact Hc'|by rewrite <- Em|by rewrite <- Eb|by rewrite <- Eb|by rewrite <- Eb|exact Hu].
Qed.

(** A readable event whose read delivers bytes calls the message callback with
    those bytes in the input buffer. *)
Lemma handleRead_message `{!UserCode K U} (close : CloseCallBack → nat → M W unit) (t : Timestamp)
    (c : nat) (conn : TcpConnection) (ch : Channel) (loop : EventLoop) (room : Z) (s : stream)
    (code : nat) (w : W)
    (call := SysReadv (ch_fd ch) (writableBytes (inputBuffer_ conn)) extrabuf_size)
    (r := (syscall call (kern w)).1) :
  stream_inv c conn ch loop room s w → messageCallback_ conn = Some code →
  wf (inputBuffer_ conn) → content (inputBuffer_ conn) = [] →
  writerIndex_ (inputBuffer_ conn) + writableBytes (inputBuffer_ conn) + extrabuf_size ≤ max_size →
  0 < rv r →
  ∃ bytes b w1, out r = OutBytes bytes ∧ zlen bytes = rv r ∧
    TcpConnection_handleRead close t c w = u_message code c t w1 ∧
    w1 = received c call w b ∧ stream_inv c (conn <| inputBuffer_ := b |>) ch loop room s w1 ∧
    wf b ∧ content b = bytes ∧ grows (rv r) (rv r) (inputBuffer_ conn) b ∧ user w1 = user w.
Proof.
  intros Hinv Hcode Hwf Hempty Hmax Hr. pose proof (si_live _ _ _ _ _ _ _ Hinv) as Hlive.
  pose proof (read_input_run c conn (ch_fd ch) w (lv_conn _ _ _ _ _ Hlive) Hwf Hmax) as Hread.
  cbv zeta in Hread. fold call r in Hread. rewrite (proj2 (Z.ltb_ge (rv r) 0)) in Hread by lia.
  destruct Hread as (bytes&b&Hout&Hlen&Hwfb&Hcont&Hgrow&Hread). rewrite Hempty in Hcont. cbn in Hcont.
  set (w1 := received c call w b) in *.
  assert (stream_inv c (conn <| inputBuffer_ := b |>) ch loop room s w1 ∧ user w1 = user w) as [Hinv1 Hu].
  { unfold w1, received. destruct (syscall call (kern w)) as [r' k]. split; [|done]. apply stream_inv_input.
    destruct Hinv as [_ ? ? ? ? ?]. split; try done; cbn.
    - by apply (conn_live_sys c conn ch loop w k call r').
    - by rewrite written_snoc.
    - by rewrite fin_sent_snoc. }
  exists bytes, b, w1. split; [done|]. split; [done|]. split; [|done].
  rewrite (handleRead_unfold close t c conn ch w (lv_conn _ _ _ _ _ Hlive) (lv_chan _ _ _ _ _ Hlive)).
  rewrite (bind_Ret _ _ _ _ _ Hread), (proj2 (Z.ltb_lt 0 (rv r))) by lia. unfold get_conn.
  rewrite (bind_Ret _ _ _ _ _ (deref_run _ _ _ _ _ (lv_conn _ _ _ _ _ (si_live _ _ _ _ _ _ _ Hinv1)))).
  change (messageCallback_ (conn <| inputBuffer_ := b |>)) with (messageCallback_ conn). by rewrite Hcode.
Qed.

(** An echo server gives back exactly what it is sent: when the socket of
    a connection with an empty input buffer becomes readable, the bytes the
    kernel delivered are appended, all and in order, to the stream the
    connection sends, and the input buffer is empty again. *)
Theorem echo_sends_back (close : CloseCallBack → nat → M W unit) (t : Timestamp) (c : nat)
  (conn : TcpConnection) (ch : Channel) (loop : EventLoop) (room : Z) (s : stream)
  (code : nat) (w : W)
  (call := SysReadv (ch_fd ch) (writableBytes (inputBuffer_ conn)) extrabuf_size)
  (r := (syscall call (kern w)).1)
  (Hinv : stream_inv c conn ch loop room s w) (Hopen : open s = true)
  (Hcode : messageCallback_ conn = Some code)
  (Hwf : wf (inputBuffer_ conn)) (Hempty : content (inputBuffer_ conn) = [])
  (Hmax : writerIndex_ (inputBuffer_ conn) + writableBytes (inputBuffer_ conn) + extrabuf_size
          ≤ max_size)
  (Hr : 0 < rv r ≤ room) :
  ∃ bytes w' conn', out r = OutBytes bytes ∧
    TcpConnection_handleRead (H0 := echo_code) close t c w = Ret tt w' ∧
    stream_ok c (room - zlen bytes) (mkStream (accepted s ++ bytes) true) w' ∧
    conns w' !! c = Some conn' ∧ messageCallback_ conn' = Some code ∧
    wf (inputBuffer_ conn') ∧ content (inputBuffer_ conn') = [].
Proof.
  destruct (handleRead_message (UserCode0 := echo_code) close t c conn ch loop room s code w Hinv Hcode Hwf Hempty Hmax)
    as (bytes&b&w1&Hout&Hlen&Hrun&_&Hinv1&Hwf1&Hcont1&_); [exact (proj1 Hr)|]. fold call r in Hout, Hlen.
  assert (wp (EchoServer_onMessage c t) (λ _ w',
    stream_ok c (room - zlen bytes) (mkStream (accepted s ++ bytes) true) w' ∧
    ∃ conn', conns w' !! c = Some conn' ∧ messageCallback_ conn' = Some code ∧
      wf (inputBuffer_ conn') ∧ content (inputBuffer_ conn') = []) w1) as Hwp.
  { eapply wp_send_back; [exact Hinv1|done|done|done|lia|].
    intros w' conn' ? ? Hm ? ? _ _. split; [done|]. exists conn'. by rewrite Hm. }
  apply wp_run in Hwp as ([]&w'&Hback&Hok&conn'&Hin). exists bytes, w', conn'.
  split; [done|]. split; [|by split]. rewrite Hrun.
  unfold u_message, echo_code. destruct (code =? kEcho)%nat; exact Hback.
Qed.
End Reflect.

(** ** Concrete instances *)

(** An operating system with one client, by the number of waits so far: it
    connects, sends "ping", becomes writable, and goes away. *)
Definition one_client : Kernel nat := λ sc n,
  match sc with
  | SysEpollCreate => (res_ok 3, n)
  | SysTimerfdCreate => (res_ok 4, n)
  | SysEventfd => (res_ok 5, n)
  | SysSocket => (res_ok 6, n)
  | SysAccept4 _ => (mkRes 7 0 (OutAddr (InetAddress_port 4000)), n)
  | SysGettimeofday => (mkRes 0 0 (OutTime 1 (Z.of_nat n)), n)
  | SysEpollWait _ _ _ =>
      (match n with
       | 0%nat => mkRes 1 0 (OutEvents [(6, EPOLLIN)])
       | 1%nat => mkRes 1 0 (OutEvents [(7, EPOLLIN)])
       | 2%nat => mkRes 1 0 (OutEvents [(7, EPOLLOUT)])
       | 3%nat => mkRes 1 0 (OutEvents [(7, EPOLLIN)])
       | _ => res_ok 0
       end, S n)
  | SysReadv _ _ _ =>
      (if (n =? 2)%nat then mkRes 4 0 (OutBytes (str "ping")) else mkRes 0 0 (OutBytes []), n)
  | SysWrite _ data => (res_ok (zlen data), n)
  | SysWrite8 _ | SysRead8 _ => (res_ok 8, n)
  | _ => (res_ok 0, n)
  end.

Definition boot : World nat unit := mkWorld 0%nat [] 1 ∅ 0 0%nat ∅ ∅ ∅ ∅ ∅ ∅ ∅ ∅ tt.

(** The whole pingpong server, from its constructors through five iterations
    of the loop: it accepts, sends back what it got, files no connection in the
    end, and has destroyed the only one, which closed its descriptor. *)
Example pingpong_session :
  match PingpongMain (H := one_client) (map str ["server"; "127.0.0.1"; "9981"; "1"]) [] 5 boot with
  | Ret ended w => (ended, written 7 (trace w), map (λ '(_, x), map_to_list (connections_ x))
                     (map_to_list (servers w)), size (conns w),
                   existsb (λ ev, match ev.1 with SysClose fd => fd =? 7 | _ => false end) (trace w))
                   = (Some false, str "ping", [[]], 0%nat, true)
  | Crash _ => False
  end.
Proof. by vm_compute. Qed.

(** With two threads it does not survive its first connection. *)
Example pingpong_threads_session :
  PingpongMain (H := one_client) (map str ["server"; "127.0.0.1"; "9981"; "2"]) [2; 3] 5 boot =
  Crash (LogFatal "EventLoop::abortNotInLoopThread").
Proof. by vm_compute. Qed.

(** The echo server of [echo.cc] reads the address of its first client, which
    [TcpConnection] never initialises. *)
Example echo_session :
  EchoMain (H := one_client) 5 boot = Crash (Undefined "peerAddr_ not initialised").
Proof. by vm_compute. Qed.

Lemma echo_sends_back_witness :
  ∃ w', TcpConnection_handleRead (H0 := echo_code) (λ _ _, mret tt) 0 5
      (ConnDemo.w0 ([] : list Z) "abc" true) = Ret tt w' ∧
    stream_ok 5 996 (mkStream (str "abcpong") true) w'.
Proof.
  destruct (echo_sends_back (λ _ _, mret tt) 0 5 (ConnDemo.conn "abc" Buffer_ctor) (ConnDemo.ch true)
    ConnDemo.loop 1000 (mkStream (str "abc") true) 1 (ConnDemo.w0 ([] : list Z) "abc" true))
    as (bytes&w'&conn'&Hout&Hrun&Hok&_); [exact (ConnDemo.inv_pending [])|reflexivity|reflexivity
    |by_computation|reflexivity|by_computation|by_computation|].
  injection Hout as <-. exists w'. split; [exact Hrun|exact Hok].
Defined.
