(* ===== verification/PingpongClient.v ===== *)
(** * PingpongClient

    [example/pingpong_client.cc]: sessions that send back whatever they
    receive and count it, the client that owns them, its report, and the whole
    program run against a concrete operating system. Of the log lines, those
    of level [WARN] are modelled (the program sets that level). *)
From S2P Require Import Prelude Printf Buffer Timestamp Atomic World Channel EventLoop TimerQueue Net.
From S2P Require Import TcpConnection Acceptor TcpServer Connector TcpClient Reactor Echo.
Local Open Scope Z_scope.

(** ** State of the program *)

Record Session := mkSession {
  ss_client : nat;
  bytesRead_ : Z;
  bytesWritten_ : Z;
  messagesRead_ : Z;
}.
#[export] Instance eta_Session : Eta Session := λ s,
  mkSession (ss_client s) (bytesRead_ s) (bytesWritten_ s) (messagesRead_ s).

Record Client := mkPingpong {
  p_loop : nat;
  p_threadPool : EventLoopThreadPool;
  sessionCount_ : Z;
  timeout_ : Z;
  sessions_ : list nat;
  message_ : list char;
  numConnected_ : Z;
}.
#[export] Instance eta_Client : Eta Client := λ c,
  mkPingpong (p_loop c) (p_threadPool c) (sessionCount_ c) (timeout_ c) (sessions_ c) (message_ c)
    (numConnected_ c).

(** What the text of a log line is made of. *)
Inductive warning := WText (s : string) | WInt (n : Z) (s : string) | WDouble (d : double) (s : string).

(** All sessions have the same owner. *)
Record PState := mkPState { sess : gmap nat Session; owner_ : option Client; warnings : list warning }.
#[export] Instance eta_PState : Eta PState := λ u, mkPState (sess u) (owner_ u) (warnings u).

Section PingpongClient.
Context {K : Type} `{Kernel K}.
Abbreviation W := (World K PState).

Definition get_session (s : nat) : M W Session := deref "Session" (λ w, sess (user w)) s.
Definition upd_session (s : nat) (f : Session → Session) : M W unit :=
  modify (λ w, w <| user ::= λ u, u <| sess ::= alter f s |> |>).
Definition get_owner : M W Client := w ← get; of_option "Client" (owner_ (user w)).
Definition upd_owner (f : Client → Client) : M W unit :=
  modify (λ w, w <| user ::= λ u, u <| owner_ ::= fmap f |> |>).
Definition log_warn (x : warning) : M W unit :=
  modify (λ w, w <| user ::= λ u, u <| warnings ::= λ l, l ++ [x] |> |>).

(** A call on [numConnected_], an [AtomicInt32]. *)
Definition on_numConnected {A} (m : M Z A) : M W A :=
  client ← get_owner;
  match m (numConnected_ client) with
  | Ret a v => upd_owner (λ c, c <| numConnected_ := v |>);; mret a
  | Crash r => fails r
  end.

(** ** Client *)

Definition onConnect : M W unit :=
  n ← on_numConnected (AtomicIntegerT.incrementAndGet 32);
  client ← get_owner;
  whenM (n =? sessionCount_ client) (log_warn (WText "all connected")).

(** The sums over the sessions, in [int64_t]. *)
Fixpoint totals (ss : list nat) (totalBytesRead totalMessagesRead : Z) : M W (Z * Z) :=
  match ss with
  | [] => mret (totalBytesRead, totalMessagesRead)
  | s :: ss' =>
      session ← get_session s;
      b ← of_option "signed overflow" (int64_checked (totalBytesRead + bytesRead_ session));
      m ← of_option "signed overflow" (int64_checked (totalMessagesRead + messagesRead_ session));
      totals ss' b m
  end.

Definition int32_checked (z : Z) : option Z :=
  if (- 2 ^ 31 <=? z) && (z <? 2 ^ 31) then Some z else None.

Definition onDisconnect : M W unit :=
  on_numConnected (AtomicIntegerT.decrement 32);;
  n ← on_numConnected AtomicIntegerT.get;
  whenM (n =? 0) (
    log_warn (WText "all disconnected");;
    client ← get_owner;
    t ← totals (sessions_ client) 0 0;
    let '(totalBytesRead, totalMessagesRead) := t in
    log_warn (WInt totalBytesRead " total bytes read");;
    log_warn (WInt totalMessagesRead " total messages read");;
    log_warn (WDouble (ddiv (double_of_Z totalBytesRead) (double_of_Z totalMessagesRead)) " average message size");;
    kib ← of_option "signed overflow" (int32_checked (timeout_ client * 1024));
    mib ← of_option "signed overflow" (int32_checked (kib * 1024));
    log_warn (WDouble (ddiv (double_of_Z totalBytesRead) (double_of_Z mib)) " MiB/s throughput");;
    quit (p_loop client)).

(** ** Session *)

Definition Session_ctor (loop : nat) (serverAddr : sockaddr_in) (name : list char) : M W nat :=
  s ← alloc;
  cl ← TcpClient_ctor loop serverAddr;
  modify (λ w, w <| user ::= λ u, u <| sess ::= <[s := mkSession cl 0 0 0]> |> |>);;
  TcpClient_setConnectionCallback cl s;;
  TcpClient_setMessageCallback cl s;;
  mret s.

Definition Session_start (s : nat) : M W unit :=
  session ← get_session s; TcpClient_connect (ss_client session).
Definition Session_stop (s : nat) : M W unit :=
  session ← get_session s; TcpClient_disconnect (ss_client session).

Definition Session_onConnection (s c : nat) : M W unit :=
  conn ← get_conn c;
  if connected conn then
    TcpConnection_setTcpNoDelay c true;;
    owner ← get_owner;
    send c (message_ owner);;
    onConnect
  else onDisconnect.

(** [int64_t += size_t] is computed in [uint64_t] and converted back. *)
Definition Session_onMessage (s c : nat) (time : Timestamp) : M W unit :=
  session ← get_session s;
  m ← of_option "signed overflow" (int64_checked (messagesRead_ session + 1));
  upd_session s (λ x, x <| messagesRead_ := m |>);;
  conn ← get_conn c;
  let readable := readableBytes (inputBuffer_ conn) in
  upd_session s (λ x, x <| bytesRead_ := wraps 64 (bytesRead_ x + readable) |>);;
  upd_session s (λ x, x <| bytesWritten_ := wraps 64 (bytesWritten_ x + readable) |>);;
  msg ← on_input c retrieveAsString;
  send c msg.

(** ** Client, continued *)

Definition handleTimeout : M W unit :=
  log_warn (WText "stop");;
  client ← get_owner;
  iterM Session_stop (sessions_ client).

(** The callbacks of session [s] have the code [s]; the only call the program
    puts in a timer is [handleTimeout]. *)
#[local] Instance pingpong_code : UserCode K PState := {|
  u_holds _ := [];
  u_functor _ := handleTimeout;
  u_channel _ _ := mret tt;
  u_connection s c := Session_onConnection s c;
  u_message s c time := Session_onMessage s c time;
  u_writeComplete _ _ := mret tt;
  u_newConnection _ _ _ := mret tt;
|}.
Definition kHandleTimeout : nat := 0.

(** The bytes of the message: [static_cast<char>(i % 128)]. *)
Definition block (blockSize : Z) : list char :=
  map (λ i, ascii_of_nat (i mod 128)) (seq 0 (Z.to_nat blockSize)).
Definition session_name (i : nat) : list char :=
  (snprintf 32 ("C"%char :: fmt_0wd 5 (Z.of_nat i))).1.

Definition new_session (serverAddr : sockaddr_in) (i : nat) : M W unit :=
  client ← get_owner;
  r ← getNextLoop (p_threadPool client);
  upd_owner (λ c, c <| p_threadPool := r.2 |>);;
  session ← Session_ctor r.1 serverAddr (session_name i);
  Session_start session;;
  upd_owner (λ c, c <| sessions_ ::= λ l, l ++ [session] |>).

(** [tids] are the kernel ids of the threads it may create. *)
Definition Client_ctor (loop : nat) (serverAddr : sockaddr_in)
    (blockSize sessionCount timeout threadCount : Z) (tids : list Z) : M W unit :=
  modify (λ w, w <| user ::= λ u, u <| owner_ :=
    Some (mkPingpong loop (EventLoopThreadPool_ctor loop) sessionCount timeout [] [] 0) |> |>);;
  timerId ← runAfter loop (double_of_Z timeout) (FUser kHandleTimeout);
  whenM (1 <? threadCount)
    (upd_owner (λ c, c <| p_threadPool ::= Pool_setThreadNum threadCount |>));;
  client ← get_owner;
  pool ← Pool_start tids (p_threadPool client);
  upd_owner (λ c, c <| p_threadPool := pool |>);;
  upd_owner (λ c, c <| message_ := block blockSize |>);;
  iterM (new_session serverAddr) (seq 0 (Z.to_nat sessionCount)).

(** The members that have a destructor with an effect: the sessions, first to
    last, each with its [TcpClient]. A pool without threads has none. *)
Definition Session_dtor (s : nat) : M W unit :=
  session ← get_session s;
  TcpClient_dtor (ss_client session);;
  modify (λ w, w <| user ::= λ u, u <| sess ::= delete s |> |>).
Definition Client_dtor : M W unit :=
  client ← get_owner;
  iterM Session_dtor (sessions_ client);;
  modify (λ w, w <| user ::= λ u, u <| owner_ := None |> |>).

(** [main] after its arguments have been parsed, with the loop cut after
    [fuel] iterations; the result tells whether the loop ended, in which case
    the objects have been destroyed. *)
Definition pingpong_client_main (ip : list char) (port threadCount blockSize sessionCount timeout : Z)
    (tids : list Z) (fuel : nat) : M W bool :=
  loop ← EventLoop_ctor;
  let serverAddr := InetAddress_ip ip port in
  Client_ctor loop serverAddr blockSize sessionCount timeout threadCount tids;;
  ended ← reactor_loop fuel loop;
  whenM ended (Client_dtor;; EventLoop_dtor loop);;
  mret ended.

(** [main]; [None] when it has printed its usage. *)
Definition PingpongClientMain (argv : list (list char)) (tids : list Z) (fuel : nat) : M W (option bool) :=
  if negb (zlen argv =? 7) then mret None
  else
    ip ← of_option "argv[1]" (argv !! 1%nat);
    port ← of_option "atoi(argv[2])" (argv !! 2%nat ≫= atoi);
    threadCount ← of_option "atoi(argv[3])" (argv !! 3%nat ≫= atoi);
    blockSize ← of_option "atoi(argv[4])" (argv !! 4%nat ≫= atoi);
    sessionCount ← of_option "atoi(argv[5])" (argv !! 5%nat ≫= atoi);
    timeout ← of_option "atoi(argv[6])" (argv !! 6%nat ≫= atoi);
    ended ← pingpong_client_main ip (wrapu 16 port) threadCount blockSize sessionCount timeout tids fuel;
    mret (Some ended).
End PingpongClient.

(** ** A session reflects what it receives, and counts it *)

Section Reflects.
Context {K : Type} `{Kernel K} `{!Writes K} `{!Reads K}.
Abbreviation W := (World K PState).

Lemma wp_get_session s x (Q : Session → W → Prop) w :
  sess (user w) !! s = Some x → Q x w → wp (get_session s) Q w.
Proof. intros Hs HQ. unfold get_session. by eapply wp_deref. Qed.

(** A session after one more message, of [n] bytes. *)
Definition counted (x : Session) (n : Z) : Session :=
  mkSession (ss_client x) (bytesRead_ x + n) (bytesWritten_ x + n) (messagesRead_ x + 1).

Lemma counted_alter x n s (m : gmap nat Session) :
  m !! s = Some x → 0 ≤ n → 0 ≤ bytesRead_ x → bytesRead_ x + n < 2 ^ 63 →
  0 ≤ bytesWritten_ x → bytesWritten_ x + n < 2 ^ 63 →
  alter (λ y, y <| bytesWritten_ := wraps 64 (bytesWritten_ y + n) |>) s
    (alter (λ y, y <| bytesRead_ := wraps 64 (bytesRead_ y + n) |>) s
      (alter (λ y, y <| messagesRead_ := messagesRead_ x + 1 |>) s m)) = <[s := counted x n]> m.
Proof.
  intros Hs ?????. rewrite (alter_as_insert _ _ _ _ Hs), !alter_insert_eq. cbn.
  by rewrite !wraps_small by lia.
Qed.

(** Changing the counters leaves the stream alone. *)
Lemma stream_inv_user c conn ch loop room st (w : W) f :
  stream_inv c conn ch loop room st w →
  stream_inv c conn ch loop room st (w <| user ::= f |>).
Proof. intros [[] ? ? ? ? ?]. by split. Qed.

(** C27: when the socket of a session's connection becomes readable, exactly
    the bytes that the kernel delivers are appended, in order, to the stream
    the connection sends; the session counts one message more and these bytes,
    as read and as written, and nothing else of the program's state changes. *)
Theorem session_reflects (close : CloseCallBack → nat → M W unit) (t : Timestamp) (c s : nat)
  (conn : TcpConnection) (ch : Channel) (loop : EventLoop) (room : Z) (st : stream)
  (x : Session) (w : W)
  (call := SysReadv (ch_fd ch) (writableBytes (inputBuffer_ conn)) extrabuf_size)
  (r := (syscall call (kern w)).1)
  (Hinv : stream_inv c conn ch loop room st w) (Hopen : open st = true)
  (Hcode : messageCallback_ conn = Some s) (Hs : sess (user w) !! s = Some x)
  (Hwf : wf (inputBuffer_ conn)) (Hempty : content (inputBuffer_ conn) = [])
  (Hmax : writerIndex_ (inputBuffer_ conn) + writableBytes (inputBuffer_ conn) + extrabuf_size
          ≤ max_size)
  (Hr : 0 < rv r ≤ room)
  (Hm : 0 ≤ messagesRead_ x < 2 ^ 63 - 1)
  (Hb : 0 ≤ bytesRead_ x ∧ bytesRead_ x + rv r < 2 ^ 63)
  (Hw : 0 ≤ bytesWritten_ x ∧ bytesWritten_ x + rv r < 2 ^ 63) :
  ∃ bytes w', out r = OutBytes bytes ∧
    TcpConnection_handleRead (H0 := pingpong_code) close t c w = Ret tt w' ∧
    stream_ok c (room - zlen bytes) (mkStream (accepted st ++ bytes) true) w' ∧
    user w' = (user w) <| sess ::= <[s := counted x (zlen bytes)]> |>.
Proof.
  destruct (handleRead_message (UserCode0 := pingpong_code) close t c conn ch loop room st s w Hinv
    Hcode Hwf Hempty Hmax) as (bytes&b&w1&Hout&Hlen&Hrun&_&Hinv1&Hwf1&Hcont1&_&Hu1);
    [exact (proj1 Hr)|]. fold call r in Hout, Hlen.
  assert (wp (Session_onMessage s c t) (λ _ w',
    stream_ok c (room - zlen bytes) (mkStream (accepted st ++ bytes) true) w' ∧
    user w' = (user w) <| sess ::= <[s := counted x (zlen bytes)]> |>) w1) as Hwp.
  { unfold Session_onMessage, get_conn, upd_session. wp_step.
    eapply wp_get_session; [by rewrite Hu1|]. wp_step.
    eapply wp_of_option; [apply int64_checked_Some; lia|]. wp_step.
    eapply wp_deref; [exact (lv_conn _ _ _ _ _ (si_live _ _ _ _ _ _ _ Hinv1))|]. wp_step.
    rewrite <- (wp_bind (on_input c retrieveAsString) (send c)).
    eapply wp_send_back; [by do 3 apply stream_inv_user|done|done|done|lia|].
    intros w' _ Hok _ _ _ _ _ Hu. split; [exact Hok|]. rewrite Hu. cbn. rewrite Hu1.
    rewrite <- (zlen_content _ Hwf1), Hcont1. unfold upd. cbn. f_equal. apply counted_alter; [done|lia..]. }
  apply wp_run in Hwp as ([]&w'&Hback&Hok&Hu). exists bytes, w'. split; [done|]. rewrite Hrun. by split.
Qed.
End Reflects.

(** ** The whole program *)

(** An operating system with an echoing server, by the number of waits so far:
    the connection comes up, takes the first message, returns it, takes it
    back; then it is time to stop, and the server closes. *)
Definition echoing_server (stop : Z) : Kernel nat := λ sc n,
  match sc with
  | SysEventfd => (res_ok 5, n)
  | SysEpollCreate => (res_ok 3, n)
  | SysTimerfdCreate => (res_ok 4, n)
  | SysSocket => (res_ok 6, n)
  | SysConnect _ _ => (mkRes (-1) EINPROGRESS NoOut, n)
  | SysGetSocketError _ => (mkRes 0 0 (OutInt 0), n)
  | SysGetsockname _ => (mkRes 0 0 (OutAddr (InetAddress_port 4000)), n)
  | SysGetpeername _ => (mkRes 0 0 (OutAddr (InetAddress_ip (str "127.0.0.1") 9981)), n)
  | SysGettimeofday => (mkRes 0 0 (OutTime (if (4 <? n)%nat then stop else 1) (Z.of_nat n)), n)
  | SysEpollWait _ _ _ =>
      (mkRes 1 0 (OutEvents [nth n
         [(6, EPOLLOUT); (6, EPOLLOUT); (6, EPOLLIN); (6, EPOLLOUT); (4, EPOLLIN); (6, EPOLLIN)]
         (5, 0)]), S n)
  | SysReadv _ _ _ =>
      (if (n =? 3)%nat then mkRes 4 0 (OutBytes (block 4)) else mkRes 0 0 (OutBytes []), n)
  | SysWrite _ data => (res_ok (zlen data), n)
  | SysWrite8 _ | SysRead8 _ => (res_ok 8, n)
  | _ => (res_ok 0, n)
  end.

Definition start : World nat PState :=
  mkWorld 0%nat [] 1 ∅ 0 0%nat ∅ ∅ ∅ ∅ ∅ ∅ ∅ ∅ (mkPState ∅ None []).

Definition client_args (timeout : string) : list (list char) :=
  map str ["client"; "127.0.0.1"; "9981"; "1"; "4"; "1"; timeout].

(** One session with blocks of 4 bytes: the program sends the block, gets it
    back and sends it again; its timer stops the session; when the connection
    is down it reports and ends, and no timer and no loop is left. *)
Example pingpong_client_session :
  match PingpongClientMain (H := echoing_server 11) (client_args "10") [] 10 start with
  | Ret ended w => (ended, written 6 (trace w), warnings (user w), size (timers w), size (loops w))
      = (Some true, block 4 ++ block 4,
         [WText "all connected"; WText "stop"; WText "all disconnected";
          WInt 4 " total bytes read"; WInt 1 " total messages read";
          WDouble (ddiv (double_of_Z 4) (double_of_Z 1)) " average message size";
          WDouble (ddiv (double_of_Z 4) (double_of_Z (10 * 1024 * 1024))) " MiB/s throughput"],
         0%nat, 0%nat)
  | Crash r => False
  end.
Proof. by vm_compute. Qed.

(** With a time of 2048 seconds or more the bytes per second of the report are
    computed from [timeout_ * 1024 * 1024], which overflows. *)
Example pingpong_client_overflow :
  PingpongClientMain (H := echoing_server 3000) (client_args "2048") [] 10 start =
  Crash (Undefined "signed overflow").
Proof. by vm_compute. Qed.

Module PingpongDemo.
Definition session0 : Session := mkSession 0 10 10 2.
Definition user0 : PState := mkPState {[1%nat := session0]} None [].
End PingpongDemo.

Lemma session_reflects_witness :
  ∃ w', TcpConnection_handleRead (H0 := pingpong_code) (λ _ _, mret tt) 0 5
      (ConnDemo.w_user PingpongDemo.user0 ([] : list Z) (CloseDetail 0) ∅ "abc" true) = Ret tt w' ∧
    stream_ok 5 996 (mkStream (str "abcpong") true) w' ∧
    sess (user w') !! 1%nat = Some (mkSession 0 14 14 3).
Proof.
  destruct (session_reflects (λ _ _, mret tt) 0 5 1 (ConnDemo.conn "abc" Buffer_ctor) (ConnDemo.ch true)
    ConnDemo.loop 1000 (mkStream (str "abc") true) PingpongDemo.session0
    (ConnDemo.w_user PingpongDemo.user0 ([] : list Z) (CloseDetail 0) ∅ "abc" true))
    as (bytes&w'&Hout&Hrun&Hok&Hu);
    [exact (ConnDemo.inv_pending_user PingpongDemo.user0 [])|reflexivity|reflexivity|reflexivity
    |by_computation|reflexivity|by_computation|by_computation|by_computation|by_computation|by_computation|].
  injection Hout as <-. exists w'. split_and!; [exact Hrun|exact Hok|by rewrite Hu].
Defined.
