(* ===== verification/PingpongBench.v ===== *)
(** * PingpongBench

    [example/pingpong_bench.cc]: a benchmark that passes bytes around a ring of
    socket pairs. Its [main] never gets that far, so the rest is modelled and
    studied for itself: what its callback counts, and what it sends first. *)
From S2P Require Import Prelude Printf Buffer Timestamp World Channel EventLoop TimerQueue Net.
From S2P Require Import TcpConnection Acceptor TcpServer Connector TcpClient Reactor.
Local Open Scope Z_scope.

(** ** State of the program *)

(** The global variables, the arguments bound in the callbacks made so far,
    and the numbers printed. *)
Record Bench := mkBench {
  g_pipes : list Z;
  numPipes : Z;
  numActive : Z;
  numWrites : Z;
  g_loop : option nat;
  g_channels : list nat;
  g_reads : Z;
  g_writes : Z;
  g_fired : Z;
  bound : list (Z * Z);          (* fd, idx *)
  printed : list (Z * Z);
}.
#[export] Instance eta_Bench : Eta Bench := λ u,
  mkBench (g_pipes u) (numPipes u) (numActive u) (numWrites u) (g_loop u) (g_channels u) (g_reads u)
    (g_writes u) (g_fired u) (bound u) (printed u).

(** The program is started with its globals zero. *)
Definition Bench_static : Bench := mkBench [] 0 0 0 None [] 0 0 0 [] [].

Definition int_checked (z : Z) : option Z :=
  if (- 2 ^ 31 <=? z) && (z <? 2 ^ 31) then Some z else None.
(** [v[i]] of a vector. *)
Definition at_ {A} (v : list A) (i : Z) : option A := if i <? 0 then None else v !! Z.to_nat i.

Section PingpongBench.
Context {K : Type} `{Kernel K}.
Abbreviation W := (World K Bench).

Definition bench : M W Bench := w ← get; mret (user w).
Definition upd_bench (f : Bench → Bench) : M W unit := modify (λ w, w <| user ::= f |>).
Definition int (z : Z) : M W Z := of_option "signed overflow" (int_checked z).
Definition pipe (i : Z) : M W Z := u ← bench; of_option "g_pipes[i]" (at_ (g_pipes u) i).
Definition channel (i : Z) : M W nat := u ← bench; of_option "g_channels[i]" (at_ (g_channels u) i).
Definition send_m (fd : Z) : M W unit := r ← sys (SysSend fd ["m"%char]); mret tt.

(** The parts of [readCallback]: the next pipe of the ring is sent a byte while
    there are writes left, and the loop is left when the counters agree. *)
Definition forward (idx : Z) : M W unit :=
  u ← bench;
  widx ← int (idx + 1);
  let widx := if numPipes u <=? widx then widx - numPipes u else widx in
  i ← int (2 * widx + 1);
  fd ← pipe i;
  send_m fd;;
  fired ← int (g_fired u - 1);
  upd_bench (λ u, u <| g_writes ::= λ n, n - 1 |> <| g_fired := fired |>).
Definition leave_if_done : M W unit :=
  u ← bench;
  whenM (g_fired u =? g_reads u) (l ← of_option "g_loop" (g_loop u); quit l).

Definition readCallback (fd idx : Z) : M W unit :=
  u ← bench;
  r ← sys (SysRecv fd 1);
  reads ← int (g_reads u + rv r);
  upd_bench (λ u, u <| g_reads := reads |>);;
  whenM (0 <? g_writes u) (forward idx);;
  leave_if_done.

(** Callback number [code] is the [code]-th that was bound. *)
#[export] Instance bench_code : UserCode K Bench := {|
  u_holds _ := [];
  u_functor _ := mret tt;
  u_channel code _ :=
    u ← bench;
    b ← of_option "callback" (bound u !! code);
    readCallback b.1 b.2;
  u_connection _ _ := mret tt;
  u_message _ _ _ := mret tt;
  u_writeComplete _ _ := mret tt;
  u_newConnection _ _ _ := mret tt;
|}.

(** The numbers [0 .. n - 1]. *)
Definition upto (n : Z) : list Z := map Z.of_nat (seq 0 (Z.to_nat n)).

Definition watch_pipe (i : Z) : M W unit :=
  c ← channel i;
  ch ← get_chan c;
  u ← bench;
  upd_bench (λ u, u <| bound ::= λ l, l ++ [(ch_fd ch, i)] |>);;
  setreadCallback c (CbUser (length (bound u)));;
  enableReading c.

(** The bytes that start the ring. *)
Definition seed (space i : Z) : M W unit :=
  n ← int (i * space);
  j ← int (n + 1);
  fd ← pipe j;
  send_m fd.

(** The two times in microseconds; [None] when the loop has run for [fuel]
    iterations without ending. *)
Definition readOnce (fuel : nat) : M W (option (Z * Z)) :=
  beforeInit ← now;
  u ← bench;
  iterM watch_pipe (upto (numPipes u));;
  space ← of_option "division by zero" (if numActive u =? 0 then None else Some (Z.quot (numPipes u) (numActive u)));
  space ← int space;
  space ← int (space * 2);
  iterM (seed space) (upto (numPipes u));;
  upd_bench (λ u, u <| g_fired := numActive u |> <| g_reads := 0 |> <| g_writes := numWrites u |>);;
  beforeLoop ← now;
  l ← of_option "g_loop" (g_loop u);
  ended ← reactor_loop fuel l;
  if (ended : bool) then
    last ← now;
    mret (Some (wraps 32 (last - beforeInit), wraps 32 (last - beforeLoop)))
  else mret None.

(** *** [main] *)

Definition opt_n : Z := 110.
Definition opt_a : Z := 97.
Definition opt_w : Z := 119.

Definition set_numPipes (optarg : list char) : M W unit :=
  n ← of_option "atoi" (atoi optarg); upd_bench (λ u, u <| numPipes := n |>).
Definition set_numActive (optarg : list char) : M W unit :=
  n ← of_option "atoi" (atoi optarg); upd_bench (λ u, u <| numActive := n |>).
Definition set_numWrites (optarg : list char) : M W unit :=
  n ← of_option "atoi" (atoi optarg); upd_bench (λ u, u <| numWrites := n |>).

(** [opts] are what [getopt] returns, each with [optarg], before -1. The cases
    fall through; the result is the exit status, if [main] returns there. *)
Fixpoint options (opts : list (Z * list char)) : M W (option Z) :=
  match opts with
  | [] => mret (Some 1)
  | (c, optarg) :: opts' =>
      if c =? 1 then mret None
      else if c =? opt_n then set_numPipes optarg;; options opts'
      else if c =? opt_a then set_numActive optarg;; set_numWrites optarg;; mret (Some 1)
      else if c =? opt_w then set_numWrites optarg;; mret (Some 1)
      else mret (Some 1)
  end.

(** [socketpair] for each pipe; [false] when one failed. *)
Fixpoint make_pipes (is_ : list Z) : M W bool :=
  match is_ with
  | [] => mret true
  | i :: is' =>
      fd0 ← pipe (i * 2);
      r ← sys SysSocketpair;
      if rv r =? -1 then mret false
      else
        match out r with
        | OutPair fd0 fd1 =>
            upd_bench (λ u, u <| g_pipes ::= λ p, <[Z.to_nat (i * 2 + 1) := fd1]> (<[Z.to_nat (i * 2) := fd0]> p) |>)
        | _ => fails (Undefined "sv not initialised")
        end;;
        make_pipes is'
  end.

Definition new_channel (l : nat) (i : Z) : M W unit :=
  fd ← pipe (i * 2);
  c ← Channel_ctor l fd true;
  upd_bench (λ u, u <| g_channels ::= λ cs, cs ++ [c] |>).

Fixpoint runs_ (n : nat) (fuel : nat) : M W bool :=
  match n with
  | O => mret true
  | S n' =>
      r ← readOnce fuel;
      match r with
      | Some t => upd_bench (λ u, u <| printed ::= λ p, p ++ [t] |>);; runs_ n' fuel
      | None => mret false
      end
  end.

Definition delete_channel (i : Z) : M W unit := c ← channel i; Channel_dtor c.

(** The exit status; [None] when a loop was cut. *)
Definition bench_main (opts : list (Z * list char)) (fuel : nat) : M W (option Z) :=
  upd_bench (λ u, u <| numPipes := 100 |> <| numActive := 1 |> <| numWrites := 100 |>);;
  status ← options opts;
  match status with
  | Some status => mret (Some status)
  | None =>
      u ← bench;
      n ← int (numPipes u * 2);
      rlim ← int (n + 50);
      r ← sys (SysSetrlimit (wrapu 64 rlim));
      (if n <? 0 then fails (Thrown "std::length_error")
       else upd_bench (λ u, u <| g_pipes := replicate (Z.to_nat n) 0 |>));;
      made ← make_pipes (upto (numPipes u));
      if negb made then mret (Some 1)
      else
        l ← EventLoop_ctor;
        upd_bench (λ u, u <| g_loop := Some l |>);;
        iterM (new_channel l) (upto (numPipes u));;
        ended ← runs_ 25 fuel;
        if negb ended then mret None
        else
          iterM delete_channel (upto (numPipes u));;
          EventLoop_dtor l;;
          mret (Some 0)
  end.
End PingpongBench.

(** ** What it does *)

Section Facts.
Context {K : Type} `{Kernel K}.
Abbreviation W := (World K Bench).
Implicit Types (w : W).

(** [getopt] returns the letters of the options, '?' or -1, never 1: the loop
    over the options ends by returning from [main]. *)
Definition getopt_result (o : Z * list char) : Prop :=
  o.1 ≠ 1 ∧ (o.1 ∈ [opt_n; opt_a; opt_w] → is_Some (atoi o.2)).

Lemma wp_set_option (f : list char → M W unit) (upd : Z → Bench → Bench) s (Q : unit → W → Prop) w :
  f s = (n ← of_option "atoi" (atoi s); upd_bench (upd n)) → is_Some (atoi s) →
  (∀ u, Q tt (w <| user := u |>)) → wp (f s) Q w.
Proof. intros -> [n ->] HQ. unfold upd_bench. wp_step. apply HQ. Qed.

Lemma wp_options opts w :
  Forall getopt_result opts → wp (options opts) (λ s w', s = Some 1 ∧ ∃ u, w' = w <| user := u |>) w.
Proof.
  intros Hopts. induction Hopts as [|[c s] opts [Hc Hs] _ IH] in w |- *; cbn [options].
  { wp_step. split; [done|]. exists (user w). by destruct w. }
  cbn in Hc, Hs. rewrite !elem_of_cons in Hs. rewrite (proj2 (Z.eqb_neq _ _) Hc).
  destruct (Z.eqb_spec c opt_n) as [Hn|_]; [|destruct (Z.eqb_spec c opt_a) as [Ha|_]; [|destruct (Z.eqb_spec c opt_w) as [Hw|_]]].
  - wp_step. eapply (wp_set_option set_numPipes); [done|by apply Hs; left|]. intros u.
    eapply wp_mono; [apply IH|]. intros s' w' [-> [u' ->]]. split; [done|]. by exists u'.
  - wp_step. assert (is_Some (atoi s)) by tauto. eapply (wp_set_option set_numActive); [done..|]. intros u.
    wp_step. eapply (wp_set_option set_numWrites); [done..|]. intros u'. wp_step. split; [done|]. by exists u'.
  - wp_step. assert (is_Some (atoi s)) by tauto. eapply (wp_set_option set_numWrites); [done..|]. intros u.
    wp_step. split; [done|]. by exists u.
  - wp_step. split; [done|]. exists (user w). by destruct w.
Qed.

(** The benchmark never runs: whatever its options, [main] returns 1 and has
    made no system call and no object. *)
Theorem bench_never_runs opts fuel w :
  Forall getopt_result opts → ∃ u, bench_main opts fuel w = Ret (Some 1) (w <| user := u |>).
Proof.
  intros Hopts.
  assert (wp (bench_main opts fuel) (λ s w', s = Some 1 ∧ ∃ u, w' = w <| user := u |>) w) as Hwp.
  { unfold bench_main, upd_bench. wp_step. eapply wp_mono; [by apply wp_options|].
    intros s w' [-> [u ->]]. wp_step. split; [done|]. by exists u. }
  apply wp_run in Hwp as (s&w'&E&->&u&->). by exists u.
Qed.

(** *** What the callback counts *)

(** A receive on a pipe that is readable gives one byte. *)
Class Delivers : Prop :=
  recv_one : ∀ fd k r k', syscall (SysRecv fd 1) k = (r, k') → rv r = 1.

Lemma int_ok z (Q : Z → W → Prop) w : - 2 ^ 31 ≤ z < 2 ^ 31 → Q z w → wp (int z) Q w.
Proof.
  intros Hz HQ. unfold int. eapply wp_of_option; [|exact HQ].
  unfold int_checked. by rewrite (proj2 (Z.leb_le _ _)), (proj2 (Z.ltb_lt _ _)) by lia.
Qed.

Section Counts.
Context `{!Delivers}.
Context (l : nat) (pipes : Z).
Context (Hpipes : 0 < pipes < 2 ^ 30).

(** A ring of [pipes] pairs, with its counters, and the loop [l] of the
    calling thread, asked to quit or not. *)
Record ring (reads left fired : Z) (q : bool) (w : W) : Prop := {
  rg_pipes : numPipes (user w) = pipes;
  rg_fds : zlen (g_pipes (user w)) = 2 * pipes;
  rg_loop : g_loop (user w) = Some l;
  rg_reads : g_reads (user w) = reads;
  rg_left : g_writes (user w) = left;
  rg_fired : g_fired (user w) = fired;
  rg_quit : ∃ loop, loops w !! l = Some loop ∧ threadId_ loop = cur w ∧ quit_ loop = q;
}.

Lemma wp_pipe i reads left fired q (Q : Z → W → Prop) w :
  ring reads left fired q w → 0 ≤ i < 2 * pipes → (∀ fd, Q fd w) → wp (pipe i) Q w.
Proof.
  intros [] Hi HQ. unfold pipe, bench. wp_step. destruct (at_ (g_pipes (user w)) i) as [fd|] eqn:E.
  - eapply wp_of_option; [done|apply HQ].
  - unfold at_ in E. rewrite (proj2 (Z.ltb_ge _ _)) in E by lia. apply lookup_ge_None in E. unfold zlen in *. lia.
Qed.

Lemma wp_forward idx reads left fired q w :
  ring reads left fired q w → 0 ≤ idx < pipes → - 2 ^ 30 ≤ fired < 2 ^ 31 →
  wp (forward idx) (λ _, ring reads (left - 1) (fired - 1) q) w.
Proof.
  intros Hr Hidx Hf. pose proof Hr as []. unfold forward, send_m, upd_bench, bench. wp_step.
  apply int_ok; [lia|]. wp_step. rewrite rg_pipes0. set (widx := if _ <=? _ then _ else _).
  assert (0 ≤ widx < pipes) as Hw by (unfold widx; destruct (Z.leb_spec pipes (idx + 1)); lia).
  apply int_ok; [lia|]. wp_step. eapply wp_pipe; [done|lia|]. intros fd. wp_step.
  apply wp_sys. intros r k _. wp_step. rewrite rg_fired0. apply int_ok; [lia|]. wp_step.
  split; try done. cbn. congruence.
Qed.

Lemma wp_leave_if_done reads left fired q w :
  ring reads left fired q w → wp leave_if_done (λ _, ring reads left fired (q || (fired =? reads))) w.
Proof.
  intros Hr. pose proof Hr as [? ? Hl Hreads ? Hfired (loop&Hloop&Ht&Hq)]. unfold leave_if_done, bench. wp_step.
  rewrite Hreads, Hfired. destruct (fired =? reads); wp_step; [|by rewrite orb_false_r].
  eapply wp_of_option; [exact Hl|]. unfold quit, upd_loop. wp_step.
  eapply wp_isInLoopThread; [cbn; by rewrite lookup_alter_eq, Hloop|]. cbn. rewrite Ht, Z.eqb_refl. wp_step.
  split; try done. eexists. cbn. rewrite lookup_alter_eq, Hloop. split_and!; [done..|by rewrite orb_true_r].
Qed.

Lemma wp_readCallback fd idx reads left fired q w :
  ring reads left fired q w → 0 ≤ idx < pipes → 0 ≤ reads < 2 ^ 30 → - 2 ^ 30 ≤ fired < 2 ^ 31 →
  let d := if 0 <? left then 1 else 0 in
  wp (readCallback fd idx) (λ _, ring (reads + 1) (left - d) (fired - d) (q || (fired - d =? reads + 1))) w.
Proof.
  intros Hr Hidx Hreads Hf. pose proof Hr as []. unfold readCallback, bench, upd_bench. wp_step.
  apply wp_sys. intros r k E. wp_step. rewrite (recv_one _ _ _ _ E), rg_reads0. apply int_ok; [lia|]. wp_step.
  rewrite rg_left0.
  match goal with |- context [wp (forward idx) _ ?x] => set (w1 := x) end.
  assert (ring (reads + 1) left fired q w1) as Hr1 by (split; try done; exact rg_quit0).
  destruct (0 <? left).
  - eapply wp_mono; [by eapply wp_forward|]. intros [] w2 Hr2. by apply wp_leave_if_done.
  - rewrite !Z.sub_0_r. by apply wp_leave_if_done.
Qed.

(** Have the counters agreed after one of the first [n] callbacks, of a round
    with [active] bytes to start with and [writes] to forward? *)
Definition agreed (active writes : Z) (n : nat) : bool :=
  existsb (λ j, active - Z.min (Z.of_nat j) writes =? Z.of_nat j) (seq 1 n).

Lemma agreed_next active writes n :
  agreed active writes (S n) =
  agreed active writes n || (active - Z.min (Z.of_nat n + 1) writes =? Z.of_nat n + 1).
Proof.
  unfold agreed. rewrite seq_S, existsb_app. cbn [existsb]. rewrite orb_false_r.
  by replace (Z.of_nat (1 + n)) with (Z.of_nat n + 1) by lia.
Qed.

(** A round of the benchmark: after [n] callbacks, whichever pipes they are
    for, [n] bytes were read, those that were to be forwarded were, and the
    loop has been asked to quit when the counters agreed, and only then. *)
Theorem ring_counts (active writes : Z) (events : list (Z * Z)) (w : W) :
  0 ≤ active < 2 ^ 30 → 0 ≤ writes < 2 ^ 30 → zlen events < 2 ^ 30 →
  Forall (λ e, 0 ≤ e.2 < pipes) events → ring 0 writes active false w →
  let n := zlen events in
  ∃ w', iterM (λ e, readCallback e.1 e.2) events w = Ret tt w' ∧
    ring n (writes - Z.min n writes) (active - Z.min n writes) (agreed active writes (length events)) w'.
Proof.
  intros Ha Hw Hlen Hidx Hr n. pose (at_n := λ (done : list (Z * Z)) w, let n := zlen done in
    ring n (writes - Z.min n writes) (active - Z.min n writes) (agreed active writes (length done)) w).
  assert (wp (iterM (λ e, readCallback e.1 e.2) events) (λ _ w', at_n ([] ++ events) w') w) as Hwp.
  { apply (wp_iterM_gen (λ e, readCallback e.1 e.2) at_n events []).
    - intros done [fd idx] rest w1 E Hr1. cbn [app fst snd] in *.
      assert (zlen done < zlen events ∧ 0 ≤ idx < pipes) as [Hd Hi].
      { rewrite <- E, zlen_app. split; [unfold zlen; cbn; lia|]. rewrite <- E in Hidx.
        apply Forall_app in Hidx as [_ Hidx]. by apply Forall_cons in Hidx as [? _]. }
      pose proof (zlen_nonneg done). eapply wp_mono; [eapply wp_readCallback; [exact Hr1|done|lia|lia]|].
      intros [] w2 Hr2. unfold at_n. rewrite zlen_app, length_app. cbn [length].
      replace (length done + 1)%nat with (S (length done)) by lia. rewrite agreed_next.
      fold (zlen done). change (zlen [(fd, idx)]) with 1.
      assert (Z.min (zlen done + 1) writes = Z.min (zlen done) writes +
        if 0 <? writes - Z.min (zlen done) writes then 1 else 0) as ->
        by (destruct (Z.ltb_spec 0 (writes - Z.min (zlen done) writes)); lia).
      by rewrite !Z.sub_add_distr.
    - unfold at_n. change (zlen (@nil (Z * Z))) with 0. cbn [length]. by rewrite Z.min_l, !Z.sub_0_r by lia. }
  by apply wp_run in Hwp as ([]&w'&E&Hw'); exists w'.
Qed.

(** With the default of one active byte the loop is never asked to quit, as
    long as there is anything to forward: [g_fired] is decremented where it
    should be incremented. *)
Theorem ring_never_quits (writes : Z) (events : list (Z * Z)) (w : W) :
  1 ≤ writes < 2 ^ 30 → zlen events < 2 ^ 30 →
  Forall (λ e, 0 ≤ e.2 < pipes) events → ring 0 writes 1 false w →
  ∃ w' loop, iterM (λ e, readCallback e.1 e.2) events w = Ret tt w' ∧
    loops w' !! l = Some loop ∧ quit_ loop = false.
Proof.
  intros Hw Hlen Hidx Hr. destruct (ring_counts 1 writes events w) as (w'&E&Hr'); try done; [lia..|].
  destruct (rg_quit _ _ _ _ _ Hr') as (loop&Hl&_&Hq). exists w', loop. split_and!; [done..|].
  rewrite Hq. unfold agreed. apply not_true_is_false. rewrite existsb_exists. intros (j&Hj&Heq%Z.eqb_eq).
  apply in_seq in Hj. lia.
Qed.
End Counts.

(** *** What is sent first *)

#[local] Instance same_user_preorder : PreOrder (λ w w' : W, user w' = user w).
Proof. split; [by intros w|]. intros w1 w2 w3 E1 E2. congruence. Qed.

Lemma seed_user space i : preserves (λ w w' : W, user w' = user w) (seed space i).
Proof.
  unfold seed, int, pipe, bench, send_m. preserve.
  intros w r w'. unfold sys. destruct (syscall _ _). by intros [= _ <-].
Qed.

Lemma seeds_user space is_ : preserves (λ w w' : W, user w' = user w) (iterM (seed space) is_).
Proof. induction is_ as [|i is_ IH]; cbn [iterM]; preserve; solve [apply seed_user|apply IH]. Qed.

Lemma upto_snoc n : 0 ≤ n → upto (n + 1) = upto n ++ [n].
Proof.
  intros Hn. unfold upto. replace (Z.to_nat (n + 1)) with (S (Z.to_nat n)) by lia.
  rewrite seq_S, map_app. cbn. by rewrite Z2Nat.id.
Qed.

Lemma seed_outside space i w :
  zlen (g_pipes (user w)) ≤ i * space + 1 → ∃ r, seed space i w = Crash r.
Proof.
  intros Hout. unfold seed, int, pipe, bench, of_option, mbind, M_bind, get, mret, M_ret.
  destruct (int_checked (i * space)) as [n|] eqn:En; [|by eexists].
  unfold int_checked in En. destruct (_ && _); [|done]. injection En as <-.
  destruct (int_checked (i * space + 1)) as [j|] eqn:Ej; [|by eexists].
  unfold int_checked in Ej. destruct (_ && _); [|done]. injection Ej as <-.
  destruct (at_ _ _) as [fd|] eqn:Ea; [|by eexists]. unfold at_ in Ea. destruct (_ <? 0); [done|].
  apply lookup_lt_Some in Ea. unfold zlen in Hout. lia.
Qed.

(** The first bytes cannot be sent when there are twice as many pipes as active
    ones: the loop over the active pipes runs to [numPipes] and leaves the
    vector of descriptors. *)
Theorem seeds_overrun (n active : Z) w w' :
  2 ≤ n → 2 ≤ Z.quot n active → zlen (g_pipes (user w)) = 2 * n →
  iterM (seed (Z.quot n active * 2)) (upto n) w ≠ Ret tt w'.
Proof.
  intros Hn Hq Hlen. set (space := Z.quot n active * 2) in *.
  replace n with (n - 1 + 1) at 1 by lia. rewrite upto_snoc, iterM_app by lia.
  unfold mbind, M_bind. destruct (iterM (seed space) (upto (n - 1)) w) as [[] w1|] eqn:E; [|done].
  apply seeds_user in E. cbn [iterM]. unfold mbind, M_bind.
  destruct (seed_outside space (n - 1) w1) as [r ->]; [|done]. rewrite E, Hlen. unfold space. nia.
Qed.
End Facts.
