(* ===== verification/Programs.v ===== *)
(** * Programs

    The programs [reactor/test2.cc] to [test8.cc] and [example/Timer_test.cc]:
    each [main] with the functions it hands to the library, and what it prints
    on a concrete operating system. *)
From S2P Require Import Prelude Printf Buffer Timestamp World Channel EventLoop TimerQueue Net.
From S2P Require Import TcpConnection Acceptor TcpServer Connector TcpClient Reactor Echo.
From Stdlib Require Import SpecFloat.
Local Open Scope Z_scope.

(** ** State of the programs *)

(** What has been printed, and the global variables. *)
Record Main := mkMain {
  stdout : list (list char);
  cnt : Z;
  g_loop : option nat;
  g_client : option nat;
  numoftimer : Z;
  launchTime : option Timestamp;       (* the static of [addTimer] *)
}.
#[export] Instance eta_Main : Eta Main := λ u,
  mkMain (stdout u) (cnt u) (g_loop u) (g_client u) (numoftimer u) (launchTime u).
Definition Main_static : Main := mkMain [] 0 None None 0 None.

Section Common.
Context {K : Type} `{Kernel K}.
Abbreviation W := (World K Main).

Definition main_ : M W Main := w ← get; mret (user w).
Definition upd_main (f : Main → Main) : M W unit := modify (λ w, w <| user ::= f |>).
Definition printf (line : list char) : M W unit := upd_main (λ u, u <| stdout ::= λ l, l ++ [line] |>).
Definition quit_g_loop : M W unit := u ← main_; l ← of_option "g_loop" (g_loop u); quit l.
(** [CurrentThread::tid()]. *)
Definition tid : M W Z := w ← get; mret (cur w).

(** The code of a program that installs only the functions given. *)
Definition program (functor : nat → M W unit) (channel : Timestamp → M W unit)
    (connection : nat → M W unit) (message : nat → Timestamp → M W unit)
    (newConnection : Z → sockaddr_in → M W unit) : UserCode K Main := {|
  u_holds _ := [];
  u_functor := functor;
  u_channel _ := channel;
  u_connection _ := connection;
  u_message _ := message;
  u_writeComplete _ _ := mret tt;
  u_newConnection _ := newConnection;
|}.
Definition unused : M W unit := mret tt.

End Common.

(** ** [test2.cc]: a timer descriptor of its own *)

Module Test2.
Section Test2.
Context {K : Type} `{Kernel K}.
Abbreviation W := (World K Main).

Definition timeout (receiveTime : Timestamp) : M W unit :=
  printf (toFormattedString receiveTime ++ str " Timeout!");;
  quit_g_loop.

#[local] Instance code : UserCode K Main :=
  program (λ _, unused) timeout (λ _, unused) (λ _ _, unused) (λ _ _, unused).

(** The results of the [main] functions say whether they end within [fuel]
    iterations of the loop. *)
Definition main (fuel : nat) : M W bool :=
  started ← now;
  printf (toFormattedString started ++ str " started");;
  loop ← EventLoop_ctor;
  upd_main (λ u, u <| g_loop := Some loop |>);;
  r ← sys SysTimerfdCreate;
  let timerfd := rv r in
  channel ← Channel_ctor loop timerfd true;
  setreadCallback channel (CbUser 0);;
  enableReading channel;;
  r ← sys (SysTimerfdSettime timerfd 5 0);
  ended ← reactor_loop fuel loop;
  whenM ended (
    closefd timerfd;;
    Channel_dtor channel;;
    EventLoop_dtor loop);;
  mret ended.
End Test2.
End Test2.

(** ** [test3.cc]: timers *)

Module Test3.
Section Test3.
Context {K : Type} `{Kernel K}.
Abbreviation W := (World K Main).

(** [getpid()] is an argument. *)
Definition printTid (pid : Z) : M W unit :=
  t ← tid;
  printf (str "pid = " ++ fmt_d pid ++ str ", tid = " ++ fmt_d t);;
  n ← now;
  printf (str "now " ++ toString n).

Definition print (msg : list char) : M W unit :=
  n ← now;
  printf (str "msg " ++ toString n ++ " "%char :: msg);;
  u ← main_;
  c ← of_option "signed overflow" (if cnt u + 1 <? 2 ^ 31 then Some (cnt u + 1) else None);
  upd_main (λ u, u <| cnt := c |>);;
  whenM (c =? 20) quit_g_loop.

(** The messages bound in the timers' functions. *)
Definition messages : list (list char) :=
  [str "once1"; str "once1.5"; str "once2.5"; str "once3.5"; str "every3"].

#[local] Instance code : UserCode K Main :=
  program (λ i, msg ← of_option "functor" (messages !! i); print msg)
    (λ _, unused) (λ _, unused) (λ _ _, unused) (λ _ _, unused).

Definition half (n : Z) : double := ddiv (double_of_Z n) (double_of_Z 2).

Definition main (pid : Z) (fuel : nat) : M W bool :=
  printTid pid;;
  loop ← EventLoop_ctor;
  upd_main (λ u, u <| g_loop := Some loop |>);;
  print (str "main");;
  _ ← runAfter loop (double_of_Z 1) (FUser 0);
  _ ← runAfter loop (half 3) (FUser 1);
  _ ← runAfter loop (half 5) (FUser 2);
  _ ← runAfter loop (half 7) (FUser 3);
  _ ← runEvery loop (double_of_Z 3) (FUser 4);
  ended ← reactor_loop fuel loop;
  whenM ended (
    print (str "main loop exits");;
    EventLoop_dtor loop);;
  mret ended.
End Test3.
End Test3.

(** ** [test5.cc]: an acceptor *)

Module Test5.
Section Test5.
Context {K : Type} `{Kernel K}.
Abbreviation W := (World K Main).

Definition newConnection (sockfd : Z) (peerAddr : sockaddr_in) : M W unit :=
  printf (str "newConnection(): accepted a new connection from " ++ c_str (InetAddress_toHostPort peerAddr));;
  r ← sys (SysWrite sockfd (str "How are you?" ++ ["010"%char]));
  closefd sockfd.

#[local] Instance code : UserCode K Main :=
  program (λ _, unused) (λ _, unused) (λ _, unused) (λ _ _, unused) newConnection.

Definition main (pid : Z) (fuel : nat) : M W bool :=
  printf (str "main(): pid = " ++ fmt_d pid);;
  loop ← EventLoop_ctor;
  acceptor ← Acceptor_ctor loop (InetAddress_port 9981);
  Acceptor_setNewConnectionCallBack acceptor (NewConnUser 0);;
  Acceptor_listen acceptor;;
  ended ← reactor_loop fuel loop;
  whenM ended (
    Acceptor_dtor acceptor;;
    EventLoop_dtor loop);;
  mret ended.
End Test5.
End Test5.

(** ** [test6.cc]: a connector *)

Module Test6.
Section Test6.
Context {K : Type} `{Kernel K}.
Abbreviation W := (World K Main).

Definition connectCallback (sockfd : Z) (peer : sockaddr_in) : M W unit :=
  printf (str "connected.");;
  quit_g_loop.

#[local] Instance code : UserCode K Main :=
  program (λ _, unused) (λ _, unused) (λ _, unused) (λ _ _, unused) connectCallback.

Definition main (fuel : nat) : M W bool :=
  loop ← EventLoop_ctor;
  upd_main (λ u, u <| g_loop := Some loop |>);;
  connector ← Connector_ctor loop (InetAddress_ip (str "127.0.0.1") 55555);
  Connector_setNewConnectionCallBack connector (NewConnUser 0);;
  Connector_start connector;;
  ended ← reactor_loop fuel loop;
  whenM ended (
    Connector_dtor connector;;
    EventLoop_dtor loop);;
  mret ended.
End Test6.
End Test6.

(** ** [test7.cc] and [test8.cc]: a client and a server

    Both have the same [onConnection] and [onMessage]. *)

Section Chat.
Context {K : Type} `{Kernel K}.
Abbreviation W := (World K Main).

Definition onConnection (c : nat) : M W unit :=
  conn ← get_conn c;
  t ← tid;
  if connected conn then
    peer ← of_option "peerAddr_ not initialised" (peerAddr_ conn);
    printf (str "onConnection(): tid=" ++ fmt_d t ++ str " new connection [" ++ str (c_name conn) ++
            str "] from " ++ c_str (InetAddress_toHostPort peer))
  else
    printf (str "onConnection(): tid=" ++ fmt_d t ++ str " connection [" ++ str (c_name conn) ++ str "] is down").

Definition onMessage (c : nat) (receiveTime : Timestamp) : M W unit :=
  conn ← get_conn c;
  t ← tid;
  printf (str "onMessage(): tid=" ++ fmt_d t ++ str " received " ++
    fmt_d (wraps 64 (readableBytes (inputBuffer_ conn))) ++ str " bytes from connection [" ++
    str (c_name conn) ++ str "] at " ++ toFormattedString receiveTime);;
  msg ← on_input c retrieveAsString;
  send c msg.

End Chat.

Module Test7.
Section Test7.
Context {K : Type} `{Kernel K}.
Abbreviation W := (World K Main).

Definition timeout : M W unit :=
  u ← main_;
  client ← of_option "g_client" (g_client u);
  TcpClient_disconnect client.

#[local] Instance code : UserCode K Main :=
  program (λ _, timeout) (λ _, unused) onConnection onMessage (λ _ _, unused).

Definition main (fuel : nat) : M W bool :=
  t ← tid;
  printf (str "main(): pid = " ++ fmt_wd 6 t);;
  loop ← EventLoop_ctor;
  client ← TcpClient_ctor loop (InetAddress_ip (str "106.13.3.180") 9981);
  upd_main (λ u, u <| g_client := Some client |>);;
  TcpClient_setConnectionCallback client 0;;
  TcpClient_setMessageCallback client 0;;
  TcpClient_connect client;;
  _ ← runAfter loop (double_of_Z 3) (FUser 0);
  ended ← reactor_loop fuel loop;
  whenM ended (
    TcpClient_dtor client;;
    EventLoop_dtor loop);;
  mret ended.
End Test7.
End Test7.

Module Test8.
Section Test8.
Context {K : Type} `{Kernel K}.
Abbreviation W := (World K Main).

#[local] Instance code : UserCode K Main :=
  program (λ _, unused) (λ _, unused) onConnection onMessage (λ _ _, unused).

Definition main (pid : Z) (argv : list (list char)) (tids : list Z) (fuel : nat) : M W bool :=
  printf (str "main(): pid = " ++ fmt_d pid);;
  loop ← EventLoop_ctor;
  server ← TcpServer_ctor loop (InetAddress_port 9981);
  TcpServer_setConnectionCallBack server 0;;
  TcpServer_setMessageCallBack server 0;;
  whenM (1 <? zlen argv) (
    n ← of_option "atoi(argv[1])" (argv !! 1%nat ≫= atoi);
    setThreadNum server n);;
  TcpServer_start tids server;;
  ended ← reactor_loop fuel loop;
  gone ← (if ended : bool then TcpServer_dtor server else mret false);
  whenM gone (EventLoop_dtor loop);;
  mret gone.
End Test8.
End Test8.

(** ** [Timer_test.cc]: many timers *)

Module TimerTest.
Section TimerTest.
Context {K : Type} `{Kernel K}.
Abbreviation W := (World K Main).

Definition diff : double := ddiv (double_of_Z 1) (double_of_Z 1000).
Definition interval : double := ddiv (double_of_Z 1) (double_of_Z 10000).
(** [1e5]. *)
Definition kTimers : Z := 10 ^ 5.

Definition timeout : M W unit := mret tt.

(** [static Timestamp launchTime(Timestamp::now())]. *)
Definition get_launchTime : M W Timestamp :=
  u ← main_;
  match launchTime u with
  | Some t => mret t
  | None => t ← now; upd_main (λ u, u <| launchTime := Some t |>);; mret t
  end.

Definition addTimer : M W unit :=
  t ← get_launchTime;
  t ← of_option "double to int64_t" (addTime t interval);
  upd_main (λ u, u <| launchTime := Some t |>);;
  n ← now;
  d ← of_option "signed overflow" (int64_checked (microSecondsSinceEpoch n - microSecondsSinceEpoch t));
  u ← main_;
  l ← of_option "g_loop" (g_loop u);
  if SFleb (double_of_Z d) diff then
    iterM (λ _, _ ← runEvery l interval (FUser 1); mret tt) (replicate (Z.to_nat kTimers) tt);;
    upd_main (λ u, u <| numoftimer ::= λ n, n + kTimers |>)
  else quit l.

#[local] Instance code : UserCode K Main :=
  program (λ i, if (i =? 0)%nat then addTimer else timeout)
    (λ _, unused) (λ _, unused) (λ _ _, unused) (λ _ _, unused).

Definition main (fuel : nat) : M W bool :=
  loop ← EventLoop_ctor;
  upd_main (λ u, u <| g_loop := Some loop |>);;
  _ ← runAfter loop interval (FUser 0);
  ended ← reactor_loop fuel loop;
  whenM ended (EventLoop_dtor loop);;
  mret ended.
End TimerTest.
End TimerTest.

(** ** What the acceptor of [test5.cc] does *)

Definition greeting : list char := str "How are you?" ++ ["010"%char].

(** Every connection its acceptor accepts is greeted and closed, and nothing
    else happens; when [accept] fails, nothing at all. *)
Theorem newConnection_greets {K} `{Kernel K} (t : Timestamp) (a : nat) (acceptor : Acceptor) (loop : EventLoop)
  (w : World K Main)
  (Ha : acceptors w !! a = Some acceptor) (Hcb : newConnectionCallback_ acceptor = Some (NewConnUser 0))
  (Hl : loops w !! a_loop acceptor = Some loop) (Ht : threadId_ loop = cur w) :
  wp (run_cb (H0 := Test5.code) t (CbAcceptorRead a)) (λ _ w', ∃ k r lines evs,
    w' = w <| kern := k |> <| trace ::= λ t, t ++ (SysAccept4 (a_fd acceptor), r) :: evs |>
           <| user ::= λ u, u <| stdout ::= λ l, l ++ lines |> |> ∧
    if 0 <=? rv r
    then ∃ r1 r2, length lines = 1%nat ∧ evs = [(SysWrite (rv r) greeting, r1); (SysClose (rv r), r2)]
    else lines = [] ∧ evs = []) w.
Proof.
  cbn [run_cb]. unfold Acceptor_handleRead, get_acceptor. wp_step. eapply wp_deref; [exact Ha|].
  wp_step. eapply wp_assertInLoopThread; [done..|]. unfold Socket_accept, sock_accept. wp_step.
  apply wp_sys. intros r k _. wp_step. destruct (Z.leb_spec 0 (rv r)) as [Hr|Hr].
  - rewrite Hcb. cbn [run_new u_newConnection Test5.code program].
    unfold Test5.newConnection, printf, upd_main, closefd. wp_step.
    apply wp_sys. intros r1 k1 _. wp_step. apply wp_sys. intros r2 k2 _. wp_step.
    eexists k2, r, [_], _. cbn. rewrite <- !app_assoc. rewrite (proj2 (Z.leb_le _ _) Hr). eauto.
  - wp_step. exists k, r, [], []. rewrite (proj2 (Z.leb_gt _ _) Hr). split; [|done].
    destruct w as [? ? ? ? ? ? ? ? ? ? ? ? ? ? []]. cbn. by rewrite app_nil_r.
Qed.

(** ** Concrete instances *)

(** An operating system with timer descriptors: the time, the next descriptor,
    and the deadline of every armed descriptor. A wait takes until the earliest
    deadline, or its timeout. *)
Record Clockwork := mkClockwork { cw_now : Z; cw_fd : Z; cw_armed : gmap Z Z }.

Definition earliest (armed : gmap Z Z) (limit : Z) : Z := map_fold (λ _ t m, Z.min t m) limit armed.

Definition clockwork : Kernel Clockwork := λ sc k,
  let '(mkClockwork t fd armed) := k in
  match sc with
  | SysEpollCreate | SysEventfd | SysTimerfdCreate | SysSocket => (res_ok fd, mkClockwork t (fd + 1) armed)
  | SysGettimeofday => (mkRes 0 0 (OutTime (t / 10 ^ 6) (t mod 10 ^ 6)), k)
  | SysTimerfdSettime fd' s ns => (res_ok 0, mkClockwork t fd (<[fd' := t + s * 10 ^ 6 + ns / 1000]> armed))
  | SysRead8 fd' => (res_ok 8, mkClockwork t fd (delete fd' armed))
  | SysEpollWait _ _ timeoutMs =>
      let t' := Z.max t (earliest armed (t + timeoutMs * 1000)) in
      let ready := filter (λ '(_, d), d <= t') (map_to_list armed) in
      (mkRes (zlen ready) 0 (OutEvents (map (λ '(f, _), (f, EPOLLIN)) ready)), mkClockwork t' fd armed)
  | SysWrite _ data => (res_ok (zlen data), k)
  | _ => (res_ok 0, k)
  end.

Definition program_start {K} (k : K) : World K Main :=
  mkWorld k [] 1 ∅ 0 0%nat ∅ ∅ ∅ ∅ ∅ ∅ ∅ ∅ Main_static.
Definition output {K} (r : res (World K Main) bool) : option (bool * list string) :=
  match r with
  | Ret b w => Some (b, map String.string_of_list_ascii (stdout (user w)))
  | Crash _ => None
  end.

(** A server that accepts the connection of descriptor 6 at the first wait. *)
Definition one_server : Kernel nat := λ sc n,
  match sc with
  | SysEpollWait _ _ _ =>
      (if (n =? 0)%nat then mkRes 1 0 (OutEvents [(6, EPOLLOUT)]) else res_ok 0, S n)
  | SysGetSocketError _ => (mkRes 0 0 (OutInt 0), n)
  | SysGetsockname _ => (mkRes 0 0 (OutAddr (InetAddress_port 4000)), n)
  | SysGetpeername _ => (mkRes 0 0 (OutAddr (InetAddress_port 55555)), n)
  | _ => one_client sc n
  end.

(** Clients that call at the first two waits. *)
Definition two_callers : Kernel nat := λ sc n,
  match sc with
  | SysEpollWait _ _ _ =>
      (if (n <? 2)%nat then mkRes 1 0 (OutEvents [(6, EPOLLIN)]) else res_ok 0, S n)
  | _ => one_client sc n
  end.

(** A clock that advances by a millisecond in every call. *)
Definition slow_clockwork : Kernel Clockwork := λ sc k,
  let '(r, mkClockwork t fd armed) := clockwork sc k in (r, mkClockwork (t + 1000) fd armed).

(** [test2.cc] ends after its five seconds. *)
Example test2_output :
  output (Test2.main (H := clockwork) 10 (program_start (mkClockwork (10 ^ 15) 3 ∅))) =
  Some (true, ["20010909 01:46:40.000000 started"; "20010909 01:46:45.000000 Timeout!"]).
Proof. vm_compute. reflexivity. Qed.

(** [test3.cc] ends with the fifteenth call of its repeating timer. *)
Example test3_output :
  output (Test3.main (H := clockwork) 7 100 (program_start (mkClockwork (10 ^ 15) 3 ∅))) =
  Some (true, ["pid = 7, tid = 1"; "now 1000000000.000000"; "msg 1000000000.000000 main";
    "msg 1000000001.000000 once1"; "msg 1000000001.500000 once1.5"; "msg 1000000002.500000 once2.5";
    "msg 1000000003.000000 every3"; "msg 1000000003.500000 once3.5";
    "msg 1000000006.000000 every3"; "msg 1000000009.000000 every3"; "msg 1000000012.000000 every3";
    "msg 1000000015.000000 every3"; "msg 1000000018.000000 every3"; "msg 1000000021.000000 every3";
    "msg 1000000024.000000 every3"; "msg 1000000027.000000 every3"; "msg 1000000030.000000 every3";
    "msg 1000000033.000000 every3"; "msg 1000000036.000000 every3"; "msg 1000000039.000000 every3";
    "msg 1000000042.000000 every3"; "msg 1000000045.000000 every3";
    "msg 1000000045.000000 main loop exits"]).
Proof. vm_compute. reflexivity. Qed.

Example test5_output :
  output (Test5.main (H := two_callers) 7 4 (program_start 0%nat)) =
  Some (false, ["main(): pid = 7"; "newConnection(): accepted a new connection from 0.0.0.0:4000";
                "newConnection(): accepted a new connection from 0.0.0.0:4000"]).
Proof. vm_compute. reflexivity. Qed.

(** [test6.cc] quits when it is connected; the connector's channel is gone by
    the time the connector is destroyed. *)
Example test6_output :
  output (Test6.main (H := one_server) 100 (program_start 0%nat)) = Some (true, ["connected."]).
Proof. vm_compute. reflexivity. Qed.

(** [test7.cc] and [test8.cc] print the address of their first peer, which
    [TcpConnection] never initialises. *)
Example test7_session :
  Test7.main (H := one_server) 4 (program_start 0%nat) = Crash (Undefined "peerAddr_ not initialised").
Proof. vm_compute. reflexivity. Qed.
Example test8_session :
  Test8.main (H := one_client) 7 (map str ["test8"]) [] 4 (program_start 0%nat) =
  Crash (Undefined "peerAddr_ not initialised").
Proof. vm_compute. reflexivity. Qed.

(** [Timer_test.cc] ends when its first call finds the clock late. *)
Example Timer_test_late :
  output (TimerTest.main (H := slow_clockwork) 4 (program_start (mkClockwork (10 ^ 15) 3 ∅))) = Some (true, []).
Proof. vm_compute. reflexivity. Qed.
