(* ===== verification/Posix.v ===== *)
(** * Posix

    The operating system as a whole, as the programs of [example/] see it: what
    a process may conclude from the calls it has made so far. A kernel is
    lawful when each of its answers is one that this history permits. The file
    also builds lawful kernels, by letting any proposed behaviour answer when
    it is permitted. *)
From S2P Require Import Prelude Printf Buffer Timestamp World Channel EventLoop TimerQueue Net.
From S2P Require Import TcpConnection.
Local Open Scope Z_scope.

Abbreviation history := (list (Syscall * SysRes)).

(** ** What a history says *)

(** The descriptor that a call made. *)
Definition made (ev : Syscall * SysRes) : option Z :=
  match ev.1 with
  | SysEpollCreate | SysEventfd | SysTimerfdCreate | SysSocket | SysAccept4 _ =>
      if 0 <=? rv ev.2 then Some (rv ev.2) else None
  | _ => None
  end.
Definition pair_made (r : SysRes) : gset Z :=
  match out r with
  | OutPair fd0 fd1 => if (rv r =? 0) && (0 <=? fd0) && (0 <=? fd1) then {[fd0; fd1]} else ∅
  | _ => ∅
  end.

(** The descriptors that are open. *)
Definition open_step (o : gset Z) (ev : Syscall * SysRes) : gset Z :=
  match made ev with
  | Some fd => {[fd]} ∪ o
  | None =>
      match ev with
      | (SysClose fd, r) => if rv r =? 0 then o ∖ {[fd]} else o
      | (SysSocketpair, r) => pair_made r ∪ o
      | _ => o
      end
  end.
Definition open_fds (t : history) : gset Z := foldl open_step ∅ t.

(** The bytes received on the connection that last had descriptor [fd]. *)
Definition out_bytes (r : SysRes) : list char :=
  if 0 <? rv r then match out r with OutBytes bytes => bytes | _ => [] end else [].
Definition received_step (fd : Z) (s : list char) (ev : Syscall * SysRes) : list char :=
  match ev with
  | (SysReadv fd' _ _, r) | (SysRecv fd' _, r) => if fd' =? fd then s ++ out_bytes r else s
  | (SysSocket, r) | (SysAccept4 _, r) => if rv r =? fd then [] else s
  | (SysSocketpair, r) => if is_pair fd r then [] else s
  | _ => s
  end.
Definition received_on (fd : Z) (t : history) : list char := foldl (received_step fd) [] t.

(** The bytes received on all connections, and the connections accepted. *)
Definition traffic_step (n : Z) (ev : Syscall * SysRes) : Z :=
  match ev with (SysReadv _ _ _, r) | (SysRecv _ _, r) => n + Z.max 0 (rv r) | _ => n end.
Definition traffic (t : history) : Z := foldl traffic_step 0 t.
Definition arrivals_step (n : Z) (ev : Syscall * SysRes) : Z :=
  match ev with (SysAccept4 _, r) => if 0 <=? rv r then n + 1 else n | _ => n end.
Definition arrivals (t : history) : Z := foldl arrivals_step 0 t.

(** The load a process can carry: bytes received, so that sizes of buffers do
    not wrap, and connections accepted, so that an [int] can count them. *)
Definition kMaxTraffic : Z := 2 ^ 62.
Definition kMaxArrivals : Z := 2 ^ 31 - 2.

(** ** The answers that are permitted *)

Definition unused (t : history) (fd : Z) : bool :=
  (0 <=? fd) && bool_decide (fd ∉ open_fds t).

(** An [epoll_ctl] that the kernel has no reason to refuse. *)
Definition ctl_valid (t : history) (epfd : Z) (op : epoll_op) (fd : Z) : bool :=
  match op with
  | EPOLL_CTL_ADD => bool_decide (fd ∈ open_fds t) && bool_decide (interest epfd t !! fd = None)
  | _ => bool_decide (is_Some (interest epfd t !! fd))
  end.

(** A reported event is one of a descriptor that is watched, and the end of
    the peer's stream is reported as readable too. *)
Definition event_ok (events : Z) : bool := implb (has events EPOLLRDHUP) (has events EPOLLIN).
Definition event_valid (t : history) (epfd : Z) (ev : Z * Z) : bool :=
  bool_decide (is_Some (interest epfd t !! ev.1)) && event_ok ev.2.

(** May call [c] be answered with [r] after history [t]? New descriptors are
    ones not in use, waiting reports distinct watched descriptors, reading
    returns the bytes it stored, writing takes no more than it is given, valid
    requests to epoll and closing an open descriptor succeed; [accept] and
    the transfers may fail. *)
Definition permits (t : history) (c : Syscall) (r : SysRes) : bool :=
  match c with
  | SysEpollCreate | SysEventfd | SysTimerfdCreate | SysSocket => unused t (rv r)
  | SysAccept4 _ => (rv r <? 0) || (unused t (rv r) && (arrivals t <? kMaxArrivals))
  | SysEpollWait epfd maxevents _ =>
      (rv r <=? 0) ||
      match out r with
      | OutEvents evs => (rv r =? zlen evs) && (rv r <=? maxevents) &&
          bool_decide (NoDup evs.*1) && forallb (event_valid t epfd) evs
      | _ => false
      end
  | SysEpollCtl epfd op fd _ => implb (ctl_valid t epfd op fd) (rv r =? 0)
  | SysReadv _ len0 len1 =>
      (rv r <? 0) ||
      match out r with
      | OutBytes bytes => (rv r =? zlen bytes) && (rv r <=? len0 + len1) &&
          (traffic t + rv r <=? kMaxTraffic)
      | _ => false
      end
  | SysRecv _ len =>
      (rv r <? 0) ||
      match out r with
      | OutBytes bytes => (rv r =? zlen bytes) && (rv r <=? len) && (traffic t + rv r <=? kMaxTraffic)
      | _ => false
      end
  | SysWrite _ data | SysSend _ data => rv r <=? zlen data
  | SysSocketpair =>
      (rv r <? 0) ||
      match out r with
      | OutPair fd0 fd1 => (rv r =? 0) && unused t fd0 && unused t fd1 && negb (fd0 =? fd1)
      | _ => false
      end
  | SysClose fd => implb (bool_decide (fd ∈ open_fds t)) (rv r =? 0)
  | SysGettimeofday =>
      match out r with
      | OutTime tv_sec tv_usec =>
          (rv r =? 0) && (0 <? now_of tv_sec tv_usec) && (now_of tv_sec tv_usec <? kMaxTime / 2)
      | _ => false
      end
  | SysGetSocketError _ => (rv r <? 0) || match out r with OutInt _ => true | _ => false end
  | _ => true
  end.

(** A kernel whose answers are permitted by the history that its state stands
    for. *)
Class Machine (K : Type) `{Kernel K} := {
  consistent : K → history → Prop;
  consistent_next c k t r k' :
    consistent k t → syscall c k = (r, k') → consistent k' (t ++ [(c, r)]);
  consistent_permits c k t r k' :
    consistent k t → syscall c k = (r, k') → permits t c r = true;
}.

(** ** Histories, one call at a time *)

Lemma open_fds_snoc t ev : open_fds (t ++ [ev]) = open_step (open_fds t) ev.
Proof. unfold open_fds. by rewrite foldl_app. Qed.
Lemma received_snoc fd t ev : received_on fd (t ++ [ev]) = received_step fd (received_on fd t) ev.
Proof. unfold received_on. by rewrite foldl_app. Qed.
Lemma traffic_snoc t ev : traffic (t ++ [ev]) = traffic_step (traffic t) ev.
Proof. unfold traffic. by rewrite foldl_app. Qed.
Lemma arrivals_snoc t ev : arrivals (t ++ [ev]) = arrivals_step (arrivals t) ev.
Proof. unfold arrivals. by rewrite foldl_app. Qed.

Arguments open_fds : simpl never.
Arguments received_on : simpl never.
Arguments traffic : simpl never.
Arguments arrivals : simpl never.

Lemma open_fds_nonneg t fd : fd ∈ open_fds t → 0 ≤ fd.
Proof.
  induction t as [|[c r] t IH] using rev_ind; [by intros ?%elem_of_empty|].
  rewrite open_fds_snoc. unfold open_step. destruct (made (c, r)) as [fd'|] eqn:Em.
  - assert (0 ≤ fd') by (destruct c; cbn in Em; try done; destruct (Z.leb_spec 0 (rv r)); by simplify_eq).
    rewrite elem_of_union, elem_of_singleton. intros [->|?]; [done|auto].
  - destruct c; auto.
    + destruct (rv r =? 0); [|auto]. rewrite elem_of_difference. intros [? _]. auto.
    + unfold pair_made. rewrite elem_of_union. intros [Hin|?]; [|auto].
      destruct (out r) as [| | | | | |fd0 fd1]; try by apply elem_of_empty in Hin.
      destruct (rv r =? 0), (Z.leb_spec 0 fd0), (Z.leb_spec 0 fd1); cbn in Hin; try by apply elem_of_empty in Hin.
      rewrite elem_of_union, !elem_of_singleton in Hin. by destruct Hin as [->| ->].
Qed.

Lemma traffic_nonneg t : 0 ≤ traffic t.
Proof.
  induction t as [|[c r] t IH] using rev_ind; [done|]. rewrite traffic_snoc.
  destruct c; cbn; lia.
Qed.
Lemma arrivals_nonneg t : 0 ≤ arrivals t.
Proof.
  induction t as [|[c r] t IH] using rev_ind; [done|]. rewrite arrivals_snoc.
  destruct c; cbn; try lia. destruct (0 <=? rv r); lia.
Qed.

(** Calls that move no bytes and make or close no descriptor. *)
Definition inert (c : Syscall) : bool :=
  match c with
  | SysEpollCreate | SysEventfd | SysTimerfdCreate | SysSocket | SysSocketpair | SysAccept4 _
  | SysReadv _ _ _ | SysRecv _ _ | SysWrite _ _ | SysSend _ _ | SysShutdownWr _ | SysClose _
  | SysEpollCtl _ _ _ _ => false
  | _ => true
  end.

(** What such a call, or one on another descriptor, leaves as it was. *)
Record same_streams (t t' : history) : Prop := {
  ss_received fd : received_on fd t' = received_on fd t;
  ss_traffic : traffic t' = traffic t;
  ss_arrivals : arrivals t' = arrivals t;
  ss_open : open_fds t' = open_fds t;
}.
#[export] Instance same_streams_preorder : PreOrder same_streams.
Proof. split; [done|]. intros t1 t2 t3 [] []. split; congruence. Qed.

Definition takes_no_input (c : Syscall) : bool :=
  match c with
  | SysEpollCreate | SysEventfd | SysTimerfdCreate | SysSocket | SysSocketpair | SysAccept4 _
  | SysReadv _ _ _ | SysRecv _ _ | SysClose _ => false
  | _ => true
  end.

Lemma same_streams_snoc t c r : takes_no_input c = true → same_streams t (t ++ [(c, r)]).
Proof.
  intros Hc. split; intros; rewrite ?received_snoc, ?traffic_snoc, ?arrivals_snoc, ?open_fds_snoc;
    by destruct c.
Qed.

Lemma inert_written t c r fd :
  inert c = true → written fd (t ++ [(c, r)]) = written fd t ∧ fin_sent fd (t ++ [(c, r)]) = fin_sent fd t.
Proof. intros Hc. rewrite written_snoc, fin_sent_snoc. by destruct c. Qed.

Lemma inert_no_input c : inert c = true → takes_no_input c = true.
Proof. by destruct c. Qed.
Lemma inert_no_interest c : inert c = true → no_interest c.
Proof. by destruct c. Qed.

Lemma ctl_ok_snoc t c r :
  ctl_ok t → match c with SysEpollCtl _ _ _ _ => rv r = 0 | _ => True end → ctl_ok (t ++ [(c, r)]).
Proof. intros Ht Hc. apply Forall_app. split; [done|]. by constructor. Qed.

Lemma inert_ctl_ok t c r : inert c = true → ctl_ok t → ctl_ok (t ++ [(c, r)]).
Proof. intros Hc Ht. apply ctl_ok_snoc; [done|]. by destruct c. Qed.

(** ** Runs of a program on a lawful machine *)

Fixpoint lawful (t evs : history) : Prop :=
  match evs with
  | [] => True
  | (c, r) :: evs' => permits t c r = true ∧ lawful (t ++ [(c, r)]) evs'
  end.

Lemma lawful_app t evs1 evs2 : lawful t evs1 → lawful (t ++ evs1) evs2 → lawful t (evs1 ++ evs2).
Proof.
  induction evs1 as [|[c r] evs1 IH] in t |- *; cbn; [by rewrite app_nil_r|].
  intros [? ?] Hl. split; [done|]. apply IH; [done|]. by rewrite <- app_assoc.
Qed.

Section Machine.
Context {K U : Type} `{Machine K}.
Abbreviation W := (World K U).
Implicit Types (w : W).

Definition reachable_kernel (w : W) : Prop := consistent (kern w) (trace w).

(** Between [w] and [w'] only calls in [P] were made, and lawfully answered. *)
Definition runs (P : Syscall → Prop) (w w' : W) : Prop :=
  ∃ evs, trace w' = trace w ++ evs ∧ Forall (λ ev, P ev.1) evs ∧
    (reachable_kernel w → reachable_kernel w' ∧ lawful (trace w) evs).

#[export] Instance runs_preorder P : PreOrder (runs P).
Proof.
  split.
  - intros w. exists []. by rewrite app_nil_r.
  - intros w1 w2 w3 (e1&E1&F1&L1) (e2&E2&F2&L2). exists (e1 ++ e2). split_and!.
    + by rewrite E2, E1, app_assoc.
    + by apply Forall_app.
    + intros Hk. destruct (L1 Hk) as [Hk1 Hl1]. destruct (L2 Hk1) as [Hk2 Hl2]. split; [done|].
      apply lawful_app; [done|]. by rewrite <- E1.
Qed.

Lemma runs_same P w w' : trace w' = trace w → kern w' = kern w → runs P w w'.
Proof.
  intros Et Ek. exists []. rewrite app_nil_r. split_and!; [done..|]. intros Hk. split; [|done].
  unfold reachable_kernel. by rewrite Et, Ek.
Qed.

Lemma runs_sys P sc r k w :
  P sc → syscall sc (kern w) = (r, k) →
  runs P w (w <| kern := k |> <| trace ::= λ t, t ++ [(sc, r)] |>).
Proof.
  intros Hsc E. exists [(sc, r)]. split_and!; [done|by constructor|]. intros Hk. split.
  - by eapply consistent_next.
  - split; [by eapply consistent_permits|done].
Qed.

Lemma wp_sys_lawful sc (Q : SysRes → W → Prop) w :
  reachable_kernel w →
  (∀ r k, permits (trace w) sc r = true →
     let w' := w <| kern := k |> <| trace ::= λ t, t ++ [(sc, r)] |> in
     reachable_kernel w' → Q r w') →
  wp (sys sc) Q w.
Proof.
  intros Hk HQ. apply wp_sys. intros r k E. apply HQ; [by eapply consistent_permits|].
  by eapply consistent_next.
Qed.
(** *** Registration: no request is refused *)

Lemma registered_watch l loop w fd :
  registration l w → loops w !! l = Some loop →
  interest (epfd_ (epoller_ loop)) (trace w) !! fd =
    (i ← channels_ (epoller_ loop) !! fd; ch ← chans w !! i; Some (events_ ch)).
Proof. intros (loop'&Hl'&_&Hw) Hl. rewrite Hl in Hl'. injection Hl' as <-. apply Hw. Qed.

Definition set_chan (i : nat) (ch : Channel) (w : W) : W := w <| chans ::= <[i := ch]> |>.
Definition set_channels (l : nat) (f : gmap Z nat → gmap Z nat) (w : W) : W :=
  w <| loops ::= alter (λ x, x <| epoller_ ::= λ e, e <| channels_ ::= f |> |>) l |>.
Definition called (k : K) (sc : Syscall) (r : SysRes) (w : W) : W :=
  w <| kern := k |> <| trace ::= λ t, t ++ [(sc, r)] |>.

Lemma wp_enableReading_new i ch loop (Q : unit → W → Prop) w
    (ctl := SysEpollCtl (epfd_ (epoller_ loop)) EPOLL_CTL_ADD (ch_fd ch) kReadEvent) :
  chans w !! i = Some ch → loops w !! ch_loop ch = Some loop → threadId_ loop = cur w →
  registration (ch_loop ch) w → registeredInEpoller_ ch = false → events_ ch = 0 → enableet_ ch = false →
  channels_ (epoller_ loop) !! ch_fd ch = None → reachable_kernel w → ctl_ok (trace w) →
  ch_fd ch ∈ open_fds (trace w) →
  (∀ k r, let w' := set_chan i (ch <| events_ := kReadEvent |> <| registeredInEpoller_ := true |>)
            (set_channels (ch_loop ch) <[ch_fd ch := i]> (called k ctl r w)) in
     rv r = 0 → reachable_kernel w' → ctl_ok (trace w') → registration (ch_loop ch) w' → Q tt w') →
  wp (enableReading i) Q w.
Proof.
  intros Hch Hl Ht HR Hreg Hev Het Hno Hk Hctl Hopen HQ.
  assert (wp (enableReading i) (λ _ w', ∃ k r, rv r = 0 ∧ reachable_kernel w' ∧ ctl_ok (trace w') ∧
    w' = set_chan i (ch <| events_ := kReadEvent |> <| registeredInEpoller_ := true |>)
            (set_channels (ch_loop ch) <[ch_fd ch := i]> (called k ctl r w))) w) as Hrun.
  { unfold enableReading, upd_chan, update, updateChannel, updateChannelMap, epollAdd, get_chan, get_loop.
    set (ch1 := ch <| events_ := kReadEvent |>). wp_step.
    eapply wp_deref; [cbn; by rewrite lookup_alter_eq, Hch|]. cbn [enableet_ upd]. rewrite Het. wp_step.
    assert (∀ x, chans (w <| chans ::= alter (λ x, x <| events_ ::= λ e, Z.lor e kReadEvent |>) i |>) !! i = Some x ↔ x = ch1) as Hx.
    { intros x. cbn. rewrite lookup_alter_eq, Hch. cbn. rewrite Hev. split; [by intros [= <-]|by intros ->]. }
    do 2 (eapply wp_deref; [by apply Hx|]; wp_step). apply wp_assert; [by apply bool_decide_eq_true|]. wp_step.
    eapply wp_assertInLoopThread; [exact Hl|exact Ht|]. wp_step.
    eapply wp_assertInLoopThread; [exact Hl|exact Ht|]. wp_step. eapply wp_deref; [by apply Hx|].
    cbn [registeredInEpoller_ upd ch1]. rewrite Hreg. cbn [negb]. wp_step. eapply wp_deref; [by apply Hx|].
    cbn [events_ upd ch1]. wp_step. eapply wp_deref; [exact Hl|]. wp_step.
    apply wp_assert; [by apply bool_decide_eq_true|]. wp_step. apply wp_sys_lawful; [exact Hk|].
    intros r k Hp w1 Hk1. cbn in Hp.
    rewrite !bool_decide_eq_true_2 in Hp; [|by rewrite (registered_watch _ _ _ _ HR Hl), Hno|done].
    cbn in Hp. apply Z.eqb_eq in Hp as Hr. rewrite Hp. unfold upd_epoller, setregisteredInEpoller, upd_chan, upd_loop. wp_step.
    exists k, r. split_and!; [done|exact Hk1|by apply ctl_ok_snoc|].
    unfold set_chan, set_channels, called, w1. cbn. by rewrite !(alter_as_insert _ _ _ _ Hch), alter_insert_eq, Hev. }
  assert (wp (enableReading i) (λ _ w',
    registers i (ch_loop ch) (set_events i (λ _, mask_after EnableReading ch) w) w') w) as Hreg'.
  { apply (run_mask_op_spec EnableReading i ch loop); try done; [by apply registration_weaken|by intros _]. }
  eapply wp_mono; [apply wp_conj; [exact Hrun|exact Hreg']|].
  intros [] w' [(k&r&Hr&Hk'&Hctl'&->) (_&_&_&_&HR')]. by apply HQ; [..|apply HR'].
Qed.
Lemma wp_disableAll_registered i ch loop (Q : unit → W → Prop) w
    (ctl := SysEpollCtl (epfd_ (epoller_ loop)) EPOLL_CTL_MOD (ch_fd ch) kNoneEvent) :
  chans w !! i = Some ch → loops w !! ch_loop ch = Some loop → threadId_ loop = cur w →
  registration (ch_loop ch) w → registeredInEpoller_ ch = true → reachable_kernel w → ctl_ok (trace w) →
  (∀ k r, let w' := set_chan i (ch <| events_ := kNoneEvent |>) (called k ctl r w) in
     rv r = 0 → reachable_kernel w' → ctl_ok (trace w') → registration (ch_loop ch) w' → Q tt w') →
  wp (disableAll i) Q w.
Proof.
  intros Hch Hl Ht HR Hreg Hk Hctl HQ. pose proof HR as (loop'&Hl'&Hm&_). rewrite Hl in Hl'. injection Hl' as <-.
  assert (channels_ (epoller_ loop) !! ch_fd ch = Some i) as Hfd by (apply Hm; eauto).
  assert (wp (disableAll i) (λ _ w', ∃ k r, rv r = 0 ∧ reachable_kernel w' ∧ ctl_ok (trace w') ∧
    w' = set_chan i (ch <| events_ := kNoneEvent |>) (called k ctl r w)) w) as Hrun.
  { unfold disableAll, upd_chan, update, updateChannel, updateChannelMap, epollMod, get_chan, get_loop.
    set (ch1 := ch <| events_ := kNoneEvent |>). wp_step.
    assert (chans (w <| chans ::= alter (λ x, x <| events_ := kNoneEvent |>) i |>) !! i = Some ch1) as Hx
      by (cbn; by rewrite lookup_alter_eq, Hch).
    do 2 (eapply wp_deref; [exact Hx|]; wp_step). apply wp_assert; [by apply bool_decide_eq_true|]. wp_step.
    eapply wp_assertInLoopThread; [exact Hl|exact Ht|]. wp_step.
    eapply wp_assertInLoopThread; [exact Hl|exact Ht|]. wp_step. eapply wp_deref; [exact Hx|].
    cbn [registeredInEpoller_ upd ch1]. rewrite Hreg. cbn [negb]. wp_step. eapply wp_deref; [exact Hx|]. wp_step.
    eapply wp_deref; [exact Hl|]. wp_step. apply wp_assert; [by apply bool_decide_eq_true|]. wp_step.
    apply wp_sys_lawful; [exact Hk|]. intros r k Hp w1 Hk1. wp_step. cbn in Hp.
    rewrite (registered_watch _ _ _ _ HR Hl), Hfd in Hp. cbn in Hp. rewrite Hch in Hp. cbn in Hp.
    apply Z.eqb_eq in Hp. exists k, r. split_and!; [done|exact Hk1|by apply ctl_ok_snoc|].
    unfold set_chan, called, w1. cbn. by rewrite (alter_as_insert _ _ _ _ Hch). }
  assert (wp (disableAll i) (λ _ w',
    registers i (ch_loop ch) (set_events i (λ _, mask_after DisableAll ch) w) w') w) as Hreg'.
  { apply (run_mask_op_spec DisableAll i ch loop); try done; [by apply registration_weaken|by intros ?; congruence]. }
  eapply wp_mono; [apply wp_conj; [exact Hrun|exact Hreg']|].
  intros [] w' [(k&r&Hr&Hk'&Hctl'&->) (_&_&_&_&HR')]. by apply HQ; [..|apply HR'].
Qed.

Lemma wp_removeChannel_registered i ch loop (Q : unit → W → Prop) w
    (ctl := SysEpollCtl (epfd_ (epoller_ loop)) EPOLL_CTL_DEL (ch_fd ch) (events_ ch)) :
  chans w !! i = Some ch → loops w !! ch_loop ch = Some loop → threadId_ loop = cur w →
  registration (ch_loop ch) w → registeredInEpoller_ ch = true → events_ ch = kNoneEvent →
  reachable_kernel w → ctl_ok (trace w) →
  (∀ k r, let w' := set_chan i (ch <| registeredInEpoller_ := false |>)
            (set_channels (ch_loop ch) (delete (ch_fd ch)) (called k ctl r w)) in
     rv r = 0 → reachable_kernel w' → ctl_ok (trace w') → registration (ch_loop ch) w' → Q tt w') →
  wp (removeChannel (ch_loop ch) i) Q w.
Proof.
  intros Hch Hl Ht HR Hreg Hev Hk Hctl HQ. pose proof HR as (loop'&Hl'&Hm&_). rewrite Hl in Hl'. injection Hl' as <-.
  assert (channels_ (epoller_ loop) !! ch_fd ch = Some i) as Hfd by (apply Hm; eauto).
  assert (wp (removeChannel (ch_loop ch) i) (λ _ w', ∃ k r, rv r = 0 ∧ reachable_kernel w' ∧ ctl_ok (trace w') ∧
    w' = set_chan i (ch <| registeredInEpoller_ := false |>)
            (set_channels (ch_loop ch) (delete (ch_fd ch)) (called k ctl r w))) w) as Hrun.
  { unfold removeChannel, removeChannelMap, epollDel, get_chan, get_loop. wp_step.
    eapply wp_deref; [exact Hch|]. wp_step. apply wp_assert; [by apply bool_decide_eq_true|]. wp_step.
    do 2 (eapply wp_assertInLoopThread; [exact Hl|exact Ht|]; wp_step). eapply wp_deref; [exact Hch|]. wp_step.
    eapply wp_deref; [exact Hl|]. wp_step. apply wp_assert; [by apply bool_decide_eq_true|]. wp_step.
    apply wp_assert; [unfold isNoneEvent; by rewrite Hev|]. wp_step. apply wp_assert; [done|]. wp_step.
    apply wp_sys_lawful; [exact Hk|]. intros r k Hp w1 Hk1. cbn in Hp.
    rewrite (registered_watch _ _ _ _ HR Hl), Hfd in Hp. cbn in Hp. rewrite Hch in Hp. cbn in Hp.
    apply Z.eqb_eq in Hp as Hr. rewrite Hp. unfold upd_epoller, setregisteredInEpoller, upd_chan, upd_loop. wp_step.
    exists k, r. split_and!; [done|exact Hk1|by apply ctl_ok_snoc|].
    unfold set_chan, set_channels, called, w1. cbn. by rewrite (alter_as_insert _ _ _ _ Hch). }
  assert (wp (removeChannel (ch_loop ch) i) (λ _ w', unregisters i (ch_loop ch) w w') w) as Hreg'.
  { apply (removeChannel_spec i ch _ loop); try done. by apply registration_weaken. }
  eapply wp_mono; [apply wp_conj; [exact Hrun|exact Hreg']|].
  intros [] w' [(k&r&Hr&Hk'&Hctl'&->) (_&_&_&HR')]. by apply HQ; [..|apply HR'].
Qed.
End Machine.

(** ** Lawful machines exist

    Any behaviour can be proposed; an answer that is not permitted is replaced
    by a dull one that is. *)
Definition lawful_fd (t : history) : Z := foldr Z.max 0 (elements (open_fds t)) + 1.

Definition dull (t : history) (c : Syscall) : SysRes :=
  match c with
  | SysEpollCreate | SysEventfd | SysTimerfdCreate | SysSocket => res_ok (lawful_fd t)
  | SysAccept4 _ | SysReadv _ _ _ | SysRecv _ _ | SysSocketpair => res_err 11
  | SysGettimeofday => mkRes 0 0 (OutTime 1 0)
  | SysGetSocketError _ => mkRes 0 0 (OutInt 0)
  | _ => res_ok 0
  end.

Lemma lawful_fd_unused t : unused t (lawful_fd t) = true.
Proof.
  unfold unused, lawful_fd. set (l := elements (open_fds t)).
  assert (∀ fd, fd ∈ l → fd ≤ foldr Z.max 0 l) as Hle.
  { induction l as [|x l IH]; intros fd; [by intros ?%not_elem_of_nil|].
    intros [->|Hin]%elem_of_cons; cbn; [lia|]. specialize (IH fd Hin). lia. }
  assert (0 ≤ foldr Z.max 0 l) by (clear; induction l as [|x l IH]; cbn; lia).
  apply andb_true_intro. split; [by apply Z.leb_le; lia|]. apply bool_decide_eq_true.
  intros Hin. apply elem_of_elements in Hin. apply Hle in Hin. lia.
Qed.

Lemma dull_permitted t c : permits t c (dull t c) = true.
Proof.
  destruct c; cbn; try done; try apply lawful_fd_unused.
  all: try apply Z.leb_le, zlen_nonneg.
  - by destruct (ctl_valid t epfd op fd).
  - by destruct (bool_decide _).
Qed.

(** The behaviour of a lawful machine that proposes [f]; its state is the
    history. *)
Definition answer (f : history → Syscall → SysRes) (t : history) (c : Syscall) : SysRes :=
  if permits t c (f t c) then f t c else dull t c.
Definition machine (f : history → Syscall → SysRes) : Kernel history := λ c t,
  (answer f t c, t ++ [(c, answer f t c)]).

Lemma answer_permitted f t c : permits t c (answer f t c) = true.
Proof. unfold answer. destruct (permits t c (f t c)) eqn:E; [done|apply dull_permitted]. Qed.

Section AnyMachine.
Context (f : history → Syscall → SysRes).

#[export] Instance machine_lawful : Machine history (H := machine f).
Proof.
  refine (Build_Machine _ _ (λ k t, k = t) _ _).
  - by intros c k t r k' -> [= <- <-].
  - intros c k t r k' -> [= <- <-]. apply answer_permitted.
Defined.

#[export] Instance machine_writes : Writes history (H := machine f).
Proof.
  intros fd data k r k' [= <- _]. pose proof (answer_permitted f k (SysWrite fd data)) as Hp.
  by apply Z.leb_le in Hp.
Qed.

#[export] Instance machine_reads : Reads history (H := machine f).
Proof.
  intros fd len0 len1 k r k' [= <- _].
  pose proof (answer_permitted f k (SysReadv fd len0 len1)) as Hp. cbn [permits] in Hp.
  apply orb_prop in Hp as [Hp|Hp]; [left; by apply Z.ltb_lt in Hp|right].
  destruct (out _) as [| |bytes| | | |]; try done. apply andb_prop in Hp as [[Hp1 Hp2]%andb_prop _].
  exists bytes. split_and!; [done|by apply Z.eqb_eq|by apply Z.leb_le].
Qed.

#[export] Instance machine_clock : Clock history (H := machine f).
Proof.
  intros k. pose proof (answer_permitted f k SysGettimeofday) as Hp. cbn [permits] in Hp.
  unfold syscall, machine. set (r := answer f k SysGettimeofday) in *. clearbody r.
  destruct r as [v e o]. cbn in Hp. destruct o as [| | |sec usec| | |]; try done.
  apply andb_prop in Hp as [[Hp1 Hp2]%andb_prop Hp3]. apply Z.eqb_eq in Hp1 as ->.
  exists sec, usec, e. eexists. split; [done|]. by apply Z.ltb_lt in Hp2, Hp3.
Qed.
End AnyMachine.
