(* ===== verification/ConnFrame.v ===== *)
(** * ConnFrame

    What the operations of one connection leave alone: the other objects, the
    identity of its own, and every descriptor but its own. *)
From S2P Require Import Prelude Printf Buffer Timestamp World Channel EventLoop TimerQueue Net.
From S2P Require Import TcpConnection Acceptor TcpServer Connector TcpClient Reactor Posix.
Local Open Scope Z_scope.

(** The calls that a registered connection on descriptor [fd] makes, reading
    apart. *)
Definition on_stream (epfd fd : Z) (c : Syscall) : Prop :=
  match c with
  | SysWrite fd' _ | SysShutdownWr fd' | SysGetSocketError fd' | SysSetsockopt fd' _ _ => fd' = fd
  | SysEpollCtl e EPOLL_CTL_MOD fd' _ => e = epfd ∧ fd' = fd
  | SysWrite8 _ => True
  | _ => False
  end.

(** Reading included. *)
Definition on_conn (epfd fd : Z) (c : Syscall) : Prop :=
  on_stream epfd fd c ∨ match c with SysReadv fd' _ _ => fd' = fd | _ => False end.

(** Only the streams on descriptors in [mine] have moved. *)
Record calm (mine : Z → Prop) (t t' : history) : Prop := {
  ca_received fd : ¬ mine fd → received_on fd t' = received_on fd t;
  ca_written fd : ¬ mine fd → written fd t' = written fd t;
  ca_fin fd : ¬ mine fd → fin_sent fd t' = fin_sent fd t;
  ca_traffic : traffic t ≤ traffic t';
  ca_limit : traffic t ≤ kMaxTraffic → traffic t' ≤ kMaxTraffic;
  ca_ctl : ctl_ok t → ctl_ok t';
}.
Lemma calm_trans mine t1 t2 t3 : calm mine t1 t2 → calm mine t2 t3 → calm mine t1 t3.
Proof.
  intros [] []. split; [intros fd Hfd..|lia|auto|auto]; [by rewrite ca_received1, ca_received0
    |by rewrite ca_written1, ca_written0|by rewrite ca_fin1, ca_fin0].
Qed.

(** Calls that move no stream. *)
Lemma calm_snoc mine t sc r :
  match sc with
  | SysSocket | SysSocketpair | SysAccept4 _ | SysReadv _ _ _ | SysRecv _ _ | SysWrite _ _ | SysSend _ _
  | SysShutdownWr _ => False
  | SysEpollCtl _ _ _ _ => rv r = 0
  | _ => True
  end → calm mine t (t ++ [(sc, r)]).
Proof.
  intros Hsc. split; intros; rewrite ?received_snoc, ?written_snoc, ?fin_sent_snoc, ?traffic_snoc;
    try by destruct sc.
  apply ctl_ok_snoc; [done|]. by destruct sc.
Qed.

Lemma calm_accept t fd r : calm (.= rv r) t (t ++ [(SysAccept4 fd, r)]).
Proof.
  split; intros; rewrite ?received_snoc, ?written_snoc, ?fin_sent_snoc, ?traffic_snoc; cbn;
    try (by rewrite (proj2 (Z.eqb_neq _ _)) by congruence); try done.
  by apply ctl_ok_snoc.
Qed.

Lemma on_stream_same_streams epfd fd t evs :
  Forall (λ ev, on_stream epfd fd ev.1) evs → same_streams t (t ++ evs).
Proof.
  induction evs as [|[sc r] evs IH] in t |- *; intros Hon; [by rewrite app_nil_r|].
  apply Forall_cons in Hon as [Hsc Hon]. rewrite cons_middle, app_assoc.
  assert (takes_no_input sc = true) by by destruct sc.
  etrans; [by apply same_streams_snoc|by apply IH].
Qed.

Lemma on_conn_calm epfd fd t sc r :
  on_conn epfd fd sc → permits t sc r = true → is_Some (interest epfd t !! fd) →
  calm (λ fd', fd' = fd) t (t ++ [(sc, r)]) ∧ is_Some (interest epfd (t ++ [(sc, r)]) !! fd) ∧
  open_fds (t ++ [(sc, r)]) = open_fds t ∧ arrivals (t ++ [(sc, r)]) = arrivals t.
Proof.
  intros Hsc Hp Hin.
  assert (∀ fd', fd' ≠ fd → (fd =? fd') = false) as Hne by (intros; apply Z.eqb_neq; congruence).
  split_and!.
  - split.
    + intros fd' Hfd. rewrite received_snoc. destruct Hsc; destruct sc; try done.
      cbn. subst. by rewrite Hne.
    + intros fd' Hfd. rewrite written_snoc. destruct Hsc; destruct sc; try done.
      cbn in *. subst. by rewrite Hne.
    + intros fd' Hfd. rewrite fin_sent_snoc. destruct Hsc; destruct sc; try done.
      cbn in *. subst. by rewrite Hne, ?orb_false_r.
    + rewrite traffic_snoc. destruct Hsc; destruct sc; try done; cbn; lia.
    + intros Ht. rewrite traffic_snoc. destruct Hsc; destruct sc; try done. cbn in Hp |- *.
      apply orb_prop in Hp as [Hp%Z.ltb_lt|Hp]; [lia|]. destruct (out r); try done.
      apply andb_prop in Hp as [[Hp1%Z.eqb_eq _]%andb_prop Hp2%Z.leb_le].
      pose proof (zlen_nonneg bytes). lia.
    + intros Ht. apply ctl_ok_snoc; [done|]. destruct sc; try done. destruct Hsc as [Hsc|]; [|done].
      destruct op; try done. destruct Hsc as [-> ->]. cbn in Hp.
      rewrite bool_decide_eq_true_2 in Hp by done. by apply Z.eqb_eq.
  - rewrite interest_snoc. unfold interest_step. destruct (negb _); [done|].
    destruct Hsc as [Hsc|Hsc]; destruct sc; try done. destruct op; try done. destruct Hsc as [-> ->].
    rewrite Z.eqb_refl, lookup_insert_eq. by eexists.
  - rewrite open_fds_snoc. destruct Hsc; by destruct sc.
  - rewrite arrivals_snoc. destruct Hsc; by destruct sc.
Qed.

Lemma on_conn_effect epfd fd t evs :
  Forall (λ ev, on_conn epfd fd ev.1) evs → lawful t evs → is_Some (interest epfd t !! fd) →
  calm (λ fd', fd' = fd) t (t ++ evs) ∧ open_fds (t ++ evs) = open_fds t ∧
  arrivals (t ++ evs) = arrivals t.
Proof.
  induction evs as [|[sc r] evs IH] in t |- *; intros Hon Hlaw Hin; [by rewrite app_nil_r|].
  apply Forall_cons in Hon as [Hsc Hon]. destruct Hlaw as [Hp Hlaw].
  destruct (on_conn_calm epfd fd t sc r Hsc Hp Hin) as (Hc1&Hin1&Ho1&Ha1).
  destruct (IH _ Hon Hlaw Hin1) as (Hc2&Ho2&Ha2). rewrite cons_middle, app_assoc.
  split_and!; [by eapply calm_trans|congruence..].
Qed.

(** The parts of an object that its operations do not change. *)
Definition conn_static (x : TcpConnection) : TcpConnection :=
  x <| c_state := kConnecting |> <| inputBuffer_ := Buffer_ctor |> <| outputBuffer_ := Buffer_ctor |>.
Definition chan_static (x : Channel) : Channel := x <| events_ := 0 |>.
Definition loop_static (x : EventLoop) : EventLoop := x <| pendingFunctors_ := [] |>.
Definition server_static (x : TcpServer) : TcpServer := x <| connections_ := ∅ |>.

Section Frame.
Context {K U : Type} `{Machine K} `{UserCode K U}.
Abbreviation W := (World K U).
Implicit Types (w : W).

(** Connection [c], with channel [ci], has moved, and made calls in [P]; loops
    and servers are as before but for what [lp] and [sp] erase. *)
Record frame (P : Syscall → Prop) (lp : EventLoop → EventLoop) (sp : TcpServer → TcpServer)
    (c ci : nat) (w w' : W) : Prop := {
  fr_conns c' : c' ≠ c → conns w' !! c' = conns w !! c';
  fr_conn : conn_static <$> conns w' !! c = conn_static <$> conns w !! c;
  fr_chans i : i ≠ ci → chans w' !! i = chans w !! i;
  fr_chan : chan_static <$> chans w' !! ci = chan_static <$> chans w !! ci;
  fr_loops : lp <$> loops w' = lp <$> loops w;
  fr_servers : sp <$> servers w' = sp <$> servers w;
  fr_connectors : connectors w' = connectors w;
  fr_acceptors : acceptors w' = acceptors w;
  fr_clients : clients w' = clients w;
  fr_timers : timers w' = timers w;
  fr_cur : cur w' = cur w;
  fr_next : next_id w' = next_id w;
  fr_user : user w' = user w;
  fr_runs : runs P w w';
}.
#[export] Instance frame_preorder P lp sp c ci : PreOrder (frame P lp sp c ci).
Proof.
  split; [by split|]. intros w1 w2 w3 [] []. split; intros; try congruence.
  - by rewrite fr_conns1, fr_conns0.
  - by rewrite fr_chans1, fr_chans0.
  - by etrans.
Qed.

Lemma runs_weaken (P P' : Syscall → Prop) w w' :
  (∀ sc, P sc → P' sc) → runs P w w' → runs P' w w'.
Proof.
  intros HP (evs&?&HF&?). exists evs. split_and!; [done| |done].
  eapply Forall_impl; [exact HF|]. intros ev. apply HP.
Qed.

Lemma frame_weaken P P' lp sp c ci w w' :
  (∀ sc, P sc → P' sc) → frame P id id c ci w w' → frame P' lp sp c ci w w'.
Proof.
  intros HP []. rewrite !map_fmap_id in fr_loops0. rewrite !map_fmap_id in fr_servers0.
  split; try done; [by rewrite fr_loops0|by rewrite fr_servers0|by eapply runs_weaken].
Qed.

Lemma frame_on_conn ep fd lp sp c ci w w' :
  frame (on_stream ep fd) lp sp c ci w w' → frame (on_conn ep fd) lp sp c ci w w'.
Proof. intros []. split; try done. eapply runs_weaken; [|done]. by left. Qed.

(** Connection [c] of server [s], its registered channel [ci], its descriptor
    [fd], its loop [l] with the epoll descriptor [ep]. *)
Record site (c ci : nat) (fd : Z) (l : nat) (ep : Z) (s : nat) (w : W) : Prop := {
  st_conn : ∃ conn, conns w !! c = Some conn ∧ c_channel conn = ci ∧ c_fd conn = fd ∧
    c_loop conn = l ∧ c_closeCallback conn = Some (CloseServer s) ∧ writeCompleteCallback_ conn = None;
  st_chan : ∃ ch, chans w !! ci = Some ch ∧ ch_loop ch = l ∧ ch_fd ch = fd ∧
    registeredInEpoller_ ch = true;
  st_loop : ∃ loop, loops w !! l = Some loop ∧ epfd_ (epoller_ loop) = ep ∧ threadId_ loop = cur w;
}.

(** What may be erased of a loop: its pending calls. *)
Class keeps_loop (lp : EventLoop → EventLoop) : Prop := {
  keeps_loop_of x y : lp x = lp y → loop_static x = loop_static y;
}.

#[export] Instance keeps_loop_static : keeps_loop loop_static.
Proof. by split. Qed.
#[export] Instance keeps_loop_id : keeps_loop id.
Proof. split. intros x y E. cbn in E. by rewrite E. Qed.

Lemma site_frame P lp sp c ci fd l ep s w w' :
  keeps_loop lp → frame P lp sp c ci w w' → site c ci fd l ep s w → site c ci fd l ep s w'.
Proof.
  intros Hlp Hf [(conn&Hc&E1&E2&E3&E4) (ch&Hch&F1&F2&F3) (loop&Hl&G)]. split.
  - pose proof (fr_conn _ _ _ _ _ _ _ Hf) as E. rewrite Hc in E.
    apply fmap_Some in E as (conn'&Hc'&E). exists conn'.
    destruct conn, conn'. cbn in *. by simplify_eq.
  - pose proof (fr_chan _ _ _ _ _ _ _ Hf) as E. rewrite Hch in E.
    apply fmap_Some in E as (ch'&Hch'&E). exists ch'.
    destruct ch, ch'. cbn in *. by simplify_eq.
  - pose proof (f_equal (.!! l) (fr_loops _ _ _ _ _ _ _ Hf)) as E. rewrite !lookup_fmap, Hl in E.
    apply fmap_Some in E as (loop'&Hl'&E%keeps_loop_of). exists loop'. rewrite (fr_cur _ _ _ _ _ _ _ Hf).
    destruct loop, loop'. cbn in *. by simplify_eq.
Qed.

Section Ops.
Context (c ci : nat) (fd : Z) (l : nat) (ep : Z) (s : nat).
Context (lp : EventLoop → EventLoop) (sp : TcpServer → TcpServer) `{Hlp : !keeps_loop lp}.

(** An operation of the connection at this site. *)
Definition local (w w' : W) : Prop :=
  site c ci fd l ep s w → frame (on_stream ep fd) lp sp c ci w w'.

#[export] Instance local_preorder : PreOrder local.
Proof.
  split; [by intros w _|]. intros w1 w2 w3 H12 H23 Hs. etrans; [by apply H12|].
  apply H23. eapply site_frame; [done|by apply H12|done].
Qed.

Lemma local_get_conn {A} (k : TcpConnection → M W A) :
  (∀ conn, c_channel conn = ci → c_fd conn = fd → c_loop conn = l →
     c_closeCallback conn = Some (CloseServer s) → writeCompleteCallback_ conn = None →
     preserves local (k conn)) →
  preserves local (get_conn c ≫= k).
Proof.
  intros Hk w a w' Hrun Hs. destruct (st_conn _ _ _ _ _ _ _ Hs) as (conn&Hc&?&?&?&?&?).
  unfold get_conn in Hrun. rewrite (bind_Ret _ _ _ _ _ (deref_run _ _ _ _ _ Hc)) in Hrun.
  by apply (Hk conn) in Hrun; [apply Hrun|..].
Qed.

Lemma local_get_chan {A} (k : Channel → M W A) :
  (∀ ch, ch_loop ch = l → ch_fd ch = fd → registeredInEpoller_ ch = true → preserves local (k ch)) →
  preserves local (get_chan ci ≫= k).
Proof.
  intros Hk w a w' Hrun Hs. destruct (st_chan _ _ _ _ _ _ _ Hs) as (ch&Hc&?&?&?).
  unfold get_chan in Hrun. rewrite (bind_Ret _ _ _ _ _ (deref_run _ _ _ _ _ Hc)) in Hrun.
  by apply (Hk ch) in Hrun; [apply Hrun|..].
Qed.

Lemma local_get_loop {A} (k : EventLoop → M W A) :
  (∀ loop, epfd_ (epoller_ loop) = ep → preserves local (k loop)) →
  preserves local (get_loop l ≫= k).
Proof.
  intros Hk w a w' Hrun Hs. destruct (st_loop _ _ _ _ _ _ _ Hs) as (loop&Hc&?&_).
  unfold get_loop in Hrun. rewrite (bind_Ret _ _ _ _ _ (deref_run _ _ _ _ _ Hc)) in Hrun.
  by apply (Hk loop) in Hrun; [apply Hrun|..].
Qed.

(** The operations run in the loop's thread. *)
Lemma local_inLoopThread {A} (k : bool → M W A) :
  preserves local (k true) → preserves local (isInLoopThread l ≫= k).
Proof.
  intros Hk w a w' Hrun Hs. destruct (st_loop _ _ _ _ _ _ _ Hs) as (loop&Hl&_&Ht).
  assert (isInLoopThread l w = Ret true w) as E.
  { unfold isInLoopThread, get_loop. rewrite (bind_Ret _ _ _ _ _ (deref_run _ _ _ _ _ Hl)).
    cbv [get mbind M_bind mret M_ret]. by rewrite Ht, Z.eqb_refl. }
  rewrite (bind_Ret _ _ _ _ _ E) in Hrun. by apply (Hk w a w').
Qed.

Lemma local_deref {T} what (store : W → gmap nat T) p : preserves local (deref what store p).
Proof. unfold deref. preserve. Qed.

Lemma local_sys sc : on_stream ep fd sc → preserves local (sys sc).
Proof.
  intros Hsc w a w'. unfold sys. destruct (syscall sc (kern w)) as [r k] eqn:E.
  intros [= <- <-] _. split; try done. by apply runs_sys.
Qed.

Lemma lookup_alter_same {A B} (p : A → B) (f : A → A) i j (m : gmap nat A) :
  (∀ x, p (f x) = p x) → p <$> alter f i m !! j = p <$> m !! j.
Proof.
  intros Hf. rewrite lookup_alter. case_decide; [|done]. subst. destruct (m !! j); cbn; [by rewrite Hf|done].
Qed.

Lemma local_upd_conn f : (∀ x, conn_static (f x) = conn_static x) → preserves local (upd_conn c f).
Proof.
  intros Hf. apply preserves_modify. intros w _. split; try done.
  - intros c' Hne. cbn. by rewrite lookup_alter_ne.
  - cbn. by apply lookup_alter_same.
  - by apply runs_same.
Qed.

Lemma local_upd_chan f : (∀ x, chan_static (f x) = chan_static x) → preserves local (upd_chan ci f).
Proof.
  intros Hf. apply preserves_modify. intros w _. split; try done.
  - intros i Hne. cbn. by rewrite lookup_alter_ne.
  - cbn. by apply lookup_alter_same.
  - by apply runs_same.
Qed.

Lemma local_upd_loop l' f : (∀ x, lp (f x) = lp x) → preserves local (upd_loop l' f).
Proof.
  intros Hf. apply preserves_modify. intros w _. split; try done; [by apply fmap_alter_id|by apply runs_same].
Qed.

Lemma local_upd_server s' f :
  (∀ x, sp (f x) = sp x) → preserves local (upd_server s' f).
Proof.
  intros Hf. apply preserves_modify. intros w _. split; try done; [by apply fmap_alter_id|by apply runs_same].
Qed.

#[local] Hint Resolve local_deref local_upd_conn local_upd_chan local_upd_loop local_upd_server : preserves.
#[local] Hint Extern 1 (preserves local (sys _)) => apply local_sys; done : preserves.

(** Follow a program, with what is known of the connection's objects. *)
Ltac local_step :=
  match goal with
  | |- preserves _ (get_conn c ≫= _) => apply local_get_conn; intros ? ? ? ? ? ?
  | |- preserves _ (get_chan ci ≫= _) => apply local_get_chan; intros ? ? ? ?
  | |- preserves _ (get_loop l ≫= _) => apply local_get_loop; intros ? ?
  | |- preserves _ (isInLoopThread l ≫= _) => apply local_inLoopThread
  | H : writeCompleteCallback_ ?x = None |- context [writeCompleteCallback_ ?x] => rewrite H
  | H : c_channel ?x = ci |- context [c_channel ?x] => rewrite H
  | H : c_fd ?x = fd |- context [c_fd ?x] => rewrite H
  | H : c_loop ?x = l |- context [c_loop ?x] => rewrite H
  | H : ch_loop ?x = l |- context [ch_loop ?x] => rewrite H
  | H : ch_fd ?x = fd |- context [ch_fd ?x] => rewrite H
  | H : registeredInEpoller_ ?x = true |- context [registeredInEpoller_ ?x] => rewrite H; cbn [negb]
  | H : epfd_ (epoller_ ?x) = ep |- context [epfd_ (epoller_ ?x)] => rewrite H
  | _ => preserve_step
  end.
Ltac local_tac := repeat local_step.

Lemma local_get_loop' l' : preserves local (get_loop l').
Proof. apply local_deref. Qed.
Lemma local_get_server s' : preserves local (get_server s').
Proof. apply local_deref. Qed.
#[local] Hint Resolve local_get_loop' local_get_server : preserves.

Lemma local_isInLoopThread l' : preserves local (isInLoopThread l').
Proof. unfold isInLoopThread. preserve. Qed.
Lemma local_assertInLoopThread l' : preserves local (assertInLoopThread l').
Proof. unfold assertInLoopThread, isInLoopThread, abortNotInLoopThread. preserve. Qed.
#[local] Hint Resolve local_isInLoopThread local_assertInLoopThread : preserves.

Lemma local_update : preserves local (update ci).
Proof.
  unfold update. local_step. unfold updateChannel. local_tac. unfold updateChannelMap. local_tac.
  unfold epollMod. local_tac.
Qed.
#[local] Hint Resolve local_update : preserves.

Lemma local_on_output {A} (m : M Buffer A) : preserves local (on_output c m).
Proof. unfold on_output. local_tac. Qed.
Lemma local_on_input {A} (m : M Buffer A) : preserves local (on_input c m).
Proof. unfold on_input. local_tac. Qed.
#[local] Hint Resolve local_on_output local_on_input : preserves.

Lemma local_enableWriting : preserves local (enableWriting ci).
Proof. unfold enableWriting. local_tac. Qed.
Lemma local_disableWriting : preserves local (disableWriting ci).
Proof. unfold disableWriting. local_tac. Qed.
Lemma local_disableAll : preserves local (disableAll ci).
Proof. unfold disableAll. local_tac. Qed.
#[local] Hint Resolve local_enableWriting local_disableWriting local_disableAll : preserves.

Lemma local_sendInLoop message : preserves local (sendInLoop c message).
Proof. unfold sendInLoop. local_tac. Qed.
#[local] Hint Resolve local_sendInLoop : preserves.

(** *** The operations *)

Lemma local_send message : preserves local (send c message).
Proof. unfold send, runInLoop. local_tac. Qed.

Lemma local_shutdownInLoop : preserves local (shutdownInLoop c).
Proof. unfold shutdownInLoop, shutdownWrite, sock_shutdownWrite. local_tac. Qed.
#[local] Hint Resolve local_shutdownInLoop : preserves.

Lemma local_handleWrite : preserves local (handleWrite c).
Proof. unfold handleWrite. local_tac. Qed.

Lemma local_handleError : preserves local (handleError c).
Proof. unfold handleError, getSocketError. local_tac. Qed.

Lemma local_setTcpNoDelay on : preserves local (TcpConnection_setTcpNoDelay c on).
Proof. unfold TcpConnection_setTcpNoDelay, Socket_setTcpNoDelay. local_tac. Qed.

(** Closing queues a call and takes the connection out of its server. *)
Context (Hpending : ∀ x f, lp (x <| pendingFunctors_ ::= λ q, q ++ [f] |>) = lp x).
Context (Hfiled : ∀ x key, sp (x <| connections_ ::= delete key |>) = sp x).

Lemma local_queueInLoop l' f : preserves local (queueInLoop l' f).
Proof.
  unfold queueInLoop, wakeup. apply preserves_bind; [apply _|apply local_upd_loop; intros; apply Hpending|].
  local_tac.
Qed.
#[local] Hint Resolve local_queueInLoop : preserves.

Lemma local_removeConnection : preserves local (TcpServer_removeConnection s c).
Proof.
  unfold TcpServer_removeConnection, removeConnectionInLoop, runInLoop. local_tac.
Qed.
#[local] Hint Resolve local_removeConnection : preserves.

Lemma local_handleClose : preserves local (handleClose run_close c).
Proof.
  unfold handleClose. local_tac.
  match goal with E : c_closeCallback ?x = Some _ |- _ => rewrite E; cbn [call_opt run_close] end.
  local_tac.
Qed.
End Ops.
End Frame.
