(* ===== verification/StoreTyping.v ===== *)
(** * StoreTyping

    The typing of the store: every pointer held by an object of [reactor/]
    leads to an object of the class it is declared to point at, that has not
    been destroyed. The one pointer left out is [EventLoop::channellist_], the
    channels found by the last wait, which is cleared before each wait. *)
From S2P Require Import Prelude World.

Section Typing.
Context {K U : Type}.
Abbreviation W := (World K U).
Implicit Types (w : W).

Definition is_chan (i : nat) w : Prop := is_Some (chans w !! i).
Definition is_loop (l : nat) w : Prop := is_Some (loops w !! l).
Definition is_timer (t : nat) w : Prop := is_Some (timers w !! t).
Definition is_conn (c : nat) w : Prop := is_Some (conns w !! c).
Definition is_connector (k : nat) w : Prop := is_Some (connectors w !! k).
Definition is_acceptor (a : nat) w : Prop := is_Some (acceptors w !! a).
Definition is_server (s : nat) w : Prop := is_Some (servers w !! s).
Definition is_client (c : nat) w : Prop := is_Some (clients w !! c).

(** ** What is bound in callbacks and queued calls *)

Definition callback_typed (cb : Callback) w : Prop :=
  match cb with
  | CbLoopRead l | CbTimerRead l => is_loop l w
  | CbAcceptorRead a => is_acceptor a w
  | CbConnRead c | CbConnWrite c | CbConnClose c | CbConnError c => is_conn c w
  | CbConnectorWrite k | CbConnectorError k => is_connector k w
  | CbUser _ => True
  end.
Definition close_typed (cb : CloseCallBack) w : Prop :=
  match cb with
  | CloseServer s => is_server s w
  | CloseClient c => is_client c w
  | CloseDetail l => is_loop l w
  end.
Definition functor_typed (f : Functor) w : Prop :=
  match f with
  | FAddTimerInLoop l t => is_loop l w ∧ is_timer t w
  | FSendInLoop c _ | FShutdownInLoop c | FConnectDestoryed c | FWriteComplete _ c => is_conn c w
  | FSetCloseCallBack c cb => is_conn c w ∧ close_typed cb w
  | FRemoveConnectionInLoop s c => is_server s w ∧ is_conn c w
  | FListen a => is_acceptor a w
  | FStartInLoop k | FResetChannel k | FRemoveConnector k => is_connector k w
  | FUser _ => True
  end.
Definition new_connection_typed (cb : NewConnectionCallBack) w : Prop :=
  match cb with
  | NewConnServer s => is_server s w
  | NewConnClient c => is_client c w
  | NewConnUser _ => True
  end.

(** ** Objects *)

Definition opt_typed {A} (P : A → W → Prop) (x : option A) w : Prop := ∀ a, x = Some a → P a w.

Definition channel_typed (x : Channel) w : Prop :=
  is_loop (ch_loop x) w ∧ opt_typed callback_typed (readCallback_ x) w ∧
  opt_typed callback_typed (writeCallback_ x) w ∧ opt_typed callback_typed (errorCallback_ x) w ∧
  opt_typed callback_typed (closeCallback_ x) w.
Definition loop_typed (x : EventLoop) w : Prop :=
  (∀ fd i, channels_ (epoller_ x) !! fd = Some i → is_chan i w) ∧
  is_chan (timerfdchannel_ (timerqueue_ x)) w ∧ is_chan (wakeupchannel_ x) w ∧
  Forall (λ e : Entry, is_timer e.2 w) (timerlist_ (timerqueue_ x)) ∧
  Forall (λ f, functor_typed f w) (pendingFunctors_ x).
Definition conn_typed (x : TcpConnection) w : Prop :=
  is_loop (c_loop x) w ∧ is_chan (c_channel x) w ∧ opt_typed close_typed (c_closeCallback x) w.
Definition connector_typed (x : Connector) w : Prop :=
  is_loop (k_loop x) w ∧ opt_typed is_chan (k_channel x) w ∧
  opt_typed new_connection_typed (k_newConnection x) w.
Definition acceptor_typed (x : Acceptor) w : Prop :=
  is_loop (a_loop x) w ∧ is_chan (acceptChannel_ x) w ∧
  opt_typed new_connection_typed (newConnectionCallback_ x) w.
Definition server_typed (x : TcpServer) w : Prop :=
  is_loop (s_loop x) w ∧ is_acceptor (acceptor_ x) w ∧ is_loop (baseLoop_ (threadPool_ x)) w ∧
  Forall (λ l, is_loop l w) (loops_ (threadPool_ x)) ∧
  ∀ name c, connections_ x !! name = Some c → is_conn c w.
Definition client_typed (x : TcpClient) w : Prop :=
  is_loop (cl_loop x) w ∧ is_connector (connector_ x) w ∧ opt_typed is_conn (connection_ x) w.

Record store_typed w : Prop := {
  ty_chans i x : chans w !! i = Some x → channel_typed x w;
  ty_loops l x : loops w !! l = Some x → loop_typed x w;
  ty_timers t x : timers w !! t = Some x → functor_typed (callback_ x) w;
  ty_conns c x : conns w !! c = Some x → conn_typed x w;
  ty_connectors k x : connectors w !! k = Some x → connector_typed x w;
  ty_acceptors a x : acceptors w !! a = Some x → acceptor_typed x w;
  ty_servers s x : servers w !! s = Some x → server_typed x w;
  ty_clients c x : clients w !! c = Some x → client_typed x w;
}.

Lemma opt_typed_None {A} (P : A → W → Prop) w : opt_typed P None w.
Proof. by intros a. Qed.
Lemma opt_typed_Some {A} (P : A → W → Prop) a w : P a w → opt_typed P (Some a) w.
Proof. by intros Ha b [= <-]. Qed.
End Typing.

Create HintDb typed.
#[export] Hint Resolve opt_typed_None opt_typed_Some : typed.
