(* ===== verification/ServerInvariant.v ===== *)
(** * ServerInvariant

    The invariant of all the objects of [example/pingpong_server.cc] with one
    thread, the descriptors they use and the streams on them, and the steps
    that keep it: those that move one connection, and those that only mark
    channels and the loop. *)
From S2P Require Import Prelude Printf Buffer Timestamp World Channel EventLoop TimerQueue Net.
From S2P Require Import TcpConnection Acceptor TcpServer Connector TcpClient Reactor Echo.
From S2P Require Import Posix ConnFrame.
Local Open Scope Z_scope.

(** Where the objects of the program are, and their descriptors. *)
Record layout := mkLayout {
  ly_loop : nat; ly_timer : nat; ly_wake : nat; ly_accept : nat;   (* the loop, its channels *)
  ly_server : nat; ly_acceptor : nat;
  ly_epfd : Z; ly_timerfd : Z; ly_wakefd : Z; ly_listenfd : Z;
}.

(** Everything about a channel that only its own registration changes, and
    about a loop that polling leaves alone. *)
Definition chan_mark (x : Channel) : Channel := x <| revents_ := 0 |> <| eventHandling_ := false |>.
Definition loop_mark (x : EventLoop) : EventLoop :=
  x <| looping_ := false |> <| callingdoPendingFunctions_ := false |> <| epollReturnTime_ := 0 |>
    <| channellist_ := [] |> <| epoller_ ::= λ e, e <| nevents_ := 0 |> |>.

Lemma elem_of_cons_ne (c c' : nat) l : c' ≠ c → c' ∈ c :: l ↔ c' ∈ l.
Proof. intros Hne. rewrite elem_of_cons. split; [by intros [?|?]|by right]. Qed.
Lemma elem_of_snoc_ne (c c' : nat) l : c' ≠ c → c' ∈ l ++ [c] ↔ c' ∈ l.
Proof. intros Hne. rewrite elem_of_app, list_elem_of_singleton. split; [by intros [?|?]|by left]. Qed.
Lemma elem_of_snoc_eq (c : nat) l : c ∈ l ++ [c].
Proof. apply elem_of_app. right. by left. Qed.
Lemma fresh_notin (c : nat) : c ∉ [].
Proof. by intros ?%elem_of_nil. Qed.

(** The descriptors of a set of connections, when one is changed, made or
    destroyed. *)
Definition fd_used (m : gmap nat TcpConnection) (fd : Z) : Prop := ∃ c conn, m !! c = Some conn ∧ c_fd conn = fd.

Lemma fd_used_same m m' c conn conn' fd :
  m !! c = Some conn → m' !! c = Some conn' → c_fd conn' = c_fd conn →
  (∀ c', c' ≠ c → m' !! c' = m !! c') → fd_used m' fd ↔ fd_used m fd.
Proof.
  intros Hc Hc' Efd Hm. split; intros (c2&x&Hx&<-); destruct (decide (c2 = c)) as [->|Hne].
  - exists c, conn. split; [done|congruence].
  - exists c2, x. by rewrite <- Hm.
  - exists c, conn'. split; [done|congruence].
  - exists c2, x. by rewrite Hm.
Qed.
Lemma fd_used_insert m c conn fd :
  m !! c = None → fd_used (<[c := conn]> m) fd ↔ fd = c_fd conn ∨ fd_used m fd.
Proof.
  intros Hc. split.
  - intros (c'&x&[[<- <-]|[_ Hx]]%lookup_insert_Some&<-); [by left|right; by exists c', x].
  - intros [->|(c'&x&Hx&<-)].
    + exists c, conn. by rewrite lookup_insert_eq.
    + exists c', x. rewrite lookup_insert_ne; [done|congruence].
Qed.
Lemma fd_used_delete m c conn fd :
  m !! c = Some conn → (∀ c' x, c' ≠ c → m !! c' = Some x → c_fd x ≠ c_fd conn) →
  fd_used (delete c m) fd ↔ fd_used m fd ∧ fd ≠ c_fd conn.
Proof.
  intros Hc Hne. split.
  - intros (c'&x&[Hn Hx]%lookup_delete_Some&<-). split; [by exists c', x|]. by apply (Hne c').
  - intros [(c'&x&Hx&<-) Hfd]. exists c', x. rewrite lookup_delete_ne; [done|]. intros <-. congruence.
Qed.

(** The channel whose event is being handled, and those that come next. *)
Definition focus : Type := option nat * list nat.
Definition idle : focus := (None, []).

Section Server.
Context {K : Type} `{Kernel K} `{!Machine K} `{!Clock K} `{!Writes K} `{!Reads K}.
Abbreviation W := (World K unit).
Implicit Types (w : W) (c i : nat) (closing gone : list nat) (h : focus).
#[local] Instance server_code : UserCode K unit := echo_code.

Section Invariant.
Context (ly : layout).

Definition fixed_ids : list nat := [ly_timer ly; ly_wake ly; ly_accept ly].
Definition base_fds : list Z := [ly_epfd ly; ly_timerfd ly; ly_wakefd ly; ly_listenfd ly].

(** *** The fixed objects *)

Record loop_wired (pending : list Functor) (loop : EventLoop) (w : W) : Prop := {
  lw_quit : quit_ loop = false;
  lw_thread : threadId_ loop = cur w;
  lw_wakefd : wakeupfd_ loop = ly_wakefd ly;
  lw_epfd : epfd_ (epoller_ loop) = ly_epfd ly;
  lw_nevents : 0 ≤ nevents_ (epoller_ loop);
  lw_timers : timerqueue_ loop = mkTimerQueue (ly_timerfd ly) (ly_timer ly) [];
  lw_wakechan : wakeupchannel_ loop = ly_wake ly;
  lw_pending : pendingFunctors_ loop = pending;
}.

Record server_wired (server : TcpServer) (w : W) : Prop := {
  sw_loop : s_loop server = ly_loop ly;
  sw_acceptor : acceptor_ server = ly_acceptor ly;
  sw_pool : threadPool_ server = (EventLoopThreadPool_ctor (ly_loop ly)) <| p_started := true |>;
  sw_connection : s_connectionCallback server = Some kPingpong;
  sw_message : s_messageCallback server = Some kPingpong;
  sw_names : names_ok server;
  sw_count : nextConnfd_ server = 1 + arrivals (trace w);
}.

Definition fixed_channel (fd : Z) (cb : Callback) (x : Channel) : Prop :=
  chan_mark x = mkChannel (ly_loop ly) fd false true false kReadEvent 0 (Some cb) None None None.

(** *** Connections *)

Definition conn_channel (c : nat) (fd : Z) (reg : bool) (ev : Z) (x : Channel) : Prop :=
  chan_mark x = mkChannel (ly_loop ly) fd false reg false ev 0 (Some (CbConnRead c))
    (Some (CbConnWrite c)) (Some (CbConnError c)) (Some (CbConnClose c)).

Lemma conn_channel_fields c fd reg ev x :
  conn_channel c fd reg ev x → ch_loop x = ly_loop ly ∧ ch_fd x = fd ∧ enableet_ x = false ∧
    registeredInEpoller_ x = reg ∧ events_ x = ev ∧ readCallback_ x = Some (CbConnRead c) ∧
    writeCallback_ x = Some (CbConnWrite c) ∧ errorCallback_ x = Some (CbConnError c).
Proof. unfold conn_channel, chan_mark. destruct x. cbn. intros. split_and!; congruence. Qed.

Lemma fixed_channel_fields fd cb x :
  fixed_channel fd cb x → ch_loop x = ly_loop ly ∧ ch_fd x = fd ∧ registeredInEpoller_ x = true ∧
    readCallback_ x = Some cb ∧ writeCallback_ x = None ∧ errorCallback_ x = None.
Proof. unfold fixed_channel, chan_mark. destruct x. cbn. intros. split_and!; congruence. Qed.

Record conn_wired (c : nat) (conn : TcpConnection) : Prop := {
  cw_loop : c_loop conn = ly_loop ly;
  cw_channel : c_channel conn = S c;
  cw_connection : connectionCallback_ conn = Some kPingpong;
  cw_message : messageCallback_ conn = Some kPingpong;
  cw_complete : writeCompleteCallback_ conn = None;
  cw_close : c_closeCallback conn = Some (CloseServer (ly_server ly));
}.

Definition filed (c : nat) (name : string) (w : W) : Prop :=
  ∃ server, servers w !! ly_server ly = Some server ∧ connections_ server !! name = Some c.

(** An established connection: it has sent back what it received, or still
    holds the rest, and is about to send it. *)
Record alive (c : nat) (conn : TcpConnection) (w : W) : Prop := {
  al_stream : ∃ ch loop, stream_inv c conn ch loop (kMaxTraffic - traffic (trace w))
    (mkStream (received_on (c_fd conn) (trace w)) true) w;
  al_wf : wf (inputBuffer_ conn);
  al_empty : content (inputBuffer_ conn) = [];
  al_size : zlen (buffer_ (inputBuffer_ conn)) ≤ kCheapPrepend + kInitialSize + traffic (trace w);
  al_filed : filed c (c_name conn) w;
}.

(** The states of a connection: established; closed by its peer, its
    destruction queued; disconnected, about to be destroyed. *)
Definition conn_phase (closing gone : list nat) (c : nat) (conn : TcpConnection) (w : W) : Prop :=
  if bool_decide (c ∈ closing) then
    c_state conn = kConnected ∧ ∃ ch, chans w !! S c = Some ch ∧ conn_channel c (c_fd conn) true kNoneEvent ch
  else if bool_decide (c ∈ gone) then
    c_state conn = kDisConnected ∧ ∃ ch, chans w !! S c = Some ch ∧ conn_channel c (c_fd conn) false kNoneEvent ch
  else alive c conn w ∧ ∃ ch ev, chans w !! S c = Some ch ∧ conn_channel c (c_fd conn) true ev ch.

(** The flags of a channel while the event of channel [h] is handled. *)
Definition flags_ok (h : focus) (i : nat) (x : Channel) : Prop :=
  eventHandling_ x = bool_decide (h.1 = Some i) ∧ event_ok (revents_ x) = true.

(** *** The whole store

    [closing] and [gone] are the connections in the last two states, [h] the
    channels whose events are being handled, [pending] the pending calls. *)
Record serving (closing gone : list nat) (h : focus) (pending : list Functor) (w : W) : Prop := {
  sv_kernel : reachable_kernel w;
  sv_ctl : ctl_ok (trace w);
  sv_traffic : traffic (trace w) ≤ kMaxTraffic;
  sv_loop : ∃ loop, loops w = {[ly_loop ly := loop]} ∧ loop_wired pending loop w;
  sv_registration : registration (ly_loop ly) w;
  sv_server : ∃ server, servers w = {[ly_server ly := server]} ∧ server_wired server w;
  sv_acceptor : acceptors w !! ly_acceptor ly =
    Some (mkAcceptor (ly_loop ly) (ly_listenfd ly) (ly_accept ly) (Some (NewConnServer (ly_server ly))) true);
  sv_timers : timers w = ∅;
  sv_clients : clients w = ∅;
  sv_connectors : connectors w = ∅;
  sv_acceptors i a : acceptors w !! i = Some a → i = ly_acceptor ly;
  sv_timer : ∃ x, chans w !! ly_timer ly = Some x ∧ fixed_channel (ly_timerfd ly) (CbTimerRead (ly_loop ly)) x;
  sv_wake : ∃ x, chans w !! ly_wake ly = Some x ∧ fixed_channel (ly_wakefd ly) (CbLoopRead (ly_loop ly)) x;
  sv_accept : ∃ x, chans w !! ly_accept ly = Some x ∧
    fixed_channel (ly_listenfd ly) (CbAcceptorRead (ly_acceptor ly)) x;
  sv_conns c conn : conns w !! c = Some conn → conn_wired c conn ∧ conn_phase closing gone c conn w;
  sv_filed key c : filed c key w →
    ∃ conn, conns w !! c = Some conn ∧ c_name conn = key ∧ (c ∉ closing) ∧ c ∉ gone;
  sv_chans i x : chans w !! i = Some x →
    (i ∈ fixed_ids ∨ (∃ c, i = S c ∧ is_Some (conns w !! c))) ∧
    (i < next_id w)%nat ∧ flags_ok h i x;
  sv_handled i : h.1 = Some i ∨ i ∈ h.2 → is_Some (chans w !! i);
  sv_nodup : NoDup (closing ++ gone);
  sv_present c : c ∈ closing ++ gone → is_Some (conns w !! c);
  sv_fds c1 c2 conn1 conn2 : conns w !! c1 = Some conn1 → conns w !! c2 = Some conn2 →
    c_fd conn1 = c_fd conn2 → c1 = c2;
  sv_base c conn : conns w !! c = Some conn → c_fd conn ∉ base_fds;
  sv_open fd : fd ∈ open_fds (trace w) ↔
    fd ∈ base_fds ∨ fd_used (conns w) fd;
  sv_prefix fd : written fd (trace w) `prefix_of` received_on fd (trace w);
}.

(** While events are handled, the queued calls are the destructions of the
    connections that were closed. *)
Definition busy (closing : list nat) (h : focus) (w : W) : Prop :=
  serving closing [] h (map FConnectDestoryed closing) w.

(** *** Steps that leave most of the store alone *)

(** Only the connections in [own], and the streams on descriptors in [mine],
    may have changed. *)
Record aside (own : nat → Prop) (mine : Z → Prop) (w w' : W) : Prop := {
  as_conns c : ¬ own c → conns w' !! c = conns w !! c;
  as_chans i : (∀ c, i = S c → ¬ own c) → chan_mark <$> chans w' !! i = chan_mark <$> chans w !! i;
  as_acceptors : acceptors w' = acceptors w;
  as_timers : timers w' = timers w;
  as_clients : clients w' = clients w;
  as_connectors : connectors w' = connectors w;
  as_cur : cur w' = cur w;
  as_next : (next_id w ≤ next_id w')%nat;
  as_kernel : reachable_kernel w → reachable_kernel w';
  as_calm : calm mine (trace w) (trace w');
}.

Lemma stream_inv_transport c conn ch loop room s w ch' loop' room' w' :
  stream_inv c conn ch loop room s w → conns w' !! c = Some conn →
  chans w' !! c_channel conn = Some ch' → chan_mark ch' = chan_mark ch →
  loops w' !! c_loop conn = Some loop' → threadId_ loop' = cur w' →
  registration (c_loop conn) w' → written (c_fd conn) (trace w') = written (c_fd conn) (trace w) →
  fin_sent (c_fd conn) (trace w') = fin_sent (c_fd conn) (trace w) → room' ≤ room →
  stream_inv c conn ch' loop' room' s w'.
Proof.
  intros [[] ? ? ? ? ?] Hc Hch Hm Hl Ht HR Hw Hf Hroom.
  assert (ch_loop ch' = ch_loop ch ∧ ch_fd ch' = ch_fd ch ∧ events_ ch' = events_ ch ∧
    registeredInEpoller_ ch' = registeredInEpoller_ ch) as (E1&E2&E3&E4)
    by (destruct ch, ch'; cbn in *; by simplify_eq).
  split; [|lia|unfold isWriting in *; by rewrite E3|by rewrite Hw|done|by rewrite Hf].
  split; try done; try congruence. split; [by apply registration_weaken|done].
Qed.

Lemma chan_mark_lookup own mine w w' i x :
  aside own mine w w' → (∀ c, i = S c → ¬ own c) → chans w !! i = Some x →
  ∃ x', chans w' !! i = Some x' ∧ chan_mark x' = chan_mark x.
Proof.
  intros Ha Hi Hx. pose proof (as_chans _ _ _ _ Ha i Hi) as E. rewrite Hx in E.
  apply fmap_Some in E as (x'&?&?). eauto.
Qed.

Lemma alive_aside own mine c conn w w' loop' :
  aside own mine w w' → ¬ own c → ¬ mine (c_fd conn) → conns w !! c = Some conn →
  conn_wired c conn → registration (ly_loop ly) w' →
  loops w' !! ly_loop ly = Some loop' → threadId_ loop' = cur w' →
  (∀ name, filed c name w → filed c name w') → alive c conn w → alive c conn w'.
Proof.
  intros Ha Ho Hm Hc [El Eci] HR Hl Ht Hfile [(ch&loop&Hs) ? ? ? ?].
  pose proof (as_calm _ _ _ _ Ha) as []. pose proof (si_live _ _ _ _ _ _ _ Hs) as [].
  destruct (chan_mark_lookup own mine w w' (S c) ch Ha) as (ch'&Hch'&Em);
    [by intros c' [= <-]|by rewrite <- Eci|].
  split; try done; [|lia|by apply Hfile]. exists ch', loop'. rewrite ca_received by done.
  eapply (stream_inv_transport c conn ch loop _ _ w); try done.
  - by rewrite (as_conns _ _ _ _ Ha).
  - by rewrite Eci.
  - by rewrite El.
  - by rewrite El.
  - by apply ca_written.
  - by apply ca_fin.
  - lia.
Qed.

Lemma conn_channel_aside own mine c fd reg ev w w' x :
  aside own mine w w' → ¬ own c → chans w !! S c = Some x → conn_channel c fd reg ev x →
  ∃ x', chans w' !! S c = Some x' ∧ conn_channel c fd reg ev x'.
Proof.
  intros Ha Ho Hx Hch. destruct (chan_mark_lookup own mine w w' (S c) x Ha) as (x'&Hx'&Em);
    [by intros c' [= <-]|done|]. exists x'. split; [done|]. unfold conn_channel in *. congruence.
Qed.

Lemma fixed_aside own mine w w' i fd cb :
  aside own mine w w' → (∀ c, own c → S c ∉ fixed_ids) → i ∈ fixed_ids →
  (∃ x, chans w !! i = Some x ∧ fixed_channel fd cb x) →
  ∃ x', chans w' !! i = Some x' ∧ fixed_channel fd cb x'.
Proof.
  intros Ha Hfix Hi (x&Hx&Hch). destruct (chan_mark_lookup own mine w w' i x Ha) as (x'&Hx'&Em); [|done|].
  - intros c -> Ho. by apply (Hfix c).
  - exists x'. split; [done|]. unfold fixed_channel in *. congruence.
Qed.

Lemma phase_aside own mine closing gone closing' gone' c conn w w' loop' :
  aside own mine w w' → ¬ own c → ¬ mine (c_fd conn) → conns w !! c = Some conn →
  conn_wired c conn → registration (ly_loop ly) w' →
  loops w' !! ly_loop ly = Some loop' → threadId_ loop' = cur w' →
  (∀ name, filed c name w → filed c name w') →
  (c ∈ closing' ↔ c ∈ closing) → (c ∈ gone' ↔ c ∈ gone) →
  conn_phase closing gone c conn w → conn_phase closing' gone' c conn w'.
Proof.
  intros Ha Ho Hm Hc Hw HR Hl Ht Hfile Hi1 Hi2 Hph. unfold conn_phase in *.
  rewrite (bool_decide_ext _ _ Hi1), (bool_decide_ext _ _ Hi2).
  destruct (bool_decide (c ∈ closing)); [|destruct (bool_decide (c ∈ gone))].
  - destruct Hph as (?&x&Hx&?). split; [done|]. by eapply conn_channel_aside.
  - destruct Hph as (?&x&Hx&?). split; [done|]. by eapply conn_channel_aside.
  - destruct Hph as (Hal&x&ev&Hx&Hch). split; [by eapply alive_aside|].
    destruct (conn_channel_aside own mine c (c_fd conn) true ev w w' x) as (x'&?&?); eauto.
Qed.

Lemma serving_step own mine closing gone h pending closing' gone' h' pending' w w'
    {Hown_dec : ∀ c, Decision (own c)} {Hmine_dec : ∀ fd, Decision (mine fd)} :
  serving closing gone h pending w → aside own mine w w' →
  (∀ c conn, conns w !! c = Some conn → mine (c_fd conn) → own c) →
  (∀ c, own c → S c ∉ fixed_ids) → registration (ly_loop ly) w' →
  (∃ loop, loops w' = {[ly_loop ly := loop]} ∧ loop_wired pending' loop w') →
  (∃ server, servers w' = {[ly_server ly := server]} ∧ server_wired server w') →
  (∀ i x, chans w' !! i = Some x → flags_ok h' i x) → (∀ i, h'.1 = Some i ∨ i ∈ h'.2 → is_Some (chans w' !! i)) →
  (∀ key c, ¬ own c → (filed c key w' ↔ filed c key w)) →
  (∀ key c, own c → filed c key w' →
     ∃ conn, conns w' !! c = Some conn ∧ c_name conn = key ∧ (c ∉ closing') ∧ c ∉ gone') →
  (∀ c conn, own c → conns w' !! c = Some conn → conn_wired c conn ∧
     conn_phase closing' gone' c conn w' ∧ (c_fd conn ∉ base_fds) ∧
     (∀ c2 conn2, c2 ≠ c → conns w' !! c2 = Some conn2 → c_fd conn2 ≠ c_fd conn)) →
  (∀ c x, own c → chans w' !! S c = Some x → is_Some (conns w' !! c) ∧ (S c < next_id w')%nat) →
  NoDup (closing' ++ gone') →
  (∀ c, ¬ own c → (c ∈ closing' ↔ c ∈ closing) ∧ (c ∈ gone' ↔ c ∈ gone)) →
  (∀ c, own c → c ∈ closing' ++ gone' → is_Some (conns w' !! c)) →
  (∀ fd, fd ∈ open_fds (trace w') ↔ fd ∈ base_fds ∨ fd_used (conns w') fd) →
  (∀ fd, mine fd → written fd (trace w') `prefix_of` received_on fd (trace w')) →
  serving closing' gone' h' pending' w'.
Proof.
  intros [] Ha Hmine Hfix HR (loop&Hl&Hlw) Hs Hflags Hhandled Hfile Hfile_own Hown Hown_ch Hnd Hlists Hpres
    Hopen Hprefix.
  assert (loops w' !! ly_loop ly = Some loop) as Hl' by (rewrite Hl; apply lookup_singleton_eq).
  pose proof (as_calm _ _ _ _ Ha) as Hcalm.
  split; try done.
  - by apply Ha.
  - by apply (ca_ctl _ _ _ Hcalm).
  - by apply (ca_limit _ _ _ Hcalm).
  - by exists loop.
  - by rewrite (as_acceptors _ _ _ _ Ha).
  - by rewrite (as_timers _ _ _ _ Ha).
  - by rewrite (as_clients _ _ _ _ Ha).
  - by rewrite (as_connectors _ _ _ _ Ha).
  - by rewrite (as_acceptors _ _ _ _ Ha).
  - eapply fixed_aside; [exact Ha|done|by left|done].
  - eapply fixed_aside; [exact Ha|done|by right; left|done].
  - eapply fixed_aside; [exact Ha|done|by right; right; left|done].
  - intros c conn Hc. destruct (decide (own c)) as [Ho|Ho]; [by apply Hown in Hc as (?&?&_)|].
    rewrite (as_conns _ _ _ _ Ha) in Hc by done. destruct (sv_conns0 c conn Hc) as [Hw Hph].
    split; [done|]. destruct (Hlists c Ho) as [Hi1 Hi2].
    eapply phase_aside; try done; [|by apply Hlw|intros name; by apply Hfile].
    intros Hm. by apply Ho, (Hmine c conn).
  - intros key c Hf. destruct (decide (own c)) as [Ho|Ho]; [by apply Hfile_own|].
    apply Hfile in Hf; [|done]. destruct (sv_filed0 key c Hf) as (conn&?&?&?&?).
    exists conn. rewrite (as_conns _ _ _ _ Ha) by done. destruct (Hlists c Ho) as [-> ->]. done.
  - intros i x Hx. assert ((∃ c, i = S c ∧ own c) ∨ (∀ c, i = S c → ¬ own c)) as [(c&->&Ho)|Hi].
    { destruct i as [|c]; [by right|]. destruct (decide (own c)); [left; eauto|right]. by intros c' [= <-]. }
    + destruct (Hown_ch c x Ho Hx) as [? ?]. split_and!; [right; eauto|done|by apply Hflags].
    + pose proof (as_chans _ _ _ _ Ha i Hi) as E. rewrite Hx in E. symmetry in E.
      apply fmap_Some in E as (x0&Hx0&_). destruct (sv_chans0 i x0 Hx0) as (Hor&Hlt&_).
      pose proof (as_next _ _ _ _ Ha). split_and!; [|lia|by apply Hflags].
      destruct Hor as [?|(c&->&Hc)]; [by left|right]. exists c. split; [done|].
      by rewrite (as_conns _ _ _ _ Ha) by by apply Hi.
  - intros c Hc. destruct (decide (own c)) as [Ho|Ho]; [by apply Hpres|].
    rewrite (as_conns _ _ _ _ Ha) by done. apply sv_present0. destruct (Hlists c Ho) as [H1 H2].
    apply elem_of_app in Hc as [?|?]; apply elem_of_app; [left; by apply H1|right; by apply H2].
  - intros c1 c2 conn1 conn2 Hc1 Hc2 Efd. destruct (decide (c1 = c2)) as [|Hne]; [done|exfalso].
    destruct (decide (own c1)) as [Ho1|Ho1]; [by apply (proj2 (proj2 (proj2 (Hown c1 conn1 Ho1 Hc1))) c2 conn2)|].
    destruct (decide (own c2)) as [Ho2|Ho2]; [by apply (proj2 (proj2 (proj2 (Hown c2 conn2 Ho2 Hc2))) c1 conn1)|].
    rewrite (as_conns _ _ _ _ Ha) in Hc1, Hc2 by done. by apply Hne, (sv_fds0 c1 c2 conn1 conn2).
  - intros c conn Hc. destruct (decide (own c)) as [Ho|Ho]; [by apply (Hown c conn)|].
    rewrite (as_conns _ _ _ _ Ha) in Hc by done. by apply (sv_base0 c conn).
  - intros fd. destruct (decide (mine fd)) as [Hm|Hm]; [by apply Hprefix|].
    by rewrite (ca_written _ _ _ Hcalm), (ca_received _ _ _ Hcalm).
Qed.

(** *** Waiting, marking, and calls that move nothing *)

Lemma inert_effect t evs :
  Forall (λ ev, inert ev.1 = true) evs →
  calm (λ _, False) t (t ++ evs) ∧ same_streams t (t ++ evs) ∧
  (∀ epfd, interest epfd (t ++ evs) = interest epfd t).
Proof.
  induction evs as [|[sc r] evs IH] in t |- *; intros Hin; [by rewrite app_nil_r|].
  apply Forall_cons in Hin as [Hsc Hin]. destruct (IH (t ++ [(sc, r)]) Hin) as ([]&Hs&Hi).
  pose proof (same_streams_snoc t sc r (inert_no_input _ Hsc)) as Hs1.
  rewrite cons_middle, app_assoc. split_and!; [|by etrans|].
  - split.
    + intros fd Hm. by rewrite ca_received, (ss_received _ _ Hs1).
    + intros fd Hm. rewrite ca_written by done. by apply inert_written.
    + intros fd Hm. rewrite ca_fin by done. by apply inert_written.
    + by rewrite <- (ss_traffic _ _ Hs1).
    + by rewrite <- (ss_traffic _ _ Hs1).
    + intros Ht. apply ca_ctl. by apply inert_ctl_ok.
  - intros epfd. rewrite Hi, interest_snoc. unfold interest_step. destruct (negb _); [done|]. by destruct sc.
Qed.

(** Only marks, and what polling changes of the loop. *)
Record marked (w w' : W) : Prop := {
  mk_chans i : chan_mark <$> chans w' !! i = chan_mark <$> chans w !! i;
  mk_loops : loop_mark <$> loops w' = loop_mark <$> loops w;
  mk_conns : conns w' = conns w;
  mk_servers : servers w' = servers w;
  mk_acceptors : acceptors w' = acceptors w;
  mk_timers : timers w' = timers w;
  mk_clients : clients w' = clients w;
  mk_connectors : connectors w' = connectors w;
  mk_cur : cur w' = cur w;
  mk_next : next_id w' = next_id w;
  mk_runs : runs (λ sc, inert sc = true) w w';
}.
#[export] Instance marked_preorder : PreOrder marked.
Proof.
  split; [by split|]. intros w1 w2 w3 [] []. split; intros; try congruence. by etrans.
Qed.

Lemma registration_transport l loop loop' w w' :
  registration l w → loops w !! l = Some loop → loops w' !! l = Some loop' →
  channels_ (epoller_ loop') = channels_ (epoller_ loop) → epfd_ (epoller_ loop') = epfd_ (epoller_ loop) →
  (∀ i, chan_mark <$> chans w' !! i = chan_mark <$> chans w !! i) →
  (∀ epfd, interest epfd (trace w') = interest epfd (trace w)) → registration l w'.
Proof.
  intros (loop0&Hl0&Hm&Hw) Hl Hl' Ech Eep Hch Hint. rewrite Hl in Hl0. injection Hl0 as <-.
  assert (∀ i x, chans w !! i = Some x → ∃ x', chans w' !! i = Some x' ∧ chan_mark x' = chan_mark x) as Hto.
  { intros i x Hx. pose proof (Hch i) as E. rewrite Hx in E. apply fmap_Some in E as (x'&?&?). eauto. }
  assert (∀ i x', chans w' !! i = Some x' → ∃ x, chans w !! i = Some x ∧ chan_mark x' = chan_mark x) as Hfrom.
  { intros i x Hx. pose proof (Hch i) as E. rewrite Hx in E. symmetry in E.
    apply fmap_Some in E as (x'&?&?). eauto. }
  exists loop'. split; [done|]. split.
  - intros fd c. rewrite Ech, (Hm fd c). split.
    + intros (x&Hx&?&?&?). destruct (Hto c x Hx) as (x'&Hx'&E). exists x'. split; [done|].
      destruct x, x'. cbn in *. by simplify_eq.
    + intros (x&Hx&?&?&?). destruct (Hfrom c x Hx) as (x'&Hx'&E). exists x'. split; [done|].
      destruct x, x'. cbn in *. by simplify_eq.
  - intros fd. specialize (Hw fd). unfold watch_ok in *. rewrite Eep, Hint, Hw, Ech.
    destruct (channels_ (epoller_ loop) !! fd) as [c|]; [|done]. cbn.
    destruct (chans w !! c) as [x|] eqn:Hx.
    + destruct (Hto c x Hx) as (x'&->&E). cbn. destruct x, x'. cbn in *. by simplify_eq.
    + pose proof (Hch c) as E. rewrite Hx in E. by apply fmap_None in E as ->.
Qed.

Lemma loop_marked loop w w' :
  marked w w' → loops w = {[ly_loop ly := loop]} →
  ∃ loop', loops w' = {[ly_loop ly := loop']} ∧ loop_mark loop' = loop_mark loop.
Proof.
  intros Hm Hl. pose proof (mk_loops _ _ Hm) as E. rewrite Hl, map_fmap_singleton in E.
  assert (dom (loops w') = {[ly_loop ly]}) as Hd.
  { rewrite <- (dom_fmap_L loop_mark (loops w')), E. apply dom_singleton_L. }
  pose proof (f_equal (.!! ly_loop ly) E) as El. rewrite lookup_fmap, lookup_singleton_eq in El.
  apply fmap_Some in El as (loop'&Hl'&El). exists loop'. split; [|done].
  apply map_eq. intros i. destruct (decide (i = ly_loop ly)) as [->|Hne].
  - by rewrite Hl', lookup_singleton_eq.
  - rewrite lookup_singleton_ne by done. apply not_elem_of_dom. rewrite Hd. set_solver.
Qed.

(** The lists of connections and the descriptors in use are as they were. *)
Lemma serving_marked closing gone h h' pending w w' :
  serving closing gone h pending w → marked w w' →
  (∀ i x, chans w' !! i = Some x → flags_ok h' i x) → (∀ i, h'.1 = Some i ∨ i ∈ h'.2 → is_Some (chans w' !! i)) →
  (∀ loop, loops w' !! ly_loop ly = Some loop → 0 ≤ nevents_ (epoller_ loop)) →
  serving closing gone h' pending w'.
Proof.
  intros Hs Hm Hflags Hhandled Hn. pose proof Hs as [].
  destruct sv_loop0 as (loop&El&[]), sv_server0 as (server&Es&[]).
  destruct (loop_marked loop w w' Hm El) as (loop'&El'&Emark).
  assert (loops w' !! ly_loop ly = Some loop') as Hl' by (rewrite El'; apply lookup_singleton_eq).
  destruct (mk_runs _ _ Hm) as (evs&Et&Hin&Hk).
  destruct (inert_effect (trace w) evs Hin) as (Hcalm&Hss&Hint). rewrite <- Et in Hcalm, Hss, Hint.
  assert (∀ key c, filed c key w' ↔ filed c key w) as Hfile.
  { intros key c. unfold filed. by rewrite (mk_servers _ _ Hm). }
  eapply (serving_step (λ _, False) (λ _, False) closing gone h pending); try apply _; try done.
  - split; try apply Hm; try done.
    + intros c _. by rewrite (mk_conns _ _ Hm).
    + intros i _. apply Hm.
    + by rewrite (mk_next _ _ Hm).
    + intros Hr. by apply Hk.
  - eapply (registration_transport (ly_loop ly) loop loop' w w'); try done.
    + rewrite El. apply lookup_singleton_eq.
    + destruct loop as [?????? [] ????], loop' as [?????? [] ????]. cbn in *. by simplify_eq.
    + destruct loop as [?????? [] ????], loop' as [?????? [] ????]. cbn in *. by simplify_eq.
    + apply Hm.
  - exists loop'. split; [done|]. specialize (Hn loop' Hl').
    destruct loop as [?????? [] ????], loop' as [?????? [] ????]. cbn in *. simplify_eq.
    split; cbn; try done. by rewrite (mk_cur _ _ Hm).
  - exists server. rewrite (mk_servers _ _ Hm). split; [done|]. split; try done. by rewrite (ss_arrivals _ _ Hss).
  - intros fd. rewrite (ss_open _ _ Hss), sv_open0. by rewrite (mk_conns _ _ Hm).
Qed.

(** *** Programs that only mark *)

Lemma marked_modify f :
  (∀ w : W, marked w (f w)) → preserves marked (modify f).
Proof. apply preserves_modify. Qed.

Lemma marked_sys sc : inert sc = true → preserves marked (sys sc).
Proof.
  intros Hsc w a w'. unfold sys. destruct (syscall sc (kern w)) as [r k] eqn:E. intros [= <- <-].
  split; try done. by apply runs_sys.
Qed.

Lemma marked_upd_loop l f : (∀ x, loop_mark (f x) = loop_mark x) → preserves marked (upd_loop l f).
Proof.
  intros Hf. apply preserves_modify. intros w. split; try done; [by apply fmap_alter_id|by apply runs_same].
Qed.

Lemma marked_upd_chan i f : (∀ x, chan_mark (f x) = chan_mark x) → preserves marked (upd_chan i f).
Proof.
  intros Hf. apply preserves_modify. intros w. split; try done; [|by apply runs_same].
  intros j. cbn. by apply lookup_alter_same.
Qed.

Lemma marked_deref {T} what (store : W → gmap nat T) p : preserves marked (deref what store p).
Proof. unfold deref. preserve. Qed.

#[local] Hint Resolve marked_upd_loop marked_upd_chan marked_deref : preserves.
#[local] Hint Extern 1 (preserves marked (sys _)) => apply marked_sys; done : preserves.

Lemma marked_now : preserves marked now.
Proof. unfold now. preserve. Qed.
#[local] Hint Resolve marked_now : preserves.

Lemma marked_epoll l timeoutMs : preserves marked (epoll l timeoutMs).
Proof.
  unfold epoll, assertInLoopThread, isInLoopThread, abortNotInLoopThread, fillActiveChannels, get_loop,
    setrevents, upd_epoller. preserve.
  all: match goal with |- preserves _ (iterM _ ?l) => induction l; cbn [iterM]; preserve end.
Qed.

End Invariant.
End Server.
