(* ===== verification/ServerSteps.v ===== *)
(** * ServerSteps

    The events of the pingpong server: what handling those of a connection, of
    the wake-up descriptor and of the timers does to the invariant of
    [ServerInvariant]. *)
From S2P Require Import Prelude Printf Buffer Timestamp World Channel EventLoop TimerQueue Net.
From S2P Require Import TcpConnection Acceptor TcpServer Connector TcpClient Reactor Echo.
From S2P Require Import Posix ConnFrame ServerInvariant.
Local Open Scope Z_scope.

Section Steps.
Context {K : Type} `{Kernel K} `{!Machine K} `{!Clock K} `{!Writes K} `{!Reads K}.
Abbreviation W := (World K unit).
Implicit Types (w : W) (c i : nat) (closing gone : list nat) (h : focus).
#[local] Instance steps_code : UserCode K unit := echo_code.
Context {ly : layout}.
Abbreviation serving := (serving ly).
Abbreviation busy := (busy ly).

(** ** What the invariant says of one connection *)

Lemma serving_alive closing gone h pending c conn w :
  serving closing gone h pending w → conns w !! c = Some conn → c ∉ closing → c ∉ gone →
  conn_wired ly c conn ∧ alive ly c conn w ∧
  ∃ ch ev, chans w !! S c = Some ch ∧ conn_channel ly c (c_fd conn) true ev ch.
Proof.
  intros Hs Hc Hn1 Hn2. destruct (sv_conns _ _ _ _ _ _ Hs c conn Hc) as [Hw Hph].
  unfold conn_phase in Hph. rewrite !bool_decide_eq_false_2 in Hph by done. by destruct Hph.
Qed.

(** A registered channel is watched by the kernel. *)
Lemma watched l loop i ch w :
  registration l w → loops w !! l = Some loop → chans w !! i = Some ch → ch_loop ch = l →
  registeredInEpoller_ ch = true →
  interest (epfd_ (epoller_ loop)) (trace w) !! ch_fd ch = Some (events_ ch).
Proof.
  intros (loop'&Hl'&Hm&Hw) Hl Hi Hown Hreg. rewrite Hl in Hl'. injection Hl' as <-.
  specialize (Hw (ch_fd ch)). unfold watch_ok in Hw. rewrite Hw.
  assert (channels_ (epoller_ loop) !! ch_fd ch = Some i) as -> by (apply Hm; eauto).
  cbn. by rewrite Hi.
Qed.

Lemma serving_site closing gone h pending c conn w :
  serving closing gone h pending w → conns w !! c = Some conn → c ∉ closing → c ∉ gone →
  site c (S c) (c_fd conn) (ly_loop ly) (ly_epfd ly) (ly_server ly) w ∧
  is_Some (interest (ly_epfd ly) (trace w) !! c_fd conn).
Proof.
  intros Hs Hc Hn1 Hn2.
  destruct (serving_alive _ _ _ _ _ _ _ Hs Hc Hn1 Hn2) as ([]&_&ch&ev&Hch&Hmark).
  destruct (sv_loop _ _ _ _ _ _ Hs) as (loop&El&[]).
  assert (loops w !! ly_loop ly = Some loop) as Hl by (rewrite El; apply lookup_singleton_eq).
  destruct (conn_channel_fields _ _ _ _ _ _ Hmark) as (E1&E2&_&E3&_).
  split.
  - split; [exists conn; split_and!; done|by exists ch|by exists loop].
  - rewrite <- E2, <- lw_epfd. eexists.
    eapply (watched (ly_loop ly) loop (S c)); [exact (sv_registration _ _ _ _ _ _ Hs)|exact Hl|exact Hch|exact E1|exact E3].
Qed.

Lemma serving_channel closing gone h pending c conn w :
  serving closing gone h pending w → conns w !! c = Some conn →
  conn_wired ly c conn ∧
  ∃ x reg ev, chans w !! S c = Some x ∧ conn_channel ly c (c_fd conn) reg ev x.
Proof.
  intros Hs Hc. destruct (sv_conns _ _ _ _ _ _ Hs c conn Hc) as [Hw Hph]. split; [done|].
  unfold conn_phase in Hph. repeat case_bool_decide; [..|destruct Hph as (_&x&ev&?&?); eauto];
    destruct Hph as (_&x&?&?); eauto.
Qed.

Lemma conn_not_fixed closing gone h pending c conn w :
  serving closing gone h pending w → conns w !! c = Some conn → S c ∉ fixed_ids ly.
Proof.
  intros Hs Hc Hin. destruct (serving_channel _ _ _ _ _ _ _ Hs Hc) as (_&x&reg&ev&Hx&Hch).
  destruct (conn_channel_fields _ _ _ _ _ _ Hch) as (_&_&_&_&_&E&_).
  destruct (sv_timer _ _ _ _ _ _ Hs) as (x1&H1&F1), (sv_wake _ _ _ _ _ _ Hs) as (x2&H2&F2),
    (sv_accept _ _ _ _ _ _ Hs) as (x3&H3&F3).
  apply fixed_channel_fields in F1 as (_&_&_&F1&_), F2 as (_&_&_&F2&_), F3 as (_&_&_&F3&_).
  unfold fixed_ids in Hin. rewrite !elem_of_cons in Hin.
  destruct Hin as [Ei|[Ei|[Ei|Hin%elem_of_nil]]]; [..|done]; rewrite <- Ei in *; congruence.
Qed.

(** Calls that move nothing keep the invariant. *)
Lemma wp_serving_sys closing gone h pending sc (Q : SysRes → W → Prop) w :
  serving closing gone h pending w → inert sc = true →
  (∀ r k, permits (trace w) sc r = true →
     let w' := w <| kern := k |> <| trace ::= λ t, t ++ [(sc, r)] |> in
     serving closing gone h pending w' → Q r w') →
  wp (sys sc) Q w.
Proof.
  intros Hs Hsc HQ. apply wp_sys. intros r k E. apply HQ.
  { eapply consistent_permits; [apply Hs|exact E]. }
  destruct (sv_loop _ _ _ _ _ _ Hs) as (loop&El&[]).
  eapply serving_marked; [exact Hs| | |by apply Hs|].
  - split; try done. by apply (runs_sys (λ sc, inert sc = true) sc r k).
  - intros i x Hx. by apply (sv_chans _ _ _ _ _ _ Hs i x).
  - intros loop' Hl. cbn in Hl. rewrite El, lookup_singleton_eq in Hl. by injection Hl as <-.
Qed.

(** ** A connection moves *)

Lemma moved_aside lp sp closing gone h pending c conn w w' :
  serving closing gone h pending w → conns w !! c = Some conn → c ∉ closing → c ∉ gone →
  frame (on_conn (ly_epfd ly) (c_fd conn)) lp sp c (S c) w w' →
  aside (.= c) (.= c_fd conn) w w' ∧ open_fds (trace w') = open_fds (trace w) ∧
  arrivals (trace w') = arrivals (trace w).
Proof.
  intros Hs Hc Hn1 Hn2 Hf. pose proof (sv_kernel _ _ _ _ _ _ Hs) as Hk.
  destruct (serving_site _ _ _ _ _ _ _ Hs Hc Hn1 Hn2) as [_ Hin].
  pose proof Hf as []. destruct fr_runs as (evs&Et&Hon&Hlaw). destruct (Hlaw Hk) as [Hk' Hl].
  destruct (on_conn_effect _ _ _ _ Hon Hl Hin) as (Hcalm&Ho&Ha). rewrite <- Et in Hcalm, Ho, Ha.
  split; [|done]. split; try done.
  - intros i Hi. rewrite fr_chans; [done|]. intros ->. by apply (Hi c).
  - by rewrite fr_next.
Qed.

Lemma moved_conn P lp sp c conn w w' :
  frame P lp sp c (S c) w w' → conns w !! c = Some conn → conn_wired ly c conn →
  ∃ conn', conns w' !! c = Some conn' ∧ conn_wired ly c conn' ∧ c_fd conn' = c_fd conn ∧
    c_name conn' = c_name conn.
Proof.
  intros Hf Hc []. pose proof (fr_conn _ _ _ _ _ _ _ Hf) as Ec. rewrite Hc in Ec.
  apply fmap_Some in Ec as (conn'&Hc'&E). exists conn'. split; [done|].
  destruct conn, conn'. cbn in *. simplify_eq. done.
Qed.

(** Connection [c], established so far, has moved, possibly to its end. *)
Lemma serving_moved lp sp closing closing' h pending pending' c conn loop' server' w w' :
  serving closing [] h pending w → conns w !! c = Some conn → c ∉ closing →
  frame (on_conn (ly_epfd ly) (c_fd conn)) lp sp c (S c) w w' → ctl_ok (trace w') →
  registration (ly_loop ly) w' →
  loops w' = {[ly_loop ly := loop']} → loop_wired ly pending' loop' w' →
  servers w' = {[ly_server ly := server']} → server_wired ly server' w' →
  (∀ key c', c' ≠ c → filed ly c' key w' ↔ filed ly c' key w) →
  (∀ key, filed ly c key w' → filed ly c key w ∧ c ∉ closing') →
  (∀ conn', conns w' !! c = Some conn' → conn_phase ly closing' [] c conn' w') →
  (∀ c', c' ≠ c → c' ∈ closing' ↔ c' ∈ closing) → NoDup closing' →
  written (c_fd conn) (trace w') `prefix_of` received_on (c_fd conn) (trace w') →
  serving closing' [] h pending' w'.
Proof.
  intros Hs Hc Hn Hf Hctl HR Hl Hlw Hsv Hsw Hfile Hfile_c Hphase Hlists Hnd Hprefix.
  destruct (moved_aside lp sp closing [] h pending c conn w w') as (Ha&Ho&Harr); try done; [set_solver|].
  pose proof Hs as []. destruct (sv_conns c conn Hc) as [Hwired _].
  destruct (moved_conn _ _ _ c conn w w' Hf Hc Hwired) as (conn'&Hc'&Hwired'&Efd&Ename).
  assert (∀ c2 conn2, c2 ≠ c → conns w' !! c2 = Some conn2 → conns w !! c2 = Some conn2) as Hothers.
  { intros c2 conn2 Hne Hc2. by rewrite (fr_conns _ _ _ _ _ _ _ Hf) in Hc2. }
  assert (∀ i x, chans w' !! i = Some x → ∃ x0, chans w !! i = Some x0 ∧
    eventHandling_ x = eventHandling_ x0 ∧ revents_ x = revents_ x0) as Hchans.
  { intros i x Hx. destruct (decide (i = S c)) as [->|Hne].
    - pose proof (fr_chan _ _ _ _ _ _ _ Hf) as E. rewrite Hx in E. symmetry in E.
      apply fmap_Some in E as (x0&Hx0&E). exists x0. destruct x, x0. cbn in *. by simplify_eq.
    - rewrite (fr_chans _ _ _ _ _ _ _ Hf) in Hx by done. by exists x. }
  eapply (serving_step ly (.= c) (.= c_fd conn) closing [] h pending closing'); try apply _; try done.
  - intros c2 conn2 Hc2 Ef. by apply (sv_fds c2 c conn2 conn).
  - intros c2 ->. by eapply conn_not_fixed.
  - by exists loop'.
  - by exists server'.
  - intros i x Hx. destruct (Hchans i x Hx) as (x0&Hx0&E1&E2). destruct (sv_chans i x0 Hx0) as (_&_&F1&F2).
    split; congruence.
  - intros i Hi. apply sv_handled in Hi as [x Hx]. destruct (decide (i = S c)) as [->|Hne].
    + pose proof (fr_chan _ _ _ _ _ _ _ Hf) as E. rewrite Hx in E. apply fmap_Some in E as (x'&Hx'&_). by eexists.
    + rewrite (fr_chans _ _ _ _ _ _ _ Hf) by done. by eexists.
  - intros key c2 -> Hfiled. destruct (Hfile_c key Hfiled) as [Hw Hn'].
    destruct (sv_filed key c Hw) as (conn0&Hc0&<-&_). exists conn'. split_and!; [done| |done|set_solver].
    congruence.
  - intros c2 conn2 -> Hc2. rewrite Hc' in Hc2. injection Hc2 as <-. split_and!; [done|by apply Hphase| |].
    + rewrite Efd. by apply (sv_base c).
    + intros c2 conn2 Hne Hc2. apply Hothers in Hc2; [|done]. rewrite Efd. intros E.
      by apply Hne, (sv_fds c2 c conn2 conn).
  - intros c2 x -> Hx. split; [by eexists|]. destruct (Hchans (S c) x Hx) as (x0&Hx0&_).
    rewrite (fr_next _ _ _ _ _ _ _ Hf). by apply (sv_chans (S c) x0).
  - by rewrite app_nil_r.
  - intros c2 Hne. split; [by apply Hlists|done].
  - intros c2 -> _. by eexists.
  - intros fd. rewrite Ho, sv_open, (fd_used_same (conns w) (conns w') c conn conn'); try done. apply Hf.
  - intros fd ->. done.
Qed.

Lemma moved_channel lp sp closing gone h pending c conn w w' :
  serving closing gone h pending w → conns w !! c = Some conn → c ∉ closing → c ∉ gone →
  frame (on_conn (ly_epfd ly) (c_fd conn)) lp sp c (S c) w w' →
  ∃ ch ev, chans w' !! S c = Some ch ∧ conn_channel ly c (c_fd conn) true ev ch.
Proof.
  intros Hs Hc Hn1 Hn2 Hf.
  destruct (serving_alive _ _ _ _ _ _ _ Hs Hc Hn1 Hn2) as (_&_&ch&ev&Hch&Hmark).
  pose proof (fr_chan _ _ _ _ _ _ _ Hf) as E. rewrite Hch in E.
  apply fmap_Some in E as (ch'&Hch'&E). exists ch', (events_ ch'). split; [done|].
  unfold conn_channel, chan_mark, chan_static in *. destruct ch, ch'. cbn in *. congruence.
Qed.

Lemma alive_inv c conn w :
  conn_wired ly c conn → alive ly c conn w →
  poll_ok (S c) (ly_loop ly) w ∧
  written (c_fd conn) (trace w) `prefix_of` received_on (c_fd conn) (trace w).
Proof.
  intros [El Ec] [(ch&loop&Hinv) _ _ _ _]. split.
  - rewrite <- Ec, <- El. apply (si_live _ _ _ _ _ _ _ Hinv).
  - pose proof (si_stream _ _ _ _ _ _ _ Hinv) as E. cbn in E. rewrite E. by eexists.
Qed.

(** Connection [c] has moved and is still established. *)
Lemma busy_stays closing h c conn w w' :
  busy closing h w → conns w !! c = Some conn → c ∉ closing →
  frame (on_conn (ly_epfd ly) (c_fd conn)) id id c (S c) w w' →
  (∀ conn', conns w' !! c = Some conn' → alive ly c conn' w') → busy closing h w'.
Proof.
  unfold busy. set (pending := map _ _). intros Hs Hc Hn Hf Halive.
  destruct (moved_aside id id closing [] h pending c conn w w') as (Ha&_&Harr); try done; [set_solver|].
  pose proof (fr_loops _ _ _ _ _ _ _ Hf) as El. rewrite !map_fmap_id in El.
  pose proof (fr_servers _ _ _ _ _ _ _ Hf) as Es. rewrite !map_fmap_id in Es.
  destruct (sv_conns _ _ _ _ _ _ Hs c conn Hc) as [Hwired _].
  destruct (moved_conn _ _ _ c conn w w' Hf Hc Hwired) as (conn'&Hc'&Hwired'&Efd&Ename).
  destruct (alive_inv c conn' w' Hwired' (Halive conn' Hc')) as [[_ HR] Hprefix].
  assert (ctl_ok (trace w')) as Hctl by (apply (ca_ctl _ _ _ (as_calm _ _ _ _ Ha)), Hs).
  destruct (sv_loop _ _ _ _ _ _ Hs) as (loop&Hl&[]), (sv_server _ _ _ _ _ _ Hs) as (server&Hsv&[]).
  assert (∀ key c', filed ly c' key w' ↔ filed ly c' key w) as Hfile by (intros; unfold filed; by rewrite Es).
  eapply (serving_moved id id closing closing h pending pending c conn loop server); try done.
  - by apply HR.
  - by rewrite El.
  - split; try done. by rewrite (fr_cur _ _ _ _ _ _ _ Hf).
  - by rewrite Es.
  - split; try done. by rewrite Harr.
  - intros key Hf'. by apply Hfile in Hf'.
  - intros conn2 Hc2. unfold conn_phase. rewrite !bool_decide_eq_false_2 by set_solver.
    rewrite Hc' in Hc2. injection Hc2 as <-. split; [by apply Halive|]. rewrite Efd.
    eapply (moved_channel id id); try done. set_solver.
  - pose proof (sv_nodup _ _ _ _ _ _ Hs). by rewrite app_nil_r in *.
  - by rewrite <- Efd.
Qed.

(** Connection [c] has been closed: it is no longer filed, and the call that
    will destroy it is queued. *)
Lemma busy_leaves closing h c conn conn' ch' server loop' w w' :
  busy closing h w → conns w !! c = Some conn → c ∉ closing →
  frame (on_conn (ly_epfd ly) (c_fd conn)) loop_static server_static c (S c) w w' →
  conns w' !! c = Some conn' → c_state conn' = kConnected →
  chans w' !! S c = Some ch' → events_ ch' = kNoneEvent →
  loops w' !! ly_loop ly = Some loop' →
  pendingFunctors_ loop' = map FConnectDestoryed (closing ++ [c]) →
  poll_ok (S c) (ly_loop ly) w' →
  servers w !! ly_server ly = Some server →
  servers w' !! ly_server ly = Some (server <| connections_ ::= delete (c_name conn) |>) →
  written (c_fd conn) (trace w') `prefix_of` received_on (c_fd conn) (trace w') →
  busy (closing ++ [c]) h w'.
Proof.
  unfold busy. set (pending := map _ closing). intros Hs Hc Hn Hf Hc' Hst Hch' Hev Hl' Hp HR Hsv Hsv' Hprefix.
  destruct (moved_aside loop_static server_static closing [] h pending c conn w w' Hs Hc Hn) as (Ha&_&Harr); [set_solver|done|].
  assert (ctl_ok (trace w')) as Hctl by (apply (ca_ctl _ _ _ (as_calm _ _ _ _ Ha)), Hs).
  destruct (sv_loop _ _ _ _ _ _ Hs) as (loop&El&Hlw), (sv_server _ _ _ _ _ _ Hs) as (server0&Es&Hsw).
  pose proof Hsv as Hsv0. rewrite Es, lookup_singleton_Some in Hsv0. destruct Hsv0 as [_ ->].
  pose proof (fr_loops _ _ _ _ _ _ _ Hf) as Fl. rewrite El, map_fmap_singleton in Fl.
  apply map_fmap_singleton_inv in Fl as (loop1&Fl&El'). rewrite El', lookup_singleton_eq in Hl'.
  injection Hl' as ->.
  pose proof (fr_servers _ _ _ _ _ _ _ Hf) as Fs. rewrite Es, map_fmap_singleton in Fs.
  apply map_fmap_singleton_inv in Fs as (server1&_&Es'). pose proof Hsv' as Hsv1.
  rewrite Es', lookup_singleton_eq in Hsv1. injection Hsv1 as ->.
  assert (∀ key c', filed ly c' key w' ↔ filed ly c' key w ∧ key ≠ c_name conn) as Hfile.
  { intros key c'. unfold filed. split.
    - intros (s'&Hs'&Hin). rewrite Hsv' in Hs'. injection Hs' as <-. cbn in Hin.
      apply lookup_delete_Some in Hin as [Hne Hin]. split; [by exists server|done].
    - intros [(s'&Hs'&Hin) Hne]. rewrite Hsv in Hs'. injection Hs' as <-. eexists. split; [exact Hsv'|].
      cbn. by rewrite lookup_delete_ne. }
  destruct (serving_alive _ _ _ _ _ _ _ Hs Hc Hn (fresh_notin c)) as (Hwired&[]&_).
  eapply (serving_moved loop_static server_static closing (closing ++ [c]) h pending); try done.
  - by apply HR.
  - destruct Hlw. destruct loop, loop'. cbn in *. simplify_eq.
    split; cbn; try done. by rewrite (fr_cur _ _ _ _ _ _ _ Hf).
  - destruct Hsw. split; cbn; try done; [by apply names_ok_delete|by rewrite Harr].
  - intros key c' Hne. rewrite Hfile. split; [by intros [? _]|]. intros Hfiled. split; [done|].
    intros ->. destruct al_filed as (s1&Hs1&Hin1), Hfiled as (s2&Hs2&Hin2). congruence.
  - intros key Hfiled. apply Hfile in Hfiled as [Hfiled Hne].
    destruct (sv_filed _ _ _ _ _ _ Hs key c Hfiled) as (conn0&Hc0&E&_). congruence.
  - intros conn2 Hc2. rewrite Hc' in Hc2. injection Hc2 as <-. unfold conn_phase.
    rewrite bool_decide_eq_true_2 by apply elem_of_snoc_eq. split; [done|]. exists ch'. split; [done|].
    destruct (moved_channel loop_static server_static closing [] h pending c conn w w' Hs Hc Hn) as (ch2&ev&Hch2&Hmark);
      [set_solver|done|]. rewrite Hch' in Hch2. injection Hch2 as <-.
    pose proof (conn_channel_fields _ _ _ _ _ _ Hmark) as (_&_&_&_&<-&_). rewrite <- Hev.
    destruct (moved_conn _ _ _ c conn w w' Hf Hc Hwired) as (conn2&Hc2&_&Efd&_).
    rewrite Hc' in Hc2. injection Hc2 as <-. by rewrite Efd.
  - intros c' Hne. by rewrite elem_of_snoc_ne.
  - apply NoDup_app. split_and!; [|by intros x Hx ->%list_elem_of_singleton|by apply NoDup_singleton].
    pose proof (sv_nodup _ _ _ _ _ _ Hs). by rewrite app_nil_r in *.
Qed.

Lemma frame_same_streams ep fd lp sp c ci w w' :
  frame (on_stream ep fd) lp sp c ci w w' → same_streams (trace w) (trace w').
Proof.
  intros []. destruct fr_runs as (evs&->&Hon&_). by eapply on_stream_same_streams.
Qed.

(** [handleClose] of an established connection. *)
Lemma wp_busy_close closing h c conn w :
  busy closing h w → conns w !! c = Some conn → c ∉ closing →
  wp (handleClose run_close c) (λ _ w', busy (closing ++ [c]) h w') w.
Proof.
  intros Hb Hc Hn. pose proof Hb as Hs. unfold busy in Hs. set (pending := map _ closing) in Hs.
  destruct (serving_alive _ _ _ _ _ _ _ Hs Hc Hn (fresh_notin c)) as ([]&[(ch&loop&Hinv)]&_).
  destruct (serving_site _ _ _ _ _ _ _ Hs Hc Hn (fresh_notin c)) as [Hsite _].
  pose proof (si_live _ _ _ _ _ _ _ Hinv) as Hlive. pose proof (si_state _ _ _ _ _ _ _ Hinv) as Hst.
  destruct (sv_loop _ _ _ _ _ _ Hs) as (loop0&El&[]), al_filed as (server&Hsv&Hfiled).
  assert (loop0 = loop) as ->.
  { pose proof (lv_loop _ _ _ _ _ Hlive) as E. rewrite cw_loop, El, lookup_singleton_eq in E. by injection E. }
  apply (wp_preserves (local c (S c) (c_fd conn) (ly_loop ly) (ly_epfd ly) (ly_server ly) loop_static server_static)).
  { by apply local_handleClose. }
  eapply wp_handleClose; [exact Hlive|by left|exact cw_close|]. cbn [run_close].
  intros w1 evs1 Hlive1 Et1 Hq1 Es1. rewrite <- Es1 in Hsv.
  destruct (sv_server _ _ _ _ _ _ Hs) as (server0&Es&Hsw).
  assert (server0 = server) as -> by (rewrite Es1, Es, lookup_singleton_eq in Hsv; by injection Hsv).
  eapply (wp_removeConnection (ly_server ly) c server); [exact Hlive1| |exact Hsv|exact Hfiled|].
  { by rewrite cw_loop, (sw_loop _ _ _ Hsw). }
  intros w2 evs2 Hlive2 Hsv2 Et2 Hq2 Hloc. specialize (Hloc Hsite).
  pose proof Hlive2 as []. rewrite cw_loop in lv_loop, lv_registration. rewrite cw_channel in lv_chan, lv_registration.
  eapply (busy_leaves closing h c conn conn); try done.
  - by apply frame_on_conn.
  - cbn. by rewrite lw_pending, map_app.
  - by rewrite <- Es1.
  - destruct (frame_same_streams _ _ _ _ _ _ _ _ Hloc) as [-> _ _ _].
    assert (written (c_fd conn) (trace w2) = written (c_fd conn) (trace w)) as ->; [|apply Hs].
    rewrite Et2, Et1, <- app_assoc. apply quiet_stream. by apply Forall_app.
Qed.

(** ** Reading *)

Lemma wp_same {A} (m m' : M W A) (Q : A → W → Prop) w : m w = m' w → wp m' Q w → wp m Q w.
Proof. unfold wp. by intros ->. Qed.

(** What the readv of a readable event does. *)
Lemma received_moves c conn ch loop room s n b w (call := SysReadv (c_fd conn) n extrabuf_size) :
  stream_inv c conn ch loop room s w →
  let r := (syscall call (kern w)).1 in let w1 := received c call w b in
  trace w1 = trace w ++ [(call, r)] ∧
  frame (on_conn (ly_epfd ly) (c_fd conn)) id id c (S c) w w1 ∧
  stream_inv c (conn <| inputBuffer_ := b |>) ch loop room s w1.
Proof.
  intros Hinv r w1. unfold w1, r, received. destruct (syscall call (kern w)) as [r' k] eqn:E.
  pose proof (si_live _ _ _ _ _ _ _ Hinv) as Hlive. split_and!; [done| |].
  - split; try done.
    + intros c' Hne. cbn. by rewrite lookup_alter_ne.
    + cbn. by apply lookup_alter_same.
    + etrans; [apply (runs_sys _ call r' k); [by right|exact E]|by apply runs_same].
  - apply stream_inv_input. destruct Hinv as [_ ? ? ? ? ?]. split; try done; cbn.
    + by apply (conn_live_sys c conn ch loop w k call r').
    + by rewrite written_snoc.
    + by rewrite fin_sent_snoc.
Qed.

(** Nothing was read: the connection is as it was. *)
Lemma alive_unread c conn n b w (call := SysReadv (c_fd conn) n extrabuf_size) :
  alive ly c conn w → rv (syscall call (kern w)).1 ≤ 0 → wf b → content b = [] →
  zlen (buffer_ b) ≤ zlen (buffer_ (inputBuffer_ conn)) →
  alive ly c (conn <| inputBuffer_ := b |>) (received c call w b).
Proof.
  intros [(ch&loop&Hinv) ? ? ? ?] Hr Hwf Hb Hsize.
  destruct (received_moves c conn ch loop _ _ n b w Hinv) as (Et&Hf&Hinv'). fold call in Et, Hf, Hinv'.
  pose proof (fr_servers _ _ _ _ _ _ _ Hf) as Es. rewrite !map_fmap_id in Es.
  assert (received_on (c_fd conn) (trace (received c call w b)) = received_on (c_fd conn) (trace w)) as Er.
  { rewrite Et, received_snoc. cbn. rewrite Z.eqb_refl. unfold out_bytes.
    by rewrite (proj2 (Z.ltb_ge _ _) Hr), app_nil_r. }
  assert (traffic (trace (received c call w b)) = traffic (trace w)) as Etr.
  { rewrite Et, traffic_snoc. cbn. lia. }
  split; try done.
  - exists ch, loop. rewrite Etr. change (c_fd (conn <| inputBuffer_ := b |>)) with (c_fd conn).
    by rewrite Er.
  - cbn. rewrite Etr. lia.
  - unfold filed. by rewrite Es.
Qed.

Lemma alive_room c conn w :
  alive ly c conn w → traffic (trace w) ≤ kMaxTraffic →
  writerIndex_ (inputBuffer_ conn) + writableBytes (inputBuffer_ conn) + extrabuf_size ≤ max_size.
Proof.
  intros [_ Hwf _ Hsize _] Ht. destruct Hwf as (?&?&?).
  unfold writableBytes. rewrite wrapu_small by (unfold max_size in *; lia).
  unfold kCheapPrepend, kInitialSize, extrabuf_size, kMaxTraffic, max_size in *. lia.
Qed.

(** Bytes have been read: they are sent back. *)
Lemma wp_busy_message closing h c conn ch loop n b t w (call := SysReadv (c_fd conn) n extrabuf_size)
    (r := (syscall call (kern w)).1) :
  busy closing h w → conns w !! c = Some conn → c ∉ closing →
  stream_inv c conn ch loop (kMaxTraffic - traffic (trace w))
    (mkStream (received_on (c_fd conn) (trace w)) true) w →
  0 < rv r → traffic (trace w) + rv r ≤ kMaxTraffic → out r = OutBytes (content b) →
  rv r = zlen (content b) → wf b → grows (rv r) (rv r) (inputBuffer_ conn) b →
  wp (pingpong_onMessage c t) (λ _ w', busy closing h w') (received c call w b).
Proof.
  intros Hb Hc Hn Hinv Hr Hmax Hout Hlen Hwf Hgrow. pose proof Hb as Hs. unfold busy in Hs.
  destruct (serving_alive _ _ _ _ _ _ _ Hs Hc Hn (fresh_notin c)) as (Hwired&[]&_).
  destruct (received_moves c conn ch loop _ _ n b w Hinv) as (Et&Hf&Hinv1). fold call in Et, Hf, Hinv1.
  set (w1 := received c call w b) in *. fold r in Et.
  destruct (serving_site _ _ _ _ _ _ _ Hs Hc Hn (fresh_notin c)) as [Hsite _].
  assert (site c (S c) (c_fd conn) (ly_loop ly) (ly_epfd ly) (ly_server ly) w1) as Hsite1
    by (eapply site_frame; [apply _|exact Hf|exact Hsite]).
  apply (wp_preserves (local c (S c) (c_fd conn) (ly_loop ly) (ly_epfd ly) (ly_server ly) id id)).
  { unfold pingpong_onMessage. apply preserves_bind; [apply _|apply local_on_input; apply _|].
    intros msg. apply local_send; apply _. }
  eapply (wp_send_back c _ ch loop _ _ (content b)); [exact Hinv1|done|exact Hwf|reflexivity|lia|].
  intros w' conn' Hok Hc' _ Hwf' Hempty' Hbuf' _ Hloc. specialize (Hloc Hsite1).
  assert (frame (on_conn (ly_epfd ly) (c_fd conn)) id id c (S c) w w') as Hf'.
  { etrans; [exact Hf|by apply frame_on_conn]. }
  destruct (frame_same_streams _ _ _ _ _ _ _ _ Hloc) as [Er Etr _ _].
  rewrite Et, traffic_snoc in Etr. cbn in Etr.
  eapply busy_stays; try done. intros conn2 Hc2. rewrite Hc' in Hc2. injection Hc2 as <-.
  destruct (moved_conn _ _ _ c conn w w' Hf' Hc Hwired) as (conn2&Hc2&_&Efd&Ename).
  rewrite Hc' in Hc2. injection Hc2 as <-.
  assert (received_on (c_fd conn) (trace w') = received_on (c_fd conn) (trace w) ++ content b) as Er'.
  { rewrite Er, Et, received_snoc. cbn. rewrite Z.eqb_refl. unfold out_bytes.
    by rewrite (proj2 (Z.ltb_lt _ _) Hr), Hout. }
  destruct Hok as (conn2&ch2&loop2&Hinv2). pose proof (lv_conn _ _ _ _ _ (si_live _ _ _ _ _ _ _ Hinv2)) as Hc2.
  rewrite Hc' in Hc2. injection Hc2 as <-. split; [|done|done| |].
  - exists ch2, loop2. rewrite Efd, Er', Etr.
    replace (kMaxTraffic - _) with (kMaxTraffic - traffic (trace w) - zlen (content b)) by lia. exact Hinv2.
  - rewrite Hbuf'. cbn. destruct Hgrow as (_&_&Hz). lia.
  - rewrite Ename. destruct al_filed as (server&Hsv&Hin). exists server.
    pose proof (fr_servers _ _ _ _ _ _ _ Hf') as Es. rewrite !map_fmap_id in Es. by rewrite Es.
Qed.

(** Connection [c] may have been closed. *)
Definition leaves (c : nat) (closing closing' : list nat) : Prop :=
  closing' = closing ∨ closing' = closing ++ [c].

Lemma wp_busy_error closing h c conn w :
  busy closing h w → conns w !! c = Some conn → wp (handleError c) (λ _ w', busy closing h w') w.
Proof.
  intros Hs Hc. destruct (serving_channel _ _ _ _ _ _ _ Hs Hc) as ([]&x&reg&ev&Hx&_).
  unfold handleError, get_conn, get_chan, getSocketError. wp_step. eapply wp_deref; [done|]. wp_step.
  eapply wp_deref; [by rewrite cw_channel|]. wp_step. eapply wp_serving_sys; [exact Hs|done|].
  intros r k Hp w' Hs'. cbn in Hp. destruct (rv r <? 0); wp_step; [done|].
  destruct (out r); try done.
Qed.

Lemma wp_busy_read closing h c conn t w :
  busy closing h w → conns w !! c = Some conn → c ∉ closing →
  wp (TcpConnection_handleRead run_close t c) (λ _ w', ∃ closing', leaves c closing closing' ∧ busy closing' h w') w.
Proof.
  intros Hb Hc Hn. pose proof Hb as Hs. unfold busy in Hs.
  destruct (serving_alive _ _ _ _ _ _ _ Hs Hc Hn (fresh_notin c)) as (Hwired&Hal&_).
  pose proof Hal as [(ch&loop&Hinv) Hwf Hempty _ _]. pose proof (si_live _ _ _ _ _ _ _ Hinv) as Hlive.
  pose proof (alive_room c conn w Hal (sv_traffic _ _ _ _ _ _ Hs)) as Hmax.
  pose proof (read_input_run c conn (ch_fd ch) w Hc Hwf Hmax) as Hread. cbv zeta in Hread.
  rewrite (lv_fd _ _ _ _ _ Hlive) in Hread.
  set (n := writableBytes (inputBuffer_ conn)) in *. set (call := SysReadv (c_fd conn) n extrabuf_size) in *.
  set (r := (syscall call (kern w)).1) in *.
  assert (permits (trace w) call r = true) as Hp.
  { unfold r. destruct (syscall call (kern w)) eqn:E. eapply consistent_permits; [apply Hs|exact E]. }
  eapply wp_same.
  { apply (handleRead_unfold run_close t c conn ch); [exact Hc|apply Hlive]. }
  rewrite (lv_fd _ _ _ _ _ Hlive).
  assert (∀ b, rv r ≤ 0 → wf b → content b = [] → zlen (buffer_ b) ≤ zlen (buffer_ (inputBuffer_ conn)) →
    busy closing h (received c call w b) ∧
    conns (received c call w b) !! c = Some (conn <| inputBuffer_ := b |>)) as Hunread.
  { intros b Hr Hwfb Hcb Hsize.
    pose proof (alive_unread c conn n b w Hal Hr Hwfb Hcb Hsize) as Hal1. fold call in Hal1.
    destruct (received_moves c conn ch loop _ _ n b w Hinv) as (_&Hf&Hinv1). fold call in Hf, Hinv1.
    pose proof (lv_conn _ _ _ _ _ (si_live _ _ _ _ _ _ _ Hinv1)) as Hc1. split; [|done].
    eapply busy_stays; try done. intros conn2 Hc2. rewrite Hc1 in Hc2. by injection Hc2 as <-. }
  destruct (Z.ltb_spec (rv r) 0) as [Hneg|Hpos].
  - rewrite wp_bind. eapply wp_exec; [exact Hread|]. cbv beta iota. rewrite (proj2 (Z.ltb_ge _ _)), (proj2 (Z.eqb_neq _ _)) by lia.
    destruct (Hunread (inputBuffer_ conn)) as [Hb1 Hc1]; [lia|done..|].
    eapply wp_mono; [by eapply wp_busy_error|]. intros [] w' Hw'. exists closing. split; [by left|done].
  - destruct Hread as (bytes&b&Hout&Hlen&Hwfb&Hcb&Hgrow&Hread). rewrite Hempty in Hcb. cbn in Hcb. subst bytes.
    rewrite wp_bind. eapply wp_exec; [exact Hread|]. cbv beta iota. destruct (Z.ltb_spec 0 (rv r)) as [Hr|Hr].
    + destruct (received_moves c conn ch loop _ _ n b w Hinv) as (_&_&Hinv1). fold call in Hinv1.
      unfold get_conn. wp_step. eapply wp_deref; [exact (lv_conn _ _ _ _ _ (si_live _ _ _ _ _ _ _ Hinv1))|].
      cbn [messageCallback_ upd]. rewrite (cw_message _ _ _ Hwired). cbn [call_opt].
      cbn in Hp. rewrite Hout in Hp. apply orb_prop in Hp as [Hp%Z.ltb_lt|[_ Hp%Z.leb_le]%andb_prop]; [lia|].
      eapply wp_mono; [by eapply wp_busy_message|]. intros [] w' Hw'. exists closing. split; [by left|done].
    + assert (rv r = 0) as Hz by lia. rewrite Hz, Z.eqb_refl.
      destruct (Hunread b) as [Hb1 Hc1]; [lia|done| | |].
      { rewrite Hz in Hlen. unfold zlen in Hlen. by destruct (content b). }
      { destruct Hgrow as (_&_&Hsize). lia. }
      eapply wp_mono; [by eapply wp_busy_close|]. intros [] w' Hw'. exists (closing ++ [c]). split; [by right|done].
Qed.

(** ** Writing *)

Lemma wp_busy_write closing h c conn w :
  busy closing h w → conns w !! c = Some conn → wp (handleWrite c) (λ _ w', busy closing h w') w.
Proof.
  intros Hb Hc. pose proof Hb as Hs. unfold busy in Hs. destruct (decide (c ∈ closing)) as [Hin|Hn].
  - destruct (sv_conns _ _ _ _ _ _ Hs c conn Hc) as [[] Hph]. unfold conn_phase in Hph.
    rewrite bool_decide_eq_true_2 in Hph by done. destruct Hph as (_&ch&Hch&Hmark).
    apply conn_channel_fields in Hmark as (_&_&_&_&Hev&_).
    destruct (sv_loop _ _ _ _ _ _ Hs) as (loop&El&[]).
    unfold handleWrite, get_conn, get_chan. wp_step. eapply wp_deref; [done|]. wp_step.
    eapply wp_assertInLoopThread; [rewrite cw_loop, El; apply lookup_singleton_eq|done|]. wp_step.
    eapply wp_deref; [by rewrite cw_channel|]. unfold isWriting. rewrite Hev. by wp_step.
  - destruct (serving_alive _ _ _ _ _ _ _ Hs Hc Hn (fresh_notin c)) as (Hwired&[(ch&loop&Hinv)]&_).
    destruct (serving_site _ _ _ _ _ _ _ Hs Hc Hn (fresh_notin c)) as [Hsite _].
    apply (wp_preserves (local c (S c) (c_fd conn) (ly_loop ly) (ly_epfd ly) (ly_server ly) id id));
      [apply local_handleWrite; apply _|].
    apply (wp_preserves (same_input c)); [apply same_input_handleWrite|].
    eapply wp_handleWrite; [by eexists _, _, _|]. intros w' (conn'&ch'&loop'&Hinv') [Hsame _] Hloc.
    specialize (Hloc Hsite). apply frame_same_streams in Hloc as Hss. destruct Hss as [Er Etr _ _].
    apply frame_on_conn in Hloc. pose proof (lv_conn _ _ _ _ _ (si_live _ _ _ _ _ _ _ Hinv')) as Hc'.
    destruct (moved_conn _ _ _ c conn w w' Hloc Hc Hwired) as (conn2&Hc2&_&Efd&Ename).
    rewrite Hc' in Hc2. injection Hc2 as <-. rewrite Hc, Hc' in Hsame. injection Hsame as Ein _.
    eapply busy_stays; try done. intros conn2 Hc2. rewrite Hc' in Hc2. injection Hc2 as <-.
    split; rewrite ?Ein; try done.
    + exists ch', loop'. by rewrite Efd, Er, Etr.
    + by rewrite Etr.
    + rewrite Ename. destruct al_filed as (server&Hsv&Hin). exists server.
      pose proof (fr_servers _ _ _ _ _ _ _ Hloc) as Es. rewrite !map_fmap_id in Es. by rewrite Es.
Qed.

(** ** The event of a channel *)

(** The flag of the channel whose event is handled. *)
Lemma serving_flag closing gone h h' i b pending w :
  serving closing gone h pending w → is_Some (chans w !! i) →
  (∃ rest, (b = true ∧ h = (None, i :: rest) ∧ h' = (Some i, rest)) ∨
           (b = false ∧ h = (Some i, rest) ∧ h' = (None, rest))) →
  serving closing gone h' pending (w <| chans ::= alter (λ x, x <| eventHandling_ := b |>) i |>).
Proof.
  intros Hs [x0 Hx0] (rest&Hb). eapply serving_marked; [exact Hs| | | |].
  - split; try done; [|by apply runs_same]. intros j. cbn. by apply lookup_alter_same.
  - intros j x Hx. cbn in Hx. rewrite lookup_alter in Hx. case_decide as E.
    + subst j. rewrite Hx0 in Hx. injection Hx as <-.
      destruct (sv_chans _ _ _ _ _ _ Hs i x0 Hx0) as (_&_&_&Hr). split; [|done]. cbn.
      destruct Hb as [(->&->&->)|(->&->&->)]; [by rewrite bool_decide_eq_true_2|done].
    + destruct (sv_chans _ _ _ _ _ _ Hs j x Hx) as (_&_&E1&E2). split; [|done]. rewrite E1.
      destruct Hb as [(->&->&->)|(->&->&->)]; apply bool_decide_ext; cbn; split; congruence.
  - intros j Hj. cbn. apply lookup_alter_is_Some, (sv_handled _ _ _ _ _ _ Hs).
    destruct Hb as [(_&->&->)|(_&->&->)], Hj as [Hj|Hj]; cbn in *; try done.
    + right. injection Hj as ->. by left.
    + right. by right.
    + by right.
  - intros loop Hl. destruct (sv_loop _ _ _ _ _ _ Hs) as (loop0&El&[]). cbn in Hl.
    rewrite El, lookup_singleton_eq in Hl. by injection Hl as <-.
Qed.

Lemma wp_handling closing gone i rest pending (Q : unit → W → Prop) w :
  serving closing gone (None, i :: rest) pending w →
  (∀ w', serving closing gone (Some i, rest) pending w' → Q tt w') →
  wp (upd_chan i (λ x, x <| eventHandling_ := true |>)) Q w.
Proof.
  intros Hs HQ. unfold upd_chan. wp_step. apply HQ. eapply serving_flag; [done| |exists rest; by left].
  apply (sv_handled _ _ _ _ _ _ Hs). right. by left.
Qed.

Lemma wp_handled closing gone i rest pending (Q : unit → W → Prop) w :
  serving closing gone (Some i, rest) pending w →
  (∀ w', serving closing gone (None, rest) pending w' → Q tt w') →
  wp (upd_chan i (λ x, x <| eventHandling_ := false |>)) Q w.
Proof.
  intros Hs HQ. unfold upd_chan. wp_step. apply HQ. eapply serving_flag; [done| |exists rest; by right].
  apply (sv_handled _ _ _ _ _ _ Hs). by left.
Qed.

(** The connection whose event is being handled is still there. *)
Lemma wp_get_handled closing gone c rest pending (Q : Channel → W → Prop) w :
  serving closing gone (Some (S c), rest) pending w → S c ∉ fixed_ids ly →
  (∀ x conn, conns w !! c = Some conn → readCallback_ x = Some (CbConnRead c) →
     writeCallback_ x = Some (CbConnWrite c) → errorCallback_ x = Some (CbConnError c) →
     event_ok (revents_ x) = true → Q x w) →
  wp (get_chan (S c)) Q w.
Proof.
  intros Hs Hfix HQ. destruct (sv_handled _ _ _ _ _ _ Hs (S c) (or_introl eq_refl)) as [x Hx].
  destruct (sv_chans _ _ _ _ _ _ Hs (S c) x Hx) as ([?|(c'&[= <-]&conn&Hc)]&_&_&Hr); [done|].
  unfold get_chan. eapply wp_deref; [exact Hx|].
  destruct (serving_channel _ _ _ _ _ _ _ Hs Hc) as (_&x'&reg&ev&Hx'&Hch).
  rewrite Hx in Hx'. injection Hx' as <-.
  apply conn_channel_fields in Hch as (_&_&_&_&_&?&?&?). by eapply HQ.
Qed.

Lemma event_ok_close e : event_ok e = true → has e EPOLLRDHUP && negb (has e EPOLLIN) = false.
Proof. unfold event_ok. by destruct (has e EPOLLRDHUP), (has e EPOLLIN). Qed.

Lemma wp_then (m : M W unit) {A} (k : M W A) (P : W → Prop) (Q : A → W → Prop) w :
  wp m (λ _ w', P w') w → (∀ w', P w' → wp k Q w') → wp (m ≫= λ _, k) Q w.
Proof. intros Hm Hk. rewrite wp_bind. eapply wp_mono; [exact Hm|]. intros [] w' Hw. by apply Hk. Qed.

(** One test of [handleEvent]: the callback [cb] may run. *)
Lemma wp_test (b : bool) run (cb : option Callback) f (P P' : W → Prop) w :
  cb = Some f → P w → (∀ w', P w' → P' w') → wp (run f) (λ _ w', P' w') w →
  wp (whenM b (run_opt run cb)) (λ _ w', P' w') w.
Proof. intros -> HP HP' Hf. destruct b; cbn; [done|]. wp_step. by apply HP'. Qed.

Lemma wp_conn_event closing c rest conn t w :
  busy closing (None, S c :: rest) w → conns w !! c = Some conn → c ∉ closing →
  wp (handleEvent run_cb t (S c)) (λ _ w', ∃ closing', leaves c closing closing' ∧ busy closing' (None, rest) w') w.
Proof.
  intros Hb Hc Hn. pose proof (conn_not_fixed _ _ _ _ _ _ _ Hb Hc) as Hfix.
  unfold handleEvent. rewrite wp_bind. eapply wp_handling; [exact Hb|]. clear w Hb Hc conn.
  intros w Hb. rewrite wp_bind. eapply wp_get_handled; [exact Hb|done|]. intros x conn _ _ _ _ Hr.
  rewrite (event_ok_close _ Hr). eapply (wp_then _ _ (λ w', busy closing (Some (S c), rest) w')); [by cbn; wp_step|].
  clear w Hb x conn Hr. intros w Hb.
  rewrite wp_bind. eapply wp_get_handled; [exact Hb|done|]. intros x conn Hc _ _ Herr _.
  eapply (wp_then _ _ (λ w', busy closing (Some (S c), rest) w')).
  { eapply wp_test; [exact Herr|exact Hb|done|by eapply wp_busy_error]. }
  clear w Hb x conn Hc Herr. intros w Hb.
  rewrite wp_bind. eapply wp_get_handled; [exact Hb|done|]. intros x conn Hc Hread _ _ _.
  eapply (wp_then _ _ (λ w', ∃ closing', leaves c closing closing' ∧ busy closing' (Some (S c), rest) w')).
  { eapply wp_test; [exact Hread|exact Hb| |by eapply wp_busy_read]. intros w' Hw'. exists closing. split; [by left|done]. }
  clear w Hb x conn Hc Hread. intros w (closing'&Hleaves&Hb).
  rewrite wp_bind. eapply wp_get_handled; [exact Hb|done|]. intros x conn Hc _ Hwrite _ _.
  eapply (wp_then _ _ (λ w', busy closing' (Some (S c), rest) w')).
  { eapply wp_test; [exact Hwrite|exact Hb|done|by eapply wp_busy_write]. }
  clear w Hb x conn Hc Hwrite. intros w Hb. eapply wp_handled; [exact Hb|]. by exists closing'.
Qed.

(** The channels of the loop and of the acceptor only read. *)
Lemma wp_get_fixed closing gone i rest fd cb pending (Q : Channel → W → Prop) w :
  serving closing gone (Some i, rest) pending w →
  (∃ x, chans w !! i = Some x ∧ fixed_channel ly fd cb x) →
  (∀ x, readCallback_ x = Some cb → writeCallback_ x = None → errorCallback_ x = None →
     event_ok (revents_ x) = true → Q x w) →
  wp (get_chan i) Q w.
Proof.
  intros Hs (x&Hx&Hfix) HQ. unfold get_chan. eapply wp_deref; [exact Hx|].
  apply fixed_channel_fields in Hfix as (_&_&_&?&?&?).
  destruct (sv_chans _ _ _ _ _ _ Hs i x Hx) as (_&_&_&?). by apply HQ.
Qed.

Lemma wp_test_none (b : bool) run (P : W → Prop) w :
  P w → wp (whenM b (run_opt run None)) (λ _ w', P w') w.
Proof. intros HP. destruct b; cbn; by wp_step. Qed.

Lemma wp_fixed_event closing i rest fd cb t w :
  (∀ h pending w, serving closing [] h pending w → ∃ x, chans w !! i = Some x ∧ fixed_channel ly fd cb x) →
  (∀ w, busy closing (Some i, rest) w → wp (run_cb t cb) (λ _ w', busy closing (Some i, rest) w') w) →
  busy closing (None, i :: rest) w → wp (handleEvent run_cb t i) (λ _ w', busy closing (None, rest) w') w.
Proof.
  intros Hfix Hcb Hb.
  unfold handleEvent. rewrite wp_bind. eapply wp_handling; [exact Hb|]. clear w Hb.
  intros w Hb. rewrite wp_bind. eapply wp_get_fixed; [exact Hb|by eapply Hfix|]. intros x _ _ _ Hr.
  rewrite (event_ok_close _ Hr). eapply (wp_then _ _ (busy closing (Some i, rest))); [by cbn; wp_step|].
  clear w Hb x Hr. intros w Hb.
  rewrite wp_bind. eapply wp_get_fixed; [exact Hb|by eapply Hfix|]. intros x _ _ -> _.
  eapply (wp_then _ _ (busy closing (Some i, rest))); [by apply wp_test_none|]. clear w Hb x. intros w Hb.
  rewrite wp_bind. eapply wp_get_fixed; [exact Hb|by eapply Hfix|]. intros x Hread _ _ _.
  eapply (wp_then _ _ (busy closing (Some i, rest))); [by eapply wp_test; eauto|]. clear w Hb x Hread. intros w Hb.
  rewrite wp_bind. eapply wp_get_fixed; [exact Hb|by eapply Hfix|]. intros x _ -> _ _.
  eapply (wp_then _ _ (busy closing (Some i, rest))); [by apply wp_test_none|]. clear w Hb x. intros w Hb.
  by eapply wp_handled.
Qed.

(** ** The wake-up descriptor and the timers *)

Lemma serving_loop closing gone h pending w :
  serving closing gone h pending w →
  ∃ loop, loops w !! ly_loop ly = Some loop ∧ loop_wired ly pending loop w.
Proof.
  intros Hs. destruct (sv_loop _ _ _ _ _ _ Hs) as (loop&El&?). exists loop. split; [|done].
  rewrite El. apply lookup_singleton_eq.
Qed.

Lemma wp_busy_wakeup closing h w :
  busy closing h w → wp (handleRead (ly_loop ly)) (λ _ w', busy closing h w') w.
Proof.
  intros Hb. destruct (serving_loop _ _ _ _ _ Hb) as (loop&Hl&_). unfold handleRead, get_loop. wp_step.
  eapply wp_deref; [done|]. wp_step. eapply wp_serving_sys; [exact Hb|done|]. intros r k _ w' Hb'. by wp_step.
Qed.

Lemma upd_loop_same l f loop w :
  loops w !! l = Some loop → f loop = loop → w <| loops ::= alter f l |> = w.
Proof.
  intros Hl Hf. destruct w. cbn in *. f_equal. rewrite (alter_as_insert _ _ _ _ Hl), Hf. by apply insert_id.
Qed.

(** No timer was ever added. *)
Lemma wp_busy_timer closing h w :
  busy closing h w → wp (TimerQueue_handleRead run_functor (ly_loop ly)) (λ _ w', busy closing h w') w.
Proof.
  intros Hb. destruct (serving_loop _ _ _ _ _ Hb) as (loop&Hl&[]).
  unfold TimerQueue_handleRead, now, readTimerfd, getexpiration, upd_timerlist, upd_loop, reset, get_loop. wp_step.
  eapply wp_assertInLoopThread; [done..|]. wp_step.
  eapply wp_serving_sys; [exact Hb|done|]. intros r k Hp w1 Hb1. cbn in Hp. destruct (out r); try done. wp_step.
  eapply wp_deref; [exact Hl|]. wp_step.
  eapply wp_serving_sys; [exact Hb1|done|]. intros r2 k2 _ w2 Hb2. wp_step.
  eapply wp_deref; [exact Hl|]. rewrite lw_timers. cbn [timerlist_ split_lower_bound]. wp_step.
  apply wp_assert; [done|]. wp_step. cbn [iterM]. wp_step.
  assert (loops w2 !! ly_loop ly = Some loop) as Hl2 by exact Hl.
  rewrite (upd_loop_same _ _ loop) by (done || by destruct loop; cbn in *; rewrite lw_timers).
  eapply wp_deref; [exact Hl2|]. rewrite lw_timers. by wp_step.
Qed.
End Steps.
