(* ===== verification/ServerLifecycle.v ===== *)
(** * ServerLifecycle

    The coming and going of the pingpong server's connections: what accepting
    one does to the invariant of [ServerInvariant], and what the pass over the
    pending calls does, which destroys those that were closed. *)
From S2P Require Import Prelude Printf Buffer Timestamp World Channel EventLoop TimerQueue Net.
From S2P Require Import TcpConnection Acceptor TcpServer Connector TcpClient Reactor Echo.
From S2P Require Import Posix ConnFrame ServerInvariant ServerSteps.
Local Open Scope Z_scope.

Section Lifecycle.
Context {K : Type} `{Kernel K} `{!Machine K} `{!Clock K} `{!Writes K} `{!Reads K}.
Abbreviation W := (World K unit).
Implicit Types (w : W) (c i : nat) (closing gone : list nat) (h : focus).
#[local] Instance lifecycle_code : UserCode K unit := echo_code.
Context {ly : layout}.
Abbreviation serving := (serving ly).
Abbreviation busy := (busy ly).

(** ** Destroying a connection *)

Lemma serving_destroyed closing gone c conn ch ev k2 r1 r2 r3 w
    (mod_ := (SysEpollCtl (ly_epfd ly) EPOLL_CTL_MOD (c_fd conn) kNoneEvent, r1))
    (opt_ := (SysSetsockopt (c_fd conn) TCP_NODELAY 1, r2))
    (del_ := (SysEpollCtl (ly_epfd ly) EPOLL_CTL_DEL (c_fd conn) kNoneEvent, r3)) w' :
  serving (c :: closing) gone idle [] w → conns w !! c = Some conn →
  chans w !! S c = Some ch → conn_channel ly c (c_fd conn) true ev ch →
  rv r1 = 0 → rv r3 = 0 →
  w' = w <| kern := k2 |> <| trace ::= λ t, ((t ++ [mod_]) ++ [opt_]) ++ [del_] |>
         <| conns ::= alter (λ x, x <| c_state := kDisConnected |>) c |>
         <| loops ::= alter (λ x, x <| epoller_ ::= λ e, e <| channels_ ::= delete (c_fd conn) |> |>) (ly_loop ly) |>
         <| chans ::= <[S c := ch <| events_ := kNoneEvent |> <| registeredInEpoller_ := false |>]> |> →
  reachable_kernel w' → registration (ly_loop ly) w' →
  serving closing (gone ++ [c]) idle [] w'.
Proof.
  intros Hs Hc Hch Hmark Hr1 Hr3 Ew Hk HR. pose proof Hs as [].
  assert (calm (λ _, False) (trace w) (trace w')) as Hcalm.
  { subst w'. cbn. eapply calm_trans; [eapply calm_trans|]; by apply calm_snoc. }
  assert (open_fds (trace w') = open_fds (trace w) ∧ arrivals (trace w') = arrivals (trace w)) as [Ho Harr].
  { subst w'. cbn. by rewrite !open_fds_snoc, !arrivals_snoc. }
  destruct sv_loop as (loop&El&Hlw), sv_server as (server&Es&Hsw).
  assert (conns w' = <[c := conn <| c_state := kDisConnected |>]> (conns w)) as Ec.
  { subst w'. cbn. by rewrite (alter_as_insert _ _ _ _ Hc). }
  assert (chans w' = <[S c := ch <| events_ := kNoneEvent |> <| registeredInEpoller_ := false |>]> (chans w)) as Ech
    by by subst w'.
  assert (servers w' = servers w) as Es' by by subst w'.
  assert (∀ key c', filed ly c' key w' ↔ filed ly c' key w) as Hfile by (intros; unfold filed; by rewrite Es').
  eapply (serving_step ly (.= c) (λ _, False) (c :: closing) gone idle [] closing (gone ++ [c])); try apply _; try done.
  - subst w'. split; try done.
    + intros c' Hne. cbn. by rewrite lookup_alter_ne.
    + intros i Hi. cbn. rewrite lookup_insert_ne; [done|]. intros <-. by apply (Hi c).
  - intros c' ->. by eapply conn_not_fixed.
  - exists (loop <| epoller_ ::= λ e, e <| channels_ ::= delete (c_fd conn) |> |>). subst w'. cbn.
    rewrite El, alter_singleton_eq.
    split; [done|]. by destruct Hlw.
  - exists server. rewrite Es'. split; [done|]. destruct Hsw. split; try done. by rewrite Harr.
  - intros i x Hx. rewrite Ech in Hx. apply lookup_insert_Some in Hx as [[<- <-]|[_ Hx]].
    + by destruct (sv_chans (S c) ch Hch) as (_&_&?).
    + by destruct (sv_chans i x Hx) as (_&_&?).
  - by intros i [?|?%elem_of_nil].
  - intros key c' -> Hf. apply Hfile in Hf. destruct (sv_filed key c Hf) as (?&_&_&Hn&_). by destruct Hn; left.
  - intros c' conn' -> Hc'. rewrite Ec, lookup_insert_eq in Hc'. injection Hc' as <-.
    destruct (sv_conns c conn Hc) as [[] _]. split_and!; [by split| |exact (sv_base c conn Hc)|].
    + unfold conn_phase. apply NoDup_cons in sv_nodup as [Hn _].
      rewrite bool_decide_eq_false_2 by (intros ?; apply Hn, elem_of_app; by left).
      rewrite bool_decide_eq_true_2 by apply elem_of_snoc_eq. split; [done|].
      rewrite Ech, lookup_insert_eq. eexists. split; [done|].
      unfold conn_channel, chan_mark in *. destruct ch. cbn in *. congruence.
    + intros c2 conn2 Hne Hc2 E. rewrite Ec, lookup_insert_ne in Hc2 by done. by apply Hne, (sv_fds c2 c conn2 conn).
  - intros c' x -> Hx. rewrite Ec, lookup_insert_eq. split; [by eexists|].
    replace (next_id w') with (next_id w) by by subst w'. by apply (sv_chans (S c) ch).
  - by rewrite app_assoc, <- Permutation_cons_append.
  - intros c' Hne. by rewrite elem_of_cons_ne, elem_of_snoc_ne.
  - intros c' -> _. rewrite Ec, lookup_insert_eq. by eexists.
  - intros fd. rewrite Ho, sv_open, (fd_used_same (conns w) (conns w') c conn (conn <| c_state := kDisConnected |>));
      try done; rewrite Ec; [apply lookup_insert_eq|]. intros c' Hne. by apply lookup_insert_ne.
Qed.

Lemma wp_connectDestoryed_serving closing gone c w :
  serving (c :: closing) gone idle [] w →
  wp (connectDestoryed c) (λ _ w', serving closing (gone ++ [c]) idle [] w') w.
Proof.
  intros Hs. destruct (sv_present _ _ _ _ _ _ Hs c) as [conn Hc]; [by left|].
  destruct (sv_conns _ _ _ _ _ _ Hs c conn Hc) as [[] Hph]. unfold conn_phase in Hph.
  rewrite bool_decide_eq_true_2 in Hph by by left. destruct Hph as (Hst&ch&Hch&Hmark).
  pose proof (conn_channel_fields _ _ _ _ _ _ Hmark) as (Eown&Efd&_&Ereg&Eev&_).
  destruct (serving_loop _ _ _ _ _ Hs) as (loop&Hl&[]).
  set (conn1 := conn <| c_state := kDisConnected |>).
  assert (∀ w', conns w' = alter (λ x, x <| c_state := kDisConnected |>) c (conns w) →
    conns w' !! c = Some conn1) as Hconn1 by (intros w' ->; by rewrite lookup_alter_eq, Hc).
  unfold connectDestoryed, get_conn, setState, upd_conn. wp_step. eapply wp_deref; [done|]. wp_step.
  eapply wp_assertInLoopThread; [by rewrite cw_loop|done|]. wp_step. apply wp_assert; [by rewrite Hst|]. wp_step.
  rewrite cw_channel.
  eapply (wp_disableAll_registered (S c) ch loop); rewrite ?Eown; try done; try apply Hs.
  intros k1 r1 w1 Hr1 Hk1 Hctl1 HR1. wp_step. eapply wp_deref; [by apply Hconn1|].
  cbn [connectionCallback_ upd conn1]. rewrite cw_connection. cbn [call_opt u_connection lifecycle_code echo_code kPingpong kEcho Nat.eqb].
  unfold pingpong_onConnection, TcpConnection_setTcpNoDelay, Socket_setTcpNoDelay, get_conn. wp_step.
  eapply wp_deref; [by apply Hconn1|]. wp_step. apply wp_sys_lawful; [done|]. intros r2 k2 _ w2 Hk2. wp_step.
  eapply wp_deref; [by apply Hconn1|]. cbn [c_loop c_channel upd conn1]. rewrite cw_channel, cw_loop.
  set (ch1 := ch <| events_ := kNoneEvent |>). assert (ch_loop ch1 = ly_loop ly) as Eown1 by exact Eown.
  rewrite <- Eown1.
  apply (registration_sys _ _ k2 (SysSetsockopt (c_fd conn) TCP_NODELAY 1) r2 I) in HR1.
  eapply (wp_removeChannel_registered (S c) ch1 loop); rewrite ?Eown1; try done.
  - cbn. apply lookup_insert_eq.
  - by apply ctl_ok_snoc.
  - intros k3 r3 w3 Hr3 Hk3 _ HR3.
    eapply (serving_destroyed closing gone c conn ch _ k3 r1 r2 r3 w); try done.
    unfold w3, set_chan, set_channels, called, w2, w1. cbn. rewrite Efd, Eown, insert_insert_eq, lw_epfd. done.
Qed.

(** A descriptor is mapped by the poller only for a channel of the loop, the
    acceptor, or a connection that is not yet disconnected. *)
Lemma mapped_fd closing gone h pending loop fd i w :
  serving closing gone h pending w → loops w !! ly_loop ly = Some loop →
  channels_ (epoller_ loop) !! fd = Some i →
  fd ∈ base_fds ly ∨ ∃ c conn, conns w !! c = Some conn ∧ c_fd conn = fd ∧ c ∉ gone.
Proof.
  intros Hs Hl Hm. destruct (sv_registration _ _ _ _ _ _ Hs) as (loop'&Hl'&Hmap&_).
  rewrite Hl in Hl'. injection Hl' as <-. apply Hmap in Hm as (x&Hx&Efd&_&Hreg).
  destruct (sv_chans _ _ _ _ _ _ Hs i x Hx) as ([Hfix|(c&->&conn&Hc)]&_&_).
  - left. unfold fixed_ids in Hfix. unfold base_fds. rewrite !elem_of_cons in Hfix. rewrite !elem_of_cons.
    destruct (sv_timer _ _ _ _ _ _ Hs) as (x1&H1&F1), (sv_wake _ _ _ _ _ _ Hs) as (x2&H2&F2),
      (sv_accept _ _ _ _ _ _ Hs) as (x3&H3&F3).
    apply fixed_channel_fields in F1 as (_&F1&_), F2 as (_&F2&_), F3 as (_&F3&_).
    destruct Hfix as [Ei|[Ei|[Ei|Hin%elem_of_nil]]]; [..|done]; rewrite Ei in Hx; simplify_eq; tauto.
  - right. exists c, conn. destruct (serving_channel _ _ _ _ _ _ _ Hs Hc) as (_&x'&reg&ev&Hx'&Hch).
    rewrite Hx in Hx'. injection Hx' as <-.
    apply conn_channel_fields in Hch as (_&Efd'&_&Ereg&_). split_and!; [done|congruence|]. intros Hin.
    destruct (sv_conns _ _ _ _ _ _ Hs c conn Hc) as [_ Hph]. unfold conn_phase in Hph.
    pose proof (sv_nodup _ _ _ _ _ _ Hs) as Hnd. apply NoDup_app in Hnd as (_&Hdis&_).
    rewrite bool_decide_eq_false_2 in Hph by (intros ?; by eapply Hdis).
    rewrite bool_decide_eq_true_2 in Hph by done. destruct Hph as (_&x'&Hx'&Hch).
    rewrite Hx in Hx'. injection Hx' as <-. apply conn_channel_fields in Hch as (_&_&_&Ereg'&_). congruence.
Qed.

Lemma not_owned gone c w :
  serving [] (c :: gone) idle [] w → owned c (map FConnectDestoryed gone) w = false.
Proof.
  intros Hs. destruct (sv_loop _ _ _ _ _ _ Hs) as (loop&El&[]), (sv_server _ _ _ _ _ _ Hs) as (server&Es&_).
  unfold owned. rewrite El, Es, (sv_clients _ _ _ _ _ _ Hs), (sv_timers _ _ _ _ _ _ Hs), !map_to_list_singleton, !map_to_list_empty.
  cbn. rewrite lw_pending. cbn. rewrite !orb_false_r. apply orb_false_intro.
  - apply not_true_is_false. unfold functors_hold. rewrite existsb_exists. intros (f&Hf&Heq).
    apply bool_decide_eq_true in Heq. apply in_map_iff in Hf as (c'&<-&Hin). cbn in Heq. injection Heq as ->.
    pose proof (sv_nodup _ _ _ _ _ _ Hs) as Hnd. cbn in Hnd. apply NoDup_cons in Hnd as [Hn _].
    apply Hn. by apply list_elem_of_In.
  - apply bool_decide_eq_false. intros Hin. apply list_elem_of_fmap in Hin as ([key c']&E&Hin). cbn in E. subst c'.
    apply elem_of_map_to_list in Hin.
    destruct (sv_filed _ _ _ _ _ _ Hs key c) as (?&_&_&_&Hn); [|by destruct Hn; left].
    exists server. split; [|done]. rewrite Es. apply lookup_singleton_eq.
Qed.

(** Closing a descriptor that the poller does not map. *)
Lemma registration_close l loop i ch fd k r w :
  registration l w → loops w !! l = Some loop → chans w !! i = Some ch → registeredInEpoller_ ch = false →
  channels_ (epoller_ loop) !! fd = None →
  registration l (called k (SysClose fd) r w <| chans ::= delete i |>).
Proof.
  intros (loop'&Hl'&Hm&Hw) Hl Hi Hreg Hfd. rewrite Hl in Hl'. injection Hl' as <-.
  exists loop. split; [done|]. split.
  - intros fd' i'. rewrite (Hm fd' i'). cbn. split; intros (x&Hx&?&?&?).
    + exists x. rewrite lookup_delete_ne; [done|]. intros <-. congruence.
    + apply lookup_delete_Some in Hx as [_ Hx]. by exists x.
  - intros fd'. specialize (Hw fd'). unfold watch_ok, called in *. cbn [trace chans upd]. rewrite interest_snoc. unfold interest_step.
    assert ((i' ← channels_ (epoller_ loop) !! fd'; x ← delete i (chans w) !! i'; Some (events_ x)) =
      interest (epfd_ (epoller_ loop)) (trace w) !! fd') as ->.
    { rewrite Hw. destruct (channels_ (epoller_ loop) !! fd') as [i'|] eqn:E; [|done]. cbn.
      apply Hm in E as (x&Hx&_&_&Er). rewrite lookup_delete_ne; [done|]. intros <-. congruence. }
    destruct (negb (rv r =? 0)); [done|]. rewrite lookup_delete. case_decide as E; [|done]. subst fd'.
    by rewrite Hw, Hfd.
Qed.

Lemma serving_deleted gone c conn k r w w' :
  serving [] (c :: gone) idle [] w → conns w !! c = Some conn → rv r = 0 →
  w' = called k (SysClose (c_fd conn)) r w <| chans ::= delete (S c) |> <| conns ::= delete c |> →
  reachable_kernel w' → serving [] gone idle [] w'.
Proof.
  intros Hs Hc Hr Ew Hk. pose proof Hs as [].
  destruct (sv_conns c conn Hc) as [_ Hph]. unfold conn_phase in Hph.
  rewrite bool_decide_eq_false_2, bool_decide_eq_true_2 in Hph by (apply fresh_notin || by left).
  destruct Hph as (_&ch&Hch&Hmark). apply conn_channel_fields in Hmark as (_&_&_&Hreg&_).
  assert (calm (λ _, False) (trace w) (trace w')) as Hcalm by (subst w'; by apply calm_snoc).
  destruct sv_loop as (loop&El&Hlw), sv_server as (server&Es&Hsw).
  assert (loops w !! ly_loop ly = Some loop) as Hl by (rewrite El; apply lookup_singleton_eq).
  assert (conns w' = delete c (conns w)) as Ec by by subst w'.
  assert (∀ c2 conn2, c2 ≠ c → conns w !! c2 = Some conn2 → c_fd conn2 ≠ c_fd conn) as Hfds.
  { intros c2 conn2 Hne Hc2 E. by apply Hne, (sv_fds c2 c conn2 conn). }
  assert (channels_ (epoller_ loop) !! c_fd conn = None) as Hfd.
  { destruct (channels_ _ !! _) eqn:E; [|done]. eapply mapped_fd in E as [Hb|(c2&conn2&Hc2&E&Hn)]; [..|exact Hs|exact Hl].
    - by apply (sv_base c conn) in Hb.
    - destruct (decide (c2 = c)) as [->|Hne]; [by destruct Hn; left|]. by apply Hfds in Hc2. }
  assert (∀ key c', filed ly c' key w' ↔ filed ly c' key w) as Hfile.
  { intros key c'. unfold filed. by subst w'. }
  eapply (serving_step ly (.= c) (λ _, False) [] (c :: gone) idle [] [] gone idle []); try apply _; try done.
  - subst w'. split; try done.
    + intros c' Hne. cbn. by rewrite lookup_delete_ne.
    + intros i Hi. cbn. rewrite lookup_delete_ne; [done|]. intros <-. by apply (Hi c).
  - intros c' ->. by eapply conn_not_fixed.
  - subst w'. by eapply registration_close.
  - exists loop. subst w'. split; [done|]. by destruct Hlw.
  - exists server. subst w'. split; [done|]. destruct Hsw. split; try done. cbn. by rewrite arrivals_snoc.
  - intros i x Hx. subst w'. cbn in Hx. apply lookup_delete_Some in Hx as [_ Hx].
    by destruct (sv_chans i x Hx) as (_&_&?).
  - by intros i [?|?%elem_of_nil].
  - intros key c' -> Hf. apply Hfile in Hf. destruct (sv_filed key c Hf) as (?&_&_&_&Hn). by destruct Hn; left.
  - intros c' conn' -> Hc'. by rewrite Ec, lookup_delete_eq in Hc'.
  - intros c' x -> Hx. subst w'. cbn in Hx. by rewrite lookup_delete_eq in Hx.
  - cbn in sv_nodup |- *. by apply NoDup_cons in sv_nodup as [_ ?].
  - intros c' Hne. by rewrite elem_of_cons_ne.
  - intros c' -> Hin. cbn in sv_nodup, Hin. by apply NoDup_cons in sv_nodup as [? _].
  - intros fd. replace (open_fds (trace w')) with (open_fds (trace w) ∖ {[c_fd conn]}).
    2: { subst w'. unfold called. cbn. rewrite open_fds_snoc. cbn. by rewrite Hr. }
    rewrite elem_of_difference, elem_of_singleton, sv_open, Ec, (fd_used_delete _ c conn) by done.
    split; [tauto|]. intros [Hb|?]; [|tauto]. split; [by left|]. intros ->. by apply (sv_base c conn).
Qed.

Lemma wp_destroy_functions gone w :
  serving [] gone idle [] w →
  wp (destroy_functions (map FConnectDestoryed gone)) (λ _ w', serving [] [] idle [] w') w.
Proof.
  induction gone as [|c gone IH] in w |- *; intros Hs; cbn [map destroy_functions functor_conn]; [by wp_step|].
  unfold release. wp_step. rewrite (not_owned gone c w Hs). cbn [negb]. wp_step.
  destruct (sv_present _ _ _ _ _ _ Hs c) as [conn Hc]; [by left|].
  destruct (serving_channel _ _ _ _ _ _ _ Hs Hc) as ([]&x&reg&ev&Hx&Hmark).
  destruct (sv_chans _ _ _ _ _ _ Hs (S c) x Hx) as (_&_&[Hflag _]).
  unfold TcpConnection_dtor, Channel_dtor, Socket_dtor, closefd, get_conn, get_chan. wp_step.
  eapply wp_deref; [done|]. wp_step. rewrite cw_channel. eapply wp_deref; [done|]. wp_step.
  apply wp_assert; [by rewrite Hflag|]. wp_step. apply wp_sys_lawful; [apply Hs|].
  intros r k Hp w1 Hk. wp_step. apply IH. cbn in Hp.
  rewrite bool_decide_eq_true_2 in Hp by (apply (sv_open _ _ _ _ _ _ Hs); right; by exists c, conn).
  cbn in Hp. apply Z.eqb_eq in Hp. by eapply (serving_deleted gone c conn k r w).
Qed.

(** ** The pass over pending calls *)

Lemma serving_set_pending closing gone h pending pending' w :
  serving closing gone h pending w →
  serving closing gone h pending'
    (w <| loops ::= alter (λ x, x <| pendingFunctors_ := pending' |>) (ly_loop ly) |>).
Proof.
  intros Hs. pose proof Hs as []. destruct sv_loop as (loop&El&Hlw).
  eapply (serving_step ly (λ _, False) (λ _, False) closing gone h pending); try apply _; try done.
  - by apply (registration_loops (ly_loop ly) (ly_loop ly) (λ x, x <| pendingFunctors_ := pending' |>) w).
  - exists (loop <| pendingFunctors_ := pending' |>). cbn. rewrite El, alter_singleton_eq. split; [done|].
    by destruct Hlw.
  - destruct sv_server as (server&Es&[]). exists server. split; [done|by split].
  - intros i x Hx. by destruct (sv_chans i x Hx) as (_&_&?).
Qed.

Lemma serving_loop_mark f closing gone h pending w :
  (∀ x, loop_mark (f x) = loop_mark x ∧ nevents_ (epoller_ (f x)) = nevents_ (epoller_ x)) →
  serving closing gone h pending w →
  serving closing gone h pending (w <| loops ::= alter f (ly_loop ly) |>).
Proof.
  intros Hf Hs. destruct (serving_loop _ _ _ _ _ Hs) as (loop&Hl&[]).
  eapply serving_marked; [exact Hs| | | |].
  - split; try done; [|by apply runs_same]. cbn. apply fmap_alter_id. intros x. apply Hf.
  - intros i x Hx. by destruct (sv_chans _ _ _ _ _ _ Hs i x Hx) as (_&_&?).
  - apply (sv_handled _ _ _ _ _ _ Hs).
  - intros loop' Hl'. cbn in Hl'. rewrite lookup_alter_eq, Hl in Hl'. injection Hl' as <-.
    by destruct (Hf loop) as [_ ->].
Qed.

Lemma wp_pending_calls closing gone w :
  serving closing gone idle [] w →
  wp (iterM run_functor (map FConnectDestoryed closing)) (λ _ w', serving [] (gone ++ closing) idle [] w') w.
Proof.
  induction closing as [|c closing IH] in gone, w |- *; intros Hs; cbn [map iterM run_functor].
  - wp_step. by rewrite app_nil_r.
  - wp_step. eapply wp_mono; [by eapply wp_connectDestoryed_serving|]. intros [] w1 Hs1. cbv beta.
    eapply wp_mono; [by apply (IH (gone ++ [c]))|]. intros [] w2. by rewrite <- app_assoc.
Qed.

(** The pass over pending calls destroys the connections that were closed. *)
Lemma wp_doPendingFunctions closing w :
  busy closing idle w →
  wp (doPendingFunctions run_functor destroy_functions (ly_loop ly)) (λ _ w', busy [] idle w') w.
Proof.
  intros Hs. unfold doPendingFunctions, upd_loop, get_loop. wp_step.
  eapply (serving_loop_mark (λ x, x <| callingdoPendingFunctions_ := true |>)) in Hs; [|done].
  destruct (serving_loop _ _ _ _ _ Hs) as (loop&Hl&[]).
  eapply wp_deref; [exact Hl|]. rewrite lw_pending. wp_step.
  eapply (serving_set_pending _ _ _ _ []) in Hs.
  eapply wp_mono; [by eapply wp_pending_calls|]. intros [] w1 Hs1. cbv beta. wp_step. cbn [app] in Hs1.
  eapply (serving_loop_mark (λ x, x <| callingdoPendingFunctions_ := false |>)) in Hs1; [|done].
  by apply wp_destroy_functions.
Qed.

(** ** Accepting a connection *)

Lemma serving_conn_fd closing gone h pending c conn w :
  serving closing gone h pending w → conns w !! c = Some conn →
  c_fd conn ∈ open_fds (trace w) ∧ 0 ≤ c_fd conn.
Proof.
  intros Hs Hc. assert (c_fd conn ∈ open_fds (trace w)) as Hin
    by (apply (sv_open _ _ _ _ _ _ Hs); right; by exists c, conn).
  split; [done|by eapply open_fds_nonneg].
Qed.

(** [accept] has failed. *)
Lemma serving_accept_failed closing gone h pending r k w
    (w' := called k (SysAccept4 (ly_listenfd ly)) r w) :
  serving closing gone h pending w → rv r < 0 → reachable_kernel w' → serving closing gone h pending w'.
Proof.
  intros Hs Hr Hk. pose proof Hs as [].
  assert (arrivals (trace w') = arrivals (trace w) ∧ open_fds (trace w') = open_fds (trace w)) as [Harr Ho].
  { unfold w', called. cbn. rewrite arrivals_snoc, open_fds_snoc. unfold open_step. cbn.
    by rewrite (proj2 (Z.leb_gt _ _) Hr). }
  eapply (serving_step ly (λ _, False) (.= rv r) closing gone h pending); try apply _; try done.
  - split; try done. apply calm_accept.
  - intros c conn Hc E. destruct (serving_conn_fd _ _ _ _ _ _ _ Hs Hc). lia.
  - by apply registration_sys.
  - destruct sv_loop as (loop&El&[]). exists loop. split; [done|by split].
  - destruct sv_server as (server&Es&[]). exists server. split; [done|]. split; try done. by rewrite Harr.
  - intros i x Hx. by destruct (sv_chans i x Hx) as (_&_&?).
  - intros fd. by rewrite Ho.
  - intros fd ->. unfold w', called. cbn. rewrite received_snoc, written_snoc. cbn. by rewrite Z.eqb_refl.
Qed.

(** The objects of a connection just accepted. *)
Definition new_name (server : TcpServer) : string := conn_name (s_name server) (nextConnfd_ server).
Definition established (server : TcpServer) (c : nat) (fd : Z) (la : sockaddr_in) : TcpConnection :=
  (new_conn (ly_loop ly) (S c) (new_name server) fd la)
    <| connectionCallback_ := Some kPingpong |> <| messageCallback_ := Some kPingpong |>
    <| c_closeCallback := Some (CloseServer (ly_server ly)) |> <| c_state := kConnected |>.
Definition reading_channel (c : nat) (fd : Z) : Channel :=
  (new_channel (ly_loop ly) c fd) <| events_ := kReadEvent |> <| registeredInEpoller_ := true |>.
Definition filing (server : TcpServer) (c : nat) : TcpServer :=
  server <| nextConnfd_ := nextConnfd_ server + 1 |> <| threadPool_ := threadPool_ server |>
    <| connections_ ::= <[new_name server := c]> |>.

Lemma alive_new c server fd la loop w :
  conns w !! c = Some (established server c fd la) → chans w !! S c = Some (reading_channel c fd) →
  loops w !! ly_loop ly = Some loop → threadId_ loop = cur w → registration (ly_loop ly) w →
  received_on fd (trace w) = [] → written fd (trace w) = [] → fin_sent fd (trace w) = false →
  filed ly c (new_name server) w → alive ly c (established server c fd la) w.
Proof.
  intros Hc Hch Hl Ht HR Hrec Hwr Hfin Hf. pose proof (traffic_nonneg (trace w)).
  destruct wf_ctor as [Hwf Hcont].
  assert (zlen (buffer_ Buffer_ctor) = kCheapPrepend + kInitialSize) as Hsize by by vm_compute.
  split; [|exact Hwf|exact Hcont|cbn [inputBuffer_ upd established new_conn]; lia|exact Hf].
  exists (reading_channel c fd), loop. split; try done.
  - split; try done. split; [by apply registration_weaken|done].
  - cbn. unfold kMaxTraffic, kCheapPrepend, max_size. lia.
  - cbn. rewrite Hrec, Hwr. by rewrite Hcont.
Qed.

Section Accepted.
Context (closing : list nat) (h : focus) (pending : list Functor) (server : TcpServer).
Context (la : sockaddr_in) (k : K) (r1 r2 r3 r4 : SysRes) (w w' : W).
Context (c : nat) (fd : Z) (Ec : c = next_id w) (Efd : rv r1 = fd).
Context (Hs : serving closing [] h pending w) (Hserver : servers w !! ly_server ly = Some server).
Context (Hunused : unused (trace w) fd = true) (Hload : arrivals (trace w) < kMaxArrivals) (Hctl : rv r3 = 0).
Context (Ew : w' = w <| kern := k |>
  <| trace ::= λ t, (((t ++ [(SysAccept4 (ly_listenfd ly), r1)]) ++ [(SysGetsockname fd, r2)])
                     ++ [(SysEpollCtl (ly_epfd ly) EPOLL_CTL_ADD fd kReadEvent, r3)])
                     ++ [(SysSetsockopt fd TCP_NODELAY 1, r4)] |>
  <| next_id := S (S c) |> <| conns ::= <[c := established server c fd la]> |>
  <| chans ::= <[S c := reading_channel c fd]> |>
  <| loops ::= alter (λ x, x <| epoller_ ::= λ e, e <| channels_ ::= <[fd := S c]> |> |>) (ly_loop ly) |>
  <| servers ::= <[ly_server ly := filing server c]> |>).
Context (Hk : reachable_kernel w') (HR : registration (ly_loop ly) w').

Lemma accepted_fresh :
  conns w !! c = None ∧ chans w !! S c = None ∧ (S c ∉ fixed_ids ly) ∧ (fd ∉ base_fds ly) ∧ 0 ≤ fd ∧
  (∀ c2 conn2, conns w !! c2 = Some conn2 → c_fd conn2 ≠ fd).
Proof.
  assert (chans w !! S c = None) as Hno.
  { destruct (chans w !! S c) as [x|] eqn:E; [|done]. apply (sv_chans _ _ _ _ _ _ Hs) in E as (_&Hlt&_).
    lia. }
  apply andb_prop in Hunused as [Hpos%Z.leb_le Hclosed%bool_decide_eq_true]. split_and!; try done.
  - destruct (conns w !! c) as [conn|] eqn:E; [|done].
    destruct (serving_channel _ _ _ _ _ _ _ Hs E) as (_&x&_&_&Hx&_). congruence.
  - destruct (sv_timer _ _ _ _ _ _ Hs) as (x1&H1&_), (sv_wake _ _ _ _ _ _ Hs) as (x2&H2&_),
      (sv_accept _ _ _ _ _ _ Hs) as (x3&H3&_).
    unfold fixed_ids. rewrite !elem_of_cons. intros [E|[E|[E|E%elem_of_nil]]]; [..|done];
      rewrite <- E in *; congruence.
  - intros Hb. apply Hclosed, (sv_open _ _ _ _ _ _ Hs). by left.
  - intros c2 conn2 Hc2 E. apply Hclosed, (sv_open _ _ _ _ _ _ Hs). right. by exists c2, conn2.
Qed.

Lemma accepted_history :
  calm (.= fd) (trace w) (trace w') ∧ arrivals (trace w') = arrivals (trace w) + 1 ∧
  open_fds (trace w') = {[fd]} ∪ open_fds (trace w) ∧
  received_on fd (trace w') = [] ∧ written fd (trace w') = [] ∧ fin_sent fd (trace w') = false.
Proof.
  destruct accepted_fresh as (_&_&_&_&Hpos&_). rewrite Ew. cbn [trace upd]. split_and!.
  - rewrite <- Efd.
    eapply calm_trans; [eapply calm_trans; [eapply calm_trans; [apply calm_accept|]|]|]; by apply calm_snoc.
  - rewrite !arrivals_snoc. cbn. by rewrite Efd, (proj2 (Z.leb_le _ _) Hpos).
  - rewrite !open_fds_snoc. unfold open_step. cbn. by rewrite Efd, (proj2 (Z.leb_le _ _) Hpos).
  - rewrite !received_snoc. cbn. by rewrite Efd, Z.eqb_refl.
  - rewrite !written_snoc. cbn. by rewrite Efd, Z.eqb_refl.
  - rewrite !fin_sent_snoc. cbn. rewrite Efd, !Z.eqb_refl. done.
Qed.

Lemma accepted_filed :
  server_wired ly server w ∧
  (∀ key c', c' ≠ c → filed ly c' key w' ↔ filed ly c' key w) ∧
  (∀ key, filed ly c key w' ↔ key = new_name server).
Proof.
  destruct (sv_server _ _ _ _ _ _ Hs) as (server0&Es&Hsw).
  assert (server0 = server) as -> by (rewrite Es, lookup_singleton_eq in Hserver; by injection Hserver).
  assert (servers w' !! ly_server ly = Some (filing server c)) as Es'
    by (rewrite Ew; cbn; apply lookup_insert_eq).
  pose proof (names_ok_fresh _ (sw_names _ _ _ Hsw)) as Hno. fold (new_name server) in Hno.
  assert (∀ key c', filed ly c' key w' ↔ <[new_name server := c]> (connections_ server) !! key = Some c') as Hf'.
  { intros key c'. unfold filed. rewrite Es'. split; [intros (s'&[= <-]&Hin); exact Hin|].
    intros Hin. eexists. split; [done|]. exact Hin. }
  assert (∀ key c', filed ly c' key w ↔ connections_ server !! key = Some c') as Hf.
  { intros key c'. unfold filed. rewrite Hserver. split; [by intros (s'&[= <-]&Hin)|]. intros Hin. by exists server. }
  destruct accepted_fresh as (Hnew&_). split_and!; [done| |].
  - intros key c' Hne. rewrite Hf', Hf. destruct (decide (key = new_name server)) as [->|Hk'].
    + rewrite lookup_insert_eq, Hno. split; congruence.
    + by rewrite lookup_insert_ne.
  - intros key. rewrite Hf'. destruct (decide (key = new_name server)) as [->|Hk']; [by rewrite lookup_insert_eq|].
    rewrite lookup_insert_ne by done. split; [|done]. intros Hin. apply Hf in Hin.
    apply (sv_filed _ _ _ _ _ _ Hs) in Hin as (conn&Hc&_). congruence.
Qed.

Lemma serving_accepted : serving closing [] h pending w'.
Proof.
  destruct accepted_fresh as (Hnew&Hnewch&Hfix&Hbase&Hpos&Hfds).
  destruct accepted_history as (Hcalm&Harr&Ho&Hrec&Hwr&Hfin).
  destruct accepted_filed as (Hsw&Hfile&Hfile_c). pose proof Hs as [].
  destruct sv_loop as (loop&El&Hlw), sv_server as (server0&Es&_).
  assert (loops w' = {[ly_loop ly := loop <| epoller_ ::= λ e, e <| channels_ ::= <[fd := S c]> |> |>]}) as El'.
  { rewrite Ew. cbn. by rewrite El, alter_singleton_eq. }
  assert (conns w' = <[c := established server c fd la]> (conns w)) as Ec' by by rewrite Ew.
  assert (chans w' = <[S c := reading_channel c fd]> (chans w)) as Ech' by by rewrite Ew.
  assert (c ∉ closing) as Hnc.
  { intros Hin. destruct (sv_present c) as [conn Hc]; [apply elem_of_app; by left|congruence]. }
  eapply (serving_step ly (.= c) (.= fd) closing [] h pending); try apply _; try done.
  - pose proof Hk as Hk'. rewrite Ew in Hcalm, Hk' |- *. split; try done; cbn [conns chans next_id upd].
    + intros c' Hne. by rewrite lookup_insert_ne.
    + intros i Hi. rewrite lookup_insert_ne; [done|]. intros <-. by apply (Hi c).
    + lia.
  - intros c' conn Hc' E. by apply Hfds in Hc'.
  - by intros c' ->.
  - eexists. split; [exact El'|]. destruct Hlw. split; try done. by rewrite Ew.
  - exists (filing server c). split.
    { rewrite Ew. cbn. rewrite Es, insert_singleton_eq. done. }
    destruct Hsw. split; try done.
    + apply names_ok_next; [done|]. rewrite sw_count. unfold kMaxArrivals in Hload. lia.
    + rewrite Harr, Z.add_assoc, <- sw_count. done.
  - intros i x Hx. rewrite Ech' in Hx. apply lookup_insert_Some in Hx as [[<- <-]|[_ Hx]].
    + split; [|done]. cbn. symmetry. apply bool_decide_eq_false. intros E. destruct (sv_handled (S c)) as [x Hx]; [by left|congruence].
    + by destruct (sv_chans i x Hx) as (_&_&?).
  - intros i Hi. apply sv_handled in Hi as [x Hx]. rewrite Ech', lookup_insert_ne by congruence. by eexists.
  - intros key c' -> ->%Hfile_c. exists (established server c fd la). rewrite Ec', lookup_insert_eq.
    split_and!; [done|done|done|apply fresh_notin].
  - intros c' conn -> Hc'. rewrite Ec', lookup_insert_eq in Hc'. injection Hc' as <-. split_and!; [done| |done|].
    + unfold conn_phase. rewrite !bool_decide_eq_false_2 by done. split.
      * eapply alive_new; try done; [by rewrite Ec', lookup_insert_eq|by rewrite Ech', lookup_insert_eq
          |by rewrite El', lookup_singleton_eq|rewrite Ew; apply Hlw|by apply Hfile_c].
      * rewrite Ech', lookup_insert_eq. by eexists _, kReadEvent.
    + intros c2 conn2 Hne Hc2. rewrite Ec', lookup_insert_ne in Hc2 by done. by eapply Hfds.
  - intros c' x -> _. rewrite Ec', lookup_insert_eq. split; [by eexists|]. rewrite Ew. cbn. lia.
  - intros c' -> _. rewrite Ec', lookup_insert_eq. by eexists.
  - intros fd'. rewrite Ho, elem_of_union, elem_of_singleton, sv_open, Ec', fd_used_insert by done. cbn. tauto.
  - intros fd' ->. rewrite Hwr. by apply prefix_nil.
Qed.
End Accepted.

Lemma unused_unmapped closing gone h pending loop fd w :
  serving closing gone h pending w → loops w !! ly_loop ly = Some loop → unused (trace w) fd = true →
  channels_ (epoller_ loop) !! fd = None.
Proof.
  intros Hs Hl [_ Hn%bool_decide_eq_true]%andb_prop. destruct (channels_ _ !! _) as [i|] eqn:E; [|done].
  destruct Hn. apply (sv_open _ _ _ _ _ _ Hs).
  eapply mapped_fd in E as [Hb|(c&conn&Hc&<-&_)]; [by left| |exact Hs|exact Hl]. right. by exists c, conn.
Qed.

(** A connection accepted and filed, about to be established. *)
Definition connecting_conn (server : TcpServer) (c : nat) (fd : Z) (la : sockaddr_in) : TcpConnection :=
  (established server c fd la) <| c_state := kConnecting |>.
Definition filed_world (server : TcpServer) (c : nat) (la : sockaddr_in) (k : K) (r1 r2 : SysRes) (w : W) : W :=
  w <| kern := k |> <| trace ::= λ t, (t ++ [(SysAccept4 (ly_listenfd ly), r1)]) ++ [(SysGetsockname (rv r1), r2)] |>
    <| next_id := S (S c) |> <| conns ::= <[c := connecting_conn server c (rv r1) la]> |>
    <| chans ::= <[S c := new_channel (ly_loop ly) c (rv r1)]> |>
    <| servers ::= <[ly_server ly := filing server c]> |>.

Lemma wp_establish_accepted closing h pending server loop la k r1 r2 w (c := next_id w)
    (w3 := filed_world server c la k r1 r2 w) :
  serving closing [] h pending w → loops w !! ly_loop ly = Some loop → servers w !! ly_server ly = Some server →
  unused (trace w) (rv r1) = true → arrivals (trace w) < kMaxArrivals → reachable_kernel w3 →
  wp (connectEstablished c) (λ _ w', serving closing [] h pending w') w3.
Proof.
  intros Hs Hl Hserver Hunused Hload Hk3. pose proof (serving_loop _ _ _ _ _ Hs) as (loop'&Hl'&[]).
  rewrite Hl in Hl'. injection Hl' as <-.
  pose proof (accepted_fresh closing h pending w c (rv r1) eq_refl Hs Hunused) as (_&Hnew&_&_&Hpos&_).
  assert (registration (ly_loop ly) w3) as HR3.
  { pose proof (sv_registration _ _ _ _ _ _ Hs) as HR.
    apply (registration_sys _ _ k (SysAccept4 (ly_listenfd ly)) r1 I) in HR.
    apply (registration_sys _ _ k (SysGetsockname (rv r1)) r2 I) in HR.
    by apply (registration_new_chan _ (S c) (new_channel (ly_loop ly) c (rv r1))) in HR. }
  unfold connectEstablished, get_conn, setState, upd_conn. wp_step.
  eapply wp_deref; [apply lookup_insert_eq|]. wp_step.
  eapply wp_assertInLoopThread; [exact Hl|done|]. wp_step.
  apply wp_assert; [done|]. wp_step. cbn [c_channel connecting_conn established new_conn upd].
  pose proof (unused_unmapped _ _ _ _ _ _ _ Hs Hl Hunused) as Hfd.
  eapply (wp_enableReading_new (S c) (new_channel (ly_loop ly) c (rv r1)) loop); try done.
  { apply lookup_insert_eq. }
  { do 2 (refine (ctl_ok_snoc _ _ _ _ _); [|done]). apply Hs. }
  { cbn. rewrite !open_fds_snoc. unfold open_step. cbn. rewrite (proj2 (Z.leb_le _ _) Hpos). set_solver. }
  intros k4 r4 w4 Hr4 Hk4 Hctl4 HR4. wp_step.
  eapply wp_deref; [cbn [conns upd]; apply lookup_alter_Some; left; split; [done|]; eexists; split; [apply lookup_insert_eq|done]|].
  cbn [connectionCallback_ upd connecting_conn established new_conn call_opt u_connection lifecycle_code echo_code kPingpong kEcho Nat.eqb].
  unfold pingpong_onConnection, TcpConnection_setTcpNoDelay, Socket_setTcpNoDelay, get_conn. wp_step.
  eapply wp_deref; [cbn [conns upd]; apply lookup_alter_Some; left; split; [done|]; eexists; split; [apply lookup_insert_eq|done]|]. wp_step.
  apply wp_sys_lawful; [exact Hk4|]. intros r5 k5 _ w5 Hk5. wp_step.
  eapply (serving_accepted closing h pending server la k5 r1 r2 r4 r5 w w5 c (rv r1)); try done.
  - unfold w5, w4, w3, filed_world, set_chan, set_channels, called. cbn.
    rewrite !insert_insert_eq, alter_insert_eq, lw_epfd. done.
  - by apply registration_sys.
Qed.

Lemma wp_serving_accept closing h pending w :
  serving closing [] h pending w →
  wp (Acceptor_handleRead run_new (ly_acceptor ly)) (λ _ w', serving closing [] h pending w') w.
Proof.
  intros Hs. destruct (serving_loop _ _ _ _ _ Hs) as (loop&Hl&[]).
  unfold Acceptor_handleRead, get_acceptor, Socket_accept, sock_accept. wp_step.
  eapply wp_deref; [apply (sv_acceptor _ _ _ _ _ _ Hs)|]. wp_step.
  eapply wp_assertInLoopThread; [done..|]. wp_step. apply wp_sys_lawful; [apply Hs|].
  intros r1 k1 Hp w1 Hk1. wp_step. cbn [a_fd newConnectionCallback_ permits] in Hp |- *.
  destruct (Z.leb_spec 0 (rv r1)) as [Hpos|Hneg]; [|wp_step; by apply (serving_accept_failed closing [] h pending r1 k1 w)].
  rewrite (proj2 (Z.ltb_ge _ _) Hpos) in Hp. cbn [orb] in Hp.
  apply andb_prop in Hp as [Hunused Hload%Z.ltb_lt]. cbn [run_new].
  destruct (sv_server _ _ _ _ _ _ Hs) as (server&Es&[]).
  assert (servers w !! ly_server ly = Some server) as Hserver by (rewrite Es; apply lookup_singleton_eq).
  unfold TcpServer_newConnection, get_server, upd_server, getLocalAddr, getNextLoop. wp_step.
  eapply wp_deref; [exact Hserver|]. wp_step. rewrite sw_loop.
  eapply wp_assertInLoopThread; [exact Hl|done|]. wp_step.
  eapply wp_of_option.
  { rewrite (proj2 (Z.ltb_lt _ _)); [done|]. rewrite sw_count. unfold kMaxArrivals in Hload. lia. }
  wp_step. apply wp_sys_lawful; [exact Hk1|]. intros r2 k2 _ w2 Hk2. wp_step.
  rewrite sw_pool. cbn [baseLoop_ loops_ EventLoopThreadPool_ctor upd].
  eapply wp_assertInLoopThread; [exact Hl|done|]. wp_step.
  apply wp_TcpConnection_ctor. intros c. unfold setConnectionCallBack, setMessageConnectionCallBack,
    setCloseCallBack, upd_conn. wp_step.
  match goal with |- wp _ _ ?x =>
    replace x with (filed_world server c (match out r2 with OutAddr a => a | _ => bzero_addr end) k2 r1 r2 w) end.
  2: { unfold filed_world, connecting_conn, filing. rewrite sw_pool, sw_connection, sw_message. cbn.
    rewrite !alter_insert_eq, (alter_as_insert _ _ _ _ Hserver), !alter_insert_eq. done. }
  by apply wp_establish_accepted with (loop := loop).
Qed.
End Lifecycle.
