(* ===== verification/ServerBoot.v ===== *)
(** * ServerBoot

    [example/pingpong_server.cc] with one thread up to its loop: the
    constructors of the loop and of the server, and [TcpServer::start], on any
    lawful operating system, establish the invariant of ServerInvariant. *)
From S2P Require Import Prelude Printf Buffer Timestamp World Channel EventLoop TimerQueue Net.
From S2P Require Import TcpConnection Acceptor TcpServer Connector TcpClient Reactor Echo.
From S2P Require Import Posix ConnFrame ServerInvariant.
Local Open Scope Z_scope.

(** ** From the first instruction *)

Section Boot.
Context {K : Type} `{Kernel K} `{!Machine K} `{!Clock K} `{!Writes K} `{!Reads K}.
Abbreviation W := (World K unit).
Implicit Types (w : W).
#[local] Instance boot_code : UserCode K unit := echo_code.

(** A process of one thread, before its first instruction. *)
Definition started (k : K) (tid : Z) : W := mkWorld k [] tid ∅ 0 0%nat ∅ ∅ ∅ ∅ ∅ ∅ ∅ ∅ tt.

(** The channels of the loop and of the acceptor, and the loop. *)
Definition base_channel (fd : Z) (cb : Callback) : Channel :=
  mkChannel 0 fd false true false kReadEvent 0 (Some cb) None None None.
Definition base_loop (tid wakefd epfd timerfd : Z) (channels : gmap Z nat) : EventLoop :=
  mkEventLoop false false false wakefd tid Timestamp_ctor (mkEpoller epfd channels kInitEventListSize)
    (mkTimerQueue timerfd 1 []) 2 [] [].

(** Two worlds spelled out are the same. *)
Ltac settle :=
  repeat rewrite alter_insert_eq; repeat rewrite insert_empty; repeat rewrite alter_singleton_eq; reflexivity.

Lemma unused_pos t fd : unused t fd = true → 0 ≤ fd ∧ fd ∉ open_fds t.
Proof. intros [?%Z.leb_le ?%bool_decide_eq_true]%andb_prop. done. Qed.

Lemma registration_same l w w' :
  loops w' = loops w → chans w' = chans w → trace w' = trace w → registration l w → registration l w'.
Proof. unfold registration. by intros -> -> ->. Qed.

(** *** The loop *)

(** What is left of a channel that is not watched yet. *)
Definition unwatched (x : Channel) : Channel := x <| events_ := 0 |> <| registeredInEpoller_ := false |>.

(** The process when its loop has its descriptors: one for waking it, one to
    wait on, one for its timers; the answers were these. *)
Definition fds_trace (r1 r2 r3 : SysRes) : history :=
  [(SysEventfd, r1); (SysEpollCreate, r2); (SysTimerfdCreate, r3)].
Definition timer_chan (r3 : SysRes) : Channel := base_channel (rv r3) (CbTimerRead 0).
Definition wake_chan (r1 : SysRes) : Channel := base_channel (rv r1) (CbLoopRead 0).
Definition fds_loop (tid : Z) (r1 r2 r3 : SysRes) : EventLoop :=
  (base_loop tid (rv r1) (rv r2) (rv r3) ∅) <| wakeupchannel_ := 0%nat |>.
Definition fds_world (k : K) (tid : Z) (r1 r2 r3 : SysRes) : W :=
  mkWorld k (fds_trace r1 r2 r3) tid ∅ 0 2%nat {[1%nat := unwatched (timer_chan r3)]}
    {[0%nat := fds_loop tid r1 r2 r3]} ∅ ∅ ∅ ∅ ∅ ∅ tt.

(** ... when the timers are watched and the other channel is about to be ... *)
Definition timer_trace (r1 r2 r3 r4 : SysRes) : history :=
  fds_trace r1 r2 r3 ++ [(SysEpollCtl (rv r2) EPOLL_CTL_ADD (rv r3) kReadEvent, r4)].
Definition timer_loop (tid : Z) (r1 r2 r3 : SysRes) : EventLoop :=
  base_loop tid (rv r1) (rv r2) (rv r3) {[rv r3 := 1%nat]}.
Definition timer_world (k : K) (tid : Z) (r1 r2 r3 r4 : SysRes) : W :=
  mkWorld k (timer_trace r1 r2 r3 r4) tid {[tid := 0%nat]} 0 3%nat
    (<[2%nat := unwatched (wake_chan r1)]> {[1%nat := timer_chan r3]})
    {[0%nat := timer_loop tid r1 r2 r3]} ∅ ∅ ∅ ∅ ∅ ∅ tt.

(** ... and when the loop has been constructed. *)
Definition loop_trace (r1 r2 r3 r4 r5 : SysRes) : history :=
  timer_trace r1 r2 r3 r4 ++ [(SysEpollCtl (rv r2) EPOLL_CTL_ADD (rv r1) kReadEvent, r5)].
Definition loop_channels (r1 r3 : SysRes) : gmap Z nat := <[rv r1 := 2%nat]> {[rv r3 := 1%nat]}.
Definition loop_chans (r1 r3 : SysRes) : gmap nat Channel := <[2%nat := wake_chan r1]> {[1%nat := timer_chan r3]}.
Definition loop_world (k : K) (tid : Z) (r1 r2 r3 r4 r5 : SysRes) : W :=
  mkWorld k (loop_trace r1 r2 r3 r4 r5) tid {[tid := 0%nat]} 0 3%nat (loop_chans r1 r3)
    {[0%nat := base_loop tid (rv r1) (rv r2) (rv r3) (loop_channels r1 r3)]} ∅ ∅ ∅ ∅ ∅ ∅ tt.

(** The descriptors of the loop. *)
Record good_fds (r1 r2 r3 : SysRes) : Prop := {
  gf_distinct : NoDup [rv r1; rv r2; rv r3];
  gf_wake : 0 ≤ rv r1; gf_epoll : 0 ≤ rv r2; gf_timer : 0 ≤ rv r3;
}.

(** The machine can be in this world, and every registration succeeded. *)
Record sound (w : W) : Prop := {
  sd_kernel : reachable_kernel w;
  sd_ctl : ctl_ok (trace w);
  sd_registration : registration 0 w;
}.

Lemma fds_open r1 r2 r3 fd :
  0 ≤ rv r1 → 0 ≤ rv r2 → 0 ≤ rv r3 →
  fd ∈ open_fds (fds_trace r1 r2 r3) ↔ fd = rv r3 ∨ fd = rv r2 ∨ fd = rv r1.
Proof.
  intros. unfold open_fds, open_step, made. cbn. rewrite !(proj2 (Z.leb_le _ _)) by done.
  rewrite !elem_of_union, !elem_of_singleton, elem_of_empty. tauto.
Qed.

Lemma fds_good r1 r2 r3 :
  unused [] (rv r1) = true → unused [(SysEventfd, r1)] (rv r2) = true →
  unused [(SysEventfd, r1); (SysEpollCreate, r2)] (rv r3) = true → good_fds r1 r2 r3.
Proof.
  intros [H1 _]%unused_pos [H2 Hun2]%unused_pos [H3 Hun3]%unused_pos. split; [|done..].
  revert Hun2 Hun3. unfold open_fds, open_step, made. cbn. rewrite !(proj2 (Z.leb_le _ _)) by done.
  rewrite !not_elem_of_union, !not_elem_of_singleton, !NoDup_cons, !not_elem_of_cons.
  intros [? _] (?&?&_). split_and!; try apply not_elem_of_nil; [congruence..|constructor].
Qed.

Lemma fds_sound k tid r1 r2 r3 : consistent k (fds_trace r1 r2 r3) → sound (fds_world k tid r1 r2 r3).
Proof.
  intros Hk. split; [done|by repeat constructor|].
  exists (fds_loop tid r1 r2 r3). split; [done|]. split.
  - intros fd i. split; [done|]. intros (ch&Hch&_&_&Hreg). cbn in Hch.
    by apply lookup_singleton_Some in Hch as [_ <-].
  - intros fd. unfold watch_ok, interest, interest_step. cbn. by repeat destruct (negb _).
Qed.

(** The timers are watched, and the channel for waking is made. *)
Definition wake_made (tid : Z) (r1 : SysRes) (w : W) : W :=
  w <| next_id := 3%nat |> <| thisThreadLoop := {[tid := 0%nat]} |>
    <| loops ::= alter (λ x, x <| wakeupchannel_ := 2%nat |>) 0%nat |>
    <| chans ::= <[2%nat := unwatched (wake_chan r1)]> |>.

Lemma wp_watch_timers k tid r1 r2 r3 (Q : unit → W → Prop) :
  good_fds r1 r2 r3 → sound (fds_world k tid r1 r2 r3) →
  (∀ k' r4 w', wake_made tid r1 w' = timer_world k' tid r1 r2 r3 r4 → thisThreadLoop w' = ∅ → next_id w' = 2%nat →
     sound (timer_world k' tid r1 r2 r3 r4) → Q tt w') →
  wp (enableReading 1) Q (fds_world k tid r1 r2 r3).
Proof.
  intros [] [] HQ. eapply (wp_enableReading_new 1%nat (unwatched (timer_chan r3)) (fds_loop tid r1 r2 r3)); try done.
  { cbn. apply fds_open; auto. }
  intros k4 r4 w4 Hr4 Hk4 Hctl4 HR4.
  assert (wake_made tid r1 w4 = timer_world k4 tid r1 r2 r3 r4) as E.
  { unfold wake_made, w4, set_chan, set_channels, called, timer_world. cbn. settle. }
  apply (HQ k4 r4); [done..|]. rewrite <- E. split; [done..|].
  apply (registration_new_chan 0 2%nat (unwatched (wake_chan r1))); [|done|by apply registration_loops].
  cbn. by rewrite lookup_insert_ne, lookup_singleton_ne.
Qed.

Lemma wp_watch_wakeup k tid r1 r2 r3 r4 (Q : unit → W → Prop) :
  good_fds r1 r2 r3 → sound (timer_world k tid r1 r2 r3 r4) →
  (∀ k' r5, sound (loop_world k' tid r1 r2 r3 r4 r5) → Q tt (loop_world k' tid r1 r2 r3 r4 r5)) →
  wp (enableReading 2) Q (timer_world k tid r1 r2 r3 r4).
Proof.
  intros [] [] HQ. eapply (wp_enableReading_new 2%nat (unwatched (wake_chan r1)) (timer_loop tid r1 r2 r3)); try done.
  { cbn. apply lookup_singleton_ne. intros E. rewrite E in *. apply NoDup_cons in gf_distinct0 as [[] _]. right. left. }
  { change (rv r1 ∈ open_fds (timer_trace r1 r2 r3 r4)). unfold timer_trace. rewrite open_fds_snoc. apply fds_open; auto. }
  intros k5 r5 w5 Hr5 Hk5 Hctl5 HR5.
  replace w5 with (loop_world k5 tid r1 r2 r3 r4 r5) in *; [by apply HQ|].
  unfold loop_world, w5, set_chan, set_channels, called. cbn. settle.
Qed.

Lemma wp_boot_loop k tid (Q : nat → W → Prop) :
  consistent k [] →
  (∀ k' r1 r2 r3 r4 r5, good_fds r1 r2 r3 → sound (loop_world k' tid r1 r2 r3 r4 r5) →
     Q 0%nat (loop_world k' tid r1 r2 r3 r4 r5)) →
  wp EventLoop_ctor Q (started k tid).
Proof.
  intros Hk HQ. unfold EventLoop_ctor, TimerQueue_ctor, Channel_ctor, alloc, eventfd_create, Epoller_ctor,
    createtimerfd, upd_loop, setreadCallback, upd_chan. wp_step.
  apply wp_sys_lawful; [exact Hk|]. intros r1 k1 Hun1 w1 Hk1. wp_step.
  rewrite (proj2 (Z.ltb_ge _ _)) by apply (unused_pos _ _ Hun1). wp_step.
  apply wp_sys_lawful; [exact Hk1|]. intros r2 k2 Hun2 w2 Hk2. wp_step.
  apply wp_sys_lawful; [exact Hk2|]. intros r3 k3 Hun3 w3 Hk3. wp_step.
  assert (good_fds r1 r2 r3) as Hg by (apply fds_good; assumption).
  match goal with |- wp _ _ ?x => replace x with (fds_world k3 tid r1 r2 r3) end.
  2: { unfold fds_world, w3, w2, w1, started. cbn. settle. }
  apply wp_watch_timers; [done|by apply fds_sound|]. intros k4 r4 w4 E4 Hnone Hid Hs4. wp_step. rewrite Hid.
  replace (thisThreadLoop w1 !! cur w1) with (None : option nat) by done. wp_step.
  match goal with |- wp _ _ ?x => replace x with (timer_world k4 tid r1 r2 r3 r4) end.
  2: { rewrite <- E4. unfold wake_made. destruct w4. cbn in *. subst. f_equal; by rewrite alter_insert_eq. }
  apply wp_watch_wakeup; [done..|]. intros k5 r5 Hs5. wp_step. by apply HQ.
Qed.

(** *** The server *)

Definition the_server (ip : list char) (port : Z) : TcpServer :=
  mkServer 0 false 1 (String.string_of_list_ascii (InetAddress_toHostPort (InetAddress_ip ip port))) 4
    (EventLoopThreadPool_ctor 0) (Some kPingpong) (Some kPingpong) ∅.
Definition the_acceptor (r6 : SysRes) : Acceptor := mkAcceptor 0 (rv r6) 5 (Some (NewConnServer 3)) false.
Definition accept_chan (r6 : SysRes) : Channel := base_channel (rv r6) (CbAcceptorRead 4).
Definition started_server (ip : list char) (port : Z) : TcpServer :=
  (the_server ip port) <| s_started := true |>
    <| threadPool_ := (EventLoopThreadPool_ctor 0%nat) <| p_started := true |> |>.

Section Server.
Context (ip : list char) (port tid : Z) (r1 r2 r3 r4 r5 : SysRes).
Context (Hfds : good_fds r1 r2 r3).
Abbreviation addr := (InetAddress_ip ip port).

(** The process when its server has been constructed and told what to call ... *)
Definition made_trace (r6 r7 r8 : SysRes) : history :=
  loop_trace r1 r2 r3 r4 r5 ++ [(SysSocket, r6); (SysSetsockopt (rv r6) SO_REUSEADDR 1, r7); (SysBind (rv r6) addr, r8)].
Definition made_world (server : TcpServer) (k : K) (r6 r7 r8 : SysRes) : W :=
  mkWorld k (made_trace r6 r7 r8) tid {[tid := 0%nat]} 0 6%nat (<[5%nat := unwatched (accept_chan r6)]> (loop_chans r1 r3))
    {[0%nat := base_loop tid (rv r1) (rv r2) (rv r3) (loop_channels r1 r3)]}
    ∅ ∅ ∅ {[4%nat := the_acceptor r6]} {[3%nat := server]} ∅ tt.

(** ... and when it listens. *)
Definition server_trace (r6 r7 r8 r9 r10 : SysRes) : history :=
  made_trace r6 r7 r8 ++ [(SysEpollCtl (rv r2) EPOLL_CTL_ADD (rv r6) kReadEvent, r9); (SysListen (rv r6), r10)].
Definition server_world (k : K) (r6 r7 r8 r9 r10 : SysRes) : W :=
  mkWorld k (server_trace r6 r7 r8 r9 r10) tid {[tid := 0%nat]} 0 6%nat (<[5%nat := accept_chan r6]> (loop_chans r1 r3))
    {[0%nat := base_loop tid (rv r1) (rv r2) (rv r3) (<[rv r6 := 5%nat]> (loop_channels r1 r3))]}
    ∅ ∅ ∅ {[4%nat := (the_acceptor r6) <| listenning_ := true |>]} {[3%nat := started_server ip port]} ∅ tt.

Lemma loop_open fd : fd ∈ open_fds (loop_trace r1 r2 r3 r4 r5) ↔ fd = rv r3 ∨ fd = rv r2 ∨ fd = rv r1.
Proof. destruct Hfds. unfold loop_trace, timer_trace. rewrite !open_fds_snoc. by apply fds_open. Qed.

Lemma made_open r6 r7 r8 fd :
  0 ≤ rv r6 → fd ∈ open_fds (made_trace r6 r7 r8) ↔ fd = rv r6 ∨ fd = rv r3 ∨ fd = rv r2 ∨ fd = rv r1.
Proof.
  intros H6. unfold made_trace, open_fds. rewrite foldl_app. fold (open_fds (loop_trace r1 r2 r3 r4 r5)). cbn.
  unfold open_step, made. cbn. rewrite (proj2 (Z.leb_le _ _) H6). by rewrite elem_of_union, elem_of_singleton, loop_open.
Qed.

Lemma made_sound k server r6 r7 r8 k0 :
  sound (loop_world k0 tid r1 r2 r3 r4 r5) → reachable_kernel (made_world server k r6 r7 r8) →
  sound (made_world server k r6 r7 r8).
Proof.
  intros [_ Hctl HR] Hk. split; [done|..].
  - apply Forall_app. split; [exact Hctl|by repeat constructor].
  - apply (registration_sys 0 _ k SysSocket r6) in HR; [|done].
    apply (registration_sys 0 _ k (SysSetsockopt (rv r6) SO_REUSEADDR 1) r7) in HR; [|done].
    apply (registration_sys 0 _ k (SysBind (rv r6) addr) r8) in HR; [|done].
    apply (registration_new_chan 0 5%nat (unwatched (accept_chan r6))) in HR; [|done..].
    by eapply registration_same; [..|exact HR].
Qed.

Lemma wp_make_server k0 (Q : nat → W → Prop) :
  sound (loop_world k0 tid r1 r2 r3 r4 r5) →
  (∀ k r6 r7 r8, unused (loop_trace r1 r2 r3 r4 r5) (rv r6) = true →
     sound (made_world (the_server ip port) k r6 r7 r8) → Q 3%nat (made_world (the_server ip port) k r6 r7 r8)) →
  wp (s ← TcpServer_ctor 0 addr; TcpServer_setConnectionCallBack s kPingpong;;
      TcpServer_setMessageCallBack s kPingpong;; mret s) Q (loop_world k0 tid r1 r2 r3 r4 r5).
Proof.
  intros Hs HQ.
  unfold TcpServer_ctor, Acceptor_ctor, createNonblockingOrDie, Channel_ctor, alloc, setReuseAddr,
    bindAddress, bindOrDie, setreadCallback, upd_chan, Acceptor_setNewConnectionCallBack, upd_acceptor,
    TcpServer_setConnectionCallBack, TcpServer_setMessageCallBack, upd_server. wp_step.
  apply wp_sys_lawful; [apply Hs|]. intros r6 k6 Hun6 w6 Hk6. wp_step.
  apply wp_sys_lawful; [exact Hk6|]. intros r7 k7 _ w7 Hk7. wp_step.
  apply wp_sys_lawful; [exact Hk7|]. intros r8 k8 _ w8 Hk8. wp_step.
  match goal with |- Q _ ?x => replace x with (made_world (the_server ip port) k8 r6 r7 r8) end.
  2: { unfold made_world, w8, w7, w6, loop_world. cbn. settle. }
  apply HQ; [done|]. by eapply made_sound.
Qed.

Lemma wp_start_server tids k0 r6 r7 r8 (Q : unit → W → Prop) :
  unused (loop_trace r1 r2 r3 r4 r5) (rv r6) = true → sound (made_world (started_server ip port) k0 r6 r7 r8) →
  (∀ k r9 r10, sound (server_world k r6 r7 r8 r9 r10) → Q tt (server_world k r6 r7 r8 r9 r10)) →
  wp (TcpServer_start tids 3) Q (made_world (the_server ip port) k0 r6 r7 r8).
Proof.
  intros [H6 Hun6]%unused_pos [] HQ. rewrite loop_open in Hun6.
  unfold TcpServer_start, get_server, upd_server. wp_step.
  eapply wp_deref; [apply lookup_singleton_eq|]. cbn [s_started the_server negb]. unfold Pool_start. wp_step. wp_step.
  apply wp_assert; [done|]. wp_step.
  eapply wp_assertInLoopThread; [apply lookup_singleton_eq|done|]. wp_step.
  replace (start_threads _ _ _) with (mret [] : M W (list nat)) by (by destruct tids).
  unfold runInLoop, isInLoopThread, Acceptor_listen, listenOrDie, upd_acceptor, get_acceptor, get_loop. wp_step.
  eapply wp_deref; [apply lookup_singleton_eq|]. wp_step. cbn [listenning_ the_acceptor negb]. wp_step.
  match goal with |- wp _ _ ?x => replace x with (made_world (started_server ip port) k0 r6 r7 r8) end.
  2: { unfold made_world. cbn. settle. }
  eapply wp_deref; [apply lookup_singleton_eq|]. wp_step. cbn [threadId_ base_loop cur made_world]. rewrite Z.eqb_refl. wp_step.
  eapply wp_deref; [apply lookup_singleton_eq|]. wp_step.
  eapply wp_assertInLoopThread; [apply lookup_singleton_eq|done|]. wp_step.
  eapply (wp_enableReading_new 5%nat (unwatched (accept_chan r6))); try done.
  { cbn. unfold loop_channels. rewrite lookup_insert_ne, lookup_singleton_ne by (intros E; apply Hun6; rewrite <- E; tauto). done. }
  { apply made_open; auto. }
  intros k9 r9 w9 Hr9 Hk9 Hctl9 HR9. wp_step.
  apply wp_sys_lawful; [exact Hk9|]. intros r10 k10 _ w10 Hk10. wp_step.
  match goal with |- Q _ ?x => replace x with (server_world k10 r6 r7 r8 r9 r10) end.
  2: { unfold server_world, server_trace, w10, w9, set_chan, set_channels, called. cbn. settle. }
  apply HQ. split; [done|exact (ctl_ok_snoc _ (SysListen (rv r6)) r10 Hctl9 I)|].
  by apply (registration_sys 0 _ k10 (SysListen (rv r6)) r10) in HR9.
Qed.

(** The invariant holds when the server listens. *)
Lemma server_world_busy k r6 r7 r8 r9 r10 (w := server_world k r6 r7 r8 r9 r10) :
  0 ≤ rv r6 → sound w → busy (mkLayout 0 1 2 5 3 4 (rv r2) (rv r3) (rv r1) (rv r6)) [] idle w.
Proof.
  intros H6 []. split; try done.
  - eexists. split; [done|]. by split.
  - eexists. split; [done|]. by split.
  - intros i a Ha. cbn in Ha. by apply lookup_singleton_Some in Ha as [<- _].
  - by exists (timer_chan r3).
  - by exists (wake_chan r1).
  - by exists (accept_chan r6).
  - intros key c (server&Hs&Hc). cbn in Hs. apply lookup_singleton_Some in Hs as [_ <-]. done.
  - intros i x Hx. cbn in Hx. unfold fixed_ids. cbn.
    unfold loop_chans in Hx. rewrite !lookup_insert_Some, lookup_singleton_Some in Hx.
    destruct Hx as [[<- <-]|[_ [[<- <-]|[_ [<- <-]]]]].
    all: split_and!; [left; rewrite !elem_of_cons; by auto|lia|done].
  - intros i [?|?%elem_of_nil]; done.
  - constructor.
  - intros c ?%elem_of_nil. done.
  - intros fd. change (trace w) with (server_trace r6 r7 r8 r9 r10). unfold server_trace, open_fds. rewrite foldl_app. cbn. fold (open_fds (made_trace r6 r7 r8)).
    rewrite (made_open r6 r7 r8 fd H6).
    unfold base_fds. rewrite !elem_of_cons, elem_of_nil. cbn.
    split; [tauto|]. intros [?|(c&conn&?&_)]; [tauto|done].
Qed.
End Server.

(** *** Both *)

(** The invariant holds when the loop is entered. *)
Definition serves (w : W) : Prop := ∃ ly, ly_loop ly = 0%nat ∧ busy ly [] idle w.

Lemma wp_boot ip port threadCount tids k tid (run : nat → nat → M W bool) Q :
  consistent k [] → threadCount ≤ 1 → (∀ s w, serves w → wp (run s 0%nat) Q w) →
  wp (loop ← EventLoop_ctor;
      s ← TcpServer_ctor loop (InetAddress_ip ip port);
      TcpServer_setConnectionCallBack s kPingpong;;
      TcpServer_setMessageCallBack s kPingpong;;
      whenM (1 <? threadCount) (setThreadNum s threadCount);;
      TcpServer_start tids s;;
      run s loop) Q (started k tid).
Proof.
  intros Hk Ht HQ. rewrite wp_bind. apply wp_boot_loop; [done|].
  intros k5 r1 r2 r3 r4 r5 Hg Hs5. rewrite (proj2 (Z.ltb_ge _ _) Ht).
  assert (wp (s ← TcpServer_ctor 0 (InetAddress_ip ip port); TcpServer_setConnectionCallBack s kPingpong;;
    TcpServer_setMessageCallBack s kPingpong;; mret s)
    (λ s, wp (whenM false (setThreadNum s threadCount);; TcpServer_start tids s;; run s 0%nat) Q)
    (loop_world k5 tid r1 r2 r3 r4 r5)) as Hboot.
  { apply wp_make_server; [done|]. intros k8 r6 r7 r8 Hun6 Hs8. wp_step.
    apply wp_start_server; [done..|by destruct Hs8|]. intros k10 r9 r10 Hs10. wp_step. apply HQ.
    eexists. split; [|eapply server_world_busy; [done|by apply unused_pos in Hun6 as []|done]]. done. }
  revert Hboot. wp_step. done.
Qed.
End Boot.
