(* ===== verification/PingpongServer.v ===== *)
(** * PingpongServer

    [example/pingpong_server.cc] with one thread, from its first instruction
    through any number of iterations of its loop, on any lawful operating
    system: what it means for those who connect. *)
From S2P Require Import Prelude Printf Buffer Timestamp World Channel EventLoop TimerQueue Net.
From S2P Require Import TcpConnection Acceptor TcpServer Connector TcpClient Reactor Echo.
From S2P Require Import Posix ConnFrame StoreTyping ServerInvariant ServerSteps ServerLifecycle ServerBoot.
Local Open Scope Z_scope.

Section Iterations.
Context {K : Type} `{Kernel K} `{!Machine K} `{!Clock K} `{!Writes K} `{!Reads K}.
Abbreviation W := (World K unit).
Implicit Types (w : W) (c i : nat) (closing gone : list nat) (h : focus).
#[local] Instance iterations_code : UserCode K unit := echo_code.
Context {ly : layout}.
Abbreviation serving := (serving ly).
Abbreviation busy := (busy ly).

(** ** The events of one iteration *)

Lemma wp_fixed closing i rest t w :
  i ∈ fixed_ids ly → busy closing (None, i :: rest) w →
  wp (handleEvent run_cb t i) (λ _ w', busy closing (None, rest) w') w.
Proof.
  unfold fixed_ids. rewrite !elem_of_cons. intros [->|[->|[->|Hi%elem_of_nil]]] Hb; [..|done].
  - eapply (wp_fixed_event closing _ rest (ly_timerfd ly) (CbTimerRead (ly_loop ly))); [|intros w'; apply wp_busy_timer|done].
    intros h pending w' Hs. apply (sv_timer _ _ _ _ _ _ Hs).
  - eapply (wp_fixed_event closing _ rest (ly_wakefd ly) (CbLoopRead (ly_loop ly))); [|intros w'; apply wp_busy_wakeup|done].
    intros h pending w' Hs. apply (sv_wake _ _ _ _ _ _ Hs).
  - eapply (wp_fixed_event closing _ rest (ly_listenfd ly) (CbAcceptorRead (ly_acceptor ly))); [|intros w'; apply wp_serving_accept|done].
    intros h pending w' Hs. apply (sv_accept _ _ _ _ _ _ Hs).
Qed.

Lemma wp_events t cs closing w :
  busy closing (None, cs) w → NoDup cs → (∀ c, c ∈ closing → S c ∉ cs) →
  wp (iterM (handleEvent run_cb t) cs) (λ _ w', ∃ closing', busy closing' idle w') w.
Proof.
  induction cs as [|i cs IH] in closing, w |- *; intros Hb Hnd Hn; cbn [iterM].
  { wp_step. by exists closing. }
  apply NoDup_cons in Hnd as [Hi Hnd]. rewrite wp_bind.
  destruct (sv_handled _ _ _ _ _ _ Hb i) as [x Hx]; [right; by left|].
  destruct (sv_chans _ _ _ _ _ _ Hb i x Hx) as ([Hfix|(c&->&conn&Hc)]&_&_).
  - eapply wp_mono; [by apply wp_fixed|]. intros [] w' Hb'. apply (IH closing); [done..|].
    intros c Hc Hin. apply (Hn c Hc). by right.
  - eapply wp_mono; [eapply wp_conn_event; [exact Hb|exact Hc|]|].
    { intros Hin. apply (Hn c Hin). by left. }
    intros [] w' (closing'&Hleaves&Hb'). apply (IH closing'); [done..|].
    assert (∀ c', c' ∈ closing → S c' ∉ cs) as Hn' by (intros c' Hc' Hin; apply (Hn c' Hc'); by right).
    destruct Hleaves as [->| ->]; [done|]. intros c' [?|Hc'%list_elem_of_singleton]%elem_of_app; [by apply Hn'|by subst c'].
Qed.

(** ** Waiting *)

Lemma wraps_le n : 0 ≤ n → wraps 32 n ≤ n.
Proof. intros Hn. unfold wraps. pose proof (Z.mod_le (n + 2 ^ (32 - 1)) (2 ^ 32)). lia. Qed.

(** The channels of the events reported. *)
Lemma mapped_events l loop evs w :
  registration l w → loops w !! l = Some loop →
  forallb (event_valid (trace w) (epfd_ (epoller_ loop))) evs = true → NoDup evs.*1 →
  ∃ cs, Forall2 (λ ev i, channels_ (epoller_ loop) !! ev.1 = Some i) evs cs ∧ NoDup cs ∧
    ∀ i, i ∈ cs → is_Some (chans w !! i).
Proof.
  intros (loop'&Hl'&Hm&Hw) Hl. rewrite Hl in Hl'. injection Hl' as <-.
  induction evs as [|[fd ev] evs IH]; cbn [forallb fmap list_fmap]; intros Hv Hnd.
  - exists []. split_and!; [done|constructor|by intros i ?%elem_of_nil].
  - apply andb_prop in Hv as [[[e He]%bool_decide_eq_true _]%andb_prop Hv]. apply NoDup_cons in Hnd as [Hfd Hnd].
    destruct (IH Hv Hnd) as (cs&Hdom&Hcs&Hex). cbn in He. specialize (Hw fd). unfold watch_ok in Hw. rewrite He in Hw.
    destruct (channels_ (epoller_ loop) !! fd) as [i|] eqn:Ei; [|done].
    exists (i :: cs). split_and!; [by constructor| |].
    + apply NoDup_cons. split; [|done]. intros Hin.
      apply list_elem_of_lookup in Hin as [j Hj]. apply Hfd.
      destruct (Forall2_lookup_r _ _ _ _ _ Hdom Hj) as ([fd' ev']&Hj'&Ei'). cbn in Ei'.
      apply Hm in Ei as (x&Hx&<-&_), Ei' as (x'&Hx'&<-&_). rewrite Hx in Hx'. injection Hx' as <-.
      apply list_elem_of_fmap. exists (ch_fd x, ev'). split; [done|by eapply list_elem_of_lookup_2].
    + intros i' [->|Hi']%elem_of_cons; [|by apply Hex]. apply Hm in Ei as (x&Hx&_). by eexists.
Qed.

(** The answer to a wait, and the channels it concerns. *)
Lemma wait_answer l loop timeoutMs r w :
  registration l w → loops w !! l = Some loop → 0 ≤ nevents_ (epoller_ loop) →
  permits (trace w) (SysEpollWait (epfd_ (epoller_ loop)) (wraps 32 (nevents_ (epoller_ loop))) timeoutMs) r = true →
  ∃ evs cs, ((rv r ≤ 0 ∧ evs = []) ∨ (0 < rv r ∧ rv r = zlen evs ∧ out r = OutEvents evs)) ∧
    zlen evs ≤ nevents_ (epoller_ loop) ∧ Forall (λ ev, event_ok ev.2 = true) evs ∧
    Forall2 (λ ev i, channels_ (epoller_ loop) !! ev.1 = Some i) evs cs ∧ NoDup cs ∧
    ∀ i, i ∈ cs → is_Some (chans w !! i).
Proof.
  intros HR Hl Hn Hp. cbn in Hp. destruct (Z.leb_spec (rv r) 0) as [Hr|Hr].
  - exists [], []. split_and!; [by left|done|done|done|constructor|by intros i ?%elem_of_nil].
  - cbn [orb] in Hp. destruct (out r) as [|evs| | | | |] eqn:Eo; try done.
    apply andb_prop in Hp as [[[Hp1%Z.eqb_eq Hp2%Z.leb_le]%andb_prop Hp3%bool_decide_eq_true]%andb_prop Hp4].
    destruct (mapped_events l loop evs w HR Hl Hp4 Hp3) as (cs&Hdom&Hcs&Hex).
    exists evs, cs. split_and!; try done; [by right| |].
    + pose proof (wraps_le _ Hn). lia.
    + apply Is_true_true_2, forallb_True in Hp4. eapply Forall_impl; [exact Hp4|].
      intros ev [_ Hev]%Is_true_true_1%andb_prop. exact Hev.
Qed.

(** ** One iteration *)

Lemma told_flags evs cs (loop : EventLoop) w w' :
  serving [] [] idle [] w → told evs cs w w' → Forall (λ ev, event_ok ev.2 = true) evs →
  Forall2 (λ ev i, channels_ (epoller_ loop) !! ev.1 = Some i) evs cs → (∀ i, i ∈ cs → is_Some (chans w !! i)) →
  ∀ i x, chans w' !! i = Some x → flags_ok (None, cs) i x.
Proof.
  intros Hs Ht Hok Hdom Hex i x Hx. destruct (decide (i ∈ cs)) as [Hi|Hi].
  - destruct (Hex i Hi) as [x0 Hx0]. apply list_elem_of_lookup in Hi as [j Hj].
    destruct (Forall2_lookup_r _ _ _ _ _ Hdom Hj) as ([fd ev]&Hj'&_).
    rewrite (tl_told _ _ _ _ Ht j fd ev i x0 Hj' Hj Hx0) in Hx. injection Hx as <-.
    destruct (sv_chans _ _ _ _ _ _ Hs i x0 Hx0) as (_&_&[Hflag _]). split; [exact Hflag|].
    by apply (Forall_lookup_1 _ _ _ _ Hok Hj').
  - rewrite (tl_others _ _ _ _ Ht i Hi) in Hx. by destruct (sv_chans _ _ _ _ _ _ Hs i x Hx) as (_&_&?).
Qed.

Lemma wp_iteration w :
  busy [] idle w →
  wp (loop_iteration run_cb run_functor destroy_functions (ly_loop ly)) (λ _ w', busy [] idle w') w.
Proof.
  intros Hs. unfold loop_iteration, upd_loop, get_loop. rewrite wp_bind, wp_modify.
  apply (serving_loop_mark (λ x, x <| channellist_ := [] |>)) in Hs as Hs0; [|done].
  set (w0 := w <| loops ::= _ |>) in *.
  destruct (serving_loop _ _ _ _ _ Hs0) as (loop&Hl&Hlw). pose proof Hlw as [].
  assert (channellist_ loop = []) as Hnil.
  { unfold w0 in Hl. cbn in Hl. apply lookup_alter_Some in Hl as [(_&x&_&->)|[? _]]; done. }
  rewrite wp_bind. apply (wp_preserves marked); [apply marked_epoll|].
  destruct (wait_answer (ly_loop ly) loop kPollTimeMs
    (syscall (SysEpollWait (epfd_ (epoller_ loop)) (wraps 32 (nevents_ (epoller_ loop))) kPollTimeMs) (kern w0)).1 w0)
    as (evs&cs&Hr&Hlen&Hok&Hdom&Hnd&Hex); [apply Hs0|done|done| |].
  { destruct (syscall _ _) eqn:E. eapply consistent_permits; [apply Hs0|exact E]. }
  eapply (wp_epoll (ly_loop ly) loop kPollTimeMs evs cs); try done.
  intros w1 e sec usec Htold _ Hl1 Hmark.
  assert (busy [] (None, cs) w1) as Hs1.
  { eapply serving_marked; [exact Hs0|exact Hmark| | |].
    - by eapply told_flags.
    - intros i [Hi|Hi]; [done|]. destruct (Hex i Hi) as [x Hx]. pose proof (mk_chans _ _ Hmark i) as E.
      rewrite Hx in E. apply fmap_Some in E as (x'&Hx'&_). by eexists.
    - intros loop' Hl'. rewrite Hl1 in Hl'. injection Hl' as <-. cbn. destruct (_ && _); lia. }
  wp_step.
  apply (serving_loop_mark (λ x, x <| epollReturnTime_ := now_of sec usec |>)) in Hs1; [|done].
  eapply wp_deref; [cbn; by rewrite lookup_alter_eq, Hl1|]. cbn [channellist_ upd]. rewrite Hnil. cbn [app].
  cbn [epollReturnTime_ upd]. rewrite wp_bind.
  eapply wp_mono; [eapply wp_events; [exact Hs1|exact Hnd|by intros c ?%elem_of_nil]|].
  intros [] w2 (closing&Hs2). by eapply wp_doPendingFunctions.
Qed.

(** Nothing asks the loop to quit. *)
Lemma wp_iterations n w :
  busy [] idle w →
  wp (loop_while run_cb run_functor destroy_functions n (ly_loop ly)) (λ b w', b = false ∧ busy [] idle w') w.
Proof.
  induction n as [|n IH] in w |- *; intros Hs; cbn [loop_while]; unfold get_loop; wp_step;
    destruct (serving_loop _ _ _ _ _ Hs) as (loop&Hl&[]); (eapply wp_deref; [done|]); rewrite lw_quit; wp_step.
  - done.
  - eapply wp_mono; [by apply wp_iteration|]. intros [] w'. apply IH.
Qed.

Lemma wp_reactor_loop n w :
  busy [] idle w → wp (reactor_loop n (ly_loop ly)) (λ b w', b = false ∧ busy [] idle w') w.
Proof.
  intros Hs. destruct (serving_loop _ _ _ _ _ Hs) as (loop&Hl&[]).
  unfold reactor_loop, EventLoop.loop, upd_loop. rewrite wp_bind.
  eapply wp_assertInLoopThread; [done..|]. do 2 rewrite wp_bind, wp_modify. rewrite wp_bind.
  apply (serving_loop_mark (λ x, x <| looping_ := true |>)) in Hs; [|done].
  destruct (serving_loop _ _ _ _ _ Hs) as (loop1&Hl1&[lw_quit1]).
  rewrite (upd_loop_same _ _ loop1 _ Hl1) by (destruct loop1; cbn in *; by rewrite lw_quit1).
  eapply wp_mono; [by apply wp_iterations|]. intros b w' [-> Hs']. by wp_step.
Qed.
End Iterations.

(** ** The whole program *)

Section Program.
Context {K : Type} `{Kernel K} `{!Machine K} `{!Clock K} `{!Writes K} `{!Reads K}.
Abbreviation W := (World K unit).
Implicit Types (w : W).
#[local] Instance program_code : UserCode K unit := echo_code.

(** What those who connect may rely on: nothing is sent on a connection but
    what was received on it, in order; an open connection holds what is left
    to send, and waits to be able to send it when that is not empty; the
    connections are those the server has filed, one to a descriptor; and no
    descriptor is open but theirs and four others. *)
Record mirrors (w : W) : Prop := {
  mi_prefix fd : written fd (trace w) `prefix_of` received_on fd (trace w);
  mi_conns c conn : conns w !! c = Some conn →
    c_state conn = kConnected ∧
    received_on (c_fd conn) (trace w) = written (c_fd conn) (trace w) ++ content (outputBuffer_ conn) ∧
    ∃ ch, chans w !! c_channel conn = Some ch ∧ ch_fd ch = c_fd conn ∧ registeredInEpoller_ ch = true ∧
      isWriting ch = negb (bool_decide (content (outputBuffer_ conn) = []));
  mi_filed : ∃ s server, servers w = {[s := server]} ∧
    ∀ c, is_Some (conns w !! c) ↔ ∃ name, connections_ server !! name = Some c;
  mi_fds : ∃ base, length base = 4%nat ∧ ∀ fd, fd ∈ open_fds (trace w) ↔
    fd ∈ base ∨ fd_used (conns w) fd;
  mi_distinct c1 c2 conn1 conn2 : conns w !! c1 = Some conn1 → conns w !! c2 = Some conn2 →
    c_fd conn1 = c_fd conn2 → c1 = c2;
}.

Lemma busy_mirrors ly w : busy ly [] idle w → mirrors w.
Proof.
  intros Hs. split; try apply Hs.
  - intros c conn Hc. apply (sv_conns _ _ _ _ _ _ Hs) in Hc as [Hw [[(ch&loop&Hst) _ _ _ _] _]].
    pose proof (si_live _ _ _ _ _ _ _ Hst) as []. split_and!; [apply Hst|apply Hst|].
    exists ch. split_and!; [done..|apply Hst].
  - destruct (sv_server _ _ _ _ _ _ Hs) as (server&Hserver&_). exists (ly_server ly), server. split; [done|].
    intros c. split.
    + intros [conn Hc]. apply (sv_conns _ _ _ _ _ _ Hs) in Hc as [_ [[_ _ _ _ (server'&Hs'&Hf)] _]].
      rewrite Hserver in Hs'. apply lookup_singleton_Some in Hs' as [_ <-]. by eexists.
    + intros [name Hf]. destruct (sv_filed _ _ _ _ _ _ Hs name c) as (conn&Hc&_); [|by eexists].
      exists server. by rewrite Hserver, lookup_singleton_eq.
  - exists (base_fds ly). split; [done|apply Hs].
Qed.

(** At the end of every iteration no pointer dangles. *)
Lemma busy_chans_typed ly i x w : busy ly [] idle w → chans w !! i = Some x → channel_typed x w.
Proof.
  intros Hs Hx. destruct (serving_loop _ _ _ _ _ Hs) as (loop&Hl&_). pose proof Hs as [].
  change (channel_typed (chan_mark x) w). unfold channel_typed, is_loop.
  destruct (sv_chans i x Hx) as ([Hfix|(c&->&conn&Hc)]&_&_).
  - unfold fixed_ids in Hfix. rewrite !elem_of_cons in Hfix.
    destruct Hfix as [->|[->|[->|[]%elem_of_nil]]];
      [destruct sv_timer as (y&Hy&Ey)|destruct sv_wake as (y&Hy&Ey)|destruct sv_accept as (y&Hy&Ey)]; try done.
    all: rewrite Hx in Hy; injection Hy as <-; rewrite Ey; cbn; split_and!; eauto with typed.
    all: apply opt_typed_Some; cbn; unfold is_loop, is_acceptor; eauto.
  - destruct (serving_channel _ _ _ _ _ _ _ Hs Hc) as (_&y&reg&ev&Hy&Hch). rewrite Hx in Hy. injection Hy as <-.
    rewrite Hch. cbn. split_and!; eauto; apply opt_typed_Some; cbn; unfold is_conn; eauto.
Qed.

Lemma busy_typed ly w : busy ly [] idle w → store_typed w.
Proof.
  intros Hs. pose proof Hs as [].
  destruct sv_loop as (loop&El&[]), sv_server as (server&Es&[]).
  assert (is_loop (ly_loop ly) w) as Hloop by (unfold is_loop; rewrite El, lookup_singleton_eq; by eexists).
  assert (is_server (ly_server ly) w) as Hserver by (unfold is_server; rewrite Es, lookup_singleton_eq; by eexists).
  destruct sv_timer as (xt&Ht&_), sv_wake as (xw&Hw&_), sv_accept as (xa&Ha&_).
  split.
  - intros i x. by eapply busy_chans_typed.
  - intros l x Hx. rewrite El in Hx. apply lookup_singleton_Some in Hx as [_ <-].
    split; [|rewrite lw_timers, lw_wakechan, lw_pending; by split_and!; [eexists..| |]].
    intros fd i Hi. destruct sv_registration as (loop'&Hl'&Hm&_).
    rewrite El in Hl'. apply lookup_singleton_Some in Hl' as [_ <-]. apply Hm in Hi as (x&Hx&_). by eexists.
  - intros t x Hx. by rewrite sv_timers in Hx.
  - intros c x Hx. destruct (serving_channel _ _ _ _ _ _ _ Hs Hx) as ([]&y&_&_&Hy&_).
    split_and!; [by rewrite cw_loop|rewrite cw_channel; by eexists|]. rewrite cw_close. by apply opt_typed_Some.
  - intros t x Hx. by rewrite sv_connectors in Hx.
  - intros t x Hx. pose proof (sv_acceptors _ _ Hx) as ->. rewrite sv_acceptor in Hx. injection Hx as <-.
    split_and!; [done|by eexists|]. by apply opt_typed_Some.
  - intros t x Hx. rewrite Es in Hx. apply lookup_singleton_Some in Hx as [_ <-].
    split_and!; [by rewrite sw_loop|rewrite sw_acceptor; by eexists|by rewrite sw_pool|by rewrite sw_pool|].
    intros name c Hc. destruct (sv_filed name c) as (conn&Hconn&_); [|by eexists].
    exists server. by rewrite Es, lookup_singleton_eq.
  - intros t x Hx. by rewrite sv_clients in Hx.
Qed.

Lemma wp_program ip port threadCount tids n k tid :
  consistent k [] → threadCount ≤ 1 →
  wp (pingpong_main ip port threadCount tids n) (λ b w, b = false ∧ ∃ ly, busy ly [] idle w) (started k tid).
Proof.
  intros Hk Ht. unfold pingpong_main.
  apply (wp_boot _ _ _ _ _ _ (λ s l, ended ← reactor_loop n l; finish_main s l ended)); [done..|].
  intros s w (ly&El&Hs). rewrite <- El, wp_bind.
  eapply wp_mono; [by apply wp_reactor_loop|]. intros b w' [-> Hs']. unfold finish_main. wp_step. eauto.
Qed.

(** The arguments of the program, for one thread. *)
Definition valid_args (argv : list (list char)) : Prop :=
  4 ≤ zlen argv ∧ is_Some (argv !! 2%nat ≫= atoi) ∧
  ∃ threadCount, argv !! 3%nat ≫= atoi = Some threadCount ∧ threadCount ≤ 1.

(** [main] has run [n] iterations of the loop, and then the world is [w]. *)
Definition served (argv : list (list char)) (tids : list Z) (n : nat) (k : K) (tid : Z) (w : W) : Prop :=
  PingpongMain argv tids n (started k tid) = Ret (Some false) w.

Lemma run_program argv tids n k tid :
  consistent k [] → valid_args argv → ∃ w, served argv tids n k tid w ∧ ∃ ly, busy ly [] idle w.
Proof.
  intros Hk (Hlen&[port Hport]&threadCount&Hthreads&Ht).
  destruct (lookup_lt_is_Some_2 argv 1) as [ip Hip]; [unfold zlen in Hlen; lia|].
  assert (wp (PingpongMain argv tids n) (λ b w, b = Some false ∧ ∃ ly, busy ly [] idle w) (started k tid)) as Hwp.
  { unfold PingpongMain. rewrite (proj2 (Z.ltb_ge _ _) Hlen), Hip, Hport, Hthreads. cbn [of_option]. wp_step.
    eapply wp_mono; [by apply wp_program|]. intros b w [-> Hs]. by wp_step. }
  apply wp_run in Hwp as (b&w&E&->&Hs). by exists w.
Qed.


(** C8: In the same program, at the end of every iteration, every pointer in an
    object leads to a living object of its declared class, although connections
    are destroyed while the loop, its poller, the server and the queued calls
    hold pointers to them. *)
Theorem pingpong_server_typed argv tids n k tid :
  consistent k [] → valid_args argv → ∃ w, served argv tids n k tid w ∧ store_typed w.
Proof.
  intros Hk Hargs. destruct (run_program argv tids n k tid Hk Hargs) as (w&Hw&ly&Hs).
  exists w. split; [done|by eapply busy_typed].
Qed.
End Program.

(** ** Concrete instances *)

(** An operating system with three clients, by the number of waits so far. The
    first connects, sends "ping", which is sent back in two parts, and leaves;
    the second connects; the third is given the descriptor that the first had. *)
Definition waits (t : history) : nat :=
  length (filter (λ ev, match ev.1 with SysEpollWait _ _ _ => true | _ => false end = true) t).

Definition three_clients (t : history) (sc : Syscall) : SysRes :=
  match sc with
  | SysEventfd => res_ok 3
  | SysEpollCreate => res_ok 4
  | SysTimerfdCreate => res_ok 5
  | SysSocket => res_ok 6
  | SysAccept4 _ => mkRes (if bool_decide (7 ∈ open_fds t) then 8 else 7) 0 (OutAddr (InetAddress_port 4000))
  | SysEpollWait _ _ _ =>
      match waits t with
      | 0%nat => mkRes 1 0 (OutEvents [(6, EPOLLIN)])
      | 1%nat => mkRes 2 0 (OutEvents [(6, EPOLLIN); (7, EPOLLIN)])
      | 2%nat | 3%nat => mkRes 1 0 (OutEvents [(7, EPOLLOUT)])
      | 4%nat => mkRes 1 0 (OutEvents [(7, Z.lor EPOLLIN EPOLLRDHUP)])
      | 5%nat => mkRes 1 0 (OutEvents [(6, EPOLLIN)])
      | 6%nat => mkRes 2 0 (OutEvents [(8, EPOLLIN); (7, EPOLLIN)])
      | 7%nat => mkRes 1 0 (OutEvents [(8, EPOLLOUT)])
      | _ => res_ok 0
      end
  | SysReadv fd _ _ =>
      match waits t with
      | 2%nat => mkRes 4 0 (OutBytes (str "ping"))
      | 7%nat => if fd =? 7 then mkRes 1 0 (OutBytes (str "a")) else mkRes 3 0 (OutBytes (str "bcd"))
      | _ => mkRes 0 0 (OutBytes [])
      end
  | SysWrite _ data => res_ok (Z.min 2 (zlen data))
  | SysGettimeofday => mkRes 0 0 (OutTime 1 (Z.of_nat (length t)))
  | _ => res_ok 0
  end.

Definition server_args : list (list char) := map str ["server"; "127.0.0.1"; "9981"; "1"].

(** The bytes sent and received on a descriptor, and what is left to send. *)
Definition session (n : nat) : option (list (list char * list char) * list (Z * list char)) :=
  match PingpongMain (H := machine three_clients) server_args [] n (started [] 1) with
  | Ret _ w => Some (map (λ fd, (written fd (trace w), received_on fd (trace w))) [7; 8],
      map (λ '(_, conn), (c_fd conn, content (outputBuffer_ conn))) (map_to_list (conns w)))
  | Crash _ => None
  end.

Example session_started : session 3 =
  Some ([(str "pi", str "ping"); ([], [])], [(7, str "ng"); (8, [])]).
Proof. by vm_compute. Qed.

Example session_left : session 5 = Some ([(str "ping", str "ping"); ([], [])], [(8, [])]).
Proof. by vm_compute. Qed.

Example session_reused : session 8 = Some ([([], str "a"); (str "bc", str "bcd")], [(7, str "a"); (8, str "d")]).
Proof. by vm_compute. Qed.


Lemma pingpong_server_typed_witness :
  ∃ w, served (H := machine three_clients) server_args [] 8 [] 1 w ∧ store_typed w.
Proof.
  apply (pingpong_server_typed server_args [] 8 [] 1); [reflexivity|].
  split; [by vm_compute|]. split; [by eexists|]. by exists 1.
Defined.
