(* ===== verification/LoggingStream.v ===== *)
(** * LoggingStream

    [logging/LoggingStream.h] and [logging/LoggingStream.cc]: the fixed buffer
    a log line is put together in, and the conversions of numbers to text.
    The buffer is its array and the offset of [cur_]. *)
From S2P Require Import Prelude Printf.
Local Open Scope Z_scope.

Definition kMinBufferSize : Z := 4000.
Definition kMaxBufferSize : Z := 4000 * 1000.
Definition kMaxNumericSize : Z := 32.

(** ** FixedBuffer *)

Record FixedBuffer := mkFixed { data_ : list char; cur_ : Z }.
#[export] Instance eta_FixedBuffer : Eta FixedBuffer := λ b, mkFixed (data_ b) (cur_ b).

(** The array is not initialised by the constructor. *)
Definition FixedBuffer_ctor (uninit : list char) : FixedBuffer := mkFixed uninit 0.

Definition fb_length (b : FixedBuffer) : Z := cur_ b.
Definition avail (b : FixedBuffer) : Z := zlen (data_ b) - cur_ b.
Definition tostring (b : FixedBuffer) : option (list char) := zread 0 (cur_ b) (data_ b).
Definition fb_bzero (b : FixedBuffer) : FixedBuffer :=
  b <| data_ := replicate (length (data_ b)) Ascii.zero |>.
Definition fb_reset (b : FixedBuffer) : FixedBuffer := b <| cur_ := 0 |>.

(** Writing [s] at offset [i]; outside the array this is undefined. *)
Definition fb_store (i : Z) (s : list char) : M FixedBuffer unit :=
  b ← get;
  d ← of_option "write outside the buffer" (zwrite i s (data_ b));
  put (b <| data_ := d |>).

Definition add (len : Z) : M FixedBuffer unit := modify (λ b, b <| cur_ ::= Z.add len |>).

(** [buf] is what the pointer argument points to. A negative [len] is a huge
    [size_t] for [memcpy]. *)
Definition append (buf : list char) (len : Z) : M FixedBuffer unit :=
  b ← get;
  whenM (len <? avail b) (
    src ← of_option "memcpy" (zread 0 len buf);
    fb_store (cur_ b) src;;
    add len).

(** ** Conversions *)

Definition digits : list char := str "9876543210123456789".
Definition zero (lsd : Z) : char := nth (Z.to_nat (9 + lsd)) digits Ascii.zero.
Definition digitsHex : list char := str "0123456789abcdef".

(** The [do ... while (i != 0)] loops; [p] is what is written so far. *)
Fixpoint convert_loop (fuel : nat) (i : Z) (p : list char) : option (list char) :=
  match fuel with
  | O => None
  | S fuel' =>
      let lsd := Z.rem i 10 in
      let i := Z.quot i 10 in
      let p := p ++ [zero lsd] in
      if i =? 0 then Some p else convert_loop fuel' i p
  end.

(** What is in [buf] before the terminator; its length is the result. *)
Definition convert (v : Z) : option (list char) :=
  p ← convert_loop 20 v [];
  Some (rev (if v <? 0 then p ++ ["-"%char] else p)).

Fixpoint convertHex_loop (fuel : nat) (i : Z) (p : list char) : option (list char) :=
  match fuel with
  | O => None
  | S fuel' =>
      let lsd := Z.rem i 16 in
      let i := Z.quot i 16 in
      let p := p ++ [nth (Z.to_nat lsd) digitsHex Ascii.zero] in
      if i =? 0 then Some p else convertHex_loop fuel' i p
  end.

Definition convertHex (value : Z) : option (list char) :=
  p ← convertHex_loop 16 value [];
  Some (rev p).

(** ** LoggingStream *)

Definition LoggingStream_ctor (uninit : list char) : FixedBuffer := fb_bzero (FixedBuffer_ctor uninit).

Definition formatInteger (v : Z) : M FixedBuffer unit :=
  b ← get;
  whenM (kMaxNumericSize <=? avail b) (
    s ← of_option "convert" (convert v);
    fb_store (cur_ b) (s ++ [Ascii.zero]);;
    add (zlen s)).

Definition put_bool (v : bool) : M FixedBuffer unit := append [if v then "1"%char else "0"%char] 1.
Definition put_char (v : char) : M FixedBuffer unit := append [v] 1.
(** [short] and [unsigned short] are widened first. *)
Definition put_int (v : Z) : M FixedBuffer unit := formatInteger v.
(** A null-terminated string, given by its characters; [int] is 32 bits. *)
Definition put_cstr (s : list char) : M FixedBuffer unit := append s (wraps 32 (zlen s)).
Definition put_string (s : list char) : M FixedBuffer unit := append s (wraps 32 (zlen s)).
(** [T(str, len)] asserts that [len] is the length of the string. *)
Definition put_T (s : list char) (len : Z) : M FixedBuffer unit :=
  assert_ "strlen(str) == len_" (zlen s =? len);;
  append s (wraps 32 len).

Definition put_pointer (v : Z) : M FixedBuffer unit :=
  b ← get;
  whenM (kMaxNumericSize <=? avail b) (
    fb_store (cur_ b) ["0"%char];;
    fb_store (cur_ b + 1) ["x"%char];;
    s ← of_option "convertHex" (convertHex v);
    fb_store (cur_ b + 2) (s ++ [Ascii.zero]);;
    add (zlen s + 2)).

(** [text] is the result of ["%.12g"]. *)
Definition put_double (text : list char) : M FixedBuffer unit :=
  b ← get;
  whenM (kMaxNumericSize <=? avail b) (
    let '(stored, len) := snprintf kMaxNumericSize text in
    fb_store (cur_ b) (stored ++ [Ascii.zero]);;
    add len).

(** [Fmt]: the text of a number in a buffer of 32 bytes. *)
Definition Fmt (text : list char) : option (list char) :=
  let '(stored, length_) := snprintf 32 text in
  if length_ <? 32 then Some stored else None.
Definition put_Fmt (fmt : list char) : M FixedBuffer unit := append fmt (zlen fmt).

(** ** Conversions are right *)

Lemma fmt_d_opp a : 0 < a → fmt_d (- a) = "-"%char :: fmt_d a.
Proof. destruct a as [|p|p]; [lia| |lia]. intros _. reflexivity. Qed.

Lemma zero_digit r : 0 ≤ r < 10 → zero r = digit_char r.
Proof. intros Hr. by apply (digit_cases r). Qed.
Lemma zero_opp r : - 10 < r < 10 → zero (- r) = zero r.
Proof.
  assert (∀ a, 0 ≤ a < 10 → zero (- a) = zero a) as Hz by (intros a Ha; by apply (digit_cases a)).
  intros Hr. destruct (decide (0 ≤ r)); [apply Hz; lia|].
  rewrite <- (Hz (- r)) by lia. by rewrite Z.opp_involutive.
Qed.

Lemma convert_loop_opp fuel i p : convert_loop fuel (- i) p = convert_loop fuel i p.
Proof.
  induction fuel as [|fuel IH] in i, p |- *; [done|]. cbn [convert_loop].
  rewrite Z.rem_opp_l, Z.quot_opp_l by lia. rewrite zero_opp.
  - destruct (Z.eqb_spec (- (i ÷ 10)) 0), (Z.eqb_spec (i ÷ 10) 0); [done|lia|lia|apply IH].
  - pose proof (Z.rem_bound_abs i 10 ltac:(lia)). lia.
Qed.

Lemma convert_loop_fmt_d fuel i p :
  0 ≤ i < 10 ^ Z.of_nat (S fuel) → convert_loop (S fuel) i p = Some (p ++ rev (fmt_d i)).
Proof.
  induction fuel as [|fuel IH] in i, p |- *; intros Hi.
  - cbn [convert_loop]. change (10 ^ Z.of_nat 1) with 10 in Hi.
    rewrite Z.rem_small, Z.quot_small by lia. by rewrite zero_digit, fmt_d_digit by lia.
  - change (convert_loop (S (S fuel)) i p) with
      (if (i ÷ 10 =? 0) then Some (p ++ [zero (Z.rem i 10)])
       else convert_loop (S fuel) (i ÷ 10) (p ++ [zero (Z.rem i 10)])).
    rewrite Z.rem_mod_nonneg, Z.quot_div_nonneg by lia.
    pose proof (Z.mod_pos_bound i 10 ltac:(lia)) as Hr. rewrite zero_digit by done.
    destruct (Z.eqb_spec (i / 10) 0) as [E|E].
    + rewrite (Z.div_mod i 10) at 2 by lia. rewrite E. rewrite Z.mul_0_r, Z.add_0_l.
      by rewrite fmt_d_digit by done.
    + assert (0 < i / 10) by (pose proof (Z.div_pos i 10); lia).
      rewrite IH.
      * rewrite (Z.div_mod i 10) at 3 by lia. rewrite fmt_d_step, rev_app_distr by done.
        by rewrite <- app_assoc.
      * split; [lia|]. apply Z.div_lt_upper_bound; [lia|].
        rewrite (Nat2Z.inj_succ (S fuel)), Z.pow_succ_r in Hi by lia. lia.
Qed.

(** C25: converting a number of any of the integer types gives exactly its
    decimal text, the smallest 64-bit number (which has no opposite) included,
    within the 20 iterations allowed and at most 20 characters. *)
Theorem convert_is_decimal (v : Z) (Hv : - 2 ^ 63 ≤ v < 2 ^ 64) :
  convert v = Some (fmt_d v) ∧ zlen (fmt_d v) ≤ 20.
Proof.
  assert (∀ a, 0 ≤ a < 10 ^ 20 → convert_loop 20 a [] = Some (rev (fmt_d a))) as Hloop
    by (intros a Ha; by apply (convert_loop_fmt_d 19)).
  unfold convert. destruct (Z.ltb_spec v 0) as [Hneg|Hpos].
  - remember (- v) as a eqn:Ea. assert (v = - a) as -> by lia.
    rewrite convert_loop_opp, Hloop, fmt_d_opp by lia. cbn [mbind option_bind].
    rewrite rev_app_distr, rev_involutive. split; [done|].
    assert (length (fmt_d a) ≤ 19)%nat by (apply length_fmt_d; lia). unfold zlen. cbn [length]. lia.
  - rewrite Hloop by lia. cbn [mbind option_bind]. rewrite rev_involutive. split; [done|].
    assert (length (fmt_d v) ≤ 20)%nat by (apply length_fmt_d; lia). unfold zlen. lia.
Qed.

(** The value of a hexadecimal text. *)
Definition hex_digit (c : char) : option Z :=
  option_map (Z.of_nat ∘ fst) (list_find (c =.) digitsHex).
Fixpoint hex_value (acc : Z) (s : list char) : option Z :=
  match s with
  | [] => Some acc
  | c :: s' => d ← hex_digit c; hex_value (16 * acc + d) s'
  end.

Lemma hex_value_snoc acc s c d v :
  hex_value acc s = Some v → hex_digit c = Some d → hex_value acc (s ++ [c]) = Some (16 * v + d).
Proof.
  revert acc. induction s as [|c' s IH]; intros acc; cbn [hex_value app].
  - intros [= <-] Hd. by rewrite Hd.
  - destruct (hex_digit c') as [d'|]; [|done]. cbn [mbind option_bind]. apply IH.
Qed.

Lemma hex_char_digit r :
  0 ≤ r < 16 → hex_digit (nth (Z.to_nat r) digitsHex Ascii.zero) = Some r ∧
  (nth (Z.to_nat r) digitsHex Ascii.zero = "0"%char → r = 0).
Proof.
  intros Hr. assert (r ∈ map Z.of_nat (seq 0 16)) as Hin.
  { apply list_elem_of_fmap. exists (Z.to_nat r). rewrite elem_of_seq. lia. }
  clear Hr. cbn in Hin. repeat (apply elem_of_cons in Hin as [->|Hin]; [by vm_compute|]).
  by apply not_elem_of_nil in Hin.
Qed.

Lemma convertHex_loop_spec fuel i p :
  0 ≤ i < 16 ^ Z.of_nat (S fuel) →
  ∃ s, convertHex_loop (S fuel) i p = Some (p ++ rev s) ∧ hex_value 0 s = Some i ∧
    1 ≤ zlen s ≤ Z.of_nat (S fuel) ∧ (head s = Some "0"%char → i = 0).
Proof.
  induction fuel as [|fuel IH] in i, p |- *; intros Hi.
  - change (16 ^ Z.of_nat 1) with 16 in Hi. destruct (hex_char_digit i Hi) as [Hd H0].
    exists [nth (Z.to_nat i) digitsHex Ascii.zero]. cbn [convertHex_loop].
    rewrite Z.rem_small, Z.quot_small by lia. split_and!; [done|cbn [hex_value]; by rewrite Hd|done|done|].
    intros [= E]. by apply H0.
  - change (convertHex_loop (S (S fuel)) i p) with
      (if (i ÷ 16 =? 0) then Some (p ++ [nth (Z.to_nat (Z.rem i 16)) digitsHex Ascii.zero])
       else convertHex_loop (S fuel) (i ÷ 16) (p ++ [nth (Z.to_nat (Z.rem i 16)) digitsHex Ascii.zero])).
    rewrite Z.rem_mod_nonneg, Z.quot_div_nonneg by lia.
    pose proof (Z.mod_pos_bound i 16 ltac:(lia)) as Hr. pose proof (Z.div_mod i 16 ltac:(lia)) as Hdm.
    destruct (hex_char_digit (i mod 16) Hr) as [Hd H0]. destruct (Z.eqb_spec (i / 16) 0) as [E|E].
    + exists [nth (Z.to_nat (i mod 16)) digitsHex Ascii.zero].
      split_and!; [done|cbn [hex_value]; rewrite Hd; cbn; f_equal; lia|done|unfold zlen; cbn [length]; lia|].
      intros [= E0]. apply H0 in E0. lia.
    + assert (0 < i / 16) by (pose proof (Z.div_pos i 16); lia).
      destruct (IH (i / 16) (p ++ [nth (Z.to_nat (i mod 16)) digitsHex Ascii.zero]))
        as (s&Hs&Hv&Hlen&Hhd).
      { split; [lia|]. apply Z.div_lt_upper_bound; [lia|].
        rewrite (Nat2Z.inj_succ (S fuel)), Z.pow_succ_r in Hi by lia. lia. }
      exists (s ++ [nth (Z.to_nat (i mod 16)) digitsHex Ascii.zero]). split_and!.
      * rewrite Hs, rev_app_distr. by rewrite <- app_assoc.
      * rewrite (hex_value_snoc _ _ _ _ _ Hv Hd). f_equal. lia.
      * rewrite zlen_app. pose proof (zlen_nonneg [nth (Z.to_nat (i mod 16)) digitsHex Ascii.zero]). lia.
      * rewrite zlen_app. unfold zlen at 2. cbn [length]. lia.
      * intros E0. destruct s as [|c s]; [unfold zlen in Hlen; cbn in Hlen; lia|].
        cbn in E0, Hhd. apply Hhd in E0. lia.
Qed.

(** The hexadecimal text of a pointer reads back as the pointer, has no
    leading zero (unless it is all there is), and at most 16 characters. *)
Theorem convertHex_roundtrip (v : Z) (Hv : 0 ≤ v < 2 ^ 64) :
  ∃ s, convertHex v = Some s ∧ hex_value 0 s = Some v ∧ 1 ≤ zlen s ≤ 16 ∧
    (head s = Some "0"%char → v = 0).
Proof.
  destruct (convertHex_loop_spec 15 v []) as (s&Hs&Hval&Hlen&Hhd); [exact Hv|].
  exists s. unfold convertHex. rewrite Hs. cbn [mbind option_bind app]. by rewrite rev_involutive.
Qed.

(** ** The stream *)

(** What can be put into a log line. *)
Inductive item :=
  | IBool (v : bool) | IChar (v : char) | IInt (v : Z) | IString (s : list char) | IPointer (v : Z).

Definition put_item (i : item) : M FixedBuffer unit :=
  match i with
  | IBool v => put_bool v
  | IChar v => put_char v
  | IInt v => put_int v
  | IString s => put_string s
  | IPointer v => put_pointer v
  end.

(** The types of the arguments. *)
Definition item_ok (i : item) : Prop :=
  match i with
  | IInt v => - 2 ^ 63 ≤ v < 2 ^ 64
  | IString s => zlen s < 2 ^ 31
  | IPointer v => 0 ≤ v < 2 ^ 64
  | _ => True
  end.

(** The text of an item, and whether [room] bytes are enough for it. *)
Definition render (i : item) : list char :=
  match i with
  | IBool v => [if v then "1"%char else "0"%char]
  | IChar v => [v]
  | IInt v => fmt_d v
  | IString s => s
  | IPointer v => str "0x" ++ default [] (convertHex v)
  end.
Definition fits (i : item) (room : Z) : bool :=
  match i with
  | IInt _ | IPointer _ => kMaxNumericSize <=? room
  | _ => zlen (render i) <? room
  end.

(** The specification: an item is taken whole when it fits, otherwise not at all. *)
Definition put_spec (size : Z) (text : list char) (i : item) : list char :=
  if fits i (size - zlen text) then text ++ render i else text.

(** The buffer holds [text], and has room for the terminator. *)
Definition holds (size : Z) (text : list char) (b : FixedBuffer) : Prop :=
  ∃ rest, b = mkFixed (text ++ rest) (zlen text) ∧ zlen text + zlen rest = size ∧ rest ≠ [].

Lemma zwrite_end (text s rest : list char) :
  zlen s ≤ zlen rest →
  zwrite (zlen text) s (text ++ rest) = Some (text ++ s ++ drop (length s) rest).
Proof.
  intros Hs. pose proof (zlen_nonneg text). pose proof (zlen_nonneg s). unfold zwrite.
  rewrite !(proj2 (Z.leb_le _ _)) by (rewrite ?zlen_app; lia). cbn [andb].
  assert (Z.to_nat (zlen text) = length text) as -> by (unfold zlen; lia).
  by rewrite take_app_length, drop_app_add.
Qed.

Lemma wp_store_end text s rest cur (Q : unit → FixedBuffer → Prop) :
  zlen s ≤ zlen rest →
  Q tt (mkFixed (text ++ s ++ drop (length s) rest) cur) →
  wp (fb_store (zlen text) s) Q (mkFixed (text ++ rest) cur).
Proof.
  intros Hs HQ. unfold fb_store. wp_step. eapply wp_of_option; [by apply zwrite_end|].
  by wp_step.
Qed.

Lemma holds_extend size text s rest :
  zlen text + zlen rest = size → zlen s < zlen rest →
  holds size (text ++ s) (mkFixed (text ++ s ++ drop (length s) rest) (zlen s + zlen text)).
Proof.
  intros Hsize Hs. exists (drop (length s) rest). split_and!.
  - rewrite <- app_assoc. f_equal. rewrite zlen_app. lia.
  - rewrite zlen_app. unfold zlen in *. rewrite length_drop. lia.
  - intros E. apply (f_equal length) in E. rewrite length_drop in E. unfold zlen in *. cbn in E. lia.
Qed.

(** Numbers are stored with their terminator. *)
Lemma holds_extend_nul size text s rest :
  zlen text + zlen rest = size → zlen s + 1 ≤ zlen rest →
  holds size (text ++ s)
    (mkFixed (text ++ (s ++ [Ascii.zero]) ++ drop (length (s ++ [Ascii.zero])) rest) (zlen s + zlen text)).
Proof.
  intros Hsize Hs. exists ([Ascii.zero] ++ drop (length (s ++ [Ascii.zero])) rest). split_and!; [|..|done].
  - rewrite <- !app_assoc. f_equal. rewrite zlen_app. lia.
  - rewrite !zlen_app. unfold zlen in *. rewrite length_drop, length_app. cbn [length]. lia.
Qed.

Lemma wp_append size text s (Q : unit → FixedBuffer → Prop) b :
  holds size text b → zlen s < 2 ^ 31 →
  (∀ b', holds size (if zlen s <? size - zlen text then text ++ s else text) b' → Q tt b') →
  wp (append s (wraps 32 (zlen s))) Q b.
Proof.
  intros (rest&->&Hsize&Hne) Hs HQ. pose proof (zlen_nonneg s). rewrite wraps_small by lia.
  unfold append, avail. wp_step. cbn [data_ cur_]. rewrite zlen_app.
  replace (zlen text + zlen rest - zlen text) with (size - zlen text) by lia.
  destruct (Z.ltb_spec (zlen s) (size - zlen text)) as [Hfit|Hno]; wp_step.
  - eapply wp_of_option; [by apply zread_Some|]. rewrite zslice_all. wp_step.
    apply wp_store_end; [lia|]. unfold add. wp_step. apply HQ. by apply holds_extend; [|lia].
  - apply HQ. by exists rest.
Qed.

Lemma wp_put_item size text i (Q : unit → FixedBuffer → Prop) b :
  holds size text b → item_ok i → (∀ b', holds size (put_spec size text i) b' → Q tt b') →
  wp (put_item i) Q b.
Proof.
  intros Hb Hok HQ. unfold put_spec in HQ. destruct i as [v|v|v|s|v]; cbn [put_item fits render] in *.
  - apply (wp_append size text [if v then "1"%char else "0"%char]); [done|by destruct v|exact HQ].
  - by apply (wp_append size text [v]).
  - destruct Hb as (rest&->&Hsize&Hne), (convert_is_decimal v Hok) as [Ec Hlen].
    unfold put_int, formatInteger, avail. wp_step. cbn [data_ cur_]. rewrite zlen_app.
    replace (zlen text + zlen rest - zlen text) with (size - zlen text) by lia.
    destruct (Z.leb_spec kMaxNumericSize (size - zlen text)) as [Hfit|Hno]; unfold kMaxNumericSize in *; wp_step.
    + eapply wp_of_option; [exact Ec|]. wp_step. apply wp_store_end.
      { rewrite zlen_app. unfold zlen in *. cbn [length]. lia. }
      unfold add. wp_step. apply HQ. by apply holds_extend_nul; [|lia].
    + apply HQ. by exists rest.
  - by apply (wp_append size text s).
  - destruct Hb as (rest&->&Hsize&Hne). destruct (convertHex_loop_spec 15 v []) as (s&Hs&_&Hlen&_); [exact Hok|].
    assert (convertHex v = Some s) as Ec.
    { unfold convertHex. rewrite Hs. cbn [mbind option_bind app]. by rewrite rev_involutive. }
    rewrite Ec in HQ. cbn [default] in HQ. unfold put_pointer, avail. wp_step. cbn [data_ cur_]. rewrite zlen_app.
    replace (zlen text + zlen rest - zlen text) with (size - zlen text) by lia.
    destruct (Z.leb_spec kMaxNumericSize (size - zlen text)) as [Hfit|Hno];
      [|wp_step; apply HQ; by exists rest].
    unfold kMaxNumericSize in *. destruct rest as [|c1 [|c2 rest]]; [by unfold zlen in *; cbn in *; lia..|].
    assert (zlen rest = zlen (c1 :: c2 :: rest) - 2) as Hrest by (unfold zlen; cbn; lia).
    wp_step. apply wp_store_end; [unfold zlen; cbn; lia|]. cbn [app length drop].
    rewrite (app_assoc text ["0"%char] (c2 :: rest) : text ++ "0"%char :: c2 :: rest = _).
    replace (zlen text + 1) with (zlen (text ++ ["0"%char])) by (rewrite zlen_app; done).
    wp_step. apply wp_store_end; [unfold zlen; cbn; lia|]. cbn [app length drop].
    rewrite <- app_assoc. cbn [app]. wp_step. eapply wp_of_option; [exact Ec|]. wp_step.
    rewrite drop_0, (app_assoc text (str "0x") rest : text ++ "0"%char :: "x"%char :: rest = _).
    replace (zlen text + 2) with (zlen (text ++ str "0x")) by (rewrite zlen_app; done).
    apply wp_store_end; [rewrite zlen_app; unfold zlen in *; cbn [length] in *; lia|].
    unfold add. wp_step. apply HQ. rewrite (app_assoc text). change (id s) with s.
    assert (zlen (text ++ str "0x") = zlen text + 2) as E0x by (by rewrite zlen_app).
    match goal with |- holds _ _ ?y => replace y with (mkFixed ((text ++ str "0x") ++
      (s ++ [Ascii.zero]) ++ drop (length (s ++ [Ascii.zero])) rest) (zlen s + zlen (text ++ str "0x"))) end.
    + apply holds_extend_nul; lia.
    + rewrite E0x. by replace (zlen s + (zlen text + 2)) with (zlen s + 2 + zlen text) by lia.
Qed.

Lemma holds_tostring size text b : holds size text b → tostring b = Some text.
Proof.
  intros (rest&->&_&_). unfold tostring. cbn [cur_ data_].
  pose proof (zlen_nonneg text). pose proof (zlen_nonneg rest).
  rewrite zread_Some by (rewrite ?zlen_app; lia). by rewrite zslice_app_l, zslice_all by lia.
Qed.

(** C24: a log line is put together faithfully and safely: starting from a
    buffer that holds some text, putting any items into it never writes
    outside the buffer and leaves exactly the text of the items that fitted
    at their turn, each whole and in order, with room for a terminator. *)
Theorem stream_refines_text (size : Z) (text : list char) (items : list item) (b : FixedBuffer)
  (Hb : holds size text b) (Hok : Forall item_ok items) :
  ∃ b', iterM put_item items b = Ret tt b' ∧
    holds size (foldl (put_spec size) text items) b' ∧
    tostring b' = Some (foldl (put_spec size) text items).
Proof.
  cut (wp (iterM put_item items) (λ _ b', holds size (foldl (put_spec size) text items) b') b).
  { intros Hwp. apply wp_run in Hwp as ([]&b'&Hrun&Hb'). exists b'. split_and!; [done|done|by eapply holds_tostring]. }
  induction Hok as [|i items Hi Hok IH] in text, b, Hb |- *; cbn [iterM foldl]; [by wp_step|].
  wp_step. eapply wp_put_item; [done..|]. intros b' Hb'. by apply IH.
Qed.

Lemma holds_ctor uninit :
  uninit ≠ [] → holds (zlen uninit) [] (LoggingStream_ctor uninit).
Proof.
  intros Hne. exists (replicate (length uninit) Ascii.zero). split_and!.
  - done.
  - unfold zlen. rewrite length_replicate. done.
  - by destruct uninit.
Qed.

(** ** Concrete instances *)

Lemma convert_is_decimal_witness :
  convert (- 2 ^ 63) = Some (str "-9223372036854775808") ∧ zlen (fmt_d (- 2 ^ 63)) ≤ 20.
Proof. apply (convert_is_decimal (- 2 ^ 63)). by_computation. Defined.

Lemma convertHex_roundtrip_witness :
  ∃ s, convertHex 48879 = Some s ∧ hex_value 0 s = Some 48879.
Proof.
  destruct (convertHex_roundtrip 48879) as (s&Hs&Hv&_); [by_computation|].
  exists s. split; [exact Hs|exact Hv].
Defined.

(** A number does not fit any more, the word after it does. *)
Lemma stream_refines_text_witness :
  ∃ b', iterM put_item [IString (str "n="); IInt (-7); IChar ","%char; IPointer 255; IBool true]
      (LoggingStream_ctor (replicate 36 "?"%char)) = Ret tt b' ∧
    tostring b' = Some (str "n=-7,1").
Proof.
  destruct (stream_refines_text 36 [] [IString (str "n="); IInt (-7); IChar ","%char; IPointer 255; IBool true]
    (LoggingStream_ctor (replicate 36 "?"%char))) as (b'&Hrun&_&Htext).
  - exact (holds_ctor (replicate 36 "?"%char) ltac:(discriminate)).
  - repeat constructor; by_computation.
  - exists b'. split; [exact Hrun|exact Htext].
Defined.
