(* ===== verification/Logging.v ===== *)
(** * Logging

    [logging/Logging.h] and [logging/Logging.cc]: how a log line is made, what
    it says, and which levels end the process. Thread-local variables are the
    calling thread's; the output and flush functions installed are recorded,
    with what each was given. *)
From S2P Require Import Prelude Printf Calendar Timestamp LoggingStream.
Local Open Scope Z_scope.

(** ** Logger *)

Inductive LogLevel := TRACE | DEBUG | INFO | WARN | ERROR | FATAL.
#[export] Instance LogLevel_eq_dec : EqDecision LogLevel.
Proof. solve_decision. Defined.

Definition level_num (l : LogLevel) : Z :=
  match l with TRACE => 0 | DEBUG => 1 | INFO => 2 | WARN => 3 | ERROR => 4 | FATAL => 5 end.

Definition LogLevelname (l : LogLevel) : list char :=
  str match l with
      | TRACE => "[TRACE] " | DEBUG => "[DEBUG] " | INFO => "[INFO ] "
      | WARN => "[WARN ] " | ERROR => "[ERROR] " | FATAL => "[FATAL] "
      end.

(** The functions that may be installed: [defaultOutput] and [defaultFlush],
    which go to standard output, or the user's. *)
Inductive OutputFunc := defaultOutput | UserOutput (code : nat).
Inductive FlushFunc := defaultFlush | UserFlush (code : nat).
#[export] Instance OutputFunc_eq_dec : EqDecision OutputFunc.
Proof. solve_decision. Defined.

Record LogState := mkLog {
  g_logLevel : LogLevel;
  g_output : OutputFunc;
  g_flush : FlushFunc;
  t_time : list char;
  t_lastSecond : Z;
  lines_out : list (OutputFunc * list char);   (* the calls of g_output *)
  flushes : list FlushFunc;                    (* the calls of g_flush *)
  aborted : bool;                              (* abort() was called *)
}.
#[export] Instance eta_LogState : Eta LogState := λ s,
  mkLog (g_logLevel s) (g_output s) (g_flush s) (t_time s) (t_lastSecond s) (lines_out s) (flushes s) (aborted s).

(** [Logger::Impl] *)
Record Impl := mkImpl {
  time_ : Timestamp;
  stream_ : FixedBuffer;
  level_ : LogLevel;
  line_ : Z;
  basename_ : list char;
}.
#[export] Instance eta_Impl : Eta Impl := λ i,
  mkImpl (time_ i) (stream_ i) (level_ i) (line_ i) (basename_ i).

Definition initLogLevel (env_trace : bool) : LogLevel := if env_trace then TRACE else DEBUG.
Definition log_init (env_trace : bool) : LogState :=
  mkLog (initLogLevel env_trace) defaultOutput defaultFlush [] 0 [] [] false.

Definition setLogLevel (l : LogLevel) : M LogState unit := modify (λ s, s <| g_logLevel := l |>).
Definition setOutput (out : OutputFunc) : M LogState unit := modify (λ s, s <| g_output := out |>).
Definition setFlush (flush : FlushFunc) : M LogState unit := modify (λ s, s <| g_flush := flush |>).
Definition logLevel : M LogState LogLevel := gets g_logLevel.

Definition on_stream (i : Impl) (m : M FixedBuffer unit) : M LogState Impl :=
  match m (stream_ i) with
  | Ret _ b => mret (i <| stream_ := b |>)
  | Crash r => fails r
  end.

(** The constructor of [Fmt] asserts that the text fits. *)
Definition Fmt_ctor {S} (text : list char) : M S (list char) :=
  match Fmt text with
  | Some s => mret s
  | None => fails (AssertFailed "length_ < sizeof buf_")
  end.

Definition format_date (t : tm) : list char :=
  "["%char :: fmt_wd 4 (tm_year t + 1900) ++ fmt_0wd 2 (tm_mon t + 1) ++ fmt_0wd 2 (tm_mday t)
  ++ str "] [" ++ fmt_0wd 2 (tm_hour t) ++ ":"%char :: fmt_0wd 2 (tm_min t)
  ++ ":"%char :: fmt_0wd 2 (tm_sec t).
Definition format_us (microseconds : Z) : list char :=
  "."%char :: fmt_0wd 6 microseconds ++ str "Z] ".
Definition format_tid (tid : Z) : list char := "["%char :: fmt_wd 6 tid ++ str "] ".

Definition formatTime (i : Impl) : M LogState Impl :=
  let seconds := Z.quot (time_ i) 1000000 in
  let microseconds := Z.rem (time_ i) 1000000 in
  s ← get;
  whenM (negb (seconds =? t_lastSecond s)) (
    modify (λ s, s <| t_lastSecond := seconds |>);;
    let '(stored, len) := snprintf 32 (format_date (gmtime_r seconds)) in
    modify (λ s, s <| t_time := stored |>);;
    assert_ "len == 20" (len =? 20));;
  us ← Fmt_ctor (format_us microseconds);
  assert_ "us.length() == 10" (zlen us =? 10);;
  assert_ "strlen(str) == len_" (zlen us =? 10);;
  s ← get;
  i ← on_stream i (put_T (t_time s) 20);
  on_stream i (put_T us 10).

(** What follows the last slash of a path. *)
Definition basename (fullname : list char) : list char :=
  (fix go (s b : list char) : list char :=
     match s with
     | [] => b
     | c :: s' => go s' (if ascii_dec c "/"%char then s' else b)
     end) fullname fullname.

(** [tid] is [CurrentThread::tid()], [errtext] is [strerror_tl(SavedErrno)],
    and [uninit] is what the stack holds. *)
Definition Impl_ctor (uninit : list char) (now_ : Timestamp) (tid : Z) (errtext : list char)
    (level : LogLevel) (SavedErrno : Z) (file : list char) (line : Z) : M LogState Impl :=
  i ← formatTime (mkImpl now_ (LoggingStream_ctor uninit) level line (basename file));
  tidtext ← Fmt_ctor (format_tid tid);
  assert_ "tid.length() == 9" (zlen tidtext =? 9);;
  i ← on_stream i (put_T tidtext 9);
  i ← on_stream i (put_T (LogLevelname level) 8);
  if negb (SavedErrno =? 0) then
    i ← on_stream i (put_cstr errtext);
    i ← on_stream i (put_cstr (str " (errno="));
    i ← on_stream i (put_int SavedErrno);
    on_stream i (put_cstr (str ") "))
  else mret i.

Definition newline : char := ascii_of_nat 10.
Definition finish (i : Impl) : M LogState Impl :=
  i ← on_stream i (put_cstr ["-"%char]);
  i ← on_stream i (put_cstr (basename_ i));
  i ← on_stream i (put_cstr [":"%char]);
  i ← on_stream i (put_int (line_ i));
  on_stream i (put_cstr [newline]).

Definition Logger_dtor (i : Impl) : M LogState unit :=
  i ← finish i;
  text ← of_option "read outside the buffer" (tostring (stream_ i));
  modify (λ s, s <| lines_out ::= λ ls, ls ++ [(g_output s, text)] |>);;
  whenM (bool_decide (level_ i = FATAL)) (
    modify (λ s, s <| flushes ::= λ fs, fs ++ [g_flush s] |>);;
    modify (λ s, s <| aborted := true |>)).

Section Statements.
(** The values a statement reads when it runs. *)
Context (uninit : list char) (now_ : Timestamp) (tid : Z) (errno_ : Z) (errtext : list char).

(** A whole statement: the constructor, the user's items, the destructor. *)
Definition log_statement (level : LogLevel) (SavedErrno : Z) (file : list char) (line : Z)
    (prefix items : list item) : M LogState unit :=
  i ← Impl_ctor uninit now_ tid errtext level SavedErrno file line;
  i ← on_stream i (iterM put_item prefix);
  i ← on_stream i (iterM put_item items);
  Logger_dtor i.

Definition guarded (l : LogLevel) (m : M LogState unit) : M LogState unit :=
  g ← logLevel; whenM (level_num g <=? level_num l) m.

(** The macros; [func] is [__func__]. *)
Definition LOG_TRACE (file : list char) (line : Z) (func : list char) (items : list item) :=
  guarded TRACE (log_statement TRACE 0 file line [IString func; IChar " "%char] items).
Definition LOG_DEBUG (file : list char) (line : Z) (func : list char) (items : list item) :=
  guarded DEBUG (log_statement DEBUG 0 file line [IString func; IChar " "%char] items).
Definition LOG_INFO (file : list char) (line : Z) (items : list item) :=
  guarded INFO (log_statement INFO 0 file line [] items).
Definition LOG_WARN (file : list char) (line : Z) := log_statement WARN 0 file line [].
Definition LOG_ERROR (file : list char) (line : Z) := log_statement ERROR 0 file line [].
Definition LOG_FATAL (file : list char) (line : Z) := log_statement FATAL 0 file line [].
Definition Logger_abort (toAbort : bool) (file : list char) (line : Z) :=
  log_statement (if toAbort then FATAL else ERROR) errno_ file line [].
Definition LOG_SYSERR := Logger_abort false.
Definition LOG_SYSFATAL := Logger_abort false.
End Statements.

(** ** The lengths that are asserted *)

Lemma zlen_format_date seconds :
  0 ≤ seconds < kMaxSecond → zlen (format_date (gmtime_r seconds)) = 20.
Proof.
  unfold kMaxSecond, gmtime_r. intros Hs. pose proof (civil_range (seconds / 86400)) as Hc.
  destruct (civil (seconds / 86400)) as [[y m] d]. destruct Hc as (Hm&Hd&Hy).
  specialize (Hy ltac:(Z.to_euclidean_division_equations; lia)).
  assert (0 ≤ seconds mod 86400 < 86400) by (apply Z.mod_pos_bound; lia).
  set (s := seconds mod 86400) in *. clearbody s.
  assert (0 ≤ s / 3600 < 100 ∧ 0 ≤ s / 60 mod 60 < 100 ∧ 0 ≤ s mod 60 < 100) as (?&?&?)
    by (Z.to_euclidean_division_equations; lia).
  unfold format_date. cbn [tm_year tm_mon tm_mday tm_hour tm_min tm_sec].
  assert (10 ^ Z.of_nat 2 = 100 ∧ 10 ^ Z.of_nat 4 = 10000) as [E2 E4] by done.
  unfold zlen. repeat (rewrite length_app || cbn [length]).
  rewrite (length_fmt_wd_exact 4), !(length_fmt_0wd_exact 2) by lia. done.
Qed.

Lemma zlen_format_us us : 0 ≤ us < 1000000 → zlen (format_us us) = 10.
Proof.
  intros Hus. unfold format_us, zlen. cbn [length]. rewrite length_app.
  rewrite (length_fmt_0wd_exact 6); [done|lia|exact Hus].
Qed.

Lemma zlen_format_tid tid : 0 ≤ tid → zlen (format_tid tid) = 3 + Z.max 6 (zlen (fmt_d tid)).
Proof.
  intros Htid. unfold format_tid, zlen. cbn [length]. rewrite length_app, length_fmt_wd. change (length (str "] ")) with 2%nat. lia.
Qed.

(** ** What a line says *)

Section Lines.
Context (uninit : list char) (now_ : Timestamp) (tid : Z) (errno_ : Z) (errtext : list char).
Implicit Types (s : LogState) (i : Impl).

(** The cached text of the last second logged is the text of that second. *)
Definition cache_ok (s : LogState) : Prop :=
  t_lastSecond s = 0 ∨ t_time s = format_date (gmtime_r (t_lastSecond s)).

Definition header (level : LogLevel) (SavedErrno : Z) : list item :=
  [IString (format_date (gmtime_r (now_ / 1000000))); IString (format_us (now_ mod 1000000));
   IString (format_tid tid); IString (LogLevelname level)] ++
  (if SavedErrno =? 0 then []
   else [IString errtext; IString (str " (errno="); IInt SavedErrno; IString (str ") ")]).
Definition trailer (file : list char) (line : Z) : list item :=
  [IString ["-"%char]; IString (basename file); IString [":"%char]; IInt line; IString [newline]].

(** The text of a statement: whatever does not fit any more is left out. *)
Definition line_text (level : LogLevel) (SavedErrno : Z) (file : list char) (line : Z)
    (items : list item) : list char :=
  foldl (put_spec (zlen uninit)) [] (header level SavedErrno ++ items ++ trailer file line).

Lemma wp_on_stream size text items i (m : M FixedBuffer unit) (Q : Impl → LogState → Prop) s :
  (∀ b, m b = iterM put_item items b) → holds size text (stream_ i) → Forall item_ok items →
  (∀ b, holds size (foldl (put_spec size) text items) b → Q (i <| stream_ := b |>) s) →
  wp (on_stream i m) Q s.
Proof.
  intros Hm Hb Hok HQ. unfold on_stream. rewrite Hm.
  assert (wp (iterM put_item items) (λ _ b', holds size (foldl (put_spec size) text items) b') (stream_ i))
    as Hwp.
  { clear Hm HQ. destruct i as [? b ? ? ?]. cbn in *. induction Hok as [|it items Hi Hok IH] in text, b, Hb |- *;
      cbn [iterM foldl]; [by wp_step|].
    wp_step. eapply wp_put_item; [done..|]. intros b' Hb'. by apply IH. }
  apply wp_run in Hwp as ([]&b'&Hrun&Hb'). rewrite Hrun. wp_step. by apply HQ.
Qed.

Lemma put_one it b : put_item it b = iterM put_item [it] b.
Proof. cbn [iterM]. unfold mbind, M_bind. by destruct (put_item it b) as [[] ?|?]. Qed.

Lemma put_T_string t len b : zlen t = len → put_T t len b = iterM put_item [IString t] b.
Proof.
  intros <-. rewrite <- put_one. unfold put_T, assert_. by rewrite Z.eqb_refl.
Qed.
(** Only the cached second may have changed. *)
Definition settings (s : LogState) : LogLevel * OutputFunc * FlushFunc := (g_logLevel s, g_output s, g_flush s).
Definition same_output (s s' : LogState) : Prop :=
  (lines_out s', flushes s', aborted s') = (lines_out s, flushes s, aborted s) ∧ settings s' = settings s.

Lemma Fmt_ctor_fits {S} t (Q : list char → S → Prop) (s : S) :
  zlen t < 32 → Q t s → wp (Fmt_ctor t) Q s.
Proof.
  intros Ht HQ. unfold Fmt_ctor, Fmt. rewrite snprintf_fits by done.
  by rewrite (proj2 (Z.ltb_lt _ _) Ht).
Qed.

Context (Htime : 1000000 ≤ now_ < kMaxSecond * 1000000).

Lemma time_parts :
  Z.quot now_ 1000000 = now_ / 1000000 ∧ Z.rem now_ 1000000 = now_ mod 1000000 ∧
  1 ≤ now_ / 1000000 < kMaxSecond ∧ 0 ≤ now_ mod 1000000 < 1000000.
Proof.
  unfold kMaxSecond in *. unfold Timestamp in *.
  rewrite Z.quot_div_nonneg, Z.rem_mod_nonneg by lia. split_and!; try done;
    Z.to_euclidean_division_equations; lia.
Qed.

Lemma wp_formatTime size text i (Q : Impl → LogState → Prop) s :
  time_ i = now_ → holds size text (stream_ i) → cache_ok s →
  (∀ b s', holds size (foldl (put_spec size) text
       [IString (format_date (gmtime_r (now_ / 1000000))); IString (format_us (now_ mod 1000000))]) b →
     cache_ok s' → same_output s s' → Q (i <| stream_ := b |>) s') →
  wp (formatTime i) Q s.
Proof.
  intros Ei Hb Hcache HQ. destruct time_parts as (Eq&Er&Hsec&Hus).
  assert (zlen (format_date (gmtime_r (now_ / 1000000))) = 20) as H20 by (apply zlen_format_date; lia).
  pose proof (zlen_format_us _ Hus) as H10.
  unfold formatTime. rewrite Ei, Eq, Er. wp_step.
  assert (∀ s', cache_ok s' → t_time s' = format_date (gmtime_r (now_ / 1000000)) → same_output s s' →
    wp (Fmt_ctor (format_us (now_ mod 1000000))) (λ us, wp (
        assert_ "us.length() == 10" (zlen us =? 10);;
        assert_ "strlen(str) == len_" (zlen us =? 10);;
        s ← get;
        i ← on_stream i (put_T (t_time s) 20);
        on_stream i (put_T us 10)) Q) s') as Hrest.
  { intros s' Hc' Et Hs'. apply Fmt_ctor_fits; [by rewrite H10|]. wp_step.
    apply wp_assert; [by rewrite H10|]. wp_step. apply wp_assert; [by rewrite H10|]. wp_step.
    eapply (wp_on_stream size text [IString (t_time s')]).
    - intros b. apply put_T_string. by rewrite Et.
    - done.
    - apply Forall_singleton. cbn [item_ok]. rewrite Et. lia.
    - intros b1 Hb1. rewrite Et in Hb1.
      eapply (wp_on_stream size _ [IString (format_us (now_ mod 1000000))]).
      + intros b. by apply put_T_string.
      + exact Hb1.
      + apply Forall_singleton. cbn [item_ok]. lia.
      + intros b2 Hb2. by apply (HQ b2 s'). }
  destruct (Z.eqb_spec (now_ / 1000000) (t_lastSecond s)) as [E|E]; cbn [negb whenM]; wp_step.
  - apply Hrest; [done| |by split]. destruct Hcache as [H0|Ht]; [lia|]. by rewrite Ht, <- E.
  - rewrite snprintf_fits by lia. wp_step. apply wp_assert; [by rewrite H20|]. wp_step.
    apply Hrest; [by right|done|by split].
Qed.

Context (Htid : 0 ≤ tid).

(** The items of the header and the trailer have the types they are given. *)
Lemma header_ok level SavedErrno :
  tid < 10 ^ 6 → zlen errtext < 2 ^ 31 → - 2 ^ 31 ≤ SavedErrno < 2 ^ 31 →
  zlen (format_tid tid) = 9 ∧
  Forall item_ok (IString (format_tid tid) :: IString (LogLevelname level) ::
    (if SavedErrno =? 0 then [] else
       [IString errtext; IString (str " (errno="); IInt SavedErrno; IString (str ") ")])).
Proof.
  intros Ht He Hsaved. assert (zlen (format_tid tid) = 9) as H9.
  { rewrite zlen_format_tid by done.
    assert (length (fmt_d tid) ≤ 6)%nat by (apply length_fmt_d; [lia|]; lia). unfold zlen. lia. }
  split; [done|]. constructor; [cbn; lia|]. constructor; [by destruct level|].
  destruct (SavedErrno =? 0); [constructor|].
  rewrite !Forall_cons. cbn [item_ok]. split_and!; first [constructor | done | lia].
Qed.

Lemma wp_Impl_ctor level SavedErrno file line (Q : Impl → LogState → Prop) s :
  tid < 10 ^ 6 → zlen errtext < 2 ^ 31 → - 2 ^ 31 ≤ SavedErrno < 2 ^ 31 → uninit ≠ [] → cache_ok s →
  (∀ b s', holds (zlen uninit) (foldl (put_spec (zlen uninit)) [] (header level SavedErrno)) b →
     cache_ok s' → same_output s s' → Q (mkImpl now_ b level line (basename file)) s') →
  wp (Impl_ctor uninit now_ tid errtext level SavedErrno file line) Q s.
Proof.
  intros Ht He Hsaved Hne Hcache HQ. unfold Impl_ctor. wp_step.
  destruct (header_ok level SavedErrno Ht He Hsaved) as [H9 Hok].
  inversion Hok as [|? ? Hok1 Hok']; subst. inversion Hok' as [|? ? Hok2 Hok3]; subst.
  eapply (wp_formatTime (zlen uninit) []); [done|by apply holds_ctor|done|]. intros b s' Hb Hc' Hs'. wp_step.
  apply Fmt_ctor_fits; [by rewrite H9|]. wp_step. apply wp_assert; [by rewrite H9|]. wp_step.
  eapply (wp_on_stream (zlen uninit) _ [IString (format_tid tid)]); [intros b'; by apply put_T_string
    |exact Hb|by apply Forall_singleton|]. intros b1 Hb1. wp_step.
  eapply (wp_on_stream (zlen uninit) _ [IString (LogLevelname level)]);
    [intros b'; apply put_T_string; by destruct level|exact Hb1|by apply Forall_singleton|]. intros b2 Hb2.
  unfold header in HQ. destruct (SavedErrno =? 0); cbn [negb]; wp_step.
  - by apply HQ.
  - inversion Hok3 as [|? ? Ho1 Hok4]; subst. inversion Hok4 as [|? ? Ho2 Hok5]; subst.
    inversion Hok5 as [|? ? Ho3 Hok6]; subst. inversion Hok6 as [|? ? Ho4 _]; subst.
    eapply (wp_on_stream (zlen uninit) _ [IString errtext]); [intros b'; by rewrite <- put_one
      |exact Hb2|by apply Forall_singleton|]. intros b3 Hb3. wp_step.
    eapply (wp_on_stream (zlen uninit) _ [IString (str " (errno=")]); [intros b'; by rewrite <- put_one
      |exact Hb3|by apply Forall_singleton|]. intros b4 Hb4. wp_step.
    eapply (wp_on_stream (zlen uninit) _ [IInt SavedErrno]); [intros b'; by rewrite <- put_one
      |exact Hb4|by apply Forall_singleton|]. intros b5 Hb5. wp_step.
    eapply (wp_on_stream (zlen uninit) _ [IString (str ") ")]); [intros b'; by rewrite <- put_one
      |exact Hb5|by apply Forall_singleton|]. intros b6 Hb6. by apply HQ.
Qed.

Lemma wp_Logger_dtor size text i (Q : unit → LogState → Prop) s :
  holds size text (stream_ i) → zlen (basename_ i) < 2 ^ 31 → - 2 ^ 31 ≤ line_ i < 2 ^ 31 →
  (let out := foldl (put_spec size) text
     [IString ["-"%char]; IString (basename_ i); IString [":"%char]; IInt (line_ i); IString [newline]] in
   Q tt (s <| lines_out := lines_out s ++ [(g_output s, out)] |>
           <| flushes := if bool_decide (level_ i = FATAL) then flushes s ++ [g_flush s] else flushes s |>
           <| aborted := bool_decide (level_ i = FATAL) || aborted s |>)) →
  wp (Logger_dtor i) Q s.
Proof.
  intros Hb Hbase Hline HQ. unfold Logger_dtor, finish. wp_step.
  eapply (wp_on_stream size _ [IString ["-"%char]]); [intros b'; by rewrite <- put_one
    |exact Hb|by apply Forall_singleton|]. intros b1 Hb1. wp_step.
  eapply (wp_on_stream size _ [IString (basename_ i)]); [intros b'; by rewrite <- put_one
    |exact Hb1|by apply Forall_singleton|]. intros b2 Hb2. wp_step.
  eapply (wp_on_stream size _ [IString [":"%char]]); [intros b'; by rewrite <- put_one
    |exact Hb2|by apply Forall_singleton|]. intros b3 Hb3. wp_step.
  eapply (wp_on_stream size _ [IInt (line_ i)]); [intros b'; by rewrite <- put_one
    |exact Hb3|apply Forall_singleton; cbn [item_ok]; lia|]. intros b4 Hb4. wp_step.
  eapply (wp_on_stream size _ [IString [newline]]); [intros b'; by rewrite <- put_one
    |exact Hb4|by apply Forall_singleton|]. intros b5 Hb5. wp_step.
  eapply wp_of_option; [by eapply holds_tostring|]. wp_step. cbn [foldl] in HQ |- *.
  destruct (bool_decide (level_ i = FATAL)) eqn:El.
  - change (level_ _) with (level_ i). rewrite El. wp_step. exact HQ.
  - change (level_ _) with (level_ i). rewrite El. wp_step. destruct s. exact HQ.
Qed.

Lemma log_statement_run level SavedErrno file line prefix items s :
  tid < 10 ^ 6 → uninit ≠ [] → cache_ok s → zlen errtext < 2 ^ 31 →
  - 2 ^ 31 ≤ SavedErrno < 2 ^ 31 → - 2 ^ 31 ≤ line < 2 ^ 31 → zlen (basename file) < 2 ^ 31 →
  Forall item_ok prefix → Forall item_ok items →
  ∃ s', log_statement uninit now_ tid errtext level SavedErrno file line prefix items s = Ret tt s' ∧
    lines_out s' = lines_out s ++ [(g_output s, line_text level SavedErrno file line (prefix ++ items))] ∧
    flushes s' = flushes s ++ (if bool_decide (level = FATAL) then [g_flush s] else []) ∧
    aborted s' = bool_decide (level = FATAL) || aborted s ∧
    cache_ok s' ∧ settings s' = settings s.
Proof.
  intros Ht Hsize Hcache Herr Hsaved Hline Hbase Hprefix Hitems.
  cut (wp (log_statement uninit now_ tid errtext level SavedErrno file line prefix items) (λ _ s',
    lines_out s' = lines_out s ++ [(g_output s, line_text level SavedErrno file line (prefix ++ items))] ∧
    flushes s' = flushes s ++ (if bool_decide (level = FATAL) then [g_flush s] else []) ∧
    aborted s' = bool_decide (level = FATAL) || aborted s ∧
    cache_ok s' ∧ settings s' = settings s) s).
  { intros Hwp. apply wp_run in Hwp as ([]&s'&?&?). by exists s'. }
  unfold log_statement. wp_step. apply wp_Impl_ctor; [done..|]. intros b s1 Hb Hc1 ([= El1 Ef1 Ea1]&[= E1 E2 E3]). wp_step.
  eapply (wp_on_stream (zlen uninit) _ prefix); [done|exact Hb|done|]. intros b1 Hb1. wp_step.
  eapply (wp_on_stream (zlen uninit) _ items); [done|exact Hb1|done|]. intros b2 Hb2.
  eapply wp_Logger_dtor; [exact Hb2|done|done|]. cbv zeta. unfold settings. cbn [lines_out flushes aborted g_logLevel g_output g_flush upd].
  rewrite El1, Ef1, Ea1, E1, E2, E3. split_and!; [|by destruct level; cbn; rewrite ?app_nil_r|done|exact Hc1|done].
  unfold line_text. by rewrite !foldl_app.
Qed.

(** C26: what a log statement does. It hands the installed output function one line:
    date, time to the microsecond, thread, level, the error when there is
    one, the items of the statement, file and line number, in this order,
    less only what does not fit the buffer; and exactly at level FATAL it calls
    the flush function and ends the process. But in a thread whose id has seven digits it fails an
    assertion instead. *)
Theorem log_statement_line (level : LogLevel) (SavedErrno : Z) (file : list char) (line : Z)
  (prefix items : list item) (s : LogState)
  (Hsize : uninit ≠ []) (Hcache : cache_ok s) (Htid31 : tid < 2 ^ 31)
  (Herr : zlen errtext < 2 ^ 31) (Hsaved : - 2 ^ 31 ≤ SavedErrno < 2 ^ 31)
  (Hline : - 2 ^ 31 ≤ line < 2 ^ 31) (Hbase : zlen (basename file) < 2 ^ 31)
  (Hprefix : Forall item_ok prefix) (Hitems : Forall item_ok items) :
  if tid <? 10 ^ 6 then
    ∃ s', log_statement uninit now_ tid errtext level SavedErrno file line prefix items s = Ret tt s' ∧
      lines_out s' = lines_out s ++ [(g_output s, line_text level SavedErrno file line (prefix ++ items))] ∧
      flushes s' = flushes s ++ (if bool_decide (level = FATAL) then [g_flush s] else []) ∧
      aborted s' = bool_decide (level = FATAL) || aborted s ∧
      cache_ok s' ∧ settings s' = settings s
  else log_statement uninit now_ tid errtext level SavedErrno file line prefix items s =
         Crash (AssertFailed "tid.length() == 9").
Proof.
  destruct (Z.ltb_spec tid (10 ^ 6)) as [Ht|Ht].
  - by apply log_statement_run.
  - unfold log_statement. apply crash_here. unfold Impl_ctor. apply crash_bind.
    eapply (wp_formatTime (zlen uninit) []); [done|by apply holds_ctor|done|]. intros b s1 _ _ _.
    assert (7 ≤ zlen (fmt_d tid) ≤ 10) as Hlen.
    { pose proof (length_fmt_d_ge tid 6 Ht). assert (length (fmt_d tid) ≤ 10)%nat.
      { apply length_fmt_d; lia. } unfold zlen. lia. }
    pose proof (zlen_format_tid tid Htid) as E. apply crash_bind. apply Fmt_ctor_fits; [lia|].
    apply crash_here. unfold assert_. by rewrite (proj2 (Z.eqb_neq _ _)) by lia.
Qed.
(** [LOG_SYSFATAL] is not fatal: its macro passes [false] for [toAbort], as
    [LOG_SYSERR] does, so it logs a line of level ERROR and returns. The
    functions named [...OrDie], which end with it, go on. *)
Theorem sysfatal_returns (file : list char) (line : Z) (items : list item) (s : LogState)
  (Ht : tid < 10 ^ 6) (Hsize : uninit ≠ []) (Hcache : cache_ok s)
  (Herr : zlen errtext < 2 ^ 31) (Hsaved : - 2 ^ 31 ≤ errno_ < 2 ^ 31)
  (Hline : - 2 ^ 31 ≤ line < 2 ^ 31) (Hbase : zlen (basename file) < 2 ^ 31)
  (Hitems : Forall item_ok items) :
  ∃ s', LOG_SYSFATAL uninit now_ tid errno_ errtext file line items s = Ret tt s' ∧
    aborted s' = aborted s ∧
    lines_out s' = lines_out s ++ [(g_output s, line_text ERROR errno_ file line items)].
Proof.
  destruct (log_statement_run ERROR errno_ file line [] items s) as (s'&Hrun&Hout&_&Hab&_); try done.
  exists s'. by split_and!.
Qed.
End Lines.

(** ** Concrete instances *)

Module LogDemo.
Definition stack : list char := replicate (Z.to_nat kMinBufferSize) "?"%char.
Definition now_ : Timestamp := 1709210096000042.
Definition file : list char := str "reactor/EventLoop.cc".
Definition items : list item := [IString (str "fd = "); IInt 7].
Lemma items_ok : Forall item_ok items.
Proof. repeat (apply Forall_cons; split; [by_computation|]). constructor. Qed.
Lemma stack_ne : stack ≠ [].
Proof. discriminate. Qed.
End LogDemo.

Lemma log_statement_line_witness :
  ∃ s', log_statement LogDemo.stack LogDemo.now_ 4242 [] FATAL 0 LogDemo.file 31 [] LogDemo.items
      (log_init false) = Ret tt s' ∧
    lines_out s' = [(defaultOutput,
      str "[20240229] [12:34:56.000042Z] [  4242] [FATAL] fd = 7-EventLoop.cc:31" ++ [newline])] ∧
    aborted s' = true.
Proof.
  destruct (log_statement_line LogDemo.stack LogDemo.now_ 4242 [] ltac:(by_computation)
    ltac:(by_computation) FATAL 0 LogDemo.file 31 [] LogDemo.items (log_init false))
    as (s'&Hrun&Hout&_&Hab&_); [exact LogDemo.stack_ne|left; reflexivity|by_computation..
    |constructor|exact LogDemo.items_ok|].
  exists s'. split; [exact Hrun|]. split; [|exact Hab]. rewrite Hout. vm_compute. reflexivity.
Defined.

Lemma sysfatal_returns_witness :
  ∃ s', LOG_SYSFATAL LogDemo.stack LogDemo.now_ 4242 24 (str "Too many open files") LogDemo.file 31
      LogDemo.items (log_init false) = Ret tt s' ∧ aborted s' = false ∧
    lines_out s' = [(defaultOutput,
      str "[20240229] [12:34:56.000042Z] [  4242] [ERROR] Too many open files (errno=24) fd = 7-EventLoop.cc:31" ++ [newline])].
Proof.
  destruct (sysfatal_returns LogDemo.stack LogDemo.now_ 4242 24 (str "Too many open files")
    ltac:(by_computation) ltac:(by_computation) LogDemo.file 31 LogDemo.items (log_init false))
    as (s'&Hrun&Hab&Hout); [by_computation|exact LogDemo.stack_ne|left; reflexivity|by_computation..
    |exact LogDemo.items_ok|].
  exists s'. split; [exact Hrun|]. split; [exact Hab|]. rewrite Hout. vm_compute. reflexivity.
Defined.
