(* ===== verification/LogFile.v ===== *)
(** * LogFile

    [logging/LogFile.h] and [logging/LogFile.cc]: a log written to a sequence of
    files, a new one when the current one has grown over a limit or a day has
    passed. What C's [stdio] and the clock answer is a parameter; a stream is
    its name and the bytes [fwrite] accepted. The message printed to [stderr]
    after a write error is not modelled. *)
From S2P Require Import Prelude Printf Calendar Timestamp LoggingStream Logging.
Local Open Scope Z_scope.

(** The functions of the C library that are called, and the state behind them. *)
Class Stdio (E : Type) := {
  time_now : E → Z * E;                       (* time(NULL) *)
  getpid : Z;                                 (* the same during a process *)
  fopen : list char → E → bool * E;           (* fopen(name, "ae") succeeded *)
  fwrite : list char → list char → E → Z * E; (* name and bytes; bytes accepted *)
  fflush : list char → E → E;
}.
(** [fwrite] never reports more than it was given. *)
Class StdioLaws (E : Type) `{!Stdio E} :=
  fwrite_le name bytes e : 0 ≤ (fwrite name bytes e).1 ≤ zlen bytes.
(** A disk without errors: files can be opened, and [fwrite] makes progress. *)
Class GoodDisk (E : Type) `{!Stdio E} := {
  fopen_ok name e : (fopen name e).1 = true;
  fwrite_progress name bytes e : bytes ≠ [] → 0 < (fwrite name bytes e).1;
}.

Record File := mkFile {
  f_name : list char;
  f_text : list char;          (* what fwrite accepted *)
  f_flushed : Z;               (* how much of it fflush or fclose passed on *)
  writtenBytes_ : Z;
}.
#[export] Instance eta_File : Eta File := λ f, mkFile (f_name f) (f_text f) (f_flushed f) (writtenBytes_ f).

Record LogFile := mkLogFile {
  lf_basename : list char;
  rollSize_ : Z;
  flushInterval_ : Z;
  count_ : Z;
  mutex_ : option bool;        (* None: no mutex; otherwise whether it is locked *)
  startOfPeriod_ : Z;
  lastRoll_ : Z;
  lastFlush_ : Z;
  file_ : option File;
}.
#[export] Instance eta_LogFile : Eta LogFile := λ l,
  mkLogFile (lf_basename l) (rollSize_ l) (flushInterval_ l) (count_ l) (mutex_ l)
    (startOfPeriod_ l) (lastRoll_ l) (lastFlush_ l) (file_ l).

Definition kCheckTimeRoll_ : Z := 1024.
Definition kRollPerSeconds_ : Z := 60 * 60 * 24.

Section LogFile.
Context {E : Type} `{!Stdio E}.

(** The object, the streams it has closed, oldest first, and the library. *)
Record LogWorld := mkLogWorld { lf : LogFile; closed : list File; io : E }.
#[export] Instance eta_LogWorld : Eta LogWorld := λ s, mkLogWorld (lf s) (closed s) (io s).
Implicit Types (s : LogWorld) (f : File).

Definition call_io {A} (c : E → A * E) : M LogWorld A :=
  λ s, let '(a, e) := c (io s) in Ret a (s <| io := e |>).
Definition upd_lf (g : LogFile → LogFile) : M LogWorld unit := modify (λ s, s <| lf ::= g |>).

(** [file_->...]; a null pointer is not dereferenced. *)
Definition the_file : M LogWorld File :=
  s ← get; of_option "null file_" (file_ (lf s)).
Definition upd_file (g : File → File) : M LogWorld unit :=
  f ← the_file; upd_lf (λ l, l <| file_ := Some (g f) |>).

(** ** LogFile::File *)

Definition File_ctor (filename : list char) : M LogWorld File :=
  ok ← call_io (fopen filename);
  if (ok : bool) then mret (mkFile filename [] 0 0) else fails (Undefined "setbuffer(NULL)").

(** [fclose] passes on what is still in the buffer. *)
Definition File_dtor (f : File) : M LogWorld unit :=
  modify (λ s, s <| closed ::= λ fs, fs ++ [f <| f_flushed := zlen (f_text f) |>] |>).

Definition File_write (logline : list char) : M LogWorld Z :=
  f ← the_file;
  x ← call_io (fwrite (f_name f) logline);
  upd_file (λ f, f <| f_text ::= λ t, t ++ take (Z.to_nat x) logline |>);;
  mret x.

(** The loop; [n] bytes of the line have been written. *)
Fixpoint append_loop (fuel : nat) (logline : list char) (n remian : Z) : M LogWorld unit :=
  match fuel with
  | O => fails (Undefined "out of fuel")
  | S fuel' =>
      if remian =? 0 then mret tt
      else
        x ← File_write (zslice n (n + remian) logline);
        if x =? 0 then mret tt
        else append_loop fuel' logline (n + x) (wrapu 64 (zlen logline - (n + x)))
  end.

Definition File_append (logline : list char) : M LogWorld unit :=
  let len := zlen logline in
  n ← File_write logline;
  append_loop (S (length logline)) logline n (wrapu 64 (len - n));;
  upd_file (λ f, f <| writtenBytes_ ::= λ b, wrapu 64 (b + len) |>).

Definition File_flush : M LogWorld unit :=
  f ← the_file;
  call_io (λ e, (tt, fflush (f_name f) e));;
  upd_file (λ f, f <| f_flushed := zlen (f_text f) |>).

(** ** LogFile *)

(** [strftime(".%Y%m%d-%H%M%S")] and the process. *)
Definition format_stamp (t : tm) : list char :=
  "."%char :: fmt_d (tm_year t + 1900) ++ fmt_0wd 2 (tm_mon t + 1) ++ fmt_0wd 2 (tm_mday t)
  ++ "-"%char :: fmt_0wd 2 (tm_hour t) ++ fmt_0wd 2 (tm_min t) ++ fmt_0wd 2 (tm_sec t).
Definition format_pid (pid : Z) : list char := "."%char :: fmt_d pid.

Definition log_name (basename : list char) (now_ pid : Z) : list char :=
  basename ++ (snprintf 32 (format_stamp (gmtime_r now_))).1 ++ (snprintf 32 (format_pid pid)).1
  ++ str ".log".

Definition getLogFileName : M LogWorld (list char * Z) :=
  now_ ← call_io time_now;
  s ← get;
  mret (log_name (lf_basename (lf s)) now_ getpid, now_).

Definition period (now_ : Z) : Z := Z.quot now_ kRollPerSeconds_ * kRollPerSeconds_.

Definition rollFile : M LogWorld unit :=
  r ← getLogFileName;
  let '(filename, now_) := r in
  let start := period now_ in
  s ← get;
  whenM (lastRoll_ (lf s) <? now_) (
    upd_lf (λ l, l <| lastRoll_ := now_ |>);;
    upd_lf (λ l, l <| lastFlush_ := now_ |>);;
    upd_lf (λ l, l <| startOfPeriod_ := start |>);;
    f ← File_ctor filename;
    s ← get;
    upd_lf (λ l, l <| file_ := Some f |>);;
    match file_ (lf s) with Some old => File_dtor old | None => mret tt end).

Definition append_unlocked (logline : list char) : M LogWorld unit :=
  File_append logline;;
  f ← the_file;
  s ← get;
  if rollSize_ (lf s) <? writtenBytes_ f then rollFile
  else if kCheckTimeRoll_ <? count_ (lf s) then
    upd_lf (λ l, l <| count_ := 0 |>);;
    now_ ← call_io time_now;
    s ← get;
    if negb (period now_ =? startOfPeriod_ (lf s)) then rollFile
    else if flushInterval_ (lf s) <? now_ - lastFlush_ (lf s) then
      upd_lf (λ l, l <| lastFlush_ := now_ |>);;
      File_flush
    else mret tt
  else upd_lf (λ l, l <| count_ ::= Z.succ |>).

(** A [lock_guard] on the mutex, when there is one; it is not recursive. *)
Definition guarded_by_mutex (m : M LogWorld unit) : M LogWorld unit :=
  s ← get;
  match mutex_ (lf s) with
  | Some true => fails (Undefined "the mutex is already locked by this thread")
  | Some false =>
      upd_lf (λ l, l <| mutex_ := Some true |>);;
      m;;
      upd_lf (λ l, l <| mutex_ := Some false |>)
  | None => m
  end.

(** [len] is converted to [size_t]; [logline] is what the pointer points to. *)
Definition LogFile_append (logline : list char) (len : Z) : M LogWorld unit :=
  guarded_by_mutex (
    line ← of_option "read past the line" (zread 0 (wrapu 64 len) logline);
    append_unlocked line).
Definition LogFile_flush : M LogWorld unit := guarded_by_mutex File_flush.

Definition LogFile_ctor (basename : list char) (rollSize : Z) (threadSafe : bool) (flushInterval : Z) :
    M LogWorld unit :=
  modify (λ s, s <| lf := mkLogFile basename rollSize flushInterval 0
    (if threadSafe then Some false else None) 0 0 0 None |>);;
  assert_ "basename_.find('/') == string::npos" (bool_decide ("/"%char ∉ basename));;
  rollFile.

(** The default destructor closes the file. *)
Definition LogFile_dtor : M LogWorld unit :=
  s ← get;
  upd_lf (λ l, l <| file_ := None |>);;
  match file_ (lf s) with Some f => File_dtor f | None => mret tt end.

(** ** Writing a line *)

Context `{!StdioLaws E}.

(** [s] with another current stream and library state. *)
Definition at_file s f (e : E) : LogWorld := mkLogWorld ((lf s) <| file_ := Some f |>) (closed s) e.

Lemma at_file_self s f : file_ (lf s) = Some f → s = at_file s f (io s).
Proof. destruct s as [[] ? ?]. cbn. by intros ->. Qed.

Definition add_text f (t : list char) : File := f <| f_text ::= λ t0, t0 ++ t |>.

Lemma wp_the_file s f e (Q : File → LogWorld → Prop) :
  Q f (at_file s f e) → wp the_file Q (at_file s f e).
Proof. done. Qed.
Lemma wp_upd_file s f e g (Q : unit → LogWorld → Prop) :
  Q tt (at_file s (g f) e) → wp (upd_file g) Q (at_file s f e).
Proof. done. Qed.
Lemma wp_call_io {A} (c : E → A * E) (Q : A → LogWorld → Prop) s :
  (∀ e', c (io s) = ((c (io s)).1, e') → Q (c (io s)).1 (s <| io := e' |>)) → wp (call_io c) Q s.
Proof.
  unfold wp, call_io. destruct (c (io s)) as [a e'] eqn:Ec. intros HQ. by apply HQ.
Qed.

Lemma wp_File_write line (Q : Z → LogWorld → Prop) s f e :
  (∀ x e', 0 ≤ x ≤ zlen line → (GoodDisk E → line ≠ [] → 0 < x) →
     Q x (at_file s (add_text f (take (Z.to_nat x) line)) e')) →
  wp (File_write line) Q (at_file s f e).
Proof.
  intros HQ. unfold File_write. wp_step. apply wp_the_file. wp_step. apply wp_call_io. intros e' _.
  wp_step. apply (wp_upd_file s f e'). wp_step. apply HQ; [apply fwrite_le|].
  intros Hd Hne. by apply fwrite_progress.
Qed.

Lemma wp_append_loop fuel line n s f e (Q : unit → LogWorld → Prop) :
  0 ≤ n ≤ zlen line → zlen line < 2 ^ 64 → zlen line - n < Z.of_nat fuel →
  (∀ n' e', n ≤ n' ≤ zlen line → (GoodDisk E → n' = zlen line) →
     Q tt (at_file s (add_text f (zslice 0 n' line)) e')) →
  wp (append_loop fuel line n (zlen line - n)) Q (at_file s (add_text f (zslice 0 n line)) e).
Proof.
  intros Hn H64. revert n e Hn. induction fuel as [|fuel IH]; intros n e Hn Hfuel HQ; [lia|].
  cbn [append_loop]. destruct (Z.eqb_spec (zlen line - n) 0) as [E0|E0]; wp_step.
  { apply HQ; [lia|]. intros _. lia. }
  replace (n + (zlen line - n)) with (zlen line) by lia.
  apply wp_File_write. intros x e' Hx Hgood. rewrite zlen_zslice in Hx by lia.
  assert (add_text (add_text f (zslice 0 n line)) (take (Z.to_nat x) (zslice n (zlen line) line)) =
    add_text f (zslice 0 (n + x) line)) as ->.
  { unfold add_text. destruct f. cbn. f_equal. rewrite <- app_assoc. f_equal.
    rewrite <- (zslice_split 0 n (n + x)) by lia. f_equal.
    unfold zslice. rewrite take_take. f_equal. lia. }
  destruct (Z.eqb_spec x 0) as [->|Hx0]; wp_step.
  - apply HQ; [lia|]. intros Hd. specialize (Hgood Hd). exfalso.
    enough (0 < 0) by lia. apply Hgood. intros Enil.
    apply (f_equal zlen) in Enil. rewrite zlen_zslice in Enil by lia. unfold zlen in *. cbn in *. lia.
  - rewrite wrapu_small by lia. apply IH; [lia|lia|]. intros n' e'' Hn'. apply HQ. lia.
Qed.

(** A line is written whole, or up to where an error occurred. *)
Lemma wp_File_append line s f e (Q : unit → LogWorld → Prop) :
  zlen line < 2 ^ 64 →
  (∀ n e', 0 ≤ n ≤ zlen line → (GoodDisk E → n = zlen line) →
     Q tt (at_file s ((add_text f (zslice 0 n line))
             <| writtenBytes_ := wrapu 64 (writtenBytes_ f + zlen line) |>) e')) →
  wp (File_append line) Q (at_file s f e).
Proof.
  intros H64 HQ. unfold File_append. wp_step. apply wp_File_write. intros x e' Hx _.
  replace (take (Z.to_nat x) line) with (zslice 0 x line)
    by (unfold zslice; by rewrite Z.sub_0_r, drop_0).
  wp_step. rewrite wrapu_small by lia. apply wp_append_loop; [lia|lia|unfold zlen; lia|].
  intros n e'' Hn Hgood. apply wp_upd_file. apply HQ; [lia|done].
Qed.

(** ** Rolling *)

(** A clock between 1970 and the year 9999. *)
Class SaneClock := time_range e : 0 < (time_now e).1 < kMaxSecond.
Context `{!GoodDisk E, !SaneClock}.

Definition flushed f : File := f <| f_flushed := zlen (f_text f) |>.
Definition new_file s (t : Z) : File := mkFile (log_name (lf_basename (lf s)) t getpid) [] 0 0.
Definition rolled s (old : list File) (t : Z) (e : E) : LogWorld :=
  mkLogWorld ((lf s) <| lastRoll_ := t |> <| lastFlush_ := t |> <| startOfPeriod_ := period t |>
                <| file_ := Some (new_file s t) |>) (closed s ++ old) e.

Lemma wp_rollFile s (Q : unit → LogWorld → Prop) :
  (∀ e', (time_now (io s)).1 ≤ lastRoll_ (lf s) → Q tt (s <| io := e' |>)) →
  (∀ t e', t = (time_now (io s)).1 → 0 < t < kMaxSecond → lastRoll_ (lf s) < t →
     Q tt (rolled s (match file_ (lf s) with Some f => [flushed f] | None => [] end) t e')) →
  wp rollFile Q s.
Proof.
  intros Hsame Hroll. unfold rollFile, getLogFileName. wp_step. apply wp_call_io. intros e' _.
  pose proof (time_range (io s)) as Ht. set (t := (time_now (io s)).1) in *. wp_step.
  cbn [lf upd]. destruct (Z.ltb_spec (lastRoll_ (lf s)) t) as [Hlt|Hge]; [|by eapply Hsame].
  wp_step. unfold upd_lf, File_ctor. wp_step. apply wp_call_io. intros e'' _. rewrite fopen_ok. wp_step.
  specialize (Hroll t e'' eq_refl Ht Hlt). unfold rolled in Hroll. destruct s as [[? ? ? ? ? ? ? ? o] cs e0]. cbn in *.
  destruct o as [f|]; cbn in *; [exact Hroll|]. by rewrite app_nil_r in Hroll.
Qed.

(** What is kept of the log: the texts of the files are the lines in
    [groups], and the files were opened at the times [ts]. *)
Definition log_inv (groups : list (list (list char))) (ts : list Z) s : Prop :=
  ∃ f, file_ (lf s) = Some f ∧ 0 ≤ count_ (lf s) ≤ kCheckTimeRoll_ + 1 ∧
    map f_text (closed s ++ [f]) = map (@concat char) groups ∧
    map f_name (closed s ++ [f]) = map (λ t, log_name (lf_basename (lf s)) t getpid) ts ∧
    StronglySorted Z.lt ts ∧ last ts = Some (lastRoll_ (lf s)) ∧
    Forall (λ t, 0 < t < kMaxSecond) ts ∧
    Forall (λ f, f_flushed f = zlen (f_text f)) (closed s).

(** What never changes outside a call. *)
Definition setup s : list char * Z * Z * option bool :=
  (lf_basename (lf s), rollSize_ (lf s), flushInterval_ (lf s), mutex_ (lf s)).

Lemma StronglySorted_snoc (l : list Z) t u :
  StronglySorted Z.lt l → last l = Some t → t < u → StronglySorted Z.lt (l ++ [u]).
Proof.
  induction 1 as [|x l Hs IH Hx]; intros Hlast Htu; [done|]. cbn [app].
  destruct l as [|y l].
  - injection Hlast as ->. by repeat constructor.
  - constructor; [by apply IH|]. apply Forall_app. split; [done|]. apply Forall_singleton.
    rewrite last_cons_cons in Hlast. apply last_Some_elem_of in Hlast.
    rewrite Forall_forall in Hx. specialize (Hx t Hlast). lia.
Qed.

Lemma log_inv_io groups ts s e : log_inv groups ts s → log_inv groups ts (s <| io := e |>).
Proof. done. Qed.

Lemma log_inv_rolled groups ts s f t e :
  log_inv groups ts s → file_ (lf s) = Some f → 0 < t < kMaxSecond → lastRoll_ (lf s) < t →
  log_inv (groups ++ [[]]) (ts ++ [t]) (rolled s [flushed f] t e).
Proof.
  intros (f'&Hf&Hc&Htext&Hname&Hs&Hl&Hr&Hfl) Hf' Ht Hlt. rewrite Hf in Hf'. injection Hf' as ->.
  exists (new_file s t). cbn [closed rolled lf lf_basename lastRoll_ count_ file_ upd].
  destruct Hc. split_and!; try done.
  - rewrite map_app in *. rewrite !map_app, <- Htext. done.
  - rewrite map_app in *. rewrite !map_app, <- Hname. done.
  - by eapply StronglySorted_snoc.
  - by rewrite last_snoc.
  - apply Forall_app. split; [done|]. by apply Forall_singleton.
  - apply Forall_app. split; [done|]. by apply Forall_singleton.
Qed.

(** Adding the text of a line to the last group. *)
Definition add_line (groups : list (list (list char))) (line : list char) : list (list (list char)) :=
  match last groups with
  | Some g => removelast groups ++ [g ++ [line]]
  | None => [[line]]
  end.

Lemma concat_add_line groups line : concat (add_line groups line) = concat groups ++ [line].
Proof.
  unfold add_line. destruct groups as [|g groups _] using rev_ind; [done|].
  rewrite last_snoc, removelast_last, !concat_app. cbn. by rewrite !app_nil_r, app_assoc.
Qed.

Lemma map_concat_add_line (groups : list (list (list char))) line (texts : list (list char)) t :
  texts ++ [t] = map (@concat char) groups →
  texts ++ [t ++ line] = map (@concat char) (add_line groups line).
Proof.
  unfold add_line. destruct groups as [|g groups _] using rev_ind; [by destruct texts|].
  rewrite last_snoc, removelast_last, !map_app. cbn. intros [-> ->]%app_inj_tail.
  rewrite concat_app. cbn. by rewrite app_nil_r.
Qed.

Lemma log_inv_append groups ts s f line e b :
  log_inv groups ts s → file_ (lf s) = Some f →
  log_inv (add_line groups line) ts (at_file s ((add_text f line) <| writtenBytes_ := b |>) e).
Proof.
  intros (f'&Hf&Hc&Htext&Hname&Hs&Hl&Hr&Hfl) Hf'. rewrite Hf in Hf'. injection Hf' as ->.
  exists ((add_text f line) <| writtenBytes_ := b |>).
  cbn [closed at_file lf lf_basename lastRoll_ count_ file_ upd]. destruct Hc.
  rewrite !map_app in *. split_and!; try done. by apply map_concat_add_line.
Qed.

(** One call: the line goes to the current file, then perhaps a new one is opened. *)
Definition appended (groups : list (list (list char))) (ts : list Z) (line : list char) s : Prop :=
  log_inv (add_line groups line) ts s ∨
  ∃ t, log_inv (add_line groups line ++ [[]]) (ts ++ [t]) s.

Lemma wp_roll_appended groups ts line s (Q : unit → LogWorld → Prop) :
  log_inv (add_line groups line) ts s →
  (∀ s', appended groups ts line s' → setup s' = setup s → Q tt s') → wp rollFile Q s.
Proof.
  intros Hinv HQ. pose proof Hinv as (f&Hf&_). apply wp_rollFile.
  - intros e' _. apply HQ; [left; by apply log_inv_io|done].
  - intros t e' _ Ht Hlt. rewrite Hf. apply HQ; [|done]. right. exists t. by apply log_inv_rolled.
Qed.

(** An update of the counters and times. *)
Lemma log_inv_lf groups ts s g :
  log_inv groups ts s →
  file_ (g (lf s)) = file_ (lf s) →
  0 ≤ count_ (g (lf s)) ≤ kCheckTimeRoll_ + 1 → lf_basename (g (lf s)) = lf_basename (lf s) →
  lastRoll_ (g (lf s)) = lastRoll_ (lf s) →
  log_inv groups ts (s <| lf ::= g |>).
Proof.
  intros (f&Hf&Hc&Htext&Hname&Hs&Hl&Hr&Hfl) Ef Ec Eb El. exists f. destruct Ec.
  cbn [closed lf upd]. rewrite Eb, El, Ef. by split_and!.
Qed.

Lemma wp_File_flush groups ts s (Q : unit → LogWorld → Prop) :
  log_inv groups ts s →
  (∀ s', log_inv groups ts s' → setup s' = setup s → Q tt s') → wp File_flush Q s.
Proof.
  intros Hinv HQ. pose proof Hinv as (f&Hf&Hc&Hrest). unfold File_flush.
  rewrite (at_file_self s f Hf). wp_step. apply wp_the_file. wp_step. apply wp_call_io. intros e' _.
  apply (wp_upd_file s f e'). apply HQ; [|done]. exists (flushed f).
  cbn [closed at_file lf lf_basename lastRoll_ count_ file_ upd]. rewrite !map_app in *.
  split; [done|]. split; [done|]. exact Hrest.
Qed.

Lemma wp_append_unlocked groups ts line s (Q : unit → LogWorld → Prop) :
  log_inv groups ts s → zlen line < 2 ^ 64 →
  (∀ s', appended groups ts line s' → setup s' = setup s → Q tt s') →
  wp (append_unlocked line) Q s.
Proof.
  intros Hinv H64 HQ. pose proof Hinv as (f&Hf&_). unfold append_unlocked. wp_step.
  rewrite (at_file_self s f Hf). apply wp_File_append; [done|]. intros n e' _ Hn. rewrite Hn by done.
  rewrite zslice_all. wp_step. apply wp_the_file. wp_step.
  set (b := wrapu 64 _). set (f' := (add_text f line) <| writtenBytes_ := b |>).
  pose proof (log_inv_append groups ts s f line e' b Hinv Hf) as Hinv'. fold f' in Hinv'.
  cbn [lf at_file rollSize_ count_ upd].
  destruct (rollSize_ (lf s) <? writtenBytes_ f'); [by eapply wp_roll_appended|].
  destruct (kCheckTimeRoll_ <? count_ (lf s)) eqn:Ec; unfold upd_lf; wp_step.
  - apply wp_call_io. intros e'' _. wp_step.
    assert (log_inv (add_line groups line) ts ((at_file s f' e') <| lf ::= λ l, l <| count_ := 0 |> |>
       <| io := e'' |>)) as Hinv''.
    { apply log_inv_io, log_inv_lf; try done. }
    case_match; [by eapply wp_roll_appended|]. case_match; [|apply HQ; [by left|done]].
    eapply (wp_File_flush (add_line groups line) ts); [|intros s' Hs' Em; by apply HQ; [left|]].
    apply log_inv_lf; done.
  - apply HQ; [left|done]. apply log_inv_lf; try done.
    destruct Hinv' as (?&?&Hc&_). cbn in Hc |- *. lia.
Qed.

(** ** The life of a log *)

Lemma wp_LogFile_append groups ts line s (Q : unit → LogWorld → Prop) :
  log_inv groups ts s → mutex_ (lf s) ≠ Some true → zlen line < 2 ^ 31 →
  (∀ s', appended groups ts line s' → setup s' = setup s → Q tt s') →
  wp (LogFile_append line (zlen line)) Q s.
Proof.
  intros Hinv Hm H31 HQ. pose proof (zlen_nonneg line). unfold LogFile_append, guarded_by_mutex. wp_step.
  destruct (mutex_ (lf s)) as [[]|] eqn:Em; [done| |]; unfold upd_lf; wp_step;
    (eapply wp_of_option; [apply zread_Some; rewrite wrapu_small by lia; lia|]);
    rewrite wrapu_small, zslice_all by lia.
  - eapply (wp_append_unlocked groups ts); [|lia|].
    + apply log_inv_lf; try done. by destruct Hinv as (?&?&?&_).
    + intros s' Hs' Es'. wp_step. apply HQ.
      * destruct Hs' as [Hs'|[t Hs']]; [left|right; exists t]; (apply log_inv_lf; try done);
          by destruct Hs' as (?&?&?&_).
      * unfold setup in *. cbn [lf upd lf_basename rollSize_ flushInterval_ mutex_] in *. congruence.
  - eapply (wp_append_unlocked groups ts); [done|lia|done].
Qed.

Lemma wp_LogFile_ctor basename rollSize threadSafe flushInterval s (Q : unit → LogWorld → Prop) :
  "/"%char ∉ basename → closed s = [] →
  (∀ s' t, log_inv [[]] [t] s' → mutex_ (lf s') ≠ Some true → lf_basename (lf s') = basename → Q tt s') →
  wp (LogFile_ctor basename rollSize threadSafe flushInterval) Q s.
Proof.
  intros Hbase Hcl HQ. unfold LogFile_ctor. wp_step. apply wp_assert; [by apply bool_decide_eq_true|].
  apply wp_rollFile; cbn [lf upd lastRoll_ file_ io].
  { intros e Ht. pose proof (time_range (io s)). lia. }
  intros t e _ Ht Hlt.
  apply (HQ _ t); [|by destruct threadSafe|done]. eexists. split; [done|].
  cbn [rolled closed lf upd count_ lf_basename lastRoll_]. rewrite Hcl.
  split; [done|]. split_and!; [done..|by repeat constructor|done|by apply Forall_singleton|done].
Qed.

Lemma wp_LogFile_dtor groups ts s (Q : unit → LogWorld → Prop) :
  log_inv groups ts s →
  (∀ s', map f_text (closed s') = map (@concat char) groups →
     map f_name (closed s') = map (λ t, log_name (lf_basename (lf s)) t getpid) ts →
     Forall (λ f, f_flushed f = zlen (f_text f)) (closed s') → Q tt s') →
  wp LogFile_dtor Q s.
Proof.
  intros (f&Hf&Hc&Htext&Hname&Hs&Hl&Hr&Hfl) HQ. unfold LogFile_dtor, upd_lf, File_dtor. wp_step.
  rewrite Hf. wp_step. apply HQ; cbn [closed upd]; [by rewrite map_app in *..|].
  apply Forall_app. split; [done|]. by apply Forall_singleton.
Qed.

Lemma appended_groups groups ts line s :
  appended groups ts line s → ∃ groups' ts', log_inv groups' ts' s ∧ concat groups' = concat groups ++ [line].
Proof.
  intros [Hs|[t Hs]]; (eexists _, _; split; [exact Hs|]).
  - apply concat_add_line.
  - rewrite concat_app, concat_add_line. cbn. by rewrite app_nil_r.
Qed.

Lemma wp_appends lines s groups ts (Q : unit → LogWorld → Prop) :
  log_inv groups ts s → mutex_ (lf s) ≠ Some true → Forall (λ l, zlen l < 2 ^ 31) lines →
  (∀ s' groups' ts', log_inv groups' ts' s' → concat groups' = concat groups ++ lines →
     lf_basename (lf s') = lf_basename (lf s) → Q tt s') →
  wp (iterM (λ l, LogFile_append l (zlen l)) lines) Q s.
Proof.
  intros Hinv Hm Hlines. revert s groups ts Hinv Hm. induction Hlines as [|line lines Hl _ IH];
    intros s groups ts Hinv Hm HQ; cbn [iterM]; wp_step.
  { eapply HQ; [done| |done]. by rewrite app_nil_r. }
  eapply wp_LogFile_append; [done..|]. intros s' Hs' Es'.
  injection Es' as Eb _ _ Em. apply appended_groups in Hs' as (groups'&ts'&Hs'&Eg).
  eapply IH; [done|congruence|]. intros s'' g'' t'' Hs'' Eg'' Eb''.
  eapply HQ; [done| |congruence]. by rewrite Eg'', Eg, <- app_assoc.
Qed.

(** ** The size of the files *)

(** A clock that never goes back, whatever is called. *)
Class MonotoneClock := {
  time_now_mono e : (time_now e).1 ≤ (time_now (time_now e).2).1;
  fwrite_mono name bytes e : (time_now e).1 ≤ (time_now (fwrite name bytes e).2).1;
}.
Context `{!MonotoneClock}.

Definition later s s' : Prop := (time_now (io s)).1 ≤ (time_now (io s')).1.
#[export] Instance later_preorder : PreOrder later.
Proof. split; [by intros ?; red|]. unfold later. intros ???. lia. Qed.

Lemma later_call_io {A} (c : E → A * E) :
  (∀ e, (time_now e).1 ≤ (time_now (c e).2).1) → preserves later (call_io c).
Proof.
  intros Hc s a s'. unfold call_io. specialize (Hc (io s)). destruct (c (io s)). by intros [= _ <-].
Qed.
Lemma later_lf g : preserves later (upd_lf g).
Proof. apply preserves_modify. intros s. red. by cbn. Qed.

Lemma later_File_append line : preserves later (File_append line).
Proof.
  assert (∀ l, preserves later (File_write l)) as Hw.
  { intros l. unfold File_write, upd_file, the_file. preserve; [|apply later_lf].
    apply later_call_io. intros e. apply fwrite_mono. }
  assert (∀ fuel n r, preserves later (append_loop fuel line n r)) as Hloop.
  { intros fuel. induction fuel as [|fuel IH]; intros n r; cbn [append_loop]; [apply preserves_fails|].
    repeat (apply Hw || apply IH || preserve_step). }
  unfold File_append, upd_file, the_file. repeat (apply Hw || apply Hloop || apply later_lf || preserve_step).
Qed.

Definition within_limit s : Prop :=
  ∀ f, file_ (lf s) = Some f → writtenBytes_ f ≤ rollSize_ (lf s).

Lemma within_limit_roll s (Q : unit → LogWorld → Prop) :
  0 ≤ rollSize_ (lf s) →
  (within_limit s ∨ lastRoll_ (lf s) < (time_now (io s)).1) →
  (∀ s', within_limit s' → Q tt s') → wp rollFile Q s.
Proof.
  intros Hroll Hs HQ. apply wp_rollFile.
  - intros e' Hle. apply HQ. destruct Hs as [Hs|Hs]; [exact Hs|lia].
  - intros t e' _ _ _. apply HQ. by intros f [= <-].
Qed.

Lemma wp_append_size line s f (Q : unit → LogWorld → Prop) :
  file_ (lf s) = Some f → zlen line < 2 ^ 64 → 0 ≤ rollSize_ (lf s) →
  lastRoll_ (lf s) < (time_now (io s)).1 →
  (∀ s', within_limit s' → Q tt s') → wp (append_unlocked line) Q s.
Proof.
  intros Hf H64 Hroll Hlast HQ. unfold append_unlocked. wp_step.
  eapply (wp_preserves later); [apply later_File_append|].
  rewrite (at_file_self s f Hf). apply wp_File_append; [done|]. intros n e' _ _ Hlater.
  unfold later in Hlater. cbn [io at_file] in Hlater. wp_step. apply wp_the_file. wp_step.
  set (f' := (add_text f _) <| writtenBytes_ := _ |>). cbn [lf at_file rollSize_ count_ upd].
  destruct (Z.ltb_spec (rollSize_ (lf s)) (writtenBytes_ f')) as [Hbig|Hsmall].
  { apply within_limit_roll; [done| |done]. right. cbn [lf at_file lastRoll_ io upd]. lia. }
  assert (within_limit (at_file s f' e')) as Hw by (by intros ? [= <-]).
  unfold upd_lf. case_match; wp_step; [|by apply HQ]. apply wp_call_io. intros e'' _. wp_step.
  case_match; [apply within_limit_roll; [done|by left|done]|]. case_match; [|by apply HQ].
  unfold File_flush, the_file. wp_step. eapply wp_of_option; [done|]. wp_step.
  apply wp_call_io. intros e3 _. unfold upd_file, the_file, upd_lf. wp_step. eapply wp_of_option; [done|].
  wp_step. apply HQ. intros ? [= <-]. by apply (Hw f').
Qed.

End LogFile.

(** ** File names *)

Lemma length_stamp t : 0 ≤ t < kMaxSecond → length (format_stamp (gmtime_r t)) = 16%nat.
Proof.
  intros Ht. destruct (gmtime_r_fields t Ht) as (Hy&?&?&?&?&?). unfold format_stamp.
  repeat (rewrite length_app || cbn [length]). rewrite (length_year _ Hy).
  by rewrite !(length_fmt_0wd_exact 2) by (first [lia|done]).
Qed.

Lemma format_stamp_inj t u :
  0 ≤ t < kMaxSecond → 0 ≤ u < kMaxSecond →
  format_stamp (gmtime_r t) = format_stamp (gmtime_r u) → t = u.
Proof.
  intros Ht Hu. destruct (gmtime_r_fields t Ht) as (Hy&Hm&Hd&Hh&Hi&Hs).
  destruct (gmtime_r_fields u Hu) as (Hy'&Hm'&Hd'&Hh'&Hi'&Hs'). unfold format_stamp. intros E.
  apply gmtime_r_inj. remember (gmtime_r t) as r eqn:Er. remember (gmtime_r u) as r' eqn:Er'. clear Er Er'.
  injection E as E. apply app_inj_1 in E as [Ey E]; [|by rewrite !length_year].
  apply app_inj_1 in E as [Em E]; [|by rewrite !(length_fmt_0wd_exact 2) by (first [lia|done])].
  apply app_inj_1 in E as [Ed E]; [|by rewrite !(length_fmt_0wd_exact 2) by (first [lia|done])].
  injection E as E. apply app_inj_1 in E as [Eh E]; [|by rewrite !(length_fmt_0wd_exact 2) by (first [lia|done])].
  apply app_inj_1 in E as [Ei Es]; [|by rewrite !(length_fmt_0wd_exact 2) by (first [lia|done])].
  apply (inj fmt_d) in Ey. apply fmt_0wd_inj in Em, Ed, Eh, Ei, Es; try lia.
  destruct r, r'. cbn in *. f_equal; lia.
Qed.

Lemma log_name_inj basename pid t u :
  0 ≤ t < kMaxSecond → 0 ≤ u < kMaxSecond → log_name basename t pid = log_name basename u pid → t = u.
Proof.
  intros Ht Hu. unfold log_name. pose proof (length_stamp t Ht). pose proof (length_stamp u Hu).
  rewrite !(snprintf_fits 32 (format_stamp _)) by (unfold zlen; lia). cbn [fst].
  intros E%app_inv_head. apply app_inj_1 in E as [E _]; [|congruence]. by apply format_stamp_inj.
Qed.

Lemma log_names_distinct basename pid (ts : list Z) :
  StronglySorted Z.lt ts → Forall (λ t, 0 < t < kMaxSecond) ts →
  NoDup (map (λ t, log_name basename t pid) ts).
Proof.
  intros Hs Hr. assert (NoDup ts) as Hnd.
  { induction Hs as [|t ts Hs IH Ht]; constructor; [|apply IH; by inversion Hr].
    intros Hin. rewrite Forall_forall in Ht. specialize (Ht _ Hin). lia. }
  clear Hs. induction Hnd as [|t ts Hin Hnd IH]; cbn [map]; constructor.
  - intros (u&Eu&Hu)%list_elem_of_fmap. apply Hin. inversion Hr as [|? ? Ht Hr']; subst.
    rewrite Forall_forall in Hr'. specialize (Hr' u Hu). apply log_name_inj in Eu; [by subst|lia|lia].
  - apply IH. by inversion Hr.
Qed.

Section LogLife.
Context {E : Type} `{!Stdio E, !StdioLaws E, !GoodDisk E, !SaneClock}.

(** Files that hold the lines: each file holds the lines of a group, all of it
    passed on to the system; the files are named after increasing times, and
    no two have the same name. *)
Definition hold_lines (basename : list char) (lines : list (list char)) (fs : list File) : Prop :=
  ∃ groups ts,
    concat groups = lines ∧
    map f_text fs = map (@concat char) groups ∧
    map f_name fs = map (λ t, log_name basename t getpid) ts ∧
    StronglySorted Z.lt ts ∧ NoDup (map f_name fs) ∧
    Forall (λ f, f_flushed f = zlen (f_text f)) fs.

(** C10: on a disk without errors, a log from its construction to its
    destruction loses nothing, whatever portions [fwrite] accepts: the files
    together hold the lines in the order they were appended, no line is split
    between files, everything reaches the files, and no two files have the
    same name. *)
Theorem log_keeps_lines (basename : list char) (rollSize : Z) (threadSafe : bool)
  (flushInterval : Z) (lines : list (list char)) (s0 : LogWorld (E := E))
  (Hbase : "/"%char ∉ basename) (Hclosed : closed s0 = [])
  (Hlines : Forall (λ l, zlen l < 2 ^ 31) lines) :
  ∃ s,
    (LogFile_ctor basename rollSize threadSafe flushInterval;;
     iterM (λ l, LogFile_append l (zlen l)) lines;;
     LogFile_dtor) s0 = Ret tt s ∧
    hold_lines basename lines (closed s).
Proof.
  cut (wp (LogFile_ctor basename rollSize threadSafe flushInterval;;
     iterM (λ l, LogFile_append l (zlen l)) lines;; LogFile_dtor)
     (λ _ s, hold_lines basename lines (closed s)) s0).
  { intros Hwp. apply wp_run in Hwp as ([]&s'&?&?). by exists s'. }
  wp_step. eapply wp_LogFile_ctor; [done..|]. intros s t Hs Hm Eb. wp_step.
  eapply wp_appends; [done..|]. intros s' groups ts Hs' Eg Eb'. wp_step.
  pose proof Hs' as (f&_&_&_&_&Hsort&_&Hr&_).
  eapply wp_LogFile_dtor; [done|]. intros s'' Htext Hname Hfl. rewrite Eb', Eb in Hname.
  exists groups, ts. rewrite Hname. split_and!; try done. by apply log_names_distinct.
Qed.
End LogLife.

(** ** Concrete instances *)

Module LogFileDemo.
(** A clock that ticks at every reading, and a disk that accepts at most five
    bytes at a time. *)
#[export] Instance demo_stdio : Stdio nat := {|
  time_now e := (1709210096 + Z.of_nat (Nat.min e 1000), S e);
  getpid := 4242;
  fopen _ e := (true, e);
  fwrite _ bytes e := (Z.min 5 (zlen bytes), e);
  fflush _ e := e;
|}.
#[export] Instance demo_laws : StdioLaws nat.
Proof. intros name bytes e. pose proof (zlen_nonneg bytes). cbn. lia. Qed.
#[export] Instance demo_disk : GoodDisk nat.
Proof.
  constructor; [done|]. intros name bytes e Hne. cbn. destruct bytes; [done|]. unfold zlen. cbn. lia.
Qed.
#[export] Instance demo_clock : SaneClock.
Proof. intros e. unfold kMaxSecond. cbn [time_now demo_stdio fst]. lia. Qed.
#[export] Instance demo_mono : MonotoneClock.
Proof. constructor; intros; cbn [time_now fwrite demo_stdio fst snd]; lia. Qed.

Definition nobody : LogWorld (E := nat) := mkLogWorld (mkLogFile [] 0 0 0 None 0 0 0 None) [] O.
Definition three_lines : list (list char) := [str "one line"; str "another line"; str "the last"].
End LogFileDemo.
Import LogFileDemo.

Lemma log_keeps_lines_witness :
  ∃ s, (LogFile_ctor (str "web") 10 true 3;; iterM (λ l, LogFile_append l (zlen l)) LogFileDemo.three_lines;;
        LogFile_dtor) LogFileDemo.nobody = Ret tt s ∧
    hold_lines (str "web") LogFileDemo.three_lines (closed s).
Proof.
  apply (log_keeps_lines (str "web") 10 true 3 LogFileDemo.three_lines LogFileDemo.nobody).
  - apply (bool_decide_eq_true_1 _). reflexivity.
  - reflexivity.
  - repeat (apply Forall_cons; split; [by_computation|]). constructor.
Defined.

(** The files of that run: the first was closed when it exceeded ten bytes. *)
Example log_files :
  match (LogFile_ctor (str "web") 10 true 3;; iterM (λ l, LogFile_append l (zlen l)) LogFileDemo.three_lines;;
         LogFile_dtor) LogFileDemo.nobody with
  | Ret _ s => map (λ f, (f_name f, f_text f)) (closed s)
  | Crash _ => []
  end = [(str "web.20240229-123456.4242.log", str "one lineanother line");
         (str "web.20240229-123457.4242.log", str "the last")].
Proof. vm_compute. reflexivity. Qed.

