(* ===== verification/LogFileTest.v ===== *)
(** * LogFileTest

    [logging/LogFile_test.cc]: the logger and the log file put together. The
    program installs the log file as the output of the logger and logs a line
    over and over; the files hold every line, whole and in order. *)
From S2P Require Import Prelude Printf Calendar Timestamp LoggingStream Logging LogFile.
Local Open Scope Z_scope.

Section LogFileTest.
Context {E : Type} `{!Stdio E}.

Record LogTest := mkLogTest { logger : LogState; g_logFile : LogWorld (E := E) }.
#[export] Instance eta_LogTest : Eta LogTest := λ s, mkLogTest (logger s) (g_logFile s).

Definition on_file (m : M (LogWorld (E := E)) unit) : M LogTest unit :=
  zoom g_logFile (λ f s, s <| g_logFile := f |>) m.

Definition outputFunc (msg : list char) (len : Z) : M LogTest unit := on_file (LogFile_append msg len).
Definition flushFunc : M LogTest unit := on_file LogFile_flush.

(** The logger's calls of the functions installed; what goes to standard
    output is not followed further. *)
Definition call_output (o : OutputFunc * list char) : M LogTest unit :=
  match o.1 with
  | defaultOutput => mret tt
  | UserOutput _ => outputFunc o.2 (wraps 32 (zlen o.2))
  end.
Definition call_flush (f : FlushFunc) : M LogTest unit :=
  match f with defaultFlush => mret tt | UserFlush _ => flushFunc end.

(** A statement, with the calls its destructor makes. *)
Definition logging (m : M LogState unit) : M LogTest unit :=
  s ← get;
  zoom logger (λ l s, s <| logger := l |>) m;;
  s' ← get;
  iterM call_output (drop (length (lines_out (logger s))) (lines_out (logger s')));;
  iterM call_flush (drop (length (flushes (logger s))) (flushes (logger s'))).

(** What a statement reads when it runs: the bytes on the stack where its
    buffer will be, and the time. *)
Record reading := mkReading { r_stack : list char; r_now : Timestamp }.

Definition test_line : list char := str "1234567890 abcdefghijklmnopqrstuvwxyz ABCDEFGHIJKLMNOPQRSTUVWXYZ".

(** [main], for the iterations whose [readings] are given; [file] is
    [__FILE__]. At the end the global pointer deletes the log file. *)
Definition main (file argv0 : list char) (tid : Z) (readings : list reading) : M LogTest unit :=
  name ← of_option "name is not terminated" (if zlen argv0 <? 256 then Some argv0 else None);
  on_file (LogFile_ctor (basename name) (256 * 1024) false 3);;
  zoom logger (λ l s, s <| logger := l |>) (setOutput (UserOutput 0));;
  zoom logger (λ l s, s <| logger := l |>) (setFlush (UserFlush 0));;
  iterM (λ r, logging (LOG_INFO (r_stack r) (r_now r) tid [] file 28 [IString test_line])) readings;;
  on_file LogFile_dtor.
End LogFileTest.
Arguments LogTest E : clear implicits.

(** ** What a line says when everything fits *)

Lemma put_all size items : ∀ text,
  zlen text + zlen (concat (map render items)) + kMaxNumericSize ≤ size →
  foldl (put_spec size) text items = text ++ concat (map render items).
Proof.
  induction items as [|i items IH]; intros text Hsize; cbn [foldl map concat] in *; [by rewrite app_nil_r|].
  rewrite zlen_app in Hsize. pose proof (zlen_nonneg (render i)). pose proof (zlen_nonneg (concat (map render items))).
  unfold put_spec at 2. unfold kMaxNumericSize in Hsize.
  assert (fits i (size - zlen text) = true) as ->.
  { destruct i; cbn [fits]; unfold kMaxNumericSize; (apply Z.leb_le || apply Z.ltb_lt); lia. }
  rewrite IH; [by rewrite <- app_assoc|]. rewrite zlen_app. unfold kMaxNumericSize. lia.
Qed.

(** The line of a statement: date and time, thread, level, text, file. *)
Definition info_line (now_ : Timestamp) (tid : Z) (file text : list char) (line : Z) : list char :=
  format_date (gmtime_r (now_ / 1000000)) ++ format_us (now_ mod 1000000) ++ format_tid tid ++
  LogLevelname INFO ++ text ++ "-"%char :: basename file ++ ":"%char :: fmt_d line ++ [newline].

Lemma zlen_info_line now_ tid file :
  1000000 ≤ now_ < kMaxSecond * 1000000 → 0 ≤ tid < 10 ^ 6 →
  zlen (info_line now_ tid file test_line 28) = 116 + zlen (basename file).
Proof.
  intros Hnow Htid. unfold info_line.
  assert (zlen (format_date (gmtime_r (now_ / 1000000))) = 20) as Hd.
  { apply zlen_format_date. unfold kMaxSecond, Timestamp in *. Z.to_euclidean_division_equations; lia. }
  assert (zlen (format_us (now_ mod 1000000)) = 10) as Hu by by apply zlen_format_us, Z.mod_pos_bound.
  assert (zlen (format_tid tid) = 9) as Ht.
  { rewrite zlen_format_tid by lia. pose proof (length_fmt_d tid 6). unfold zlen in *. lia. }
  rewrite !zlen_app, Hd, Hu, Ht. change (zlen (LogLevelname INFO)) with 8. change (zlen test_line) with 64.
  change (fmt_d 28) with (str "28"). unfold zlen in *. repeat (rewrite length_app || cbn [length]).
  change (length (str "28")) with 2%nat. lia.
Qed.

Lemma line_text_whole stack now_ tid file :
  zlen stack = kMinBufferSize → 1000000 ≤ now_ < kMaxSecond * 1000000 → 0 ≤ tid < 10 ^ 6 →
  zlen (basename file) ≤ 3000 →
  line_text stack now_ tid [] INFO 0 file 28 [IString test_line] = info_line now_ tid file test_line 28.
Proof.
  intros Hstack Hnow Htid Hfile. unfold line_text. rewrite Hstack.
  assert (concat (map render (header now_ tid [] INFO 0 ++ [IString test_line] ++ trailer file 28)) =
    info_line now_ tid file test_line 28) as E by done.
  rewrite put_all, E; [done|]. rewrite E, zlen_info_line by done. unfold kMinBufferSize, kMaxNumericSize.
  change (zlen []) with 0. lia.
Qed.

(** The name of a file has no slash. *)
Lemma basename_no_slash (fullname : list char) : "/"%char ∉ basename fullname.
Proof.
  unfold basename.
  assert (∀ s b pre, b = pre ++ s → "/"%char ∉ pre →
    "/"%char ∉ (fix go (s b : list char) : list char :=
       match s with
       | [] => b
       | c :: s' => go s' (if ascii_dec c "/"%char then s' else b)
       end) s b) as Hgo; [|by apply (Hgo fullname fullname []); [done|apply not_elem_of_nil]].
  induction s as [|c s IH]; intros b pre -> Hpre; [by rewrite app_nil_r|].
  destruct (ascii_dec c "/"%char) as [->|Hc].
  - apply (IH s []); [done|apply not_elem_of_nil].
  - apply (IH _ (pre ++ [c])); [by rewrite <- app_assoc|]. rewrite elem_of_app, list_elem_of_singleton. intros [?|E]; [done|by apply Hc].
Qed.

(** ** The program *)

Section Run.
Context {E : Type} `{!Stdio E, !StdioLaws E, !GoodDisk E, !SaneClock}.
Context (file : list char) (tid : Z) (Hfile : zlen (basename file) ≤ 3000) (Htid : 0 ≤ tid < 10 ^ 6).
Implicit Types (s : LogTest E).

Definition reading_ok (r : reading) : Prop :=
  zlen (r_stack r) = kMinBufferSize ∧ 1000000 ≤ r_now r < kMaxSecond * 1000000.
Definition the_line (r : reading) : list char := info_line (r_now r) tid file test_line 28.

(** The logger writes to the log file named after [base], which holds [lines]. *)
Record logs_to (base : list char) (lines : list (list char)) s : Prop := {
  lt_cache : cache_ok (logger s);
  lt_level : level_num (g_logLevel (logger s)) <= 2;
  lt_output : g_output (logger s) = UserOutput 0;
  lt_mutex : mutex_ (lf (g_logFile s)) ≠ Some true;
  lt_base : lf_basename (lf (g_logFile s)) = base;
  lt_lines : ∃ groups ts, log_inv groups ts (g_logFile s) ∧ concat groups = lines;
}.

Lemma zlen_the_line r : reading_ok r → zlen (the_line r) < 2 ^ 31.
Proof. intros [Hstack Hnow]. unfold the_line. rewrite zlen_info_line by done. lia. Qed.

Lemma wp_outputFunc base lines line s (Q : unit → LogTest E → Prop) :
  logs_to base lines s → zlen line < 2 ^ 31 →
  (∀ s', logs_to base (lines ++ [line]) s' → Q tt s') → wp (outputFunc line (wraps 32 (zlen line))) Q s.
Proof.
  intros [Hc Hl Ho Hm Hb (groups&ts&Hinv&Hg)] Hline HQ. unfold outputFunc, on_file. pose proof (zlen_nonneg line).
  rewrite wraps_small by lia. wp_step. eapply wp_LogFile_append; [done..|]. intros f Hf Ef.
  injection Ef as Eb _ _ Em. apply HQ. apply appended_groups in Hf as (groups'&ts'&Hinv'&Hg').
  split; cbn; [done..|congruence|congruence|]. exists groups', ts'. split; [done|]. by rewrite Hg', Hg.
Qed.

Lemma wp_logging base lines r s (Q : unit → LogTest E → Prop) :
  reading_ok r → logs_to base lines s →
  (∀ s', logs_to base (lines ++ [the_line r]) s' → Q tt s') →
  wp (logging (LOG_INFO (r_stack r) (r_now r) tid [] file 28 [IString test_line])) Q s.
Proof.
  intros Hr Hs HQ. pose proof Hr as [Hstack Hnow]. unfold logging. wp_step.
  destruct (log_statement_run (r_stack r) (r_now r) tid [] Hnow (proj1 Htid) INFO 0 file 28 [] [IString test_line] (logger s))
    as (l&Hrun&Hout&Hfl&_&Hcache&Eset); try done.
  { lia. } { intros Enil. by rewrite Enil in Hstack. } { apply Hs. } { lia. }
  { by apply Forall_singleton. }
  unfold settings in Eset. injection Eset as El Eo Ef.
  assert (LOG_INFO (r_stack r) (r_now r) tid [] file 28 [IString test_line] (logger s) = Ret tt l) as Hinfo.
  { unfold LOG_INFO, guarded, logLevel. rewrite (bind_Ret (gets g_logLevel) _ _ (g_logLevel (logger s)) (logger s)) by done.
    rewrite (proj2 (Z.leb_le _ (level_num INFO)) (lt_level _ _ _ Hs)). exact Hrun. }
  eapply wp_exec; [exact Hinfo|]. wp_step. cbn [logger upd].
  rewrite Hout, Hfl, bool_decide_false, app_nil_r, drop_app_length, drop_all by done.
  cbn [app iterM]. unfold call_output. cbn [fst snd]. rewrite (lt_output _ _ _ Hs).
  rewrite (line_text_whole (r_stack r) (r_now r) tid file) by done. wp_step.
  eapply (wp_outputFunc base lines); [|by apply zlen_the_line|].
  - destruct Hs as [? ? ? ? ? ?]. split; cbn; [done|by rewrite El|by rewrite Eo|done..].
  - intros s' Hs'. wp_step. by apply HQ.
Qed.

Lemma wp_loggings base readings : ∀ lines s (Q : unit → LogTest E → Prop),
  Forall reading_ok readings → logs_to base lines s →
  (∀ s', logs_to base (lines ++ map the_line readings) s' → Q tt s') →
  wp (iterM (λ r, logging (LOG_INFO (r_stack r) (r_now r) tid [] file 28 [IString test_line])) readings) Q s.
Proof.
  induction readings as [|r readings IH]; intros lines s Q Hr Hs HQ; cbn [iterM map] in *; wp_step.
  { apply HQ. by rewrite app_nil_r. }
  apply Forall_cons in Hr as [Hr Hrs]. eapply wp_logging; [done..|]. intros s1 Hs1.
  eapply IH; [done..|]. intros s2 Hs2. apply HQ. by rewrite <- app_assoc in Hs2.
Qed.

(** C11: the program that logs through the log file loses nothing. Whatever
    portions the disk accepts and whenever files are changed, it runs to its
    end, and then the files together hold, for every time round the loop, one
    whole line with date, time, thread, level, text, file and line number, in
    order; they are named after the program, no two alike, and all of their
    text has reached the system. *)
Theorem logged_lines_reach_files (argv0 : list char) (readings : list reading) (env_trace : bool)
  (files : LogWorld (E := E))
  (Hargv : zlen argv0 < 256) (Hr : Forall reading_ok readings) (Hclosed : closed files = []) :
  ∃ s, main file argv0 tid readings (mkLogTest (log_init env_trace) files) = Ret tt s ∧
    hold_lines (basename argv0) (map the_line readings) (closed (g_logFile s)).
Proof.
  cut (wp (main file argv0 tid readings) (λ _ s,
    hold_lines (basename argv0) (map the_line readings) (closed (g_logFile s)))
    (mkLogTest (log_init env_trace) files)).
  { intros Hwp. apply wp_run in Hwp as ([]&s&?&?). by exists s. }
  unfold main, on_file, setOutput, setFlush. wp_step.
  eapply wp_of_option; [by rewrite (proj2 (Z.ltb_lt _ _) Hargv)|]. wp_step.
  eapply wp_LogFile_ctor; [apply basename_no_slash|done|]. intros f t Hf Hm Hb. wp_step.
  eapply (wp_loggings (basename argv0) readings []); [done| |].
  - split; cbn; [by left|by destruct env_trace|done..|]. by exists [[]], [t].
  - intros s [_ _ _ _ Hbase (groups&ts&Hinv&Hg)]. wp_step.
    pose proof Hinv as (f'&_&_&_&_&Hsort&_&Hr'&_).
    eapply wp_LogFile_dtor; [done|]. intros f'' Htext Hname Hfl. rewrite Hbase in Hname. cbn.
    exists groups, ts. rewrite Hname. split_and!; try done. by apply log_names_distinct.
Qed.
End Run.

(** ** Concrete instances *)

Import LogFileDemo.

(** Two lines, a second apart, on a disk that accepts five bytes at a time. *)
Definition two_readings : list reading :=
  [mkReading LogDemo.stack 1709210096000042; mkReading LogDemo.stack 1709210097000043].

Lemma logged_lines_reach_files_witness :
  ∃ s, main (str "logging/LogFile_test.cc") (str "./LogFile_test") 4242 two_readings
      (mkLogTest (log_init false) LogFileDemo.nobody) = Ret tt s ∧
    hold_lines (str "LogFile_test")
      [str "[20240229] [12:34:56.000042Z] [  4242] [INFO ] 1234567890 abcdefghijklmnopqrstuvwxyz ABCDEFGHIJKLMNOPQRSTUVWXYZ-LogFile_test.cc:28" ++ [newline];
       str "[20240229] [12:34:57.000043Z] [  4242] [INFO ] 1234567890 abcdefghijklmnopqrstuvwxyz ABCDEFGHIJKLMNOPQRSTUVWXYZ-LogFile_test.cc:28" ++ [newline]]
      (closed (g_logFile s)).
Proof.
  apply (logged_lines_reach_files (str "logging/LogFile_test.cc") 4242 ltac:(by_computation)
    ltac:(by_computation) (str "./LogFile_test") two_readings false LogFileDemo.nobody).
  - by_computation.
  - repeat (apply Forall_cons; split; [split; [reflexivity|by_computation]|]). constructor.
  - reflexivity.
Defined.
