(* ===== verification/StreamTests.v ===== *)
(** * StreamTests

    [logging/LoggingStream_test.cc]: the test cases of the log stream (those on
    floating-point numbers excepted), and which of their checks hold. *)
From S2P Require Import Prelude Printf LoggingStream.
Local Open Scope Z_scope.

(** A test case writes items, resets the buffer and compares its text
    ([BOOST_CHECK_EQUAL], which goes on when the texts differ). *)
Inductive test_step := Put (i : item) | ResetBuffer | CheckEqual (expected : string).

Fixpoint run_test (steps : list test_step) : M FixedBuffer (list bool) :=
  match steps with
  | [] => mret []
  | Put i :: steps => put_item i;; run_test steps
  | ResetBuffer :: steps => modify fb_reset;; run_test steps
  | CheckEqual expected :: steps =>
      b ← get;
      text ← of_option "tostring" (tostring b);
      oks ← run_test steps;
      mret (bool_decide (text = str expected) :: oks)
  end.

Definition newline : char := "010"%char.

Definition TestLoggingStreamBooleans : list test_step :=
  [CheckEqual ""; Put (IBool true); CheckEqual "1"; Put (IChar newline);
   CheckEqual (String "1" (String newline "")); Put (IBool false);
   CheckEqual (String "1" (String newline "0"))].

Definition testLogStreamIntegers : list test_step :=
  [CheckEqual ""; Put (IInt 1); CheckEqual "1"; Put (IInt 0); CheckEqual "10"; Put (IInt (-1));
   CheckEqual "10-1"; ResetBuffer;
   Put (IInt 0); Put (IString (str " ")); Put (IInt 123); Put (IChar "x"); Put (IInt 100);
   CheckEqual "0 123x100"].

(** [std::numeric_limits] of the signed and unsigned types of [w] bits. *)
Definition smin (w : Z) : Z := - 2 ^ (w - 1).
Definition smax (w : Z) : Z := 2 ^ (w - 1) - 1.
Definition umax (w : Z) : Z := 2 ^ w - 1.

(** [limit v expected]: write, check, reset. *)
Definition limit (v : Z) (expected : string) : list test_step :=
  [Put (IInt v); CheckEqual expected; ResetBuffer].

Definition testLogStreamIntegerLimits : list test_step :=
  [Put (IInt (-2147483647)); CheckEqual "-2147483647";
   Put (IInt (-2147483648)); CheckEqual "-2147483647-2147483648"; Put (IChar " ");
   Put (IInt 2147483647); CheckEqual "-2147483647-2147483648 2147483647"; ResetBuffer] ++
  limit (smin 16) "-32768" ++ limit 0 "0" ++ limit (umax 16) "0" ++
  limit (smin 32) "-2147483648" ++ limit (smax 32) "2147483647" ++
  limit 0 "0" ++ limit (umax 32) "4294967295" ++
  limit (smin 64) "-9223372036854775808" ++ limit (smax 64) "9223372036854775807" ++
  limit 0 "0" ++ limit (umax 64) "18446744073709551615" ++
  [Put (IInt 0); Put (IInt 0); Put (IInt 0); CheckEqual "000"].

Definition testLogStreamVoid : list test_step :=
  [Put (IPointer 0); CheckEqual "0x0"; ResetBuffer; Put (IPointer 8888); CheckEqual "0x22b8"; ResetBuffer].

(** ** Which checks hold *)

(** What a test case should find by the specification of the stream, with a
    buffer of [size] bytes that holds [text]. *)
Fixpoint expected_results (size : Z) (text : list char) (steps : list test_step) : list bool :=
  match steps with
  | [] => []
  | Put i :: steps => expected_results size (put_spec size text i) steps
  | ResetBuffer :: steps => expected_results size [] steps
  | CheckEqual s :: steps => bool_decide (text = str s) :: expected_results size text steps
  end.

Definition step_ok (t : test_step) : Prop := match t with Put i => item_ok i | _ => True end.

Lemma holds_reset size text b : holds size text b → holds size [] (fb_reset b).
Proof.
  intros (rest&->&Hsize&Hne). exists (text ++ rest). split_and!; [done|by rewrite zlen_app|].
  by destruct text.
Qed.

(** A test finds what the specification of the stream says, whatever the array
    of the buffer holds at first. *)
Theorem tests_find (uninit : list char) (steps : list test_step) :
  zlen uninit = kMinBufferSize → Forall step_ok steps →
  ∃ b, run_test steps (LoggingStream_ctor uninit) = Ret (expected_results kMinBufferSize [] steps) b.
Proof.
  intros Hlen Hok.
  assert (holds kMinBufferSize [] (LoggingStream_ctor uninit)) as Hb.
  { rewrite <- Hlen. apply holds_ctor. by intros ->. }
  revert Hb. generalize (LoggingStream_ctor uninit) as b, ([] : list char) as text.
  induction Hok as [|t steps Ht Hok IH]; intros b text Hb; cbn [run_test expected_results]; [by eexists|].
  destruct t as [i| |s].
  - assert (wp (put_item i) (λ _ b', holds kMinBufferSize (put_spec kMinBufferSize text i) b') b) as Hwp.
    { by eapply wp_put_item. }
    apply wp_run in Hwp as ([]&b'&Hrun&Hb'). rewrite (bind_Ret _ _ _ _ _ Hrun). by apply IH.
  - rewrite bind_modify. by eapply IH, holds_reset.
  - destruct (IH b text Hb) as [b' Hrun]. exists b'.
    rewrite (bind_Ret get _ b b b) by done. rewrite (holds_tostring _ _ _ Hb).
    rewrite (bind_Ret _ _ b text b) by done. by rewrite (bind_Ret _ _ _ _ _ Hrun).
Qed.

(** The checks that hold. *)
Definition passed (steps : list test_step) : list bool := expected_results kMinBufferSize [] steps.

Example booleans_pass : passed TestLoggingStreamBooleans = replicate 4 true.
Proof. vm_compute. reflexivity. Qed.
Example integers_pass : passed testLogStreamIntegers = replicate 5 true.
Proof. vm_compute. reflexivity. Qed.
Example pointers_pass : passed testLogStreamVoid = replicate 2 true.
Proof. vm_compute. reflexivity. Qed.

(** One check does not: the largest [unsigned short] is not printed as 0. *)
Example limits_pass :
  passed testLogStreamIntegerLimits = replicate 5 true ++ [false] ++ replicate 9 true.
Proof. vm_compute. reflexivity. Qed.
