(* ===== verification/LookupTable.v ===== *)
(** * LookupTable

    [thread/threadsafe_lookup_table.cc]: a hash table whose buckets are locked
    one by one; here as a sequential program ([TableThreads.v] has its threads).
    [std::hash] is a parameter. [remove_mapping] calls a method that buckets do
    not have and is not modelled. *)
From S2P Require Import Prelude.
Local Open Scope Z_scope.

Section LookupTable.
Context {Key Value : Type} `{EqDecision Key} (hasher : Key → Z).

(** ** bucket_type *)

Abbreviation bucket_data := (list (Key * Value)) (only parsing).

(** [std::find_if]; [None] is [data_.end()]. *)
Definition find_entry_for (key : Key) (data_ : bucket_data) : option (nat * (Key * Value)) :=
  list_find (λ item, item.1 = key) data_.

Definition bucket_value_for (key : Key) (default_value : Value) (data_ : bucket_data) : Value :=
  match find_entry_for key data_ with
  | None => default_value
  | Some (_, found_entry) => found_entry.2
  end.

Definition bucket_add_or_update (key : Key) (value : Value) (data_ : bucket_data) : bucket_data :=
  match find_entry_for key data_ with
  | None => data_ ++ [(key, value)]
  | Some (i, found_entry) => <[i := (found_entry.1, value)]> data_
  end.

(** ** threadsafe_lookup_table *)

(** The state is [buckets_]. *)
Abbreviation Table := (list bucket_data) (only parsing).

Definition lookup_table_ctor (num_bukets : Z) : Table := replicate (Z.to_nat num_bukets) [].

(** [hasher_(key) % buckets_.size()]; the remainder by zero is undefined. *)
Definition get_bucket (key : Key) : M Table nat :=
  buckets_ ← get;
  if zlen buckets_ =? 0 then fails (Undefined "% 0")
  else mret (Z.to_nat (hasher key mod zlen buckets_)).

Definition table_value_for (key : Key) (default_value : Value) : M Table Value :=
  i ← get_bucket key;
  buckets_ ← get;
  data_ ← of_option "buckets_[]" (buckets_ !! i);
  mret (bucket_value_for key default_value data_).

Definition add_or_update_mapping (key : Key) (value : Value) : M Table unit :=
  i ← get_bucket key;
  buckets_ ← get;
  data_ ← of_option "buckets_[]" (buckets_ !! i);
  put (<[i := bucket_add_or_update key value data_]> buckets_).

(** ** Sequences of operations, and a map that answers them *)

Inductive table_op := OpValueFor (key : Key) (default_value : Value) | OpUpdate (key : Key) (value : Value).

Definition run_table_op (o : table_op) : M Table (list Value) :=
  match o with
  | OpValueFor key d => v ← table_value_for key d; mret [v]
  | OpUpdate key v => add_or_update_mapping key v;; mret []
  end.
Fixpoint run_table_ops (os : list table_op) : M Table (list Value) :=
  match os with
  | [] => mret []
  | o :: os => r ← run_table_op o; rs ← run_table_ops os; mret (r ++ rs)
  end.

Context `{!Countable Key}.

Definition map_op (o : table_op) (m : gmap Key Value) : list Value * gmap Key Value :=
  match o with
  | OpValueFor key d => ([default d (m !! key)], m)
  | OpUpdate key v => ([], <[key := v]> m)
  end.
Fixpoint map_ops (os : list table_op) (m : gmap Key Value) : list Value * gmap Key Value :=
  match os with
  | [] => ([], m)
  | o :: os =>
      let '(r, m) := map_op o m in
      let '(rs, m) := map_ops os m in (r ++ rs, m)
  end.

(** ** Buckets *)

Lemma find_entry_Some key data_ i e :
  find_entry_for key data_ = Some (i, e) → e.1 = key ∧ data_ !! i = Some e.
Proof. intros (Hi&He&_)%list_find_Some. done. Qed.

Definition bucket_lookup (key : Key) (data_ : bucket_data) : option Value :=
  (λ '(_, e), e.2) <$> find_entry_for key data_.

Lemma bucket_lookup_nil key : bucket_lookup key [] = None.
Proof. done. Qed.

Lemma bucket_lookup_cons key e data_ :
  bucket_lookup key (e :: data_) = if decide (e.1 = key) then Some e.2 else bucket_lookup key data_.
Proof.
  unfold bucket_lookup, find_entry_for. cbn [list_find]. case_decide; [done|].
  by destruct (list_find (λ item : Key * Value, item.1 = key) data_) as [[? ?]|].
Qed.

Lemma bucket_value_for_lookup key d data_ :
  bucket_value_for key d data_ = default d (bucket_lookup key data_).
Proof. unfold bucket_value_for, bucket_lookup. by destruct (find_entry_for key data_) as [[? ?]|]. Qed.

Lemma bucket_lookup_update key value key' data_ :
  bucket_lookup key' (bucket_add_or_update key value data_) =
  if decide (key = key') then Some value else bucket_lookup key' data_.
Proof.
  unfold bucket_add_or_update, find_entry_for. induction data_ as [|e data_ IH].
  - cbn [list_find app]. by rewrite bucket_lookup_cons.
  - cbn [list_find]. destruct (decide (e.1 = key)) as [Ek|Ek].
    + change (<[O := (e.1, value)]> (e :: data_)) with ((e.1, value) :: data_).
      rewrite !bucket_lookup_cons, Ek. cbn [fst snd]. by case_decide.
    + destruct (list_find (λ item : Key * Value, item.1 = key) data_) as [[i e']|]; cbn [fmap option_fmap option_map prod_map fst snd id].
      * change (<[S i := (e'.1, value)]> (e :: data_)) with (e :: <[i := (e'.1, value)]> data_).
        rewrite (bucket_lookup_cons key' e (<[i:=_]> _)), (bucket_lookup_cons key' e data_), IH.
        repeat case_decide; congruence.
      * change ((e :: data_) ++ [(key, value)]) with (e :: data_ ++ [(key, value)]).
        rewrite !bucket_lookup_cons, IH. repeat case_decide; congruence.
Qed.

(** ** The table *)

(** The map a table stands for: each key is looked up in its own bucket. *)
Definition table_rel (t : Table) (m : gmap Key Value) : Prop :=
  0 < zlen t ∧
  ∀ key, ∃ data_, t !! Z.to_nat (hasher key mod zlen t) = Some data_ ∧ bucket_lookup key data_ = m !! key.

Lemma bucket_index (t : Table) key : 0 < zlen t → (Z.to_nat (hasher key mod zlen t) < length t)%nat.
Proof.
  intros Ht. pose proof (Z.mod_pos_bound (hasher key) (zlen t) Ht).
  unfold zlen in *. lia.
Qed.

Lemma table_rel_ctor n : 0 < n → table_rel (lookup_table_ctor n) ∅.
Proof.
  intros Hn. unfold lookup_table_ctor. assert (0 < zlen (replicate (Z.to_nat n) ([] : bucket_data))) as Hz.
  { unfold zlen. rewrite length_replicate. lia. }
  split; [done|]. intros key. exists []. split; [|by rewrite lookup_empty].
  apply lookup_replicate_2. pose proof (bucket_index _ key Hz) as Hi. by rewrite length_replicate in Hi.
Qed.

Lemma table_rel_update (t : Table) m key v data_ :
  table_rel t m → t !! Z.to_nat (hasher key mod zlen t) = Some data_ →
  table_rel (<[Z.to_nat (hasher key mod zlen t) := bucket_add_or_update key v data_]> t) (<[key := v]> m).
Proof.
  intros [Hn Ht] Hd. unfold table_rel, zlen in *. rewrite length_insert. split; [done|]. intros key'.
  destruct (Ht key') as (data'&Hd'&Hl').
  destruct (decide (Z.to_nat (hasher key mod Z.of_nat (length t)) =
                    Z.to_nat (hasher key' mod Z.of_nat (length t)))) as [E|E].
  - exists (bucket_add_or_update key v data_). rewrite <- E.
    rewrite list_lookup_insert_eq by (by apply bucket_index). split; [done|].
    rewrite bucket_lookup_update. rewrite <- E, Hd in Hd'. injection Hd' as <-.
    case_decide; subst; [by rewrite lookup_insert_eq|by rewrite lookup_insert_ne].
  - exists data'. rewrite list_lookup_insert_ne by done. split; [done|].
    rewrite lookup_insert_ne; [done|]. by intros ->.
Qed.

Lemma run_table_op_refines o t m :
  table_rel t m → ∃ t', run_table_op o t = Ret (map_op o m).1 t' ∧ table_rel t' (map_op o m).2.
Proof.
  intros Hrel. pose proof Hrel as [Hn Ht].
  cut (wp (run_table_op o) (λ r t', r = (map_op o m).1 ∧ table_rel t' (map_op o m).2) t).
  { intros Hwp. apply wp_run in Hwp as (r&t'&Hrun&->&?). by exists t'. }
  destruct o as [key d|key v]; cbn [run_table_op map_op fst snd];
    unfold table_value_for, add_or_update_mapping, get_bucket; wp_step;
    rewrite (proj2 (Z.eqb_neq (zlen t) 0)) by lia; destruct (Ht key) as (data_&Hd&Hl);
    (eapply wp_of_option; [exact Hd|]); wp_step.
  - by rewrite bucket_value_for_lookup, Hl.
  - split; [done|]. by apply table_rel_update.
Qed.

(** Whatever the hash function and however many buckets there are, any
    sequence of operations gives the answers of a map from keys to values, and
    no operation is undefined; a table without buckets has no defined
    operation. *)
Theorem lookup_table_refines_map (num_bukets : Z) (os : list table_op) :
  if 0 <? num_bukets then
    ∃ t', run_table_ops os (lookup_table_ctor num_bukets) = Ret (map_ops os ∅).1 t'
  else ∀ o, run_table_op o (lookup_table_ctor num_bukets) = Crash (Undefined "% 0").
Proof.
  destruct (Z.ltb_spec 0 num_bukets) as [Hn|Hn].
  - assert (∀ m t, table_rel t m → ∃ t', run_table_ops os t = Ret (map_ops os m).1 t') as Hall.
    { induction os as [|o os IH]; intros m t Hrel; cbn [run_table_ops map_ops]; [by eexists|].
      destruct (run_table_op_refines o t m Hrel) as (t1&H1&Hrel1). destruct (map_op o m) as [r m1].
      destruct (IH m1 t1 Hrel1) as (t2&H2). cbn [fst snd] in *. destruct (map_ops os m1) as [rs m2].
      exists t2. rewrite (bind_Ret _ _ _ _ _ H1). by rewrite (bind_Ret _ _ _ _ _ H2). }
    apply Hall. by apply table_rel_ctor.
  - intros o. unfold lookup_table_ctor. replace (Z.to_nat num_bukets) with O by lia. by destruct o.
Qed.
End LookupTable.

(** A table of three buckets with keys that collide. *)
Example lookup_table_run :
  match run_table_ops (λ k : Z, k) [OpUpdate 1 10; OpUpdate 4 40; OpValueFor 1 0; OpUpdate 1 11;
          OpValueFor 4 0; OpValueFor 1 0; OpValueFor 7 99] (lookup_table_ctor 3) with
  | Ret r _ => r
  | Crash _ => []
  end = [10; 40; 11; 99].
Proof. reflexivity. Qed.
