(* ===== verification/HierarchicalMutex.v ===== *)
(** * HierarchicalMutex

    [thread/hieraarchical_mutex.cc]: mutexes with levels, which a thread may only
    lock in decreasing order of level. Threads and mutexes are numbers; a call
    of [lock] is two steps, the check of the thread's own level and, once the
    internal mutex is free, its acquisition. *)
From S2P Require Import Prelude.
Local Open Scope Z_scope.

Definition ULONG_MAX : Z := 2 ^ 64 - 1.

(** How a call ends: normally, with [false], with a [logic_error], or blocked
    in [internal_mutex.lock()]. *)
Inductive outcome := Returned | ReturnedFalse | LogicError | Blocking.

Section HierarchicalMutex.
(** The argument of each mutex's constructor, converted to [unsigned long]. *)
Context (value : nat → Z).
Definition hierarchy_value (m : nat) : Z := wrapu 64 (value m).

Record HState := mkH {
  internal_mutex : gmap nat nat;                 (* mutex to the thread that locked it *)
  previous_hierarchy_value : gmap nat Z;         (* 0 when absent *)
  this_thread_hierarchy_value : gmap nat Z;      (* ULONG_MAX when absent *)
  lock_waiting : gmap nat nat;                   (* thread to the mutex it is blocked on *)
}.
#[export] Instance eta_HState : Eta HState := λ s,
  mkH (internal_mutex s) (previous_hierarchy_value s) (this_thread_hierarchy_value s) (lock_waiting s).
Implicit Types (s : HState) (t m : nat).

Definition thread_value s t : Z := default ULONG_MAX (this_thread_hierarchy_value s !! t).
Definition previous_value s m : Z := default 0 (previous_hierarchy_value s !! m).
Definition hierarchy_init : HState := mkH ∅ ∅ ∅ ∅.

(** Whether the check throws. *)
Definition check_for_hierarchy_violation t m : M HState bool :=
  gets (λ s, thread_value s t <=? hierarchy_value m).

Definition update_hierarchy_value t m : M HState unit :=
  modify (λ s, s <| previous_hierarchy_value ::= <[m := thread_value s t]> |>);;
  modify (λ s, s <| this_thread_hierarchy_value ::= <[t := hierarchy_value m]> |>).

(** [lock], up to blocking; and from when the internal mutex is free. *)
Definition hierarchical_lock t m : M HState outcome :=
  violated ← check_for_hierarchy_violation t m;
  if (violated : bool) then mret LogicError
  else modify (λ s, s <| lock_waiting ::= <[t := m]> |>);; mret Blocking.
Definition lock_acquire t m : M HState outcome :=
  modify (λ s, s <| lock_waiting ::= delete t |>);;
  modify (λ s, s <| internal_mutex ::= <[m := t]> |>);;
  update_hierarchy_value t m;;
  mret Returned.

(** Unlocking a [std::mutex] that the thread does not own is undefined. *)
Definition hierarchical_unlock t m : M HState outcome :=
  s ← get;
  if negb (thread_value s t =? hierarchy_value m) then mret LogicError
  else
    modify (λ s, s <| this_thread_hierarchy_value ::= <[t := previous_value s m]> |>);;
    (if bool_decide (internal_mutex s !! m = Some t)
     then modify (λ s, s <| internal_mutex ::= delete m |>)
     else fails (Undefined "unlock of a mutex that is not owned"));;
    mret Returned.

(** [try_lock] on a [std::mutex] the thread already owns is undefined. *)
Definition hierarchical_try_lock t m : M HState outcome :=
  violated ← check_for_hierarchy_violation t m;
  if (violated : bool) then mret LogicError
  else
    s ← get;
    match internal_mutex s !! m with
    | Some u => if bool_decide (u = t) then fails (Undefined "try_lock of an owned mutex")
                else mret ReturnedFalse
    | None =>
        modify (λ s, s <| internal_mutex ::= <[m := t]> |>);;
        update_hierarchy_value t m;;
        mret Returned
    end.

(** ** Executions *)

Inductive hevent := ELock t m | EAcquire t m | ETryLock t m | EUnlock t m.

Definition run_hevent (e : hevent) : M HState outcome :=
  match e with
  | ELock t m => hierarchical_lock t m
  | EAcquire t m => lock_acquire t m
  | ETryLock t m => hierarchical_try_lock t m
  | EUnlock t m => hierarchical_unlock t m
  end.

(** A blocked thread does nothing else; a free mutex can be acquired; and
    threads unlock what they have locked, in any order. *)
Definition can_happen (e : hevent) s : Prop :=
  match e with
  | ELock t m | ETryLock t m => lock_waiting s !! t = None
  | EAcquire t m => lock_waiting s !! t = Some m ∧ internal_mutex s !! m = None
  | EUnlock t m => lock_waiting s !! t = None ∧ internal_mutex s !! m = Some t
  end.

Inductive hreachable : HState → Prop :=
  | hreach_init : hreachable hierarchy_init
  | hreach_step s e o s' :
      hreachable s → can_happen e s → run_hevent e s = Ret o s' → hreachable s'.

(** ** The invariant *)

(** The chain of mutexes a thread has locked, the last one first: each
    remembers the level before it, and the levels grow. *)
Fixpoint chain s (level : Z) (held : list nat) : Prop :=
  match held with
  | [] => level = ULONG_MAX
  | m :: held => level = hierarchy_value m ∧ level < previous_value s m ∧ chain s (previous_value s m) held
  end.

Record thread_ok s t (held : list nat) : Prop := {
  ok_chain : chain s (thread_value s t) held;
  ok_owns m : internal_mutex s !! m = Some t ↔ m ∈ held;
  ok_waiting m : lock_waiting s !! t = Some m → hierarchy_value m < thread_value s t;
}.
Definition hier_inv s : Prop := ∀ t, ∃ held, thread_ok s t held.

Lemma chain_bound s level held m : chain s level held → m ∈ held → level ≤ hierarchy_value m.
Proof.
  revert level. induction held as [|m' held IH]; intros level Hc Hin; [by apply not_elem_of_nil in Hin|].
  destruct Hc as (->&Hlt&Hc). apply elem_of_cons in Hin as [->|Hin]; [done|]. specialize (IH _ Hc Hin). lia.
Qed.

Lemma chain_ext s s' level held :
  (∀ m, m ∈ held → previous_value s' m = previous_value s m) → chain s level held → chain s' level held.
Proof.
  revert level. induction held as [|m held IH]; intros level Hp; cbn [chain]; [done|].
  rewrite (Hp m) by (by constructor). intros (?&?&?). split_and!; [done..|].
  apply IH; [|done]. intros. apply Hp. by constructor.
Qed.

(** A thread whose level is above a mutex does not own it. *)
Lemma above_not_held s level held m : chain s level held → hierarchy_value m < level → m ∉ held.
Proof. intros Hc Hlt Hin. pose proof (chain_bound _ _ _ _ Hc Hin). lia. Qed.

(** Taking a free mutex below the thread's level. *)
Definition taken s t m : HState :=
  s <| lock_waiting ::= delete t |> <| internal_mutex ::= <[m := t]> |>
    <| previous_hierarchy_value ::= <[m := thread_value s t]> |>
    <| this_thread_hierarchy_value ::= <[t := hierarchy_value m]> |>.

Lemma hier_inv_taken s t m :
  hier_inv s → internal_mutex s !! m = None → hierarchy_value m < thread_value s t →
  hier_inv (taken s t m).
Proof.
  intros Hinv Hfree Hlt u. destruct (Hinv u) as [held [Hc Ho Hw]].
  assert (∀ m', m' ∈ held → m' ≠ m) as Hne.
  { intros m' Hin ->. apply Ho in Hin. congruence. }
  assert (∀ m', m' ∈ held → previous_value (taken s t m) m' = previous_value s m') as Hp.
  { intros m' Hin. unfold previous_value, taken. cbn [previous_hierarchy_value upd].
    by rewrite lookup_insert_ne by (by apply not_eq_sym, Hne). }
  destruct (decide (u = t)) as [->|Hut].
  - exists (m :: held). assert (thread_value (taken s t m) t = hierarchy_value m) as Et.
    { unfold thread_value, taken. cbn [this_thread_hierarchy_value upd]. by rewrite lookup_insert_eq. }
    assert (previous_value (taken s t m) m = thread_value s t) as Ep.
    { unfold previous_value, taken. cbn [previous_hierarchy_value upd]. by rewrite lookup_insert_eq. }
    split.
    + rewrite Et. cbn [chain]. rewrite Ep. split_and!; [done|done|]. by apply (chain_ext s).
    + intros m'. cbn [taken internal_mutex upd]. rewrite elem_of_cons, <- Ho.
      destruct (decide (m' = m)) as [->|]; [rewrite lookup_insert_eq; tauto|].
      rewrite lookup_insert_ne by done. tauto.
    + intros m'. cbn [taken lock_waiting upd]. by rewrite lookup_delete_eq.
  - exists held. assert (thread_value (taken s t m) u = thread_value s u) as Et.
    { unfold thread_value, taken. cbn [this_thread_hierarchy_value upd]. by rewrite lookup_insert_ne. }
    split.
    + rewrite Et. by apply (chain_ext s).
    + intros m'. cbn [taken internal_mutex upd]. rewrite <- Ho.
      destruct (decide (m' = m)) as [->|]; [|by rewrite lookup_insert_ne].
      rewrite lookup_insert_eq. split; congruence.
    + intros m'. cbn [taken lock_waiting upd]. rewrite lookup_delete_ne, Et by done. apply Hw.
Qed.

(** Only the mutex locked last has the thread's level. *)
Lemma chain_last s held m :
  chain s (hierarchy_value m) held → m ∈ held → ∃ held', held = m :: held' ∧ m ∉ held'.
Proof.
  destruct held as [|m' held]; intros Hc Hin; [by apply not_elem_of_nil in Hin|].
  destruct Hc as (E&Hlt&Hc). apply elem_of_cons in Hin as [<-|Hin].
  - exists held. split; [done|]. intros Hin. pose proof (chain_bound _ _ _ _ Hc Hin). lia.
  - pose proof (chain_bound _ _ _ _ Hc Hin). lia.
Qed.

Definition freed s t m : HState :=
  s <| this_thread_hierarchy_value ::= <[t := previous_value s m]> |> <| internal_mutex ::= delete m |>.

Lemma hier_inv_freed s t m :
  hier_inv s → internal_mutex s !! m = Some t → lock_waiting s !! t = None →
  thread_value s t = hierarchy_value m → hier_inv (freed s t m).
Proof.
  intros Hinv Hown Hidle Et u. destruct (Hinv u) as [held [Hc Ho Hw]]. destruct (decide (u = t)) as [->|Hut].
  - rewrite Et in Hc. apply Ho in Hown as Hin. destruct (chain_last _ _ _ Hc Hin) as (held'&->&Hnin).
    exists held'. destruct Hc as (_&_&Hc). split.
    + assert (thread_value (freed s t m) t = previous_value s m) as ->.
      { unfold thread_value, freed. cbn [this_thread_hierarchy_value upd]. by rewrite lookup_insert_eq. }
      by apply (chain_ext s).
    + intros m'. cbn [freed internal_mutex upd]. destruct (decide (m' = m)) as [->|Hne].
      * rewrite lookup_delete_eq. split; [done|]. intros ?. done.
      * rewrite lookup_delete_ne by done. rewrite Ho, elem_of_cons. tauto.
    + intros m'. cbn [freed lock_waiting upd]. congruence.
  - exists held. assert (thread_value (freed s t m) u = thread_value s u) as Eu.
    { unfold thread_value, freed. cbn [this_thread_hierarchy_value upd]. by rewrite lookup_insert_ne. }
    split; [rewrite Eu; by apply (chain_ext s)| |intros m'; rewrite Eu; apply Hw].
    intros m'. cbn [freed internal_mutex upd]. rewrite <- Ho. destruct (decide (m' = m)) as [->|];
      [|by rewrite lookup_delete_ne]. rewrite lookup_delete_eq. split; congruence.
Qed.

Lemma hier_inv_waiting s t m :
  hier_inv s → hierarchy_value m < thread_value s t → hier_inv (s <| lock_waiting ::= <[t := m]> |>).
Proof.
  intros Hinv Hlt u. destruct (Hinv u) as [held [Hc Ho Hw]]. exists held. split; [by apply (chain_ext s)|done|].
  intros m'. cbn [lock_waiting upd]. destruct (decide (u = t)) as [->|].
  - rewrite lookup_insert_eq. by intros [= <-].
  - rewrite lookup_insert_ne by done. apply Hw.
Qed.

(** The effect of each call. *)
Lemma lock_run s t m :
  hierarchical_lock t m s =
  if thread_value s t <=? hierarchy_value m then Ret LogicError s
  else Ret Blocking (s <| lock_waiting ::= <[t := m]> |>).
Proof.
  unfold hierarchical_lock, check_for_hierarchy_violation, gets, mbind, M_bind.
  by destruct (thread_value s t <=? hierarchy_value m).
Qed.
Lemma acquire_run s t m : thread_value s t = thread_value (s <| lock_waiting ::= delete t |>) t →
  lock_acquire t m s = Ret Returned (taken s t m).
Proof. done. Qed.
Lemma unlock_run s t m :
  internal_mutex s !! m = Some t →
  hierarchical_unlock t m s =
  if thread_value s t =? hierarchy_value m then Ret Returned (freed s t m) else Ret LogicError s.
Proof.
  intros Hown. unfold hierarchical_unlock, mbind, M_bind, get.
  destruct (thread_value s t =? hierarchy_value m); cbn [negb]; [|done].
  rewrite (bool_decide_eq_true_2 _ Hown). done.
Qed.
Lemma try_lock_run s t m :
  hier_inv s → lock_waiting s !! t = None →
  hierarchical_try_lock t m s =
  if thread_value s t <=? hierarchy_value m then Ret LogicError s
  else match internal_mutex s !! m with
       | Some _ => Ret ReturnedFalse s
       | None => Ret Returned (taken s t m)
       end.
Proof.
  intros Hinv Hidle. unfold hierarchical_try_lock, check_for_hierarchy_violation, gets, get, mbind, M_bind.
  destruct (Z.leb_spec (thread_value s t) (hierarchy_value m)) as [Hle|Hlt]; [done|].
  destruct (internal_mutex s !! m) as [u|] eqn:Eo.
  - rewrite bool_decide_eq_false_2; [done|]. intros ->. destruct (Hinv t) as [held [Hc Ho _]].
    apply Ho in Eo. by eapply above_not_held.
  - destruct s as [? ? ? lw]. cbn in Hidle. unfold taken. cbn. by rewrite (delete_id lw t).
Qed.

Lemma run_hevent_inv e s :
  hier_inv s → can_happen e s → ∃ o s', run_hevent e s = Ret o s' ∧ hier_inv s'.
Proof.
  intros Hinv Hcan. destruct e as [t m|t m|t m|t m]; cbn [run_hevent can_happen] in *.
  - rewrite lock_run. destruct (Z.leb_spec (thread_value s t) (hierarchy_value m)); eexists _, _; split; try done.
    by apply hier_inv_waiting.
  - destruct Hcan as [Hw Hf]. rewrite acquire_run by done. eexists _, _. split; [done|].
    apply hier_inv_taken; [done..|]. destruct (Hinv t) as [? [_ _ Hlt]]. by apply Hlt.
  - rewrite try_lock_run by done. destruct (Z.leb_spec (thread_value s t) (hierarchy_value m)); [by eexists _, _|].
    destruct (internal_mutex s !! m) eqn:Eo; eexists _, _; split; try done. by apply hier_inv_taken.
  - destruct Hcan as [Hw Hown]. rewrite unlock_run by done.
    destruct (Z.eqb_spec (thread_value s t) (hierarchy_value m)); eexists _, _; split; try done.
    by apply hier_inv_freed.
Qed.

Lemma reachable_inv s : hreachable s → hier_inv s.
Proof.
  induction 1 as [|s e o s' _ IH Hcan Hrun].
  - intros t. exists []. split; [done| |done]. intros m. split; [done|]. by intros ?%not_elem_of_nil.
  - destruct (run_hevent_inv e s IH Hcan) as (o'&s''&Hrun'&Hinv). rewrite Hrun in Hrun'. by injection Hrun' as -> ->.
Qed.


End HierarchicalMutex.

(** ** Concrete instances *)

Module HierarchyDemo.
(** Mutexes 0, 1 and 2 of levels 30, 20 and 20. *)
Definition level (m : nat) : Z := if bool_decide (m = O) then 30 else 20.
Definition run_all (es : list hevent) : M HState (list outcome) :=
  (fix go es := match es with
                | [] => mret []
                | e :: es => o ← run_hevent level e; os ← go es; mret (o :: os)
                end) es.
Definition after (es : list hevent) : HState :=
  match run_all es hierarchy_init with Ret _ s => s | Crash _ => hierarchy_init end.
(** Thread 1 has mutex 0 and is blocked on mutex 1, which thread 2 has. *)
Definition two_threads : list hevent := [ELock 1 0; EAcquire 1 0; ETryLock 2 1; ELock 1 1].

Lemma two_threads_reachable : hreachable level (after two_threads).
Proof.
  apply (hreach_step _ (after (take 3 two_threads)) (ELock 1 1) Blocking); [|reflexivity..].
  apply (hreach_step _ (after (take 2 two_threads)) (ETryLock 2 1) Returned); [|reflexivity..].
  apply (hreach_step _ (after (take 1 two_threads)) (EAcquire 1 0) Returned); [|by split|reflexivity].
  apply (hreach_step _ hierarchy_init (ELock 1 0) Blocking); [constructor|reflexivity..].
Qed.
End HierarchyDemo.

(** A mutex of the same level as one's own can be unlocked without owning
    it: the check compares levels, and what follows is undefined. *)
Example unlock_not_owned :
  run_hevent HierarchyDemo.level (EUnlock 1 2) (HierarchyDemo.after [ELock 1 1; EAcquire 1 1])
  = Crash (Undefined "unlock of a mutex that is not owned").
Proof. reflexivity. Qed.


