(* ===== verification/Threads.v ===== *)
(** * Threads

    Threads that share data under mutexes and condition variables, for the
    components of [thread/]. The body of a function is a [code]: a tree of the
    operations other threads can observe. Threads interleave between any two
    of them; a sleeping thread may wake up without being notified. *)
From S2P Require Import Prelude.

(** ** Executions and atomic objects *)

Section Objects.
(** The results of calls, and the calls threads can make. *)
Context {V Op : Type}.
Implicit Types (t : nat) (op : Op).

(** What can be seen from outside. *)
Inductive event := Called t op | Returned t (v : V) | Crashed (r : crash).

(** A system that takes the steps it is told to. *)
Context {Ch St : Type} (step : Ch → St → option (option event * St)).

(** A schedule gives a trace of events; a crash is the last of them. *)
Fixpoint run_steps (chs : list Ch) (s : St) : option (list event * St) :=
  match chs with
  | [] => Some ([], s)
  | ch :: chs =>
      match step ch s with
      | None => None
      | Some (None, s') => run_steps chs s'
      | Some (Some (Crashed r), s') => Some ([Crashed r], s')
      | Some (Some e, s') =>
          match run_steps chs s' with
          | Some (es, s'') => Some (e :: es, s'')
          | None => None
          end
      end
  end.

(** What every step keeps holds in the end, and what is seen of every step is
    seen all along. *)
Lemma run_steps_ind (P : St → Prop) (E : event → Prop) chs es s s' :
  (∀ ch s1 oe s2, ch ∈ chs → P s1 → step ch s1 = Some (oe, s2) → P s2 ∧ ∀ e, oe = Some e → E e) →
  P s → run_steps chs s = Some (es, s') → P s' ∧ Forall E es.
Proof.
  revert es s. induction chs as [|ch chs IH]; intros es s Hstep HP Hrun; cbn [run_steps] in Hrun.
  - by injection Hrun as <- <-.
  - destruct (step ch s) as [[oe s1]|] eqn:Es; [|done].
    destruct (Hstep ch s oe s1) as [HP1 HE]; [by left|done|done|].
    assert (∀ es, run_steps chs s1 = Some (es, s') → P s' ∧ Forall E es) as Hrest.
    { intros es' Hes'. eapply IH; [|exact HP1|exact Hes']. intros ch' ????. eapply Hstep. by right. }
    destruct oe as [e|]; [|by apply Hrest]. specialize (HE e eq_refl). destruct e as [t op|t v|r].
    3: { injection Hrun as <- <-. by rewrite Forall_singleton. }
    all: destruct (run_steps chs s1) as [[es1 s2]|] eqn:E1; [|done]; injection Hrun as <- ->;
      rewrite Forall_cons; by destruct (Hrest es1 eq_refl) as [? ?].
Qed.

(** *** What a component is meant to be *)

(** A call takes effect in one step; [None] while it has to wait. *)
Context {A : Type} (effect : Op → A → option (V * A)).

Record aconfig := mkA { astate : A; calls : gmap nat (Op * option V) }.
Implicit Types (S : aconfig).

Inductive astep : aconfig → option event → aconfig → Prop :=
  | astep_call t op S :
      calls S !! t = None → astep S (Some (Called t op)) (mkA (astate S) (<[t := (op, None)]> (calls S)))
  | astep_effect t op v a S :
      calls S !! t = Some (op, None) → effect op (astate S) = Some (v, a) →
      astep S None (mkA a (<[t := (op, Some v)]> (calls S)))
  | astep_return t op v S :
      calls S !! t = Some (op, Some v) → astep S (Some (Returned t v)) (mkA (astate S) (delete t (calls S))).

Inductive atrace : aconfig → list event → Prop :=
  | atrace_nil S : atrace S []
  | atrace_tau S S' es : astep S None S' → atrace S' es → atrace S es
  | atrace_event S e S' es : astep S (Some e) S' → atrace S' es → atrace S (e :: es).

(** Whatever threads call and however they are scheduled, what can be seen is
    what the atomic object does (so the process does not crash). *)
Definition linearizes (s : St) (a : A) : Prop :=
  ∀ chs es s', run_steps chs s = Some (es, s') → atrace (mkA a ∅) es.

(** Forward simulation. *)
Lemma forward_simulation (R : St → aconfig → Prop) s0 a :
  R s0 (mkA a ∅) →
  (∀ ch s S oe s', R s S → step ch s = Some (oe, s') →
     (oe = None ∧ R s' S) ∨ ∃ S', astep S oe S' ∧ R s' S') →
  linearizes s0 a.
Proof.
  intros Hinit Hstep chs es C Hrun.
  assert (∀ chs C S es C', R C S → run_steps chs C = Some (es, C') → atrace S es) as Hall; [|by eapply Hall].
  clear - Hstep. intros chs. induction chs as [|ch chs IH]; intros C S es C' HR Hrun; cbn [run_steps] in Hrun.
  - injection Hrun as <- <-. constructor.
  - destruct (step ch C) as [[oe C1]|] eqn:E; [|done].
    destruct (Hstep _ _ _ _ _ HR E) as [[-> HR1]|(S1&Hs&HR1)]; [by eapply IH|].
    destruct oe as [e|]; [|by eapply atrace_tau, IH].
    assert (∀ es2, run_steps chs C1 = Some (es2, C') → atrace S1 es2) as Hrest by eauto.
    destruct e as [t op|t v|r]; [..|by inversion Hs].
    all: destruct (run_steps chs C1) as [[es1 C2]|] eqn:E1; [|done]; injection Hrun as <- <-;
      by eapply atrace_event, Hrest.
Qed.
End Objects.
Arguments aconfig : clear implicits.

(** ** Threads *)

Section Threads.
(** The shared data, the results of calls, and the calls threads can make. *)
Context {D V Op : Type}.

Inductive code :=
  | Finish (v : V)                            (* the call returns, or throws, v *)
  | Act (g : D → D) (k : D → code)            (* one access; k is given what was read *)
  | Lock (m : nat) (k : code)
  | Unlock (m : nat) (k : code)
  | Wait (c m : nat) (k : code)               (* condition_variable::wait *)
  | NotifyOne (c : nat) (k : code)
  | Loop (body k : code)                      (* leaves of body: Again or Break *)
  | Again
  | Break
  | Spawn (t : nat) (op : Op) (k : code)      (* std::thread *)
  | Join (t : nat) (k : code)
  | Terminate (r : crash).                        (* the end of the process *)

(** The body of a loop with its leaves continued. *)
Fixpoint plug (again break : code) (b : code) : code :=
  match b with
  | Finish v => Finish v
  | Act g k => Act g (λ d, plug again break (k d))
  | Lock m k => Lock m (plug again break k)
  | Unlock m k => Unlock m (plug again break k)
  | Wait c m k => Wait c m (plug again break k)
  | NotifyOne c k => NotifyOne c (plug again break k)
  | Loop b k => Loop b (plug again break k)
  | Again => again
  | Break => break
  | Spawn t op k => Spawn t op (plug again break k)
  | Join t k => Join t (plug again break k)
  | Terminate r => Terminate r
  end.

Inductive tstate :=
  | Running (k : code)
  | Asleep (c m : nat) (k : code).

Record config := mkConfig {
  data : D;
  locks : gmap nat nat;                (* mutex to its owner *)
  threads : gmap nat (Op * tstate);    (* the calls in progress *)
}.
#[export] Instance eta_config : Eta config := λ C, mkConfig (data C) (locks C) (threads C).
Implicit Types (C : config) (t u m c : nat) (k : code) (op : Op).

(** The next thing to happen: a thread without a call in progress makes one; a
    thread takes a step, waking the thread given if it notifies; a thread wakes
    up by itself. *)
Inductive choice := Calls t op | Runs t (woken : option nat) | Wakes t.

Context (code_of : Op → code).

Definition set_thread t op k C : config := C <| threads ::= <[t := (op, Running k)]> |>.

Definition asleep_on c (x : nat * (Op * tstate)) : Prop :=
  match x.2.2 with Asleep c' _ _ => c' = c | Running _ => False end.
#[export] Instance asleep_on_dec c x : Decision (asleep_on c x).
Proof. destruct x as [? [? [|]]]; cbn; apply _. Defined.

(** A step of a thread's code; [None] when it is blocked. *)
Definition exec_code t op k (woken : option nat) C : option (option (@event V Op) * config) :=
  match k with
  | Finish v => Some (Some (Returned t v), C <| threads ::= delete t |>)
  | Act g k => Some (None, set_thread t op (k (data C)) (C <| data ::= g |>))
  | Lock m k =>
      match locks C !! m with
      | None => Some (None, set_thread t op k (C <| locks ::= <[m := t]> |>))
      | Some _ => None
      end
  | Unlock m k =>
      if decide (locks C !! m = Some t)
      then Some (None, set_thread t op k (C <| locks ::= delete m |>))
      else Some (Some (Crashed (Undefined "unlock of a mutex that is not owned")), C)
  | Wait c m k =>
      if decide (locks C !! m = Some t)
      then Some (None, (C <| locks ::= delete m |>) <| threads ::= <[t := (op, Asleep c m k)]> |>)
      else Some (Some (Crashed (Undefined "wait without the lock")), C)
  | NotifyOne c k =>
      match woken with
      | Some u =>
          match threads C !! u with
          | Some (op', Asleep c' m k') =>
              if decide (c' = c) then Some (None, set_thread t op k (set_thread u op' (Lock m k') C))
              else None
          | _ => None
          end
      | None =>
          if decide (map_Forall (λ u x, ¬ asleep_on c (u, x)) (threads C))
          then Some (None, set_thread t op k C) else None
      end
  | Loop b k' => Some (None, set_thread t op (plug (Loop b k') k' b) C)
  | Again | Break => None
  | Spawn u op' k =>
      match threads C !! u with
      | None => Some (None, set_thread t op k (set_thread u op' (code_of op') C))
      | Some _ => None
      end
  | Join u k =>
      match threads C !! u with
      | None => Some (None, set_thread t op k C)
      | Some _ => None
      end
  | Terminate r => Some (Some (Crashed r), C)
  end.

Definition exec (ch : choice) C : option (option (@event V Op) * config) :=
  match ch with
  | Calls t op =>
      match threads C !! t with
      | None => Some (Some (Called t op), set_thread t op (code_of op) C)
      | Some _ => None
      end
  | Runs t woken =>
      match threads C !! t with
      | Some (op, Running k) => exec_code t op k woken C
      | _ => None
      end
  | Wakes t =>
      match threads C !! t with
      | Some (op, Asleep c m k) => Some (None, set_thread t op (Lock m k) C)
      | _ => None
      end
  end.

Definition initial (d : D) : config := mkConfig d ∅ ∅.
Definition reachable (d : D) C : Prop := ∃ chs es, run_steps exec chs (initial d) = Some (es, C).

(** Against an atomic object. *)
Context {A : Type} (effect : Op → A → option (V * A)).
Definition linearizable (d : D) (a : A) : Prop := linearizes exec effect (initial d) a.

Lemma simulation_linearizable (R : config → aconfig V Op A → Prop) d a :
  R (initial d) (mkA a ∅) →
  (∀ ch C S oe C', R C S → exec ch C = Some (oe, C') →
     (oe = None ∧ R C' S) ∨ ∃ S', astep effect S oe S' ∧ R C' S') →
  linearizable d a.
Proof. apply forward_simulation. Qed.

End Threads.
Arguments code : clear implicits.
Arguments tstate : clear implicits.
Arguments config : clear implicits.
Abbreviation run_schedule code_of := (run_steps (exec code_of)).
