(* ===== verification/TableThreads.v ===== *)
(** * TableThreads

    The table of [thread/threadsafe_lookup_table.cc] used by several threads.
    Each bucket has a [shared_mutex], which readers hold together and a writer
    alone; a call looks at the items of its bucket one after the other, and the
    other threads run between any two looks. *)
From S2P Require Import Prelude Threads LookupTable.
Local Open Scope Z_scope.

(** ** Threads with shared mutexes *)

Section SharedMutex.
Context {D V Op : Type}.

(** The body of a function, as the operations other threads can observe. *)
Inductive scode :=
  | Return (v : V)
  | Access (g : D → D) (k : D → scode)
  | LockShared (m : nat) (k : scode)               (* std::shared_lock *)
  | UnlockShared (m : nat) (k : scode)
  | LockUnique (m : nat) (k : scode)               (* std::unique_lock *)
  | UnlockUnique (m : nat) (k : scode)
  | Search (n : nat) (ends : nat → D → bool) (k : nat → D → scode)   (* looks at item n, n + 1, ... *)
  | Stop (r : crash).

(** The owner of each mutex held by a writer; the readers of the others. *)
Record sconfig := mkSConfig {
  sdata : D;
  writers : gmap nat nat;
  readers : gset (nat * nat);
  sthreads : gmap nat (Op * scode);
}.
#[export] Instance eta_sconfig : Eta sconfig := λ C, mkSConfig (sdata C) (writers C) (readers C) (sthreads C).
Implicit Types (C : sconfig) (t u m : nat) (op : Op) (k : scode).

Inductive schoice := SCalls t op | SRuns t.

Context (code_of : Op → scode).

Definition goes_on t op k C : sconfig := C <| sthreads ::= <[t := (op, k)]> |>.

Definition exec_scode t op k C : option (option (@event V Op) * sconfig) :=
  match k with
  | Return v => Some (Some (Returned t v), C <| sthreads ::= delete t |>)
  | Access g k => Some (None, goes_on t op (k (sdata C)) (C <| sdata ::= g |>))
  | LockShared m k =>
      match writers C !! m with
      | None => Some (None, goes_on t op k (C <| readers ::= λ s, {[(m, t)]} ∪ s |>))
      | Some _ => None
      end
  | UnlockShared m k =>
      if decide ((m, t) ∈ readers C)
      then Some (None, goes_on t op k (C <| readers ::= λ s, s ∖ {[(m, t)]} |>))
      else Some (Some (Crashed (Undefined "unlock_shared of a mutex that is not owned")), C)
  | LockUnique m k =>
      if decide (writers C !! m = None ∧ set_Forall (λ x, x.1 ≠ m) (readers C))
      then Some (None, goes_on t op k (C <| writers ::= <[m := t]> |>))
      else None
  | UnlockUnique m k =>
      if decide (writers C !! m = Some t)
      then Some (None, goes_on t op k (C <| writers ::= delete m |>))
      else Some (Some (Crashed (Undefined "unlock of a mutex that is not owned")), C)
  | Search n ends k =>
      if ends n (sdata C) then Some (None, goes_on t op (k n (sdata C)) C)
      else Some (None, goes_on t op (Search (S n) ends k) C)
  | Stop r => Some (Some (Crashed r), C)
  end.

Definition sexec (ch : schoice) C : option (option (@event V Op) * sconfig) :=
  match ch with
  | SCalls t op =>
      match sthreads C !! t with
      | None => Some (Some (Called t op), goes_on t op (code_of op) C)
      | Some _ => None
      end
  | SRuns t =>
      match sthreads C !! t with
      | Some (op, k) => exec_scode t op k C
      | None => None
      end
  end.

Definition sinitial (d : D) : sconfig := mkSConfig d ∅ ∅ ∅.
End SharedMutex.
Arguments scode : clear implicits.
Arguments sconfig : clear implicits.

(** ** The table *)

Section Table.
Context {Key Value : Type} `{EqDecision Key} (hasher : Key → Z).
Abbreviation Table := (list (list (Key * Value))) (only parsing).
Abbreviation tableop := (@table_op Key Value) (only parsing).
Abbreviation tcode := (scode Table (list Value)) (only parsing).

(** The [n]-th item of bucket [b]. *)
Definition item (b n : nat) (t : Table) : option (Key * Value) := t !! b ≫= λ data_, data_ !! n.

(** [std::find_if]; [k] is given the place found, or [data_.end()]. *)
Definition look_ends (b : nat) (key : Key) (n : nat) (t : Table) : bool :=
  match item b n t with None => true | Some e => bool_decide (e.1 = key) end.
Definition look_found (b : nat) (k : option nat → tcode) (n : nat) (t : Table) : tcode :=
  k (match item b n t with None => None | Some _ => Some n end).
Definition find_entry_code (b : nat) (key : Key) (k : option nat → tcode) : tcode :=
  Search 0 (look_ends b key) (look_found b k).

Definition value_found (b : nat) (default_value : Value) (found_entry : option nat) : tcode :=
  match found_entry with
  | None => UnlockShared b (Return [default_value])
  | Some n => Access id (λ t,
      match item b n t with
      | Some e => UnlockShared b (Return [e.2])
      | None => Stop (Undefined "found_entry->second")
      end)
  end.
Definition value_for_code (b : nat) (key : Key) (default_value : Value) : tcode :=
  LockShared b (find_entry_code b key (value_found b default_value)).

Definition set_found (b : nat) (key : Key) (value : Value) (found_entry : option nat) : Table → Table :=
  alter (λ data_, match found_entry with
                  | None => data_ ++ [(key, value)]
                  | Some n => alter (λ e, (e.1, value)) n data_
                  end) b.
Definition update_found (b : nat) (key : Key) (value : Value) (found_entry : option nat) : tcode :=
  Access (set_found b key value found_entry) (λ _, UnlockUnique b (Return [])).
Definition add_or_update_code (b : nat) (key : Key) (value : Value) : tcode :=
  LockUnique b (find_entry_code b key (update_found b key value)).

(** A call of the table, once its bucket is known. *)
Definition bucket_code (o : tableop) (b : nat) : tcode :=
  match o with
  | OpValueFor key d => value_for_code b key d
  | OpUpdate key v => add_or_update_code b key v
  end.
Definition op_key (o : tableop) : Key :=
  match o with OpValueFor key _ | OpUpdate key _ => key end.

Definition table_code (o : tableop) : tcode :=
  Access id (λ t,
    if zlen t =? 0 then Stop (Undefined "% 0")
    else bucket_code o (Z.to_nat (hasher (op_key o) mod zlen t))).

(** ** What the threads are doing *)

(** The mutex that a call holds. *)
Inductive hold := NoLock | Reads (b : nat) | Writes (b : nat).

Definition none_before (key : Key) (n : nat) (data_ : list (Key * Value)) : Prop :=
  ∀ i e, data_ !! i = Some e → (i < n)%nat → e.1 ≠ key.

Section Phases.
Context (num : Z) (Hnum : 0 < num).

Definition bucket_of (key : Key) : nat := Z.to_nat (hasher key mod num).

(** Where a call is: what it has left to do, the mutex it holds, and its result
    once it has taken effect. A lookup takes effect when it locks its bucket, an
    update when it writes. *)
Inductive phase (t : Table) : tableop → tcode → hold → option (list Value) → Prop :=
  | ph_start o : phase t o (table_code o) NoLock None
  | ph_lock o : phase t o (bucket_code o (bucket_of (op_key o))) NoLock None
  | ph_search key d n data_ b :
      b = bucket_of key → t !! b = Some data_ → none_before key n data_ →
      phase t (OpValueFor key d) (Search n (look_ends b key) (look_found b (value_found b d)))
        (Reads b) (Some [bucket_value_for key d data_])
  | ph_read key d n data_ b e :
      b = bucket_of key → t !! b = Some data_ → data_ !! n = Some e →
      phase t (OpValueFor key d) (value_found b d (Some n)) (Reads b) (Some [e.2])
  | ph_unlock_shared key d v b :
      phase t (OpValueFor key d) (UnlockShared b (Return v)) (Reads b) (Some v)
  | ph_usearch key v n data_ b :
      b = bucket_of key → t !! b = Some data_ → none_before key n data_ →
      phase t (OpUpdate key v) (Search n (look_ends b key) (look_found b (update_found b key v))) (Writes b) None
  | ph_write key v data_ b :
      b = bucket_of key → t !! b = Some data_ →
      phase t (OpUpdate key v) (update_found b key v (fst <$> find_entry_for key data_)) (Writes b) None
  | ph_unlock_unique key v b :
      phase t (OpUpdate key v) (UnlockUnique b (Return [])) (Writes b) (Some [])
  | ph_done o v : phase t o (Return v) NoLock (Some v).

(** A call cares only for the bucket it has locked. *)
Lemma phase_stable t t' o k h r :
  phase t o k h r → (∀ b, h = Reads b ∨ h = Writes b → t' !! b = t !! b) → phase t' o k h r.
Proof.
  intros Hp Ht. destruct Hp; try (by constructor).
  - eapply ph_search; [done|rewrite Ht by auto; done|done].
  - eapply ph_read; [done|rewrite Ht by auto; done|done].
  - eapply ph_usearch; [done|rewrite Ht by auto; done|done].
  - eapply ph_write; [done|rewrite Ht by auto; done].
Qed.

(** *** Looking for an entry *)

Lemma item_bucket b n t data_ : t !! b = Some data_ → item b n t = data_ !! n.
Proof. intros Ht. unfold item. by rewrite Ht. Qed.

Lemma search_none key n data_ : none_before key n data_ → data_ !! n = None → find_entry_for key data_ = None.
Proof.
  intros Hn Hnone. apply list_find_None, Forall_lookup. intros i e Hi. apply (Hn i e Hi).
  apply lookup_ge_None in Hnone. apply lookup_lt_Some in Hi. lia.
Qed.

Lemma search_some key n data_ e :
  none_before key n data_ → data_ !! n = Some e → e.1 = key → find_entry_for key data_ = Some (n, e).
Proof. intros Hn He Hk. apply list_find_Some. split_and!; [done..|]. intros j y Hj Hlt. by apply (Hn j y). Qed.

Lemma none_before_next key n data_ e :
  none_before key n data_ → data_ !! n = Some e → e.1 ≠ key → none_before key (S n) data_.
Proof.
  intros Hn He Hk i x Hi Hlt. destruct (decide (i = n)) as [->|]; [|apply (Hn i x); [done|lia]].
  rewrite He in Hi. by injection Hi as <-.
Qed.

(** A look at the next item goes on, or finds what [std::find_if] does. *)
Lemma look_spec b key n t data_ k :
  t !! b = Some data_ → none_before key n data_ →
  if look_ends b key n t then look_found b k n t = k (fst <$> find_entry_for key data_)
  else none_before key (S n) data_.
Proof.
  intros Ht Hn. unfold look_ends, look_found. rewrite (item_bucket b n t data_ Ht).
  destruct (data_ !! n) as [e|] eqn:He; [|by rewrite (search_none key n data_)].
  case_bool_decide as Hk; [by rewrite (search_some key n data_ e)|by eapply none_before_next].
Qed.

Lemma set_found_update b key v (t : Table) data_ :
  t !! b = Some data_ →
  set_found b key v (fst <$> find_entry_for key data_) t = <[b := bucket_add_or_update key v data_]> t.
Proof.
  intros Ht. unfold set_found, bucket_add_or_update. rewrite list_insert_alter. apply list_alter_ext; [|done].
  intros data' Hd. rewrite Ht in Hd. injection Hd as <-.
  destruct (find_entry_for key data_) as [[i e]|] eqn:E; cbn; [|done]. apply find_entry_Some in E as [_ He].
  rewrite list_insert_alter. apply list_alter_ext; [|done]. intros x Hx. rewrite He in Hx. by injection Hx as <-.
Qed.

(** ** The simulation *)

Context `{!Countable Key}.
Definition table_effect (o : tableop) (m : gmap Key Value) : option (list Value * gmap Key Value) :=
  Some (map_op o m).
Abbreviation config := (sconfig Table (list Value) tableop) (only parsing).
Abbreviation abstract := (aconfig (list Value) tableop (gmap Key Value)) (only parsing).
Implicit Types (C : config) (S : abstract) (t u b : nat).

Record holds C t (h : hold) : Prop := {
  hd_writes b : writers C !! b = Some t ↔ h = Writes b;
  hd_reads b : (b, t) ∈ readers C ↔ h = Reads b;
}.
Definition thread_ok C S t : Prop :=
  match sthreads C !! t with
  | None => calls S !! t = None ∧ holds C t NoLock
  | Some (o, k) => ∃ h r, calls S !! t = Some (o, r) ∧ phase (sdata C) o k h r ∧ holds C t h
  end.

Record table_sim C S : Prop := {
  ts_rel : table_rel hasher (sdata C) (astate S);
  ts_size : zlen (sdata C) = num;
  ts_exclusive b t u : writers C !! b = Some t → (b, u) ∉ readers C;
  ts_thread t : thread_ok C S t;
}.

(** Only thread [t] has moved. *)
Record moved (t : nat) C S C' S' : Prop := {
  mv_threads u : u ≠ t → sthreads C' !! u = sthreads C !! u ∧ calls S' !! u = calls S !! u;
  mv_locks u b : u ≠ t → (writers C' !! b = Some u ↔ writers C !! b = Some u) ∧
                        ((b, u) ∈ readers C' ↔ (b, u) ∈ readers C);
  mv_data b : sdata C' !! b = sdata C !! b ∨ writers C !! b = Some t;
}.

Lemma sim_moved t C S C' S' :
  table_sim C S → moved t C S C' S' →
  table_rel hasher (sdata C') (astate S') → zlen (sdata C') = num →
  (∀ b t u, writers C' !! b = Some t → (b, u) ∉ readers C') → thread_ok C' S' t → table_sim C' S'.
Proof.
  intros [_ _ Hex Hth] [Hthreads Hlocks Hdata] Hrel Hsize Hex' Ht. split; [done..|]. intros u.
  destruct (decide (u = t)) as [->|Hne]; [done|]. destruct (Hthreads u Hne) as [Eu Es].
  assert (∀ h, holds C u h → holds C' u h) as Hholds.
  { intros h [Hw Hr]. split; intros b; destruct (Hlocks u b Hne) as [Ew Er]; [by rewrite Ew|by rewrite Er]. }
  specialize (Hth u). unfold thread_ok in *. rewrite Eu, Es.
  destruct (sthreads C !! u) as [[o k]|]; [|destruct Hth; split; [done|by apply Hholds]]. destruct Hth as (h&r&Hc&Hp&Hh).
  exists h, r. split_and!; [done| |by apply Hholds]. eapply phase_stable; [exact Hp|].
  intros b Hb. destruct (Hdata b) as [?|Hw]; [done|]. destruct Hh as [Hhw Hhr]. destruct Hb as [Hb|Hb].
  - apply Hhr in Hb. by destruct (Hex b t u Hw).
  - apply Hhw in Hb. congruence.
Qed.

(** Nothing but its code has changed, and perhaps its call took effect. *)
Lemma sim_local t o k k' h r C S :
  table_sim C S → sthreads C !! t = Some (o, k) → calls S !! t = Some (o, r) → holds C t h →
  phase (sdata C) o k' h r → table_sim (goes_on t o k' C) S.
Proof.
  intros Hs Ht Hc Hh Hp. pose proof Hs as []. eapply (sim_moved t C S); try done.
  - split; [|done|by left]. intros u Hne. cbn. by rewrite lookup_insert_ne.
  - unfold thread_ok. cbn. rewrite lookup_insert_eq. exists h, r. split_and!; [done..|]. by destruct Hh.
Qed.

(** *** Locking and unlocking *)

Lemma sim_lock_shared t o k b v C S :
  table_sim C S → sthreads C !! t = Some (o, LockShared b k) → calls S !! t = Some (o, None) →
  holds C t NoLock → writers C !! b = None → phase (sdata C) o k (Reads b) (Some v) →
  table_sim (goes_on t o k (C <| readers ::= λ s, {[(b, t)]} ∪ s |>))
    (mkA (astate S) (<[t := (o, Some v)]> (calls S))).
Proof.
  intros Hs Ht Hc [Hw Hr] Hfree Hp. pose proof Hs as [? ? Hex ?]. eapply (sim_moved t C S); try done; cbn.
  - split; cbn; [|intros; split; [done|]; rewrite elem_of_union, elem_of_singleton; naive_solver|by left].
    intros u Hne. by rewrite !lookup_insert_ne.
  - intros b' t' u Hb'. rewrite elem_of_union, elem_of_singleton. intros [[= -> ->]|Hin]; [congruence|].
    by destruct (Hex b' t' u).
  - unfold thread_ok. cbn. rewrite !lookup_insert_eq. exists (Reads b), (Some v). split_and!; [done..|].
    split; intros b'; cbn; [by rewrite Hw|]. rewrite elem_of_union, elem_of_singleton, Hr. naive_solver.
Qed.

Lemma sim_lock_unique t o k b C S :
  table_sim C S → sthreads C !! t = Some (o, LockUnique b k) → calls S !! t = Some (o, None) →
  holds C t NoLock → writers C !! b = None → set_Forall (λ x, x.1 ≠ b) (readers C) →
  phase (sdata C) o k (Writes b) None →
  table_sim (goes_on t o k (C <| writers ::= <[b := t]> |>)) S.
Proof.
  intros Hs Ht Hc [Hw Hr] Hfree Hnone Hp. pose proof Hs as [? ? Hex ?]. eapply (sim_moved t C S); try done; cbn.
  - split; cbn; [|intros u b' ?; split; [|done]|by left].
    + intros u Hne. by rewrite lookup_insert_ne.
    + rewrite lookup_insert_Some. naive_solver congruence.
  - intros b' t' u [[<- <-]|[_ Hb']]%lookup_insert_Some; [|by eapply Hex]. intros Hin. by apply (Hnone (b, u)).
  - unfold thread_ok. cbn. rewrite lookup_insert_eq. exists (Writes b), None. split_and!; [done..|].
    split; intros b'; cbn; [|by rewrite Hr]. rewrite lookup_insert_Some, Hw. naive_solver.
Qed.

Lemma sim_unlock_shared t o v b C S :
  table_sim C S → sthreads C !! t = Some (o, UnlockShared b (Return v)) → calls S !! t = Some (o, Some v) →
  holds C t (Reads b) →
  table_sim (goes_on t o (Return v) (C <| readers ::= λ s, s ∖ {[(b, t)]} |>)) S.
Proof.
  intros Hs Ht Hc [Hw Hr]. pose proof Hs as [? ? Hex ?]. eapply (sim_moved t C S); try done; cbn.
  - split; cbn; [|intros; split; [done|]; rewrite elem_of_difference, elem_of_singleton; naive_solver|by left].
    intros u Hne. by rewrite lookup_insert_ne.
  - intros b' t' u Hb' [Hin _]%elem_of_difference. by destruct (Hex b' t' u).
  - unfold thread_ok. cbn. rewrite lookup_insert_eq. exists NoLock, (Some v). split_and!; [done|constructor|].
    split; intros b'; cbn; [by rewrite Hw|]. rewrite elem_of_difference, elem_of_singleton, Hr. naive_solver.
Qed.

Lemma sim_unlock_unique t o v b C S :
  table_sim C S → sthreads C !! t = Some (o, UnlockUnique b (Return v)) → calls S !! t = Some (o, Some v) →
  holds C t (Writes b) →
  table_sim (goes_on t o (Return v) (C <| writers ::= delete b |>)) S.
Proof.
  intros Hs Ht Hc [Hw Hr]. pose proof Hs as [? ? Hex ?]. pose proof (proj2 (Hw b) eq_refl) as Hown.
  eapply (sim_moved t C S); try done; cbn.
  - split; cbn; [|intros u b' ?; split; [|done]|by left].
    + intros u Hne. by rewrite lookup_insert_ne.
    + rewrite lookup_delete_Some. naive_solver congruence.
  - intros b' t' u [_ Hb']%lookup_delete_Some. by eapply Hex.
  - unfold thread_ok. cbn. rewrite lookup_insert_eq. exists NoLock, (Some v). split_and!; [done|constructor|].
    split; intros b'; cbn; [|by rewrite Hr]. rewrite lookup_delete_Some, Hw. naive_solver.
Qed.

Lemma sim_write t key v b data_ C S (o := OpUpdate key v) :
  table_sim C S → sthreads C !! t = Some (o, update_found b key v (fst <$> find_entry_for key data_)) →
  calls S !! t = Some (o, None) → holds C t (Writes b) → b = bucket_of key → sdata C !! b = Some data_ →
  table_sim (goes_on t o (UnlockUnique b (Return []))
      (C <| sdata ::= set_found b key v (fst <$> find_entry_for key data_) |>))
    (mkA (<[key := v]> (astate S)) (<[t := (o, Some [])]> (calls S))).
Proof.
  intros Hs Ht Hc Hh Eb Hd. pose proof Hs as [Hrel Hsize Hex ?]. pose proof Hh as [Hw Hr].
  eapply (sim_moved t C S); try done; cbn; rewrite ?(set_found_update b key v _ data_ Hd).
  - split; cbn; [|done|].
    + intros u Hne. by rewrite !lookup_insert_ne.
    + intros b'. destruct (decide (b = b')) as [<-|].
      * right. by apply Hw.
      * left. by rewrite list_lookup_insert_ne.
  - rewrite Eb in *. unfold bucket_of in *. rewrite <- Hsize in *. by apply table_rel_update.
  - unfold zlen. rewrite length_insert. exact Hsize.
  - unfold thread_ok. cbn. rewrite !lookup_insert_eq. exists (Writes b), (Some []).
    split_and!; [done|constructor|by split].
Qed.

(** *** Every step *)

Definition simulated C' S (oe : option (@event (list Value) tableop)) : Prop :=
  (oe = None ∧ table_sim C' S) ∨ ∃ S', astep table_effect S oe S' ∧ table_sim C' S'.

Lemma sim_bucket C S key :
  table_sim C S → ∃ data_, sdata C !! bucket_of key = Some data_ ∧ bucket_lookup key data_ = astate S !! key.
Proof. intros [[_ Hrel] Hsize _ _]. unfold bucket_of. rewrite <- Hsize. apply Hrel. Qed.

Lemma none_before_0 key data_ : none_before key 0 data_.
Proof. intros i e _ Hi. lia. Qed.

(** The step that takes a mutex. *)
Lemma sim_lock t o C S oe C' :
  table_sim C S → sthreads C !! t = Some (o, bucket_code o (bucket_of (op_key o))) →
  calls S !! t = Some (o, None) → holds C t NoLock →
  exec_scode t o (bucket_code o (bucket_of (op_key o))) C = Some (oe, C') → simulated C' S oe.
Proof.
  intros Hs Ht Hc Hh. destruct (sim_bucket C S (op_key o) Hs) as (data_&Hd&Hl).
  destruct o as [key d|key v]; cbn [op_key bucket_code value_for_code add_or_update_code exec_scode] in *.
  - destruct (writers C !! bucket_of key) eqn:Hw; [done|]. intros [= <- <-]. right. eexists. split.
    + by apply (astep_effect _ t (OpValueFor key d) [default d (astate S !! key)] (astate S)).
    + eapply sim_lock_shared; try done. rewrite <- Hl, <- bucket_value_for_lookup.
      eapply ph_search; [done|exact Hd|apply none_before_0].
  - case_decide as Hfree; [|done]. intros [= <- <-]. left. split; [done|]. destruct Hfree.
    eapply sim_lock_unique; try done. eapply ph_usearch; [done|exact Hd|apply none_before_0].
Qed.

Lemma sim_runs t C S oe C' :
  table_sim C S → sexec table_code (SRuns t) C = Some (oe, C') → simulated C' S oe.
Proof.
  intros Hs Hexec. pose proof (ts_thread _ _ Hs t) as Hth. unfold thread_ok in Hth. cbn [sexec] in Hexec.
  destruct (sthreads C !! t) as [[o k]|] eqn:Ht; [|done]. destruct Hth as (h&r&Hc&Hp&Hh).
  assert (∀ k', phase (sdata C) o k' h r → simulated (goes_on t o k' C) S None) as Hlocal.
  { intros k' Hp'. left. split; [done|]. by eapply sim_local. }
  inversion Hp; subst; cbn [exec_scode table_code value_found update_found] in Hexec.
  - (* get_bucket *) injection Hexec as <- <-. rewrite (ts_size _ _ Hs). rewrite (proj2 (Z.eqb_neq num 0)) by lia.
    apply (Hlocal (bucket_code o (bucket_of (op_key o)))). constructor.
  - by eapply sim_lock.
  - pose proof (look_spec _ _ _ _ _ (value_found (bucket_of key) d) H0 H1) as Hlook.
    destruct (look_ends _ _ _ _); injection Hexec as <- <-; apply Hlocal; [|by eapply ph_search].
    rewrite Hlook. unfold bucket_value_for. destruct (find_entry_for key data_) as [[i e]|] eqn:E; cbn.
    + apply find_entry_Some in E as [_ He]. by eapply ph_read.
    + constructor.
  - injection Hexec as <- <-. rewrite (item_bucket _ _ _ _ H0), H1.
    apply (Hlocal (UnlockShared (bucket_of key) (Return [e.2]))). constructor.
  - rewrite decide_True in Hexec by (by apply Hh). injection Hexec as <- <-. left. split; [done|].
    by eapply sim_unlock_shared.
  - pose proof (look_spec _ _ _ _ _ (update_found (bucket_of key) key v) H0 H1) as Hlook.
    destruct (look_ends _ _ _ _); injection Hexec as <- <-; apply Hlocal; [|by eapply ph_usearch].
    rewrite Hlook. by eapply ph_write.
  - injection Hexec as <- <-. right. eexists. split; [by eapply astep_effect|]. by eapply sim_write.
  - rewrite decide_True in Hexec by (by apply Hh). injection Hexec as <- <-. left. split; [done|].
    by eapply sim_unlock_unique.
  - injection Hexec as <- <-. right. exists (mkA (astate S) (delete t (calls S))). split; [by eapply astep_return|].
    pose proof Hs as []. eapply (sim_moved t C S); try done.
    + split; [|done|by left]. intros u Hne. cbn. by rewrite !lookup_delete_ne.
    + unfold thread_ok. cbn. rewrite !lookup_delete_eq. split; [done|]. by destruct Hh.
Qed.

Lemma sim_step ch C S oe C' :
  table_sim C S → sexec table_code ch C = Some (oe, C') → simulated C' S oe.
Proof.
  destruct ch as [t o|t]; [|apply sim_runs]. intros Hs. cbn [sexec].
  pose proof (ts_thread _ _ Hs t) as Hth. unfold thread_ok in Hth.
  destruct (sthreads C !! t) eqn:Ht; [done|]. intros [= <- <-]. destruct Hth as [Hc Hh].
  right. exists (mkA (astate S) (<[t := (o, None)]> (calls S))). split; [by apply astep_call|].
  pose proof Hs as []. eapply (sim_moved t C S); try done.
  - split; [|done|by left]. intros u Hne. cbn. by rewrite !lookup_insert_ne.
  - unfold thread_ok. cbn. rewrite !lookup_insert_eq. exists NoLock, None. split_and!; [done|constructor|by destruct Hh].
Qed.

Lemma sim_initial : table_sim (sinitial (lookup_table_ctor num)) (mkA ∅ ∅).
Proof.
  split; [by apply table_rel_ctor|..|done|].
  - unfold zlen, lookup_table_ctor. cbn. rewrite length_replicate. lia.
  - intros t. unfold thread_ok. cbn. rewrite lookup_empty. split; [apply lookup_empty|]. by split; intros b; cbn.
Qed.

(** *** No call waits for ever *)

Lemma phase_goes_on t o k b C S r h :
  table_sim C S → sthreads C !! t = Some (o, k) → phase (sdata C) o k h r → holds C t h → h = Reads b ∨ h = Writes b →
  is_Some (sexec table_code (SRuns t) C).
Proof.
  intros Hs Ht Hp [Hw Hr] Hb. cbn [sexec]. rewrite Ht.
  destruct Hp; try (by destruct Hb); cbn [exec_scode value_found update_found]; try by eexists.
  - destruct (look_ends _ _ _ _); by eexists.
  - rewrite decide_True by (by apply Hr). by eexists.
  - destruct (look_ends _ _ _ _); by eexists.
  - rewrite decide_True by (by apply Hw). by eexists.
Qed.

(** Whoever holds a mutex can go on. *)
Lemma holder_goes_on t b C S :
  table_sim C S → (writers C !! b = Some t ∨ (b, t) ∈ readers C) → is_Some (sexec table_code (SRuns t) C).
Proof.
  intros Hs Hlock. pose proof (ts_thread _ _ Hs t) as Hth. unfold thread_ok in Hth.
  assert (∀ h, holds C t h → h = Reads b ∨ h = Writes b) as Hh.
  { intros h [Hw Hr]. destruct Hlock; [right; by apply Hw|left; by apply Hr]. }
  destruct (sthreads C !! t) as [[o k]|] eqn:Ht; [|by destruct Hth as [_ [|]%Hh]].
  destruct Hth as (h&r&_&Hp&Hholds). eapply phase_goes_on; eauto.
Qed.

Lemma some_thread_goes_on t o k C S :
  table_sim C S → sthreads C !! t = Some (o, k) → ∃ u, is_Some (sexec table_code (SRuns u) C).
Proof.
  intros Hs Ht. pose proof (ts_thread _ _ Hs t) as Hth. unfold thread_ok in Hth. rewrite Ht in Hth.
  destruct Hth as (h&r&_&Hp&Hh). destruct h as [|b|b]; [|by exists t; eapply phase_goes_on; eauto..].
  inversion Hp; subst; [by exists t; cbn; rewrite Ht| |by exists t; cbn; rewrite Ht].
  set (b := bucket_of (op_key o)) in *. destruct (writers C !! b) as [u|] eqn:Hw.
  { exists u. eapply holder_goes_on; eauto. }
  destruct o as [key d|key v]; [exists t; cbn; by rewrite Ht; cbn; rewrite Hw|].
  destruct (decide (set_Forall (λ x, x.1 ≠ b) (readers C))) as [Hfree|[[b' u] [Hin Hb]]%not_set_Forall_Exists]; [..|apply _].
  - exists t. cbn. rewrite Ht. cbn. rewrite decide_True by done. by eexists.
  - exists u. cbn in Hb. apply dec_stable in Hb. subst b'. eapply holder_goes_on; eauto.
Qed.
End Phases.

Context `{!Countable Key}.

(** C29: The table is linearizable to a finite map: whatever the hash function
    and however many buckets there are, under any interleaving of threads that
    look keys up and update them each call takes effect at one point between
    its call and its return, and as long as a call is in progress some thread
    can go on; a table without buckets divides by zero at its first call. *)
Theorem lookup_table_linearizable (num_bukets : Z) :
  if 0 <? num_bukets then
    linearizes (sexec table_code) table_effect (sinitial (lookup_table_ctor num_bukets)) ∅ ∧
    ∀ chs es C, run_steps (sexec table_code) chs (sinitial (lookup_table_ctor num_bukets)) = Some (es, C) →
      sthreads C ≠ ∅ → ∃ t, is_Some (sexec table_code (SRuns t) C)
  else ∀ t o, fst <$> run_steps (sexec table_code) [SCalls t o; SRuns t; SRuns t] (sinitial (lookup_table_ctor num_bukets)) =
    Some [Called t o; Crashed (Undefined "% 0")].
Proof.
  destruct (Z.ltb_spec 0 num_bukets) as [Hn|Hn].
  - split.
    + apply (forward_simulation _ _ (table_sim num_bukets)); [by apply sim_initial|].
      intros ch C S oe C' Hs E. by eapply sim_step.
    + intros chs es C Hrun Hne.
      apply (run_steps_ind _ (λ C, ∃ S, table_sim num_bukets C S) (λ _, True)) in Hrun as [[S Hs] _].
      * apply map_choose in Hne as (t&[o k]&Ht). by eapply some_thread_goes_on.
      * intros ch C0 oe C1 _ [S Hs] E. split; [|done].
        apply (sim_step num_bukets Hn) with (S := S) in E as [[_ ?]|(S'&_&?)]; eauto.
      * exists (mkA ∅ ∅). by apply sim_initial.
  - intros t o. unfold lookup_table_ctor. replace (Z.to_nat num_bukets) with O by lia.
    cbn. rewrite lookup_empty. cbn. rewrite lookup_insert_eq. cbn. by rewrite lookup_insert_eq.
Qed.
End Table.

(** A lookup that starts while another thread updates the bucket waits for the
    update to end; two lookups run together. *)
Example table_threads_run :
  fst <$> run_steps (sexec (table_code (λ k : Z, k)))
    ([SCalls 1 (OpUpdate 4 40)] ++ replicate 3 (SRuns 1) ++ [SCalls 2 (OpValueFor 4 0); SRuns 2] ++ replicate 3 (SRuns 1)
     ++ [SRuns 2] ++ [SCalls 3 (OpValueFor 1 7)] ++ replicate 2 (SRuns 3) ++ replicate 4 (SRuns 2)
     ++ replicate 4 (SRuns 3)) (sinitial (lookup_table_ctor 3))
  = Some [Called 1 (OpUpdate 4 40); Called 2 (OpValueFor 4 0); Returned 1 []; Called 3 (OpValueFor 1 7);
          Returned 2 [40]; Returned 3 [7]].
Proof. vm_compute. reflexivity. Qed.
