(* ===== verification/Guards.v ===== *)
(** * Guards

    [thread/Mutex.h] and [thread/thread_guard.cc]: a mutex that knows its
    holder, and an object that joins a thread when it goes out of scope. Nothing
    in the repository includes them. The mutex is used here the way its
    interface means it to be, locked and unlocked by the same thread;
    [MutexLockGuard], which is to do so, binds its reference to itself. *)
From S2P Require Import Prelude Threads.
Local Open Scope Z_scope.

(** ** MutexLock *)

Module MutexLock.
Section MutexLock.
(** [CurrentThread::tid()] of each thread: kernel ids differ and are positive. *)
Context (tid : nat → Z) (tid_pos : ∀ t, 0 < tid t) (tid_inj : ∀ t u, tid t = tid u → t = u).

(** What threads do with a mutex: a critical section in which it is asked [n]
    times whether the caller holds it, or the question alone, from outside one.
    The result is the answers. *)
Inductive op := Critical (t n : nat) | Ask (t : nat).
Definition caller (o : op) : nat := match o with Critical t _ | Ask t => t end.
Abbreviation mcode := (code Z (list bool) op) (only parsing).

(** The data is [holder_]; mutex 0 is [mutex_]. [t] is the calling thread. *)
Definition holder_ctor : Z := 0.
Definition lock (t : nat) (k : mcode) : mcode := Lock 0 (Act (λ _, tid t) (λ _, k)).
Definition unlock (k : mcode) : mcode := Act (λ _, 0) (λ _, Unlock 0 k).
Definition isLockedByThisThread (t : nat) (k : bool → mcode) : mcode := Act id (λ holder_, k (holder_ =? tid t)).
(** It is declared to return a [bool] and has no return statement. *)
Definition assertLocked (t : nat) : mcode :=
  isLockedByThisThread t (λ b,
    Terminate (if b then Undefined "no return value" else AssertFailed "isLockedByThisThread()")).
Definition MutexLock_dtor (k : mcode) : mcode :=
  Act id (λ holder_, if holder_ =? 0 then k else Terminate (AssertFailed "holder_ == 0")).

Fixpoint ask_times (t n : nat) (answers : list bool) : mcode :=
  match n with
  | O => unlock (Finish answers)
  | S n' => isLockedByThisThread t (λ b, ask_times t n' (answers ++ [b]))
  end.
Definition code_of (o : op) : mcode :=
  match o with
  | Critical t n => lock t (ask_times t n [])
  | Ask t => isLockedByThisThread t (λ b, Finish [b])
  end.

(** Threads make calls of their own. *)
Definition exec_own (ch : choice) (C : config Z (list bool) op) :=
  match ch with
  | Calls t o => if decide (caller o = t) then exec code_of ch C else None
  | _ => exec code_of ch C
  end.

(** The mutex answers yes inside, no outside. *)
Definition truthful (o : op) (_ : unit) : option (list bool * unit) :=
  match o with
  | Critical _ n => Some (replicate n true, tt)
  | Ask _ => Some ([false], tt)
  end.

(** *** Where a call is *)

(** What is left to do and the result of a call of thread [t], by the holder
    [h] and the owner [l] of the mutex. A critical section takes effect when it
    locks. *)
Inductive at_phase (t : nat) (h : Z) (l : option nat) : op → mcode → option (list bool) → Prop :=
  | at_start o : caller o = t → l ≠ Some t → at_phase t h l o (code_of o) None
  | at_set n : l = Some t → h = 0 →
      at_phase t h l (Critical t n) (Act (λ _, tid t) (λ _, ask_times t n [])) (Some (replicate n true))
  | at_ask n m i : l = Some t → h = tid t → (i + m = n)%nat →
      at_phase t h l (Critical t n) (ask_times t m (replicate i true)) (Some (replicate n true))
  | at_unlock n : l = Some t → h = 0 →
      at_phase t h l (Critical t n) (Unlock 0 (Finish (replicate n true))) (Some (replicate n true))
  | at_end o v : l ≠ Some t → at_phase t h l o (Finish v) (Some v).

Lemma at_phase_stable u h l h' l' o k r :
  at_phase u h l o k r → (l' = Some u → l = Some u) → (l = Some u → h' = h ∧ l' = l) → at_phase u h' l' o k r.
Proof.
  intros Hp Hl Hh. assert (l ≠ Some u → l' ≠ Some u) by tauto.
  destruct Hp; try (destruct (Hh ltac:(done)) as [-> ->]); constructor; auto.
Qed.

Abbreviation mconfig := (config Z (list bool) op) (only parsing).
Abbreviation abstract := (aconfig (list bool) op unit) (only parsing).
Implicit Types (C : mconfig) (S : abstract).

Definition thread_ok C S (t : nat) : Prop :=
  match threads C !! t with
  | None => calls S !! t = None ∧ locks C !! 0%nat ≠ Some t
  | Some (o, Running k) => ∃ r, calls S !! t = Some (o, r) ∧ at_phase t (data C) (locks C !! 0%nat) o k r
  | Some (_, Asleep _ _ _) => False
  end.

Record mutex_sim C S : Prop := {
  ms_holder : data C = 0 ∨ ∃ t, locks C !! 0%nat = Some t ∧ data C = tid t;
  ms_thread t : thread_ok C S t;
}.

(** Holder and owner become [h'] and [l'] at a step of thread [t]: it leaves
    both alone, or the mutex is its own, before and after, or free. *)
Definition turn (t : nat) C (h' : Z) (l' : option nat) : Prop :=
  (l' = locks C !! 0%nat ∧ h' = data C ∨ ∀ u, u ≠ t → locks C !! 0%nat ≠ Some u ∧ l' ≠ Some u) ∧
  (h' = 0 ∨ l' = Some t ∧ h' = tid t ∨ h' = data C ∧ l' = locks C !! 0%nat).

(** Thread [t] goes on with [k']; its call has the result [r]. *)
Lemma mutex_goes_on t o k k' r' h' l' C S :
  mutex_sim C S → threads C !! t = Some (o, Running k) →
  turn t C h' l' → at_phase t h' l' o k' r' →
  ∀ C', data C' = h' → locks C' !! 0%nat = l' → threads C' = <[t := (o, Running k')]> (threads C) →
  mutex_sim C' (mkA tt (<[t := (o, r')]> (calls S))).
Proof.
  intros [Hh Hth] Ht [Hothers Hh'] Hp C' Ed El Et. split.
  - rewrite Ed, El. destruct Hh' as [->|[[-> ->]|[-> ->]]]; [by left|right; by exists t|done].
  - intros u. specialize (Hth u). unfold thread_ok in *. rewrite Et, Ed, El. cbn [calls].
    destruct (decide (u = t)) as [->|Hne].
    { rewrite !lookup_insert_eq. by exists r'. }
    rewrite !lookup_insert_ne by done.
    destruct (threads C !! u) as [[o' [k1|]]|]; [|done|].
    + destruct Hth as (r1&Hc&Hp1). exists r1. split; [done|]. eapply at_phase_stable; [exact Hp1|..].
      * destruct Hothers as [[-> _]|Ho]; [done|]. by intros ?%Ho.
      * destruct Hothers as [[-> ->]|Ho]; [done|]. by intros ?%Ho.
    + destruct Hth as [? Hn]. split; [done|]. destruct Hothers as [[-> _]|Ho]; [done|]. by apply Ho.
Qed.

Definition simulated C' S (oe : option (@event (list bool) op)) : Prop :=
  (oe = None ∧ mutex_sim C' S) ∨ ∃ S', astep truthful S oe S' ∧ mutex_sim C' S'.

Lemma same_calls t o r S : calls S !! t = Some (o, r) → mkA tt (<[t := (o, r)]> (calls S)) = S.
Proof. intros Hc. rewrite insert_id by done. by destruct S as [[]]. Qed.

Lemma mutex_runs t w C S oe C' :
  mutex_sim C S → exec code_of (Runs t w) C = Some (oe, C') → simulated C' S oe.
Proof.
  intros Hs Hexec. pose proof (ms_thread _ _ Hs t) as Hth. unfold thread_ok in Hth. cbn [exec] in Hexec.
  destruct (threads C !! t) as [[o [k|]]|] eqn:Ht; [|done..]. destruct Hth as (r&Hc&Hp).
  assert (∀ k' h' l' C',
    turn t C h' l' → data C' = h' → locks C' !! 0%nat = l' → threads C' = <[t := (o, Running k')]> (threads C) →
    at_phase t h' l' o k' r → simulated C' S None) as Hgo.
  { intros k' h' l' C1 Ho Ed El Et Hp'. left. split; [done|]. rewrite <- (same_calls t o r S Hc).
    by eapply mutex_goes_on. }
  assert (∀ k' h' l' v C',
    turn t C h' l' → data C' = h' → locks C' !! 0%nat = l' → threads C' = <[t := (o, Running k')]> (threads C) →
    r = None → truthful o tt = Some (v, tt) → at_phase t h' l' o k' (Some v) → simulated C' S None) as Htake.
  { intros k' h' l' v C1 Ho Ed El Et -> Hv Hp'. right. exists (mkA tt (<[t := (o, Some v)]> (calls S))).
    split; [eapply (astep_effect truthful); [done|by destruct S as [[]]]|]. by eapply mutex_goes_on. }
  pose proof (ms_holder _ _ Hs) as Hholder.
  destruct Hp as [o Ho Hl|n Hl Hh|n m i Hl Hh Hn|n Hl Hh|o v Hl].
  - destruct o as [t' n|t']; cbn [caller] in Ho; subst t'; cbn [code_of lock exec_code isLockedByThisThread] in Hexec.
    + destruct (locks C !! 0%nat) as [u|] eqn:Eu; [done|]. injection Hexec as <- <-.
      assert (data C = 0) as H0 by (by destruct Hholder as [?|(?&?&_)]).
      eapply (Htake _ (data C) (Some t)); cbn; try done.
      * split; [right|by left]. intros u Hne. split; congruence.
      * apply lookup_insert_eq.
      * by constructor.
    + injection Hexec as <- <-. eapply (Htake _ (data C) (locks C !! 0%nat)); cbn; try done; [by split; auto|].
      replace (data C =? tid t) with false; [by constructor|]. symmetry. apply Z.eqb_neq.
      destruct Hholder as [->|(u&Hu&->)]; [pose proof (tid_pos t); lia|]. intros ->%tid_inj. done.
  - injection Hexec as <- <-. eapply (Hgo _ (tid t) (Some t)); cbn; try done.
    + split; [right|by auto]. rewrite Hl. intros u Hne. split; congruence.
    + by apply (at_ask t (tid t) (Some t) n n 0).
  - destruct m as [|m]; cbn in Hexec; injection Hexec as <- <-.
    + eapply (Hgo _ 0 (Some t)); cbn; try done.
      * split; [right|by auto]. rewrite Hl. intros u Hne. split; congruence.
      * rewrite Nat.add_0_r in Hn. subst i. by constructor.
    + eapply (Hgo _ (data C) (Some t)); cbn; try done; [by split; auto|].
      rewrite Hh, Z.eqb_refl. change [true] with (replicate 1 true). rewrite <- replicate_add, Nat.add_comm.
      apply at_ask; [done|done|lia].
  - cbn in Hexec. rewrite decide_True in Hexec by done. injection Hexec as <- <-.
    eapply (Hgo _ (data C) None); cbn; try done; [|apply lookup_delete_eq|by constructor].
    split; [right|by auto]. rewrite Hl. intros u Hne. split; congruence.
  - injection Hexec as <- <-. right. exists (mkA tt (delete t (calls S))).
    split; [destruct S as [[] ?]; by eapply (astep_return truthful)|]. split; [done|]. intros u.
    pose proof (ms_thread _ _ Hs u) as Hu. unfold thread_ok in *. cbn.
    destruct (decide (u = t)) as [->|Hne]; [by rewrite !lookup_delete_eq|by rewrite !lookup_delete_ne].
Qed.

Lemma mutex_own ch C S oe C' : mutex_sim C S → exec_own ch C = Some (oe, C') → simulated C' S oe.
Proof.
  destruct ch as [t o|t w|t]; [|apply mutex_runs|]; intros Hs; cbn [exec_own exec];
    pose proof (ms_thread _ _ Hs t) as Hth; unfold thread_ok in Hth.
  - case_decide as Ho; [|done]. destruct (threads C !! t) eqn:Ht; [done|]. intros [= <- <-].
    destruct Hth as [Hc Hl]. right. exists (mkA tt (<[t := (o, None)]> (calls S))).
    split; [destruct S as [[] ?]; by apply (astep_call truthful)|].
    split; [exact (ms_holder _ _ Hs)|]. intros u. pose proof (ms_thread _ _ Hs u) as Hu. unfold thread_ok in *. cbn.
    destruct (decide (u = t)) as [->|Hne]; [|by rewrite !lookup_insert_ne].
    rewrite !lookup_insert_eq. exists None. split; [done|by constructor].
  - destruct (threads C !! t) as [[o [k|c m k]]|]; done.
Qed.

(** The mutex tells the truth: under any interleaving of threads, a thread in a
    critical section that asks whether it holds the mutex is told that it does,
    each time, and one outside that it does not; and nothing crashes. *)
Theorem holder_is_truthful : linearizes exec_own truthful (initial holder_ctor) tt.
Proof.
  apply (forward_simulation _ _ mutex_sim); [|intros ?????; apply mutex_own]. split; [by left|].
  intros t. unfold thread_ok. cbn. by rewrite !lookup_empty.
Qed.
End MutexLock.

(** Asked twice inside, while another thread asks and waits. *)
Example mutex_lock_run :
  fst <$> run_steps (exec_own (λ t, Z.of_nat t + 1))
    [Calls 1 (Critical 1 2); Runs 1 None; Runs 1 None; Calls 2 (Ask 2); Runs 2 None; Runs 1 None; Runs 2 None;
     Calls 2 (Critical 2 0); Runs 1 None; Runs 1 None; Runs 1 None; Runs 2 None; Runs 1 None;
     Runs 2 None; Runs 2 None; Runs 2 None; Runs 2 None] (initial holder_ctor)
  = Some [Called 1 (Critical 1 2); Called 2 (Ask 2); Returned 2 [false]; Called 2 (Critical 2 0);
          Returned 1 [true; true]; Returned 2 []].
Proof. vm_compute. reflexivity. Qed.
End MutexLock.

(** ** thread_guared *)

Module ThreadGuard.
(** The [std::thread] that a guard refers to: whether it is joinable, and how
    often it was joined. *)
Record thread := mkThread { joinable : bool; joins : nat }.
#[export] Instance eta_thread : Eta thread := λ t, mkThread (joinable t) (joins t).

Definition join : M thread unit := modify (λ t, t <| joinable := false |> <| joins ::= S |>).

(** [~thread]: [std::terminate] when it is joinable. *)
Definition thread_dtor : M thread unit := t ← get; if joinable t then fails Aborted else mret tt.

Definition thread_guared_dtor : M thread unit := t ← get; whenM (joinable t) join.

(** Whatever is done with a thread under a guard, when the guard and then the
    thread are destroyed the thread has ended or was let go, and the process
    goes on; without the guard a thread left joinable ends it. *)
Theorem guard_joins (body : M thread unit) (t t' : thread) :
  body t = Ret tt t' →
  (body;; thread_guared_dtor;; thread_dtor) t =
    Ret tt (mkThread false (if joinable t' then S (joins t') else joins t')) ∧
  (joinable t' = true → (body;; thread_dtor) t = Crash Aborted).
Proof.
  intros Hb. destruct t' as [b n]. unfold mbind, M_bind. rewrite Hb. split; [by destruct b|]. by intros [= ->].
Qed.
End ThreadGuard.
