(* ===== verification/PendingCalls.v ===== *)
(** * PendingCalls

    The calls queued to a loop, [queueInLoop] and [doPendingFunctions] of
    [reactor/EventLoop.cc], with the threads that queue them running at the
    same time as the loop's. [EventLoop.v] has the same functions as the
    loop's own thread sees them. An access to the vector is a read and a write,
    so that it needs the mutex. *)
From S2P Require Import Prelude Threads.

Section PendingCalls.
Context {F : Type}.
(** The calls that a queued call queues in turn; the thread of the loop. *)
Context (queues : F → list F) (loop_thread : nat).

(** [callingdoPendingFunctions_], [pendingFunctors_], the counter of the
    eventfd, and two histories: the calls queued, and those run. *)
Record loop_data := mkLoopData {
  calling : bool;
  pending : list F;
  wakeups : nat;
  queued : list F;
  ran : list F;
}.
#[export] Instance eta_loop_data : Eta loop_data := λ d,
  mkLoopData (calling d) (pending d) (wakeups d) (queued d) (ran d).
Definition loop_data_ctor : loop_data := mkLoopData false [] 0 [] [].

Inductive op := QueueInLoop (in_loop : bool) (cb : F) | DoPendingFunctions.
Abbreviation pcode := (code loop_data unit op) (only parsing).
Abbreviation pconfig := (config loop_data unit op) (only parsing).
Implicit Types (d : loop_data) (p rest : list F) (t u : nat) (k : pcode).

Definition write_wakeup d : loop_data := d <| wakeups ::= S |>.
Definition set_calling (b : bool) d : loop_data := d <| calling := b |>.
(** [push_back] on the vector read as [p]. *)
Definition push_back p (cb : F) d : loop_data :=
  d <| pending := p ++ [cb] |> <| queued ::= λ q, q ++ [cb] |>.
Definition clear d : loop_data := d <| pending := [] |>.
Definition call (cb : F) d : loop_data := d <| ran ::= λ l, l ++ [cb] |>.

(** [in_loop]: whether the calling thread is the loop's. *)
Definition wake_code (in_loop : bool) k : pcode :=
  if in_loop then Act write_wakeup (λ _, k)
  else Act id (λ d, if calling d then Act write_wakeup (λ _, k) else k).
Definition queue_code (in_loop : bool) (cb : F) k : pcode :=
  Lock 0 (Act id (λ d, Act (push_back (pending d) cb) (λ _, Unlock 0 (wake_code in_loop k)))).

(** [for(Function func : functions) func();] *)
Definition run_code (cb : F) k : pcode := Act (call cb) (λ _, foldr (queue_code true) k (queues cb)).
Definition pass_code : pcode :=
  Act (set_calling true) (λ _,
    Lock 0 (Act id (λ d, Act clear (λ _, Unlock 0
      (foldr run_code (Act (set_calling false) (λ _, Finish tt)) (pending d)))))).

Definition code_of (o : op) : pcode :=
  match o with
  | QueueInLoop in_loop cb => queue_code in_loop cb (Finish tt)
  | DoPendingFunctions => pass_code
  end.

(** Only the loop's thread runs the pass. *)
Definition by_loop (ch : choice (Op := op)) : Prop :=
  match ch with Calls t DoPendingFunctions => t = loop_thread | _ => True end.

(** ** What a thread knows and still has to run *)

(** Without the mutex, with it, or with it and having read the vector. *)
Inductive knows := Nothing | Holds | Read (p : list F).

(** [safe lp k kn rest]: a thread that knows [kn], the loop's if [lp], can go
    on with [k], in which it runs the calls [rest]. *)
Inductive safe (lp : bool) : pcode → knows → list F → Prop :=
  | safe_finish : safe lp (Finish tt) Nothing []
  | safe_lock k rest : safe lp k Holds rest → safe lp (Lock 0 k) Nothing rest
  | safe_unlock k rest : safe lp k Nothing rest → safe lp (Unlock 0 k) Holds rest
  | safe_read (k : loop_data → pcode) rest :
      (∀ d, safe lp (k d) (Read (pending d)) rest) → safe lp (Act id k) Holds rest
  | safe_push (k : loop_data → pcode) p cb rest :
      (∀ d, safe lp (k d) Holds rest) → safe lp (Act (push_back p cb) k) (Read p) rest
  | safe_clear (k : loop_data → pcode) p :
      lp = true → (∀ d, safe lp (k d) Holds p) → safe lp (Act clear k) (Read p) []
  | safe_call (k : loop_data → pcode) cb rest :
      lp = true → (∀ d, safe lp (k d) Nothing rest) → safe lp (Act (call cb) k) Nothing (cb :: rest)
  | safe_other g (k : loop_data → pcode) rest :
      (∀ d, (pending (g d), queued (g d), ran (g d)) = (pending d, queued d, ran d)) →
      (∀ d, safe lp (k d) Nothing rest) → safe lp (Act g k) Nothing rest.

Lemma safe_queue_code lp in_loop cb k rest :
  safe lp k Nothing rest → safe lp (queue_code in_loop cb k) Nothing rest.
Proof.
  intros Hk. apply safe_lock, safe_read. intros d. apply safe_push. intros _. apply safe_unlock.
  destruct in_loop; cbn; (apply safe_other; [done|]); intros d'; [done|].
  destruct (calling d'); [|done]. by apply safe_other.
Qed.

Lemma safe_pass_code : safe true pass_code Nothing [].
Proof.
  apply safe_other; [done|]. intros _. apply safe_lock, safe_read. intros d. apply safe_clear; [done|]. intros _.
  apply safe_unlock. induction (pending d) as [|cb p IH]; cbn [foldr].
  - apply safe_other; [done|]. intros _. constructor.
  - apply safe_call; [done|]. intros _. induction (queues cb) as [|cb' cbs IH']; [done|]. by apply safe_queue_code.
Qed.

Lemma calls_safe_code t o : by_loop (Calls t o) → safe (bool_decide (t = loop_thread)) (code_of o) Nothing [].
Proof.
  destruct o; cbn; [intros _; apply safe_queue_code; constructor|].
  intros ->. rewrite bool_decide_true by done. apply safe_pass_code.
Qed.

(** ** The invariant *)

Definition knows_ok (L : gmap nat nat) d t (kn : knows) : Prop :=
  match kn with
  | Nothing => True
  | Holds => L !! 0 = Some t
  | Read p => L !! 0 = Some t ∧ pending d = p
  end.

(** What thread [t] still has to run. *)
Definition owed rest t : list F := if decide (t = loop_thread) then rest else [].

Definition thread_ok (L : gmap nat nat) d rest t (x : option (op * tstate loop_data unit op)) : Prop :=
  match x with
  | None => owed rest t = []
  | Some (_, Running k) => ∃ kn, safe (bool_decide (t = loop_thread)) k kn (owed rest t) ∧ knows_ok L d t kn
  | Some (_, Asleep _ _ _) => False
  end.

(** Every call queued has been run, is about to be run by the pass, or is
    pending, in the order in which they were queued. *)
Record calls_inv rest (C : pconfig) : Prop := {
  ci_order : ran (data C) ++ rest ++ pending (data C) = queued (data C);
  ci_threads : ∀ t, thread_ok (locks C) (data C) rest t (threads C !! t);
}.

(** The other threads when [t] takes a step. *)
Lemma thread_ok_other L d rest L' d' rest' t u x :
  u ≠ t → thread_ok L d rest u x →
  (u = loop_thread → rest' = rest) →
  (L !! 0 = Some u → L' !! 0 = Some u ∧ pending d' = pending d) → thread_ok L' d' rest' u x.
Proof.
  intros Hut Hx Hrest Hl.
  assert (owed rest' u = owed rest u) as Ho by (unfold owed; case_decide; auto).
  destruct x as [[o [k|]]|]; cbn in *; [|done|by rewrite Ho]. rewrite Ho. destruct Hx as (kn&Hs&Hk).
  exists kn. split; [done|]. destruct kn; cbn in *; [done| |]; naive_solver.
Qed.

Lemma calls_inv_step rest rest' (C C' : pconfig) t o k kn :
  calls_inv rest C →
  threads C' = <[t := (o, Running k)]> (threads C) →
  ran (data C') ++ rest' ++ pending (data C') = queued (data C') →
  (t ≠ loop_thread → rest' = rest) →
  (∀ u, u ≠ t → locks C !! 0 = Some u → locks C' !! 0 = Some u ∧ pending (data C') = pending (data C)) →
  safe (bool_decide (t = loop_thread)) k kn (owed rest' t) → knows_ok (locks C') (data C') t kn →
  calls_inv rest' C'.
Proof.
  intros [Ho Ht] Eth Ho' Hrest Hl Hs Hk. split; [done|]. intros u. rewrite Eth.
  destruct (decide (u = t)) as [->|Hu]; [rewrite lookup_insert_eq; by exists kn|].
  rewrite lookup_insert_ne by done. eapply thread_ok_other; [exact Hu|by apply Ht| |by apply Hl].
  intros ->. by apply Hrest.
Qed.

Lemma owed_loop rest : owed rest loop_thread = rest.
Proof. unfold owed. by rewrite decide_True. Qed.
Lemma owed_other rest t : t ≠ loop_thread → owed rest t = [].
Proof. intros. unfold owed. by rewrite decide_False. Qed.

(** What a step does to the histories: nothing is forgotten. *)
Definition grows rest rest' (C C' : pconfig) : Prop :=
  ran (data C) ++ rest `prefix_of` ran (data C') ++ rest' ∧ queued (data C) `prefix_of` queued (data C').

(** A step of running code. *)
Lemma calls_run_step rest (C C' : pconfig) t o k w oe :
  calls_inv rest C → threads C !! t = Some (o, Running k) → exec_code code_of t o k w C = Some (oe, C') →
  ∃ rest', calls_inv rest' C' ∧ grows rest rest' C C' ∧ (∀ r, oe ≠ Some (Crashed r)) ∧
    ∀ u, u ≠ t → threads C' !! u = threads C !! u.
Proof.
  intros Hinv Ht Hexec. pose proof (ci_threads _ _ Hinv t) as Hok. rewrite Ht in Hok.
  pose proof (ci_order _ _ Hinv) as Ho. destruct Hok as (kn&Hs&Hk). remember (owed rest t) as r eqn:Er.
  assert (∀ u, u ≠ t → locks C !! 0 = Some u → locks C !! 0 = Some t → False) as Hexcl by congruence.
  assert (∀ u (x : op * tstate loop_data unit op), u ≠ t → <[t := x]> (threads C) !! u = threads C !! u) as Hth
    by (intros; by rewrite lookup_insert_ne).
  destruct Hs as [|k r Hs|k r Hs|k r Hs|k p cb r Hs|k p Hlp Hs|k cb r Hlp Hs|g k r Hg Hs];
    cbn [exec_code] in Hexec; cbn [knows_ok] in Hk.
  - injection Hexec as <- <-. exists rest. split_and!; [|done|done|].
    2: { intros u Hu. cbn. by rewrite lookup_delete_ne. }
    split; [done|]. intros u. cbn.
    destruct (decide (u = t)) as [->|Hu]; [by rewrite lookup_delete_eq|rewrite lookup_delete_ne by done].
    apply Hinv.
  - destruct (locks C !! 0) eqn:El; [done|]. injection Hexec as <- <-. exists rest.
    split_and!; [|done|done|intros; by apply Hth].
    eapply calls_inv_step; cbn; [exact Hinv|done|done|done|congruence|by rewrite <- Er|].
    cbn; by rewrite lookup_insert_eq.
  - rewrite decide_True in Hexec by done. injection Hexec as <- <-. exists rest.
    split_and!; [|done|done|intros; by apply Hth].
    eapply calls_inv_step; cbn; [exact Hinv|done|done|done| |by rewrite <- Er|done]. intros; by exfalso; eauto.
  - injection Hexec as <- <-. exists rest. split_and!; [|done|done|intros; by apply Hth].
    eapply calls_inv_step; cbn; [exact Hinv|done|done|done|done|rewrite <- Er; apply Hs|done].
  - injection Hexec as <- <-. destruct Hk as [Hl <-]. exists rest.
    split_and!; [|split; [done|by exists [cb]]|done|intros; by apply Hth].
    eapply calls_inv_step; cbn; [exact Hinv|done| |done| |rewrite <- Er; apply Hs|done].
    + by rewrite <- Ho, !app_assoc.
    + intros; by exfalso; eauto.
  - injection Hexec as <- <-. destruct Hk as [Hl <-]. apply bool_decide_eq_true in Hlp as ->.
    rewrite owed_loop in Er. subst rest. exists (pending (data C)).
    split_and!; [|split; [by apply prefix_app, prefix_nil|done]|done|intros; by apply Hth].
    eapply calls_inv_step; cbn; [exact Hinv|done| |done| |rewrite owed_loop; apply Hs|done].
    + by rewrite app_nil_r.
    + intros; by exfalso; eauto.
  - injection Hexec as <- <-. apply bool_decide_eq_true in Hlp as ->.
    rewrite owed_loop in Er. subst rest. exists r.
    split_and!; [|split; [cbn; by rewrite <- app_assoc|done]|done|intros; by apply Hth].
    eapply calls_inv_step; cbn; [exact Hinv|done| |done|done|rewrite owed_loop; apply Hs|done].
    by rewrite <- app_assoc.
  - injection Hexec as <- <-. specialize (Hg (data C)). injection Hg as Ep Eq Ea.
    exists rest. split_and!; [|split; cbn; [by rewrite Ea|by rewrite Eq]|done|intros; by apply Hth].
    eapply calls_inv_step; cbn; [exact Hinv|done|by rewrite Ep, Eq, Ea|done|done|rewrite <- Er; apply Hs|done].
Qed.

Definition actor (ch : choice (Op := op)) : nat := match ch with Calls t _ | Runs t _ | Wakes t => t end.

Lemma calls_step rest ch (C C' : pconfig) oe :
  by_loop ch → calls_inv rest C → exec code_of ch C = Some (oe, C') →
  ∃ rest', calls_inv rest' C' ∧ grows rest rest' C C' ∧ (∀ r, oe ≠ Some (Crashed r)) ∧
    ∀ u, u ≠ actor ch → threads C' !! u = threads C !! u.
Proof.
  intros Hch Hinv Hexec. destruct ch as [t o|t w|t]; cbn [exec] in Hexec; pose proof (ci_threads _ _ Hinv t) as Ht.
  - destruct (threads C !! t) eqn:Et; [done|]. injection Hexec as <- <-. exists rest. split_and!; [|done|done|].
    2: { intros u Hu. cbn in *. by rewrite lookup_insert_ne. }
    eapply (calls_inv_step _ _ _ _ _ _ _ Nothing); cbn; [exact Hinv|done|apply Hinv|done|done| |done].
    cbn in Ht. rewrite Ht. by apply calls_safe_code.
  - destruct (threads C !! t) as [[o [k|]]|] eqn:Et; try done. by eapply calls_run_step.
  - destruct (threads C !! t) as [[o [|c m k]]|]; [done|by destruct Ht|done].
Qed.

Lemma calls_inv_initial : calls_inv [] (initial loop_data_ctor).
Proof. split; [done|]. intros t. cbn. rewrite lookup_empty. cbn. unfold owed. by case_decide. Qed.

(** Executions, one choice at a time. *)
Definition no_crash (e : event (V := unit) (Op := op)) : Prop := ∀ r, e ≠ Crashed r.

Lemma run_schedule_ind (P : pconfig → Prop) chs es (C C' : pconfig) :
  (∀ ch C C1 oe, ch ∈ chs → P C → exec code_of ch C = Some (oe, C1) → P C1 ∧ ∀ r, oe ≠ Some (Crashed r)) →
  P C → run_schedule code_of chs C = Some (es, C') → P C' ∧ ∀ r, Crashed r ∉ es.
Proof.
  intros Hstep HP Hrun. apply (run_steps_ind _ P no_crash) in Hrun as [HP' Hes]; [| |exact HP].
  - split; [done|]. intros r Hin. rewrite Forall_forall in Hes. by apply (Hes _ Hin r).
  - intros ch C0 oe C1 Hch HP0 E. destruct (Hstep _ _ _ _ Hch HP0 E) as [HP1 Hnc]. split; [done|].
    intros e -> r ->. by apply (Hnc r).
Qed.

Lemma calls_reach chs es (C C' : pconfig) :
  Forall by_loop chs → (∃ rest, calls_inv rest C) → run_schedule code_of chs C = Some (es, C') →
  (∃ rest, calls_inv rest C') ∧ ∀ r, Crashed r ∉ es.
Proof.
  intros Hchs. apply (run_schedule_ind (λ C, ∃ rest, calls_inv rest C)). intros ch C0 C1 oe Hch [rest Hinv] Hexec. rewrite Forall_forall in Hchs.
  destruct (calls_step rest ch C0 C1 oe (Hchs _ Hch) Hinv Hexec) as (rest'&?&_&?&_). split; [by exists rest'|done].
Qed.

(** ** What a pass runs *)

(** The pass before it has emptied the vector. *)
Definition after_clear p : pcode :=
  Unlock 0 (foldr run_code (Act (set_calling false) (λ _, Finish tt)) p).
Inductive pre_clear : pcode → Prop :=
  | pre_pass : pre_clear pass_code
  | pre_lock : pre_clear (Lock 0 (Act id (λ d, Act clear (λ _, after_clear (pending d)))))
  | pre_read : pre_clear (Act id (λ d, Act clear (λ _, after_clear (pending d))))
  | pre_empty p : pre_clear (Act clear (λ _, after_clear p)).

Lemma pre_clear_step (C C' : pconfig) t o k w oe :
  pre_clear k → exec_code code_of t o k w C = Some (oe, C') →
  (∃ k', threads C' !! t = Some (o, Running k') ∧ pre_clear k') ∨ pending (data C') = [].
Proof.
  intros Hk Hexec. destruct Hk; cbn [exec_code pass_code] in Hexec.
  - injection Hexec as <- <-. left. eexists. split; [apply lookup_insert_eq|constructor].
  - destruct (locks C !! 0); [done|]. injection Hexec as <- <-. left. eexists.
    split; [apply lookup_insert_eq|constructor].
  - injection Hexec as <- <-. left. eexists. split; [apply lookup_insert_eq|constructor].
  - injection Hexec as <- <-. by right.
Qed.

(** Since the calls [base] were queued, the loop's thread is at the start of a
    pass, or has run these calls or is about to. *)
Definition pass_inv (base : list F) (C : pconfig) : Prop :=
  ∃ rest, calls_inv rest C ∧ base `prefix_of` queued (data C) ∧
    ((∃ o k, threads C !! loop_thread = Some (o, Running k) ∧ pre_clear k) ∨
     base `prefix_of` ran (data C) ++ rest).

Lemma pass_step base ch (C C' : pconfig) oe :
  by_loop ch → pass_inv base C → exec code_of ch C = Some (oe, C') →
  pass_inv base C' ∧ ∀ r, oe ≠ Some (Crashed r).
Proof.
  intros Hch (rest&Hinv&Hq&Hpre) Hexec.
  destruct (calls_step rest ch C C' oe Hch Hinv Hexec) as (rest'&Hinv'&[Hg1 Hg2]&Hnc&Hoth). split; [|done].
  exists rest'. split; [done|]. assert (base `prefix_of` queued (data C')) as Hq' by (by etrans).
  split; [done|]. destruct Hpre as [(o&k&Hl&Hk)|Hr]; [|right; etrans; [exact Hr|exact Hg1]].
  destruct (decide (loop_thread = actor ch)) as [E|Hne]; [|left; exists o, k; by rewrite Hoth].
  destruct ch as [t o'|t w|t]; cbn in E; subst t; cbn [exec] in Hexec; rewrite Hl in Hexec; [done| |done].
  destruct (pre_clear_step _ _ _ _ _ _ _ Hk Hexec) as [(k'&?&?)|Hp]; [left; by exists o, k'|right].
  pose proof (ci_order _ _ Hinv') as Ho. rewrite Hp, app_nil_r in Ho. by rewrite Ho.
Qed.

(** C5: calls queued to a loop from any threads, in any interleaving with the
    loop's own passes and with the calls that they queue themselves, are run
    by the loop's thread exactly once each and in the order in which they were
    queued; and once a pass that starts after a call was queued is over, that
    call has been run. *)
Theorem pending_calls_run (chs1 chs2 : list (choice (Op := op))) es1 es2 (C1 C2 : pconfig)
  (Hloop : Forall by_loop (chs1 ++ Calls loop_thread DoPendingFunctions :: chs2))
  (Hrun1 : run_schedule code_of chs1 (initial loop_data_ctor) = Some (es1, C1))
  (Hrun2 : run_schedule code_of (Calls loop_thread DoPendingFunctions :: chs2) C1 = Some (es2, C2))
  (Hover : threads C2 !! loop_thread = None) :
  ran (data C2) ++ pending (data C2) = queued (data C2) ∧
  queued (data C1) `prefix_of` ran (data C2) ∧
  ∀ r, Crashed r ∉ es1 ++ es2.
Proof.
  apply Forall_app in Hloop as [Hl1 Hl2]. inversion Hl2 as [|? ? _ Hl2']; subst.
  destruct (calls_reach chs1 es1 (initial loop_data_ctor) C1 Hl1) as [[rest Hinv] Hnc1];
    [by exists []; apply calls_inv_initial|done|].
  cbn [run_steps exec] in Hrun2. destruct (threads C1 !! loop_thread) eqn:Et; [done|].
  destruct (run_schedule _ chs2 _) as [[es C]|] eqn:E2; [|done]. injection Hrun2 as <- ->.
  destruct (calls_step rest (Calls loop_thread DoPendingFunctions) C1 _ _ eq_refl Hinv
    ltac:(cbn; by rewrite Et)) as (rest'&Hinv'&_).
  apply (run_schedule_ind (pass_inv (queued (data C1)))) in E2 as [(rest2&Hinv2&_&Hpre) Hnc2].
  - pose proof (ci_threads _ _ Hinv2 loop_thread) as Hth. rewrite Hover in Hth. cbn in Hth. rewrite owed_loop in Hth.
    subst rest2. pose proof (ci_order _ _ Hinv2) as Ho. cbn in Ho. split; [done|]. split.
    + destruct Hpre as [(o&k&Hk&_)|Hr]; [congruence|by rewrite app_nil_r in Hr].
    + intros r. rewrite elem_of_app, elem_of_cons. intros [Hin|[|Hin]]; [by eapply Hnc1|done|by eapply Hnc2].
  - intros ch C C' oe Hch. apply pass_step. rewrite Forall_forall in Hl2'. by apply Hl2'.
  - exists rest'. split; [done|]. split; [done|]. left. eexists _, _. split; [apply lookup_insert_eq|constructor].
Qed.
End PendingCalls.

(** ** A concrete execution *)

Module PendingDemo.
(** An odd call queues its successor; thread 1 is the loop's. *)
Definition queues (n : nat) : list nat := if Nat.odd n then [S n] else [].
Definition steps (t n : nat) : list (choice (Op := op (F := nat))) := replicate n (Runs t None).
(** Thread 2 queues the call 3; while the loop's thread makes a pass, thread 3
    queues the call 8. *)
Definition before : list (choice (Op := op (F := nat))) :=
  Calls 2 (QueueInLoop false 3) :: steps 2 6.
Definition during : list (choice (Op := op (F := nat))) :=
  steps 1 3 ++ Calls 3 (QueueInLoop false 8) :: steps 1 2 ++ steps 3 7 ++ steps 1 8.
Definition result (chs : list (choice (Op := op (F := nat)))) :=
  run_schedule (code_of queues) chs (initial loop_data_ctor).
Definition state (chs : list (choice (Op := op (F := nat)))) : config loop_data unit (op (F := nat)) :=
  match result chs with Some (_, C) => C | None => initial loop_data_ctor end.
End PendingDemo.

(** The call 8 and the call 4, which 3 has queued, are left for the next pass;
    thread 3 has found the pass under way and written to the eventfd. *)
Example pending_calls_execution :
  data (PendingDemo.state (PendingDemo.before ++ Calls 1 DoPendingFunctions :: PendingDemo.during)) =
  mkLoopData false [8; 4] 2 [3; 8; 4] [3].
Proof. by vm_compute. Qed.

Lemma pending_calls_run_witness :
  [3] `prefix_of`
    ran (data (PendingDemo.state (PendingDemo.before ++ Calls 1 DoPendingFunctions :: PendingDemo.during))).
Proof.
  destruct (pending_calls_run PendingDemo.queues 1 PendingDemo.before PendingDemo.during
    [Called 2 (QueueInLoop false 3); Returned 2 tt]
    [Called 1 DoPendingFunctions; Called 3 (QueueInLoop false 8); Returned 3 tt; Returned 1 tt]
    (PendingDemo.state PendingDemo.before)
    (PendingDemo.state (PendingDemo.before ++ Calls 1 DoPendingFunctions :: PendingDemo.during)))
    as (_&Hpre&_); [repeat constructor|vm_compute; reflexivity|vm_compute; reflexivity|vm_compute; reflexivity|].
  exact Hpre.
Defined.
