(* ===== verification/Monitor.v ===== *)
(** * Monitor

    A class whose functions do all their work on the data that one mutex
    protects in one critical section, possibly waiting on a condition variable
    at its beginning, is linearizable: this file reduces the interleavings of
    its threads to sequential reasoning about each function. Data that the
    mutex does not protect may be used anywhere. *)
From S2P Require Import Prelude Threads.

Section Monitor.
Context {D P V Op A : Type} (m : nat) (prot : D → P) (code_of entry : Op → code D V Op).
Context (abs : P → A → Prop) (effect : Op → A → option (V * A)).

(** An access to what the mutex does not protect. *)
Definition unprotected (g : D → D) : Prop := ∀ d, prot (g d) = prot d.

(** What may come before the critical section, and what may follow it. *)
Inductive before (op : Op) : code D V Op → Prop :=
  | before_lock : before op (Lock m (entry op))
  | before_act g k : unprotected g → (∀ d, before op (k d)) → before op (Act g k).
Inductive after (v : V) : code D V Op → Prop :=
  | after_finish : after v (Finish v)
  | after_notify c k : after v k → after v (NotifyOne c k)
  | after_act g k : unprotected g → (∀ d, after v (k d)) → after v (Act g k).
Context (Hcode : ∀ op, before op (code_of op)).

(** The rest [k] of a critical section, from the protected data [p], when the
    object was [a] at its beginning: it ends by going back to the beginning, by
    waiting, or by unlocking with the effect of the call done. *)
Inductive in_section (op : Op) : code D V Op → P → A → Prop :=
  | sec_again b k p a : entry op = Loop b k → abs p a → in_section op (Loop b k) p a
  | sec_act g k p p' a :
      (∀ d, prot d = p → prot (g d) = p') → (∀ d, prot d = p → in_section op (k d) p' a) →
      in_section op (Act g k) p a
  | sec_notify c k p a : in_section op k p a → in_section op (NotifyOne c k) p a
  | sec_wait c k p a : k = entry op → abs p a → in_section op (Wait c m k) p a
  | sec_unlock k p a v a' :
      effect op a = Some (v, a') → abs p a' → after v k → in_section op (Unlock m k) p a.

(** The sequential obligation of a function. *)
Definition function_ok (op : Op) : Prop := ∀ p a, abs p a →
  match entry op with
  | Loop b k => in_section op (plug (Loop b k) k b) p a
  | k => in_section op k p a
  end.
Context (Hok : ∀ op, function_ok op).

Lemma section_entry op p a : abs p a → in_section op (entry op) p a.
Proof.
  intros Habs. pose proof (Hok op p a Habs) as Hs. destruct (entry op) eqn:E; try exact Hs.
  by apply sec_again.
Qed.

(** A thread that does not own the mutex, and its call on the atomic object. *)
Inductive thread_rel : option (Op * tstate D V Op) → option (Op * option V) → Prop :=
  | rel_idle : thread_rel None None
  | rel_before op k : before op k → thread_rel (Some (op, Running k)) (Some (op, None))
  | rel_asleep op c k : k = entry op → thread_rel (Some (op, Asleep c m k)) (Some (op, None))
  | rel_after op k v : after v k → thread_rel (Some (op, Running k)) (Some (op, Some v)).

Definition monitor_rel (C : config D V Op) (S : aconfig V Op A) : Prop :=
  match locks C !! m with
  | None => abs (prot (data C)) (astate S) ∧ ∀ u, thread_rel (threads C !! u) (calls S !! u)
  | Some t =>
      (∃ op k, threads C !! t = Some (op, Running k) ∧ calls S !! t = Some (op, None) ∧
         in_section op k (prot (data C)) (astate S)) ∧
      ∀ u, u ≠ t → thread_rel (threads C !! u) (calls S !! u)
  end.

Lemma rel_owner t op k C S :
  locks C !! m = Some t → threads C !! t = Some (op, Running k) → calls S !! t = Some (op, None) →
  in_section op k (prot (data C)) (astate S) →
  (∀ u, u ≠ t → thread_rel (threads C !! u) (calls S !! u)) → monitor_rel C S.
Proof. intros Hl ????. unfold monitor_rel. rewrite Hl. split; [by exists op, k|done]. Qed.

Lemma rel_free C S :
  locks C !! m = None → abs (prot (data C)) (astate S) →
  (∀ u, thread_rel (threads C !! u) (calls S !! u)) → monitor_rel C S.
Proof. intros Hl ??. unfold monitor_rel. by rewrite Hl. Qed.

(** Waking a thread up leaves it before its critical section. *)
Lemma wake_rel (ts : gmap nat (Op * tstate D V Op)) (cs : gmap nat (Op * option V)) u op c m' k v :
  ts !! u = Some (op, Asleep c m' k) → thread_rel (ts !! u) (cs !! u) →
  thread_rel (<[u := (op, Running (Lock m' k))]> ts !! v) (cs !! v) ↔ thread_rel (ts !! v) (cs !! v).
Proof.
  intros Hu Hrel. destruct (decide (u = v)) as [->|Hne]; [|by rewrite lookup_insert_ne].
  rewrite lookup_insert_eq. rewrite Hu in Hrel |- *. split; [done|]. intros _.
  inversion Hrel; subst. constructor. constructor.
Qed.

Ltac simpl_config := cbn [set_thread locks threads data calls astate upd] in *.

(** Steps of the thread that owns the mutex. *)
Lemma owner_step t op k w (C : config D V Op) S oe C' :
  locks C !! m = Some t → threads C !! t = Some (op, Running k) → calls S !! t = Some (op, None) →
  in_section op k (prot (data C)) (astate S) →
  (∀ u, u ≠ t → thread_rel (threads C !! u) (calls S !! u)) →
  exec_code code_of t op k w C = Some (oe, C') →
  (oe = None ∧ monitor_rel C' S) ∨ ∃ S', astep effect S oe S' ∧ monitor_rel C' S'.
Proof.
  intros Hl Ht Hc Hsec Hoth Hexec.
  assert (∀ k' g, in_section op k' (prot (g (data C))) (astate S) →
    monitor_rel (set_thread t op k' (C <| data ::= g |>)) S) as Hstay.
  { intros k' g Hs. apply (rel_owner t op k'); simpl_config; [done|by rewrite lookup_insert_eq|done..|].
    intros u Hu. rewrite lookup_insert_ne by done. by apply Hoth. }
  inversion Hsec as [b k' p a E Habs|g k' p p' a Hg Hs|c k' p a Hs|c k' p a E Habs|k' p a v a' He Habs Haf];
    subst; cbn [exec_code] in Hexec.
  - injection Hexec as <- <-. left. split; [done|]. pose proof (Hok op _ _ Habs) as Hs. rewrite E in Hs.
    specialize (Hstay _ id Hs). by destruct C.
  - injection Hexec as <- <-. left. split; [done|]. apply Hstay. rewrite (Hg _ eq_refl). by apply Hs.
  - destruct w as [u|].
    + destruct (threads C !! u) as [[op' [|c' m' k'']]|] eqn:Eu; try done.
      destruct (decide (c' = c)) as [->|]; [|done]. injection Hexec as <- <-. left. split; [done|].
      assert (u ≠ t) as Hut by congruence. pose proof (Hoth u Hut) as Hu.
      apply (rel_owner t op k'); simpl_config; [done|by rewrite lookup_insert_eq|done..|].
      intros v Hv. rewrite lookup_insert_ne by done. eapply wake_rel; [done|done|by apply Hoth].
    + destruct (decide _); [|done]. injection Hexec as <- <-. left. split; [done|].
      specialize (Hstay _ id Hs). by destruct C.
  - rewrite decide_True in Hexec by done. injection Hexec as <- <-. left. split; [done|].
    apply rel_free; simpl_config; [by rewrite lookup_delete_eq|done|]. intros u.
    destruct (decide (u = t)) as [->|Hu]; [rewrite lookup_insert_eq, Hc; by constructor|].
    rewrite lookup_insert_ne by done. by apply Hoth.
  - rewrite decide_True in Hexec by done. injection Hexec as <- <-. right.
    exists (mkA a' (<[t := (op, Some v)]> (calls S))). split; [by eapply astep_effect|].
    apply rel_free; simpl_config; [by rewrite lookup_delete_eq|done|]. intros u.
    destruct (decide (u = t)) as [->|Hu]; [rewrite !lookup_insert_eq; by constructor|].
    rewrite !lookup_insert_ne by done. by apply Hoth.
Qed.

(** Steps that change one thread that does not own the mutex. *)
Lemma rel_other t C S C' S' :
  monitor_rel C S → locks C !! m ≠ Some t →
  locks C' = locks C → prot (data C') = prot (data C) → astate S' = astate S →
  (∀ u, u ≠ t → threads C' !! u = threads C !! u ∧ calls S' !! u = calls S !! u) →
  thread_rel (threads C' !! t) (calls S' !! t) → monitor_rel C' S'.
Proof.
  unfold monitor_rel. intros HR Hne El Ed Ea Hoth Ht. rewrite El, Ed, Ea.
  assert (∀ u, thread_rel (threads C !! u) (calls S !! u) → thread_rel (threads C' !! u) (calls S' !! u)) as Hall.
  { intros u Hu. destruct (decide (u = t)) as [->|Hut]; [done|]. by destruct (Hoth u Hut) as [-> ->]. }
  destruct (locks C !! m) as [t0|].
  2: { destruct HR as [Habs Hrest]. split; [done|]. intros u. apply Hall, Hrest. }
  destruct HR as [(op&k&Ht0&Hc0&Hs) Hrest]. split; [|intros u Hu; by apply Hall, Hrest]. exists op, k.
  destruct (Hoth t0) as [-> ->]; [congruence|done].
Qed.

Lemma rel_lookup C S t :
  monitor_rel C S → locks C !! m ≠ Some t → thread_rel (threads C !! t) (calls S !! t).
Proof.
  unfold monitor_rel. destruct (locks C !! m) as [u|]; intros [_ Hall] Hne; [|done].
  apply Hall. congruence.
Qed.

Lemma running_not_owner C S t x :
  monitor_rel C S → threads C !! t = x → (∀ op k, x ≠ Some (op, Running k)) → locks C !! m ≠ Some t.
Proof.
  unfold monitor_rel. intros HR Ht Hx Hl. rewrite Hl in HR. destruct HR as [(op&k&Hk&_) _]. naive_solver.
Qed.

(** The acquisition of the mutex. *)
Lemma acquire_rel C S t op :
  monitor_rel C S → locks C !! m = None → threads C !! t = Some (op, Running (Lock m (entry op))) →
  calls S !! t = Some (op, None) →
  monitor_rel (set_thread t op (entry op) (C <| locks ::= <[m := t]> |>)) S.
Proof.
  unfold monitor_rel at 1. intros HR Hl Ht Hc. rewrite Hl in HR. destruct HR as [Habs Hall].
  apply (rel_owner t op (entry op)); simpl_config; [by rewrite lookup_insert_eq..|done|by apply section_entry|].
  intros u Hu. by rewrite lookup_insert_ne.
Qed.

(** An access outside of the critical section. *)
Lemma outside_rel C S t op g k r :
  monitor_rel C S → locks C !! m ≠ Some t → unprotected g →
  calls S !! t = Some (op, r) → (∀ x, x = Some (op, Running (k (data C))) → thread_rel x (Some (op, r))) →
  monitor_rel (set_thread t op (k (data C)) (C <| data ::= g |>)) S.
Proof.
  intros HR Hne Hg Hc Hk. eapply (rel_other t); simpl_config; [exact HR|done|done|apply Hg|done| |].
  - intros u Hu. by rewrite lookup_insert_ne.
  - rewrite lookup_insert_eq, Hc. by apply Hk.
Qed.

Lemma notify_rel C S t op k v c w oe C' :
  monitor_rel C S → locks C !! m ≠ Some t → threads C !! t = Some (op, Running (NotifyOne c k)) →
  calls S !! t = Some (op, Some v) → after v k →
  exec_code code_of t op (NotifyOne c k) w C = Some (oe, C') → oe = None ∧ monitor_rel C' S.
Proof.
  intros HR Hne Ht Hc Haf Hexec. cbn [exec_code] in Hexec.
  assert (∀ C1, monitor_rel C1 S → locks C1 = locks C → monitor_rel (set_thread t op k C1) S) as Hset.
  { intros C1 HR1 El. eapply (rel_other t); simpl_config; [exact HR1|by rewrite El|done..| |].
    - intros u Hu. by rewrite lookup_insert_ne.
    - rewrite lookup_insert_eq, Hc. by constructor. }
  destruct w as [u|].
  - destruct (threads C !! u) as [[op' [|c' m' k'']]|] eqn:Eu; try done.
    destruct (decide (c' = c)) as [->|]; [|done]. injection Hexec as <- <-. split; [done|].
    apply Hset; [|done]. assert (locks C !! m ≠ Some u) as Hnu by by eapply running_not_owner.
    pose proof (rel_lookup _ _ _ HR Hnu) as Hu.
    eapply (rel_other u); simpl_config; [exact HR|done..| |].
    + intros v' Hv'. by rewrite lookup_insert_ne.
    + by eapply wake_rel.
  - destruct (decide _); [|done]. injection Hexec as <- <-. split; [done|]. by apply Hset.
Qed.

Lemma monitor_step ch C S oe C' :
  monitor_rel C S → exec code_of ch C = Some (oe, C') →
  (oe = None ∧ monitor_rel C' S) ∨ ∃ S', astep effect S oe S' ∧ monitor_rel C' S'.
Proof.
  intros HR Hexec. destruct ch as [t op|t w|t]; cbn [exec] in Hexec.
  - destruct (threads C !! t) eqn:Et; [done|]. injection Hexec as <- <-. right.
    assert (locks C !! m ≠ Some t) as Hne by by eapply running_not_owner.
    pose proof (rel_lookup _ _ _ HR Hne) as Ht. rewrite Et in Ht. inversion Ht as [Hi E| | |].
    exists (mkA (astate S) (<[t := (op, None)]> (calls S))). split; [by apply astep_call|].
    eapply (rel_other t); simpl_config; [exact HR|done..| |].
    + intros u Hu. by rewrite !lookup_insert_ne.
    + rewrite !lookup_insert_eq. by constructor.
  - destruct (threads C !! t) as [[op [k|]]|] eqn:Et; try done.
    destruct (decide (locks C !! m = Some t)) as [Hl|Hne].
    + unfold monitor_rel in HR. rewrite Hl in HR. destruct HR as [(op'&k'&Et'&Hc&Hs) Hoth].
      assert (op' = op ∧ k' = k) as [-> ->] by (split; congruence). by eapply owner_step.
    + pose proof (rel_lookup _ _ _ HR Hne) as Ht. rewrite Et in Ht.
      inversion Ht as [|op' k' Hbef Hop Hcall| |op' k' v Haf Hop Hcall]; subst.
      * destruct Hbef as [|g k Hg Hbef]; cbn [exec_code] in Hexec.
        -- destruct (locks C !! m) eqn:El; [done|].
           injection Hexec as <- <-. left. split; [done|]. by apply acquire_rel.
        -- injection Hexec as <- <-. left. split; [done|]. eapply outside_rel; [done..|].
           intros x ->. by constructor.
      * destruct Haf as [|c k Haf|g k Hg Haf].
        -- injection Hexec as <- <-. right. exists (mkA (astate S) (delete t (calls S))).
           split; [by eapply astep_return|].
           eapply (rel_other t); simpl_config; [exact HR|done..| |].
           ++ intros u Hu. by rewrite !lookup_delete_ne.
           ++ rewrite !lookup_delete_eq. constructor.
        -- left. by eapply notify_rel.
        -- injection Hexec as <- <-. left. split; [done|]. eapply outside_rel; [done..|].
           intros x ->. by constructor.
  - destruct (threads C !! t) as [[op [|c m' k]]|] eqn:Et; try done. injection Hexec as <- <-. left.
    split; [done|]. assert (locks C !! m ≠ Some t) as Hne by by eapply running_not_owner.
    pose proof (rel_lookup _ _ _ HR Hne) as Ht.
    eapply (rel_other t); simpl_config; [exact HR|done..| |].
    + intros u Hu. by rewrite !lookup_insert_ne.
    + by eapply wake_rel.
Qed.

Lemma monitor_linearizable d a : abs (prot d) a → linearizable code_of effect d a.
Proof.
  intros Habs. apply (simulation_linearizable _ _ monitor_rel); [|intros ?????; apply monitor_step].
  apply rel_free; [apply lookup_empty|done|]. intros u. cbn. rewrite !lookup_empty. constructor.
Qed.
End Monitor.
