(* ===== verification/Queues.v ===== *)
(** * Queues

    The thread-safe containers with one mutex: [thread/threadsafe_queue.cc]
    ([threadsafe_queue] and [threadsafer_queue]), [thread/BlockingQueue.cc],
    [thread/threadsafe_stack.cc] and [TaskQueue] of [reactor/taskQueue.cc]. Each
    has mutex 0 and condition variable 0. A [shared_ptr] made for an element is
    the element. Functions that use names their class does not declare are
    modelled as they are meant ([cond_] for [queue_.wait]). *)
From S2P Require Import Prelude Threads Monitor.

(** What the functions return: nothing, an element, whether there was one
    (and the element), a number, or an exception. *)
Inductive result (T : Type) :=
  | RVoid | RElem (x : T) | ROption (o : option T) | RSize (n : nat) | RBool (b : bool) | RThrow (exn : string).
Arguments RVoid {T}.
Arguments RElem {T} x.
Arguments ROption {T} o.
Arguments RSize {T} n.
Arguments RBool {T} b.
Arguments RThrow {T} exn.

Section Codes.
Context {T Op : Type}.
Abbreviation qcode := (code (list T) (result T) Op) (only parsing).

(** [front] and [pop] of [std::queue]; undefined when it is empty. *)
Definition std_front (k : T → qcode) : qcode :=
  Act id (λ q, match q with [] => Terminate (Undefined "front of an empty queue") | x :: _ => k x end).
Definition std_pop (k : qcode) : qcode :=
  Act tail (λ q, match q with [] => Terminate (Undefined "pop of an empty queue") | _ :: _ => k end).
Definition std_push (x : T) (k : qcode) : qcode := Act (λ q, q ++ [x]) (λ _, k).

(** [cond.wait(lock, [this]{ return !queue.empty(); })]. *)
Definition wait_not_empty (k : qcode) : qcode :=
  Loop (Act id (λ q, match q with [] => Wait 0 0 Again | _ :: _ => Break end)) k.

(** [value = front(); pop();] at the end of a critical section. *)
Definition pop_and (k : T → qcode) : qcode := std_front (λ x, std_pop (k x)).
Definition unlock_return (r : result T) : qcode := Unlock 0 (Finish r).
(** [if(empty()) return ...; ...]. *)
Definition if_empty (k_empty k : qcode) : qcode :=
  Act id (λ q, match q with [] => k_empty | _ :: _ => k end).
End Codes.

(** ** threadsafe_queue *)

Module ThreadsafeQueue.
Section Queue.
Context {T : Type}.
Inductive op := Push (x : T) | WaitAndPop | WaitAndPopPtr | TryPop | TryPopPtr | Empty.

Definition push (x : T) : code (list T) (result T) op := std_push x (NotifyOne 0 (unlock_return RVoid)).
Definition wait_and_pop : code (list T) (result T) op := wait_not_empty (pop_and (λ x, unlock_return (RElem x))).
(** This one does not wait. *)
Definition wait_and_pop_ptr : code (list T) (result T) op := pop_and (λ x, unlock_return (RElem x)).
Definition try_pop : code (list T) (result T) op :=
  if_empty (unlock_return (ROption None)) (pop_and (λ x, unlock_return (ROption (Some x)))).
Definition try_pop_ptr : code (list T) (result T) op :=
  if_empty (unlock_return (ROption None)) (pop_and (λ x, unlock_return (ROption (Some x)))).
Definition empty : code (list T) (result T) op := if_empty (unlock_return (RBool true)) (unlock_return (RBool false)).

Definition entry (o : op) : code (list T) (result T) op :=
  match o with
  | Push x => push x | WaitAndPop => wait_and_pop | WaitAndPopPtr => wait_and_pop_ptr
  | TryPop => try_pop | TryPopPtr => try_pop_ptr | Empty => empty
  end.
(** Every function starts with a [lock_guard] or [unique_lock]. *)
Definition code_of (o : op) : code (list T) (result T) op := Lock 0 (entry o).

(** The copy constructor copies the elements, with the other queue locked. *)
Definition copy_ctor (other : list T) : list T := other.
End Queue.
End ThreadsafeQueue.

(** ** threadsafer_queue *)

Module ThreadsaferQueue.
Section Queue.
Context {T : Type}.
Inductive op := Push (x : T) | WaitAndPop | WaitAndPopPtr | TryPop | TryPopPtr | Empty.

Definition push (x : T) : code (list T) (result T) op := std_push x (NotifyOne 0 (unlock_return RVoid)).
Definition wait_and_pop : code (list T) (result T) op := wait_not_empty (pop_and (λ x, unlock_return (RElem x))).
Definition wait_and_pop_ptr : code (list T) (result T) op := wait_not_empty (pop_and (λ x, unlock_return (RElem x))).
Definition try_pop : code (list T) (result T) op :=
  if_empty (unlock_return (ROption None)) (pop_and (λ x, unlock_return (ROption (Some x)))).
Definition try_pop_ptr : code (list T) (result T) op :=
  if_empty (unlock_return (ROption None)) (pop_and (λ x, unlock_return (ROption (Some x)))).
Definition empty : code (list T) (result T) op := if_empty (unlock_return (RBool true)) (unlock_return (RBool false)).

Definition entry (o : op) : code (list T) (result T) op :=
  match o with
  | Push x => push x | WaitAndPop => wait_and_pop | WaitAndPopPtr => wait_and_pop_ptr
  | TryPop => try_pop | TryPopPtr => try_pop_ptr | Empty => empty
  end.
Definition code_of (o : op) : code (list T) (result T) op := Lock 0 (entry o).

(** A FIFO queue on which waiting for an element is waiting to take effect. *)
Definition fifo (o : op) (q : list T) : option (result T * list T) :=
  match o, q with
  | Push x, q => Some (RVoid, q ++ [x])
  | (WaitAndPop | WaitAndPopPtr), [] => None
  | (WaitAndPop | WaitAndPopPtr), x :: q => Some (RElem x, q)
  | (TryPop | TryPopPtr), [] => Some (ROption None, [])
  | (TryPop | TryPopPtr), x :: q => Some (ROption (Some x), q)
  | Empty, [] => Some (RBool true, [])
  | Empty, x :: q => Some (RBool false, x :: q)
  end.
End Queue.
End ThreadsaferQueue.

(** ** BlockingQueue *)

Module BlockingQueue.
Section Queue.
Context {T : Type}.
Inductive op := Put (x : T) | Take | Size.

(** [put] notifies after unlocking. *)
Definition put (x : T) : code (list T) (result T) op := std_push x (Unlock 0 (NotifyOne 0 (Finish RVoid))).
Definition take : code (list T) (result T) op :=
  wait_not_empty
    (if_empty (Terminate (AssertFailed "!queue_.empty()")) (pop_and (λ x, unlock_return (RElem x)))).
Definition size : code (list T) (result T) op := Act id (λ q, unlock_return (RSize (length q))).

Definition entry (o : op) : code (list T) (result T) op :=
  match o with Put x => put x | Take => take | Size => size end.
Definition code_of (o : op) : code (list T) (result T) op := Lock 0 (entry o).

Definition fifo (o : op) (q : list T) : option (result T * list T) :=
  match o, q with
  | Put x, q => Some (RVoid, q ++ [x])
  | Take, [] => None
  | Take, x :: q => Some (RElem x, q)
  | Size, q => Some (RSize (length q), q)
  end.
End Queue.
End BlockingQueue.

(** ** threadsafe_stack *)

Module ThreadsafeStack.
Section Stack.
Context {T : Type}.
Inductive op := Push (x : T) | Pop | PopRef | Empty.

(** The stack is the list of its elements, the top first; [pop] throws, which
    unlocks the mutex on the way out. *)
Definition push (x : T) : code (list T) (result T) op := Act (cons x) (λ _, unlock_return RVoid).
Definition pop : code (list T) (result T) op :=
  if_empty (unlock_return (RThrow "empty_stack")) (pop_and (λ x, unlock_return (RElem x))).
Definition pop_ref : code (list T) (result T) op :=
  if_empty (unlock_return (RThrow "empty_stack")) (pop_and (λ x, unlock_return (RElem x))).
Definition empty : code (list T) (result T) op := if_empty (unlock_return (RBool true)) (unlock_return (RBool false)).

Definition entry (o : op) : code (list T) (result T) op :=
  match o with Push x => push x | Pop => pop | PopRef => pop_ref | Empty => empty end.
Definition code_of (o : op) : code (list T) (result T) op := Lock 0 (entry o).

Definition lifo (o : op) (q : list T) : option (result T * list T) :=
  match o, q with
  | Push x, q => Some (RVoid, x :: q)
  | (Pop | PopRef), [] => Some (RThrow "empty_stack", [])
  | (Pop | PopRef), x :: q => Some (RElem x, q)
  | Empty, [] => Some (RBool true, [])
  | Empty, x :: q => Some (RBool false, x :: q)
  end.
End Stack.
End ThreadsafeStack.

(** ** TaskQueue *)

Module TaskQueue.
Section Queue.
Context {T : Type}.
Inductive op := Put (f : T) | Take.

(** [put] does not lock; [take] copies the last task and leaves it there. *)
Definition put (f : T) : code (list T) (result T) op := std_push f (NotifyOne 0 (Finish RVoid)).
Definition take : code (list T) (result T) op :=
  wait_not_empty
    (Act id (λ q, match last q with
                  | Some f => unlock_return (RElem f)
                  | None => Terminate (Undefined "back of an empty vector")
                  end)).
Definition code_of (o : op) : code (list T) (result T) op :=
  match o with Put f => put f | Take => Lock 0 take end.
End Queue.
End TaskQueue.

(** ** Linearizability *)

Ltac section_step :=
  match goal with
  | |- in_section _ _ _ _ _ _ (pop_and _) _ _ => unfold pop_and
  | |- in_section _ _ _ _ _ _ (std_front _) _ _ => unfold std_front
  | |- in_section _ _ _ _ _ _ (std_pop _) _ _ => unfold std_pop
  | |- in_section _ _ _ _ _ _ (if_empty _ _) _ _ => unfold if_empty
  | |- in_section _ _ _ _ _ _ (unlock_return _) _ _ => unfold unlock_return
  | |- in_section _ _ _ _ _ _ (Act _ _) _ _ => eapply sec_act;
      [let E := fresh in intros ? E; cbn [id] in E; subst; reflexivity
      |let d := fresh in let E := fresh in intros d E; cbn [id] in E; subst d; cbn [id tail]]
  | |- in_section _ _ _ _ _ _ (NotifyOne _ _) _ _ => apply sec_notify
  | |- in_section _ _ _ _ _ _ (Wait _ _ _) _ _ => apply sec_wait; [reflexivity|reflexivity]
  | |- in_section _ _ _ _ _ _ (Unlock _ _) _ _ =>
      eapply sec_unlock; [reflexivity|reflexivity|repeat constructor]
  end.

(** Every function of a class does its work in one critical section. *)
Ltac function_sections :=
  let d := fresh "d" in
  intros []; intros d ? <-; cbn; repeat section_step; destruct d; cbn; repeat section_step.

(** C12: [threadsafer_queue] is a FIFO queue: whatever functions threads call
    and however they are scheduled (with spurious wake-ups or without), their
    calls return what they return when each takes effect at one moment
    between its call and its return; in particular nothing undefined happens. *)
Theorem threadsafer_queue_linearizable {T : Type} (q : list T) :
  linearizable ThreadsaferQueue.code_of ThreadsaferQueue.fifo q q.
Proof.
  apply (monitor_linearizable 0 id _ ThreadsaferQueue.entry eq); [by constructor| |done]. function_sections.
Qed.

(** So is [BlockingQueue], whose assertion never fails. *)
Theorem blocking_queue_linearizable {T : Type} (q : list T) :
  linearizable BlockingQueue.code_of BlockingQueue.fifo q q.
Proof.
  apply (monitor_linearizable 0 id _ BlockingQueue.entry eq); [by constructor| |done]. function_sections.
Qed.

(** [threadsafe_stack] is a LIFO stack, whose [pop] throws exactly when
    it takes effect on an empty stack. *)
Theorem threadsafe_stack_linearizable {T : Type} (q : list T) :
  linearizable ThreadsafeStack.code_of ThreadsafeStack.lifo q q.
Proof.
  apply (monitor_linearizable 0 id _ ThreadsafeStack.entry eq); [by constructor| |done]. function_sections.
Qed.
