(* ===== verification/Wakeups.v ===== *)
(** * Wakeups

    Progress of [thread/BlockingQueue.cc]: no element is left in the queue while
    threads sleep waiting for one. *)
From S2P Require Import Prelude Threads Monitor Queues.

Module BlockingQueueWakeups.
Import BlockingQueue.
Section Wakeups.
Context {T : Type}.
Abbreviation bcode := (code (list T) (result T) (op (T := T))) (only parsing).
Abbreviation bstate := (tstate (list T) (result T) (op (T := T))) (only parsing).
Abbreviation bconfig := (config (list T) (result T) (op (T := T))) (only parsing).
Abbreviation bop := (op (T := T)) (only parsing).
Implicit Types (C : bconfig) (q : list T).

(** The body of the loop of [take]. *)
Definition take_test : bcode :=
  match take with Loop b k => plug (Loop b k) k b | k => k end.

(** Where a thread can be inside a call, and what it then knows of the queue. *)
Inductive point : bop → bcode → list T → Prop :=
  | at_put_lock x q : point (Put x) (code_of (Put x)) q
  | at_put x q : point (Put x) (put x) q
  | at_put_unlock x q : point (Put x) (Unlock 0 (NotifyOne 0 (Finish RVoid))) q
  | at_put_notify x q : point (Put x) (NotifyOne 0 (Finish RVoid)) q
  | at_take_lock q : point Take (code_of Take) q
  | at_take q : point Take take q
  | at_take_test q : point Take take_test q
  | at_take_wait : point Take (Wait 0 0 take) []
  | at_take_assert x q :
      point Take (if_empty (Terminate (AssertFailed "!queue_.empty()"))
                    (pop_and (λ x, unlock_return (RElem x)))) (x :: q)
  | at_take_front x q : point Take (pop_and (λ x, unlock_return (RElem x))) (x :: q)
  | at_take_pop y x q : point Take (std_pop (unlock_return (RElem y))) (x :: q)
  | at_size_lock q : point Size (code_of Size) q
  | at_size q : point Size size q
  | at_take_unlock r q : point Take (unlock_return r) q
  | at_size_unlock r q : point Size (unlock_return r) q
  | at_finish o r q : point o (Finish r) q.

(** Whether a thread is in the critical section. *)
Definition inside (k : bcode) : bool :=
  match k with Act _ _ | Unlock _ _ | Wait _ _ _ | Loop _ _ => true | _ => false end.

(** The elements a thread is going to take, or to tell another thread of. *)
Definition credit (x : bop * bstate) : nat :=
  match x with
  | (Take, Running (Lock _ _ | Loop _ _ | Act _ _)) => 1
  | (Put _, Running (Unlock _ _ | NotifyOne _ _)) => 1
  | _ => 0
  end.
Definition sleeper (x : bop * bstate) : nat := match x.2 with Asleep _ _ _ => 1 | Running _ => 0 end.

Definition thread_point (locked : option nat) q (t : nat) (x : bop * bstate) : Prop :=
  match x with
  | (o, Running k) =>
      if inside k then locked = Some t ∧ point o k q else locked ≠ Some t ∧ ∀ q', point o k q'
  | (o, Asleep c m k) => o = Take ∧ c = 0 ∧ m = 0 ∧ k = take ∧ locked ≠ Some t
  end.

Record wake_inv C : Prop := {
  wi_points t x : threads C !! t = Some x → thread_point (locks C !! 0) (data C) t x;
  wi_owner t : locks C !! 0 = Some t → ∃ x, threads C !! t = Some x;
  wi_credit : total sleeper (threads C) = 0 ∨ length (data C) ≤ total credit (threads C);
}.

(** The balance of a step of one thread. *)
Definition balance C C' (x y : bop * bstate) : Prop :=
  (sleeper y ≤ sleeper x ∧ length (data C') + credit x ≤ length (data C) + credit y) ∨
  data C' = [] ∨ total sleeper (threads C') = 0.

Lemma inv_update C C' t x y :
  wake_inv C → threads C !! t = Some x → threads C' = <[t := y]> (threads C) →
  (∀ u z, u ≠ t → thread_point (locks C !! 0) (data C) u z → thread_point (locks C' !! 0) (data C') u z) →
  thread_point (locks C' !! 0) (data C') t y →
  (∀ u, locks C' !! 0 = Some u → u = t ∨ locks C !! 0 = Some u) →
  balance C C' x y → wake_inv C'.
Proof.
  intros [Hp Ho Hc] Ht Ets Hoth Hy Hl Hbal. split.
  - intros u z. rewrite Ets. destruct (decide (u = t)) as [->|Hu].
    + rewrite lookup_insert_eq. by intros [= <-].
    + rewrite lookup_insert_ne by done. intros Hz. apply Hoth; [done|]. by apply Hp.
  - intros u Hu. rewrite Ets. destruct (decide (u = t)) as [->|Hne]; [exists y; by rewrite lookup_insert_eq|].
    rewrite lookup_insert_ne by done. destruct (Hl u Hu) as [->|Hu']; [done|]. by apply Ho.
  - pose proof (total_update sleeper _ _ _ y Ht) as Hs. pose proof (total_update credit _ _ _ y Ht) as Hcr.
    rewrite <- Ets in Hs, Hcr. destruct Hbal as [[Hsl Hle]|[Hd|Hz]]; [|right; by rewrite Hd; cbn; lia|by left].
    destruct Hc as [Hc|Hc]; [left|right]; lia.
Qed.

(** A thread that does not own the mutex depends on nothing else. *)
Lemma point_other l l' q q' u z :
  l ≠ Some u → l' ≠ Some u → thread_point l q u z → thread_point l' q' u z.
Proof.
  intros Hl Hl'. destruct z as [o [k|c m k]]; cbn [thread_point].
  - destruct (inside k); [by intros [? _]|]. by intros [_ ?].
  - intros (->&->&->&->&_). by split_and!.
Qed.

(** Steps inside the critical section. *)
Lemma inside_step C t o k k' g :
  wake_inv C → threads C !! t = Some (o, Running k) → locks C !! 0 = Some t →
  inside k' = true → point o k' (g (data C)) →
  (length (g (data C)) + credit (o, Running k) ≤ length (data C) + credit (o, Running k') ∨ g (data C) = []) →
  wake_inv (set_thread t o k' (C <| data ::= g |>)).
Proof.
  intros Hinv Ht Hl Hin Hpt Hbal.
  eapply (inv_update C _ t _ (o, Running k')); [done|done|done|..];
    cbn [set_thread locks data threads upd].
  - intros u z Hu Hz. revert Hz. rewrite Hl. apply point_other; congruence.
  - cbn [thread_point]. by rewrite Hin.
  - intros u Hu. by right.
  - destruct Hbal as [Hbal|Hbal]; [left; by cbn|right; by left].
Qed.

(** Steps outside it that do not touch the lock. *)
Lemma outside_step C t o k k' :
  wake_inv C → threads C !! t = Some (o, k) → locks C !! 0 ≠ Some t →
  inside k' = false → (∀ q, point o k' q) →
  (sleeper (o, k) = 0 → total sleeper (threads C) = 0 ∨ credit (o, k) ≤ credit (o, Running k')) →
  (sleeper (o, k) = 1 → credit (o, k) ≤ credit (o, Running k')) →
  wake_inv (set_thread t o k' C).
Proof.
  intros Hinv Ht Hl Hin Hpt Hb0 Hb1.
  eapply (inv_update C _ t _ (o, Running k')); [done|done|done|..];
    cbn [set_thread locks data threads upd]; [done| |by right|].
  - cbn [thread_point]. by rewrite Hin.
  - pose proof (total_update sleeper _ _ _ (o, Running k') Ht) as Hs. destruct k as [k|c m k]; cbn in *.
    + destruct (Hb0 eq_refl) as [Hz|Hle]; [right; right|left]; cbn; lia.
    + specialize (Hb1 eq_refl). left. cbn. lia.
Qed.

Lemma lock_step C t o k :
  wake_inv C → threads C !! t = Some (o, Running (Lock 0 k)) → locks C !! 0 = None →
  inside k = true → point o k (data C) → credit (o, Running (Lock 0 k)) ≤ credit (o, Running k) →
  wake_inv (set_thread t o k (C <| locks ::= <[0 := t]> |>)).
Proof.
  intros Hinv Ht Hl Hin Hpt Hcr.
  eapply (inv_update C _ t _ (o, Running k)); [done|done|done|..]; cbn [set_thread locks data threads upd].
  - intros u z Hu. rewrite Hl, lookup_insert_eq. apply point_other; congruence.
  - cbn [thread_point]. rewrite Hin. by rewrite lookup_insert_eq.
  - intros u. rewrite lookup_insert_eq. intros [= ->]. by left.
  - left. split; [done|]. cbn [data set_thread upd]. lia.
Qed.

(** Leaving the critical section, by unlocking or by waiting. *)
Lemma leave_step C C' t x y :
  wake_inv C → threads C !! t = Some x → locks C !! 0 = Some t →
  threads C' = <[t := y]> (threads C) → locks C' = delete 0 (locks C) → data C' = data C →
  (∀ l q, l ≠ Some t → thread_point l q t y) → balance C C' x y → wake_inv C'.
Proof.
  intros Hinv Ht Hl Ets El Ed Hy Hbal.
  assert (locks C' !! 0 = None) as El' by (by rewrite El, lookup_delete_eq).
  eapply (inv_update C _ t _ y); [done|done|done|..]; rewrite ?El', ?Ed; try done.
  - intros u z Hu. rewrite Hl. apply point_other; congruence.
  - by apply Hy.
Qed.

(** Waking a thread up. *)
Lemma woken_step C u o c m k :
  wake_inv C → threads C !! u = Some (o, Asleep c m k) → wake_inv (set_thread u o (Lock m k) C).
Proof.
  intros Hinv Hu. pose proof (wi_points _ Hinv _ _ Hu) as (->&->&->&->&Hl).
  eapply outside_step; [done|done|done|done|intros; constructor|done|cbn; lia].
Qed.

Lemma notify_step C t o k w oe C' :
  wake_inv C → threads C !! t = Some (o, Running (NotifyOne 0 k)) → locks C !! 0 ≠ Some t →
  k = Finish RVoid → o ≠ Take →
  exec_code code_of t o (NotifyOne 0 k) w C = Some (oe, C') → wake_inv C'.
Proof.
  intros Hinv Ht Hl -> Ho Hexec. cbn [exec_code] in Hexec. destruct w as [u|].
  - destruct (threads C !! u) as [[o' [|c m k']]|] eqn:Eu; try done.
    destruct (decide (c = 0)) as [->|]; [|done]. injection Hexec as <- <-.
    pose proof (wi_points _ Hinv _ _ Eu) as (->&_&->&->&Hlu). assert (u ≠ t) as Hut by congruence.
    (* Both threads at once: one credit is given up, another one gained. *)
    set (C1 := C <| threads ::= <[t := (o, Running (Finish RVoid))]> |>).
    assert (set_thread t o (Finish RVoid) (set_thread u Take (Lock 0 take) C) = set_thread u Take (Lock 0 take) C1) as ->.
    { unfold set_thread, C1. destruct C. cbn. f_equal. by apply insert_insert_ne. }
    destruct Hinv as [Hp Hown Hc]. split; cbn [set_thread C1 threads locks data upd].
    + intros v z. destruct (decide (v = u)) as [->|Hv].
      { rewrite lookup_insert_eq. intros [= <-]. split; [done|intros; constructor]. }
      rewrite lookup_insert_ne by done. destruct (decide (v = t)) as [->|Hv'].
      { rewrite lookup_insert_eq. intros [= <-]. split; [done|intros; constructor]. }
      rewrite lookup_insert_ne by done. apply Hp.
    + intros v Hv. destruct (Hown v Hv) as [z Hz]. exists z.
      by rewrite !lookup_insert_ne by congruence.
    + right. assert ((<[t := (o, Running (Finish RVoid))]> (threads C)) !! u = Some (Take, Asleep 0 0 take)) as Eu'
        by by rewrite lookup_insert_ne.
      pose proof (total_update credit _ _ _ (Take, Running (Lock 0 take)) Eu') as H1.
      pose proof (total_update credit _ _ _ (o, Running (Finish RVoid)) Ht) as H2.
      pose proof (total_pos sleeper _ _ _ Eu) as H3. destruct o; cbn in *; [|done|]; lia.
  - destruct (decide _) as [Hnone|]; [|done]. injection Hexec as <- <-.
    eapply outside_step; [done|done|done|done|intros; constructor| |cbn; lia]. intros _. left.
    apply total_zero. intros u [o' [|c m k']] Hu; [done|]. exfalso. apply (Hnone u _ Hu).
    by pose proof (wi_points _ Hinv _ _ Hu) as (_&->&_).
Qed.

(** Steps inside the critical section that only read. *)
Lemma read_step C t o k k' :
  wake_inv C → threads C !! t = Some (o, Running k) → locks C !! 0 = Some t →
  inside k' = true → point o k' (data C) →
  (credit (o, Running k) ≤ credit (o, Running k') ∨ data C = []) →
  wake_inv (set_thread t o k' C).
Proof.
  intros Hinv Ht Hl Hin Hpt Hbal.
  pose proof (inside_step C t o k k' id Hinv Ht Hl Hin Hpt) as Hs. destruct C. apply Hs. cbn in *.
  destruct Hbal; [left; lia|by right].
Qed.

Lemma inside_exec C t o k w oe C' :
  wake_inv C → threads C !! t = Some (o, Running k) → inside k = true →
  exec_code code_of t o k w C = Some (oe, C') → wake_inv C'.
Proof.
  intros Hinv Ht Hin Hexec. pose proof (wi_points _ Hinv _ _ Ht) as Hpt. cbn [thread_point] in Hpt.
  rewrite Hin in Hpt. destruct Hpt as [Hl Hpt]. remember (data C) as q eqn:Eq. symmetry in Eq.
  assert (mkConfig (data C) (locks C) (threads C) = C) as Eid by (by destruct C).
  assert (∀ y, (∀ l q, l ≠ Some t → thread_point l q t y) →
    balance C (mkConfig (data C) (delete 0 (locks C)) (<[t := y]> (threads C))) (o, Running k) y →
    wake_inv (mkConfig (data C) (delete 0 (locks C)) (<[t := y]> (threads C)))) as Hleave.
  { intros y Hy Hbal. by eapply leave_step. }
  destruct Hpt; try discriminate Hin; cbn in Hexec; rewrite ?decide_True in Hexec by done;
    injection Hexec as <- <-; rewrite ?Eid; try (apply Hleave; [by repeat constructor|]).
  - eapply (inside_step C t _ _ _ (λ q, q ++ [x])); [done..|constructor|].
    left. rewrite length_app. cbn. lia.
  - left. cbn. lia.
  - eapply read_step; [done..|by constructor|by left].
  - destruct (data C) as [|x q'] eqn:Ed; (eapply read_step; [done..| |]);
      rewrite ?Ed; [constructor|by right|constructor|by left].
  - right. by left.
  - rewrite Eq. eapply read_step; [done..|rewrite Eq; constructor|by left].
  - rewrite Eq. eapply read_step; [done..|rewrite Eq; constructor|by left].
  - match goal with |- wake_inv (set_thread _ _ ?k _) =>
      assert (k = unlock_return (RElem y)) as -> by (by rewrite Eq) end.
    eapply (inside_step C t _ _ _ tail); [done..|constructor|]. left. rewrite Eq. cbn. lia.
  - eapply read_step; [done..|constructor|by left].
  - left. cbn. lia.
  - left. cbn. lia.
Qed.

Lemma outside_exec C t o k w oe C' :
  wake_inv C → threads C !! t = Some (o, Running k) → inside k = false →
  exec_code code_of t o k w C = Some (oe, C') → wake_inv C'.
Proof.
  intros Hinv Ht Hin Hexec. pose proof (wi_points _ Hinv _ _ Ht) as Hpt. cbn [thread_point] in Hpt.
  rewrite Hin in Hpt. destruct Hpt as [Hl Hpt]. specialize (Hpt (data C)).
  assert (∀ k0, k = Lock 0 k0 → inside k0 = true → (∀ q, point o k0 q) →
    credit (o, Running k) ≤ credit (o, Running k0) → wake_inv C') as Hlock.
  { intros k0 -> Hin0 Hpt0 Hcr. cbn [exec_code] in Hexec. destruct (locks C !! 0) eqn:El; [done|].
    injection Hexec as <- <-. by eapply lock_step. }
  assert (∀ r, k = Finish r → credit (o, Running k) = 0 → wake_inv C') as Hfinish.
  { intros r -> Hcr. injection Hexec as <- <-. destruct Hinv as [Hp Ho Hc].
    pose proof (total_delete sleeper _ _ _ Ht) as Hs. pose proof (total_delete credit _ _ _ Ht) as Hcr'.
    split; cbn [threads locks data upd].
    - intros u x Hx. apply Hp. by apply lookup_delete_Some in Hx as [_ ?].
    - intros u Hu. rewrite lookup_delete_ne by congruence. by apply Ho.
    - destruct Hc as [Hc|Hc]; [left|right]; cbn in *; lia. }
  destruct Hpt; try discriminate Hin.
  - eapply Hlock; [done|done|intros; constructor|done].
  - eapply notify_step; [done|done|done|done|discriminate|done].
  - eapply Hlock; [done|done|intros; constructor|done].
  - eapply Hlock; [done|done|intros; constructor|done].
  - eapply Hfinish; [done|]. by destruct o.
Qed.

Lemma wake_step ch C oe C' : wake_inv C → exec code_of ch C = Some (oe, C') → wake_inv C'.
Proof.
  intros Hinv Hexec. destruct ch as [t o|t w|t]; cbn [exec] in Hexec.
  - destruct (threads C !! t) eqn:Et; [done|]. injection Hexec as <- <-.
    destruct Hinv as [Hp Ho Hc]. assert (locks C !! 0 ≠ Some t) as Hl.
    { intros Hl. apply Ho in Hl as [x Hx]. congruence. }
    split; cbn [set_thread threads locks data upd].
    + intros u x. destruct (decide (u = t)) as [->|Hu].
      * rewrite lookup_insert_eq. intros [= <-]. destruct o; (split; [done|intros; constructor]).
      * rewrite lookup_insert_ne by done. apply Hp.
    + intros u Hu. rewrite lookup_insert_ne by congruence. by apply Ho.
    + rewrite !total_insert_new by done. destruct Hc as [Hc|Hc]; [left|right]; cbn [sleeper snd]; lia.
  - destruct (threads C !! t) as [[o [k|]]|] eqn:Et; try done.
    destruct (inside k) eqn:Ein; [by eapply inside_exec|by eapply outside_exec].
  - destruct (threads C !! t) as [[o [|c m k]]|] eqn:Et; try done. injection Hexec as <- <-.
    by eapply woken_step.
Qed.

Lemma wake_inv_initial q : wake_inv (initial q).
Proof. split; cbn; [done|done|]. left. apply total_empty. Qed.

Lemma wake_reachable q C : reachable code_of q C → wake_inv C.
Proof.
  intros (chs&es&Hrun). apply (run_steps_ind _ wake_inv (λ _, True)) in Hrun as [Hinv _]; [done| |apply wake_inv_initial].
  intros ch C0 oe C1 _ Hinv E. split; [by eapply wake_step|done].
Qed.

(** A thread that is running, but for a mutex that is taken, can go on. *)
Lemma can_run C t o k :
  wake_inv C → threads C !! t = Some (o, Running k) → locks C !! 0 = None ∨ inside k = true →
  ∃ w oe C', exec code_of (Runs t w) C = Some (oe, C').
Proof.
  intros Hinv Ht Hor. cbn [exec]. pose proof (wi_points _ Hinv _ _ Ht) as Hpt. cbn [thread_point] in Hpt.
  assert (∀ k0, k = Lock 0 k0 → ∃ w oe C', exec code_of (Runs t w) C = Some (oe, C')) as Hlock.
  { intros k0 ->. destruct Hor as [Hl|?]; [|done]. exists None. cbn [exec]. rewrite Ht.
    cbn [exec_code]. rewrite Hl. by eexists _, _. }
  destruct (inside k) eqn:Ein.
  - destruct Hpt as [Hl Hpt]. exists None. rewrite Ht.
    destruct k; try discriminate Ein; cbn [exec_code]; try (by eexists _, _);
      case_decide; by eexists _, _.
  - destruct Hpt as [_ Hpt]. specialize (Hpt (data C)).
    destruct Hpt; try discriminate Ein; try (eapply Hlock; reflexivity).
    + destruct (decide (map_Forall (λ u x, ¬ asleep_on 0 (u, x)) (threads C))) as [Hn|Hn].
      * exists None. rewrite Ht. cbn [exec_code]. rewrite decide_True by done. by eexists _, _.
      * apply map_not_Forall in Hn as (u&[o' [k'|c m k']]&Hu&Has); [| |apply _]; [exfalso; apply Has; by intros []|].
        exists (Some u). rewrite Ht. cbn [exec_code]. rewrite Hu.
        pose proof (wi_points _ Hinv _ _ Hu) as (_&->&_). rewrite decide_True by done. by eexists _, _.
    + exists None. rewrite Ht. by eexists _, _.
Qed.

(** No thread can take a step. *)
Definition stuck C : Prop := ∀ t w, exec code_of (Runs t w) C = None.

(** C13: [BlockingQueue] loses no wake-up: in any execution, when no thread can
    go on (but by waking up spuriously), all calls have returned or the queue
    is empty and the calls in progress are [take]s that sleep. *)
Theorem blocking_queue_progress (q : list T) (C : config (list T) (result T) op)
  (Hreach : reachable BlockingQueue.code_of q C)
  (Hstuck : stuck C) :
  threads C = ∅ ∨
  data C = [] ∧ ∀ t x, threads C !! t = Some x → x = (Take, Asleep 0 0 take).
Proof.
  pose proof (wake_reachable q C Hreach) as Hinv.
  assert (∀ t o k, threads C !! t = Some (o, Running k) → locks C !! 0 = None ∨ inside k = true → False) as Hno.
  { intros t o k Ht Hor. destruct (can_run C t o k Hinv Ht Hor) as (w&oe&C'&He). by rewrite Hstuck in He. }
  assert (locks C !! 0 = None) as Hl.
  { destruct (locks C !! 0) as [t|] eqn:El; [|done]. exfalso.
    destruct (wi_owner _ Hinv _ El) as [[o [k|c m k]] Ht]; pose proof (wi_points _ Hinv _ _ Ht) as Hpt.
    - cbn [thread_point] in Hpt. destruct (inside k) eqn:Ein; [by eapply Hno; [|right]|]. by destruct Hpt.
    - by destruct Hpt as (_&_&_&_&?). }
  assert (∀ t x, threads C !! t = Some x → x = (Take, Asleep 0 0 take)) as Hall.
  { intros t [o [k|c m k]] Ht; [by exfalso; eapply Hno; [|left]|].
    by pose proof (wi_points _ Hinv _ _ Ht) as (->&->&->&->&_). }
  destruct (decide (threads C = ∅)) as [He|Hne]; [by left|right]. split; [|done].
  apply map_choose in Hne as (t&x&Ht). pose proof (Hall _ _ Ht) as ->.
  destruct (wi_credit _ Hinv) as [Hz|Hle].
  - pose proof (total_pos sleeper _ _ _ Ht) as H1. cbn in H1. lia.
  - rewrite (total_zero credit) in Hle; [by destruct (data C); [|cbn in Hle; lia]|].
    intros u y Hu. by rewrite (Hall _ _ Hu).
Qed.
End Wakeups.
End BlockingQueueWakeups.

(** ** Concrete instances *)

Module WakeupsDemo.
Import BlockingQueue.
(** One thread takes from an empty queue until it sleeps. *)
Definition to_sleep : list (choice (Op := op (T := nat))) :=
  [Calls 1 Take; Runs 1 None; Runs 1 None; Runs 1 None; Runs 1 None].
Definition sleeping : config (list nat) (result nat) op :=
  mkConfig [] ∅ {[1 := (Take, Asleep 0 0 take)]}.

Lemma sleeping_reachable : reachable code_of [] sleeping.
Proof. exists to_sleep, [Called 1 Take]. vm_compute. reflexivity. Qed.
Lemma sleeping_stuck t w : exec code_of (Runs t w) sleeping = None.
Proof.
  cbn [exec sleeping threads]. destruct (decide (t = 1)) as [->|Ht]; [by rewrite lookup_singleton_eq|].
  by rewrite lookup_singleton_ne.
Qed.
End WakeupsDemo.

Lemma blocking_queue_progress_witness :
  threads WakeupsDemo.sleeping = ∅ ∨
  data WakeupsDemo.sleeping = [] ∧
  ∀ t x, threads WakeupsDemo.sleeping !! t = Some x →
    x = (BlockingQueue.Take, Asleep 0 0 BlockingQueue.take).
Proof.
  apply (BlockingQueueWakeups.blocking_queue_progress [] WakeupsDemo.sleeping).
  - exact WakeupsDemo.sleeping_reachable.
  - exact WakeupsDemo.sleeping_stuck.
Defined.
