(* ===== verification/QueueV2.v ===== *)
(** * QueueV2

    [threadsafe_queue_version_2] of [thread/threadsafe_queue.cc]: a linked list
    with a dummy node at its end, a mutex for its head (0) and one for its tail
    (1). Nodes are numbers; a node that is destroyed leaves the heap. The class
    is modelled as it is meant where it uses names or moves it cannot
    ([head], [tail], [cond_], moving a [scoped_ptr]). *)
From S2P Require Import Prelude Threads Queues.

Module QueueV2.
Section Queue.
Context {T : Type}.

Record node := mkNode { ndata : option T; nnext : option nat }.
#[export] Instance eta_node : Eta node := λ n, mkNode (ndata n) (nnext n).

Record qdata := mkQ { nodes : gmap nat node; head_ : option nat; tail_ : nat; fresh_ : nat }.
#[export] Instance eta_qdata : Eta qdata := λ d, mkQ (nodes d) (head_ d) (tail_ d) (fresh_ d).

(** The constructor: one empty node, both head and tail. *)
Definition queue_v2_ctor : qdata := mkQ {[0 := mkNode None None]} (Some 0) 0 1.

Inductive op := Push (x : T) | WaitAndPop | WaitAndPopRef | TryPop | Empty.
Abbreviation vcode := (code qdata (result T) op) (only parsing).

Definition get_tail (k : nat → vcode) : vcode :=
  Lock 1 (Act id (λ d, Unlock 1 (k (tail_ d)))).

(** [head_ = old_head->next]; the old head is given to the caller. *)
Definition pop_node (d : qdata) : qdata :=
  match head_ d with
  | Some h => d <| head_ := (nodes d !! h) ≫= nnext |>
  | None => d
  end.
Definition pop_head (k : nat → vcode) : vcode :=
  Act pop_node (λ d, match head_ d with
                     | Some h => k h
                     | None => Terminate (Undefined "null head_")
                     end).

(** The value of a node the caller owns, which is then destroyed. *)
Definition node_value (n : nat) (k : option T → vcode) : vcode :=
  Act (λ d, d <| nodes ::= delete n |>) (λ d, k ((nodes d !! n) ≫= ndata)).

(** [cond_.wait(lock, [&]{ return head_.get() != get_tail(); })]. *)
Definition wait_for_data (k : vcode) : vcode :=
  Loop (Act id (λ d, get_tail (λ t, if decide (head_ d = Some t) then Wait 0 0 Again else Break))) k.

Definition wait_pop_head (k : nat → vcode) : vcode := Lock 0 (wait_for_data (pop_head (λ n, Unlock 0 (k n)))).
Definition wait_and_pop : vcode := wait_pop_head (λ n, node_value n (λ o, Finish (ROption o))).

(** [value = *head_->data] first. *)
Definition wait_and_pop_ref : vcode :=
  Lock 0 (wait_for_data (Act id (λ d,
    match (head_ d ≫= λ h, nodes d !! h) ≫= ndata with
    | Some x => pop_head (λ n, Unlock 0 (node_value n (λ _, Finish (RElem x))))
    | None => Terminate (Undefined "null data")
    end))).

Definition try_pop : vcode :=
  Lock 0 (Act id (λ d, get_tail (λ t,
    if decide (head_ d = Some t) then Unlock 0 (Finish (ROption None))
    else pop_head (λ n, Unlock 0 (node_value n (λ o, Finish (ROption o))))))).

Definition empty : vcode :=
  Lock 0 (Act id (λ d, get_tail (λ t, Unlock 0 (Finish (RBool (bool_decide (head_ d = Some t))))))).

(** [new node], outside the critical section. *)
Definition alloc (d : qdata) : qdata :=
  d <| nodes ::= <[fresh_ d := mkNode None None]> |> <| fresh_ ::= S |>.
Definition set_data (x : T) (d : qdata) : qdata :=
  d <| nodes ::= alter (λ n, n <| ndata := Some x |>) (tail_ d) |>.
Definition set_next (p : nat) (d : qdata) : qdata :=
  d <| nodes ::= alter (λ n, n <| nnext := Some p |>) (tail_ d) |>.
Definition set_tail (p : nat) (d : qdata) : qdata := d <| tail_ := p |>.

Definition push (x : T) : vcode :=
  Act alloc (λ d, let p := fresh_ d in
    Lock 1 (Act (set_data x) (λ _, Act (set_next p) (λ _, Act (set_tail p) (λ _,
      Unlock 1 (NotifyOne 0 (Finish RVoid))))))).

Definition code_of (o : op) : vcode :=
  match o with
  | Push x => push x | WaitAndPop => wait_and_pop | WaitAndPopRef => wait_and_pop_ref
  | TryPop => try_pop | Empty => empty
  end.

(** The elements, from the head to the tail. *)
Fixpoint elements (fuel : nat) (n : option nat) (d : qdata) : list T :=
  match fuel, n with
  | S fuel, Some n =>
      if decide (n = tail_ d) then [] else
      match nodes d !! n with
      | Some (mkNode (Some x) n') => x :: elements fuel n' d
      | _ => []
      end
  | _, _ => []
  end.
Definition contents (d : qdata) : list T := elements (S (size (nodes d))) (head_ d) d.

(** ** A lost wake-up *)

(** Thread 1 has found the queue empty and is about to wait; thread 2 pushes
    an element and notifies, which nobody is waiting for yet; then thread 1
    goes to sleep. *)
Definition lost_wakeup (x : T) : list (choice (Op := op)) :=
  Calls 1 WaitAndPop :: replicate 6 (Runs 1 None) ++
  Calls 2 (Push x) :: replicate 8 (Runs 2 None) ++ [Runs 1 None].

(** The body that a sleeping thread goes back to. *)
Definition wait_entry : vcode := wait_for_data (pop_head (λ n, Unlock 0 (node_value n (λ o, Finish (ROption o))))).

(** C38: [push] notifies without holding the mutex of the sleeping side, so
    a wake-up can be lost: there is an execution after which an element is in
    the queue, the only call in progress is a [wait_and_pop] that sleeps, and
    nothing can go on. *)
Theorem queue_v2_loses_wakeup (x : T) : ∃ C,
  run_schedule code_of (lost_wakeup x) (initial queue_v2_ctor)
    = Some ([Called 1 WaitAndPop; Called 2 (Push x); Returned 2 RVoid], C) ∧
  contents (data C) = [x] ∧
  threads C = {[1 := (WaitAndPop, Asleep 0 0 wait_entry)]} ∧
  ∀ t w, exec code_of (Runs t w) C = None.
Proof.
  eexists. split; [vm_compute; reflexivity|]. split; [reflexivity|]. split; [reflexivity|].
  intros t w. cbn [exec threads]. destruct (decide (t = 1)) as [->|Ht]; [reflexivity|].
  match goal with |- match ?m !! t with _ => _ end = _ =>
    assert (m = {[1 := (WaitAndPop, Asleep 0 0 wait_entry)]}) as -> by reflexivity end.
  by rewrite lookup_singleton_ne.
Qed.
End Queue.
End QueueV2.
