(* ===== verification/TwoLocks.v ===== *)
(** * TwoLocks

    The two-lock queue of [thread/threadsafe_queue.cc] is linearizable: a
    small proof system for the programs of its threads, whose judgements say
    what a thread knows about the queue from the locks it holds and the node
    it owns, its soundness, and the derivations for the five functions. *)
From S2P Require Import Prelude Threads Queues QueueV2.
Import QueueV2.

Section TwoLocks.
Context {T : Type}.
Abbreviation vcode := (code qdata (result T) op) (only parsing).
Implicit Types (d : qdata (T := T)) (q xs : list T) (ids : list nat) (t u n h : nat) (x : T).

(** What the queue is meant to be. *)
Definition fifo (o : op) q : option (result T * list T) :=
  match o, q with
  | Push x, _ => Some (RVoid, q ++ [x])
  | WaitAndPop, x :: q' => Some (ROption (Some x), q')
  | WaitAndPopRef, x :: q' => Some (RElem x, q')
  | WaitAndPop, [] | WaitAndPopRef, [] => None
  | TryPop, x :: q' => Some (ROption (Some x), q')
  | TryPop, [] => Some (ROption None, [])
  | Empty, [] => Some (RBool true, [])
  | Empty, _ :: _ => Some (RBool false, q)
  end.

(** ** The chain of nodes *)

(** From node [h], the nodes [ids] hold [xs] and lead to [tl]. *)
Fixpoint linked (ns : gmap nat node) h xs (tl : nat) ids : Prop :=
  match xs, ids with
  | [], [] => h = tl
  | x :: xs, n :: ids => n = h ∧ ∃ h', ns !! h = Some (mkNode (Some x) (Some h')) ∧ linked ns h' xs tl ids
  | _, _ => False
  end.

Lemma linked_frame ns ns' h xs tl ids :
  (∀ n, n ∈ ids → ns' !! n = ns !! n) → linked ns h xs tl ids → linked ns' h xs tl ids.
Proof.
  induction xs as [|x xs IH] in h, ids |- *; destruct ids as [|n ids]; cbn [linked]; try done.
  intros Heq (->&h'&Hn&Hl). split; [done|]. exists h'. split; [by rewrite Heq by left|].
  apply IH; [|done]. intros n Hin. apply Heq. by right.
Qed.

Lemma linked_empty ns h xs tl ids : linked ns h xs tl ids → tl ∉ ids → h = tl ↔ xs = [].
Proof.
  destruct xs, ids; cbn [linked]; try done. intros (->&_) Htl. split; [|done].
  intros ->. destruct Htl. by left.
Qed.

Lemma linked_snoc ns h xs tl ids x p :
  linked ns h xs tl ids → ns !! tl = Some (mkNode (Some x) (Some p)) →
  linked ns h (xs ++ [x]) p (ids ++ [tl]).
Proof.
  intros Hl Htl. revert Hl. induction xs as [|y xs IH] in h, ids |- *; destruct ids as [|n ids]; cbn; try done.
  - intros ->. split; [done|]. by exists p.
  - intros (->&h'&Hn&Hl). split; [done|]. exists h'. split; [done|]. by apply IH.
Qed.

(** ** What a thread knows *)

Definition dummy : node (T := T) := mkNode None None.

(** Of the head, when it holds the head's mutex: nothing more, which node it
    is, or the first element. *)
Inductive hview := NoHead | HeadAny | HeadIs (n : nat) | HeadFull (x : T).

(** Of the last node, when it holds the tail's mutex: its contents; and the
    node that the thread alone can reach. *)
Record view := mkView { vhead : hview; vtail : option (node (T := T)); vown : option (nat * node (T := T)) }.
Definition outside : view := mkView NoHead None None.

(** [safe o r k v]: the rest [k] of a call of [o], from a state known as [v],
    is correct; [r] is the result of the call once it has taken effect. *)
Inductive safe (o : op) : option (result T) → vcode → view → Prop :=
  | safe_finish r : safe o (Some r) (Finish r) outside
  | safe_lock_head r k own : safe o r k (mkView HeadAny None own) → safe o r (Lock 0 k) (mkView NoHead None own)
  | safe_lock_tail r k hv own : safe o r k (mkView hv (Some dummy) own) → safe o r (Lock 1 k) (mkView hv None own)
  | safe_unlock_head r k hv own :
      hv ≠ NoHead → safe o r k (mkView NoHead None own) → safe o r (Unlock 0 k) (mkView hv None own)
  | safe_unlock_tail r k hv own :
      safe o r k (mkView hv None own) → safe o r (Unlock 1 k) (mkView hv (Some dummy) own)
  | safe_wait c k hv :
      hv ≠ NoHead → code_of o = Lock 0 k → safe o None (Wait c 0 k) (mkView hv None None)
  | safe_loop b k : code_of o = Lock 0 (Loop b k) → safe o None (Loop b k) (mkView HeadAny None None)
  | safe_notify r c k v : safe o r k v → safe o r (NotifyOne c k) v
  | safe_read_head r k tl own :
      (∀ d h, head_ d = Some h → safe o r (k d) (mkView (HeadIs h) tl own)) →
      safe o r (Act id k) (mkView HeadAny tl own)
  (* With both mutexes the thread sees whether the queue is empty, and its
     call can take effect without changing the queue. *)
  | safe_read_tail (res : list T → option (result T)) k h own :
      (∀ q r, res q = Some r → fifo o q = Some (r, q)) →
      (∀ d q, h = tail_ d ↔ q = [] →
        safe o (res q) (k d)
          (mkView (match res q, q with None, x :: _ => HeadFull x | _, _ => HeadAny end) (Some dummy) own)) →
      safe o None (Act id k) (mkView (HeadIs h) (Some dummy) own)
  | safe_peek r k x tl own :
      (∀ d, (head_ d ≫= λ h, nodes d !! h) ≫= ndata = Some x → safe o r (k d) (mkView (HeadFull x) tl own)) →
      safe o r (Act id k) (mkView (HeadFull x) tl own)
  | safe_pop k x r :
      (∀ q, fifo o (x :: q) = Some (r, q)) →
      (∀ d h nx, head_ d = Some h →
        safe o (Some r) (k d) (mkView HeadAny None (Some (h, mkNode (Some x) nx)))) →
      safe o None (Act pop_node k) (mkView (HeadFull x) None None)
  | safe_delete r n k nd hv tl :
      (∀ d, nodes d !! n = Some nd → safe o r (k d) (mkView hv tl None)) →
      safe o r (Act (λ d, d <| nodes ::= delete n |>) k) (mkView hv tl (Some (n, nd)))
  | safe_alloc r k hv tl :
      (∀ d, safe o r (k d) (mkView hv tl (Some (fresh_ d, dummy)))) →
      safe o r (Act alloc k) (mkView hv tl None)
  | safe_set_data r x k nd hv own :
      (∀ d, safe o r (k d) (mkView hv (Some (nd <| ndata := Some x |>)) own)) →
      safe o r (Act (set_data x) k) (mkView hv (Some nd) own)
  | safe_set_next r p k nd hv own :
      (∀ d, safe o r (k d) (mkView hv (Some (nd <| nnext := Some p |>)) own)) →
      safe o r (Act (set_next p) k) (mkView hv (Some nd) own)
  | safe_set_tail p x r k hv :
      (∀ q, fifo o q = Some (r, q ++ [x])) →
      (∀ d, safe o (Some r) (k d) (mkView hv (Some dummy) None)) →
      safe o None (Act (set_tail p) k) (mkView hv (Some (mkNode (Some x) (Some p))) (Some (p, dummy))).

(** ** The functions *)

Ltac safe_step :=
  match goal with
  | |- safe _ _ (Finish _) _ => apply safe_finish
  | |- safe _ _ (Lock 0 _) _ => apply safe_lock_head
  | |- safe _ _ (Lock 1 _) _ => apply safe_lock_tail
  | |- safe _ _ (Unlock 0 _) _ => apply safe_unlock_head; [done|]
  | |- safe _ _ (Unlock 1 _) _ => apply safe_unlock_tail
  | |- safe _ _ (NotifyOne _ _) _ => apply safe_notify
  | |- safe _ _ (Act id _) (mkView HeadAny _ _) => apply safe_read_head; intros
  | |- safe _ _ (Act alloc _) _ => apply safe_alloc; intros
  | |- safe _ _ (Act (set_data _) _) _ => apply safe_set_data; intros
  | |- safe _ _ (Act (set_next _) _) _ => apply safe_set_next; intros
  | |- safe _ _ (Act (set_tail _) _) _ => apply safe_set_tail; [done|intros]
  | |- safe _ _ (Act pop_node _) _ => eapply safe_pop; [done|intros ? ? ? ->]
  | |- safe _ _ (Act (λ d, d <| nodes ::= delete _ |>) _) _ => apply safe_delete; intros ? ->
  end.

(** What the two functions that look at the tail under the head's mutex do. *)
Lemma safe_test o (res : list T → option (result T)) (f : qdata → qdata → vcode) (k_empty k : vcode) own :
  (∀ d d', head_ d = Some (tail_ d') → f d d' = k_empty) →
  (∀ d d', head_ d ≠ Some (tail_ d') → f d d' = k) →
  (∀ q r, res q = Some r → fifo o q = Some (r, q)) →
  safe o (res []) k_empty (mkView HeadAny None own) →
  (∀ x q, safe o (res (x :: q)) k
     (mkView (match res (x :: q) with None => HeadFull x | Some _ => HeadAny end) None own)) →
  safe o None (Act id (λ d, Lock 1 (Act id (λ d', Unlock 1 (f d d'))))) (mkView HeadAny None own).
Proof.
  intros Hf1 Hf2 Hres He Hk. apply safe_read_head. intros d h Hh. safe_step. apply (safe_read_tail _ res); [done|].
  intros d' q Hq. safe_step. destruct q as [|x q].
  - rewrite Hf1; [by destruct (res [])|]. rewrite Hh. f_equal. by apply Hq.
  - rewrite Hf2; [by apply Hk|]. rewrite Hh. intros [= E]. by apply Hq in E.
Qed.

Ltac decide_if := intros ?? ?; by (rewrite decide_True by done) || (rewrite decide_False by done).

(** A function that waits first. *)
Lemma safe_wait_body o k :
  code_of o = Lock 0 (wait_for_data k) →
  (∀ x, safe o None k (mkView (HeadFull x) None None)) →
  ∀ b k', code_of o = Lock 0 (Loop b k') → safe o None (plug (Loop b k') k' b) (mkView HeadAny None None).
Proof.
  intros Ho Hk b k'. rewrite Ho. intros [= <- <-].
  apply (safe_test o (λ _, None) _ (Wait 0 0 (wait_for_data k)) k);
    [decide_if|decide_if|done| |].
  - by apply safe_wait.
  - intros x _. apply Hk.
Qed.

Lemma safe_pop_head o x (k : nat → vcode) r :
  (∀ q, fifo o (x :: q) = Some (r, q)) →
  (∀ h nx, safe o (Some r) (k h) (mkView HeadAny None (Some (h, mkNode (Some x) nx)))) →
  safe o None (pop_head k) (mkView (HeadFull x) None None).
Proof. intros Hr Hk. eapply safe_pop; [done|]. intros d h nx Hh. rewrite Hh. apply Hk. Qed.

Lemma safe_node_value o r n nd (k : option T → vcode) :
  safe o r (k (ndata nd)) outside → safe o r (node_value n k) (mkView NoHead None (Some (n, nd))).
Proof. intros Hk. apply safe_delete. intros d Hd. by rewrite Hd. Qed.

Lemma safe_code o : safe o None (code_of o) outside.
Proof.
  destruct o as [x| | | |].
  - unfold code_of, push. repeat safe_step. eapply (safe_set_tail _ _ x RVoid); [done|]. intros d'. repeat safe_step.
  - apply safe_lock_head. by apply safe_loop.
  - apply safe_lock_head. by apply safe_loop.
  - apply safe_lock_head.
    apply (safe_test _ (λ q, match q with [] => Some (ROption None) | _ :: _ => None end) _
      (Unlock 0 (Finish (ROption None))) (pop_head (λ n, Unlock 0 (node_value n (λ o, Finish (ROption o))))));
      [decide_if|decide_if| | |].
    + by intros [] r [= <-].
    + repeat safe_step.
    + intros x q. eapply safe_pop_head; [done|]. intros h nx. safe_step. apply safe_node_value. safe_step.
  - apply safe_lock_head.
    apply (safe_test _ (λ q, Some (RBool (match q with [] => true | _ :: _ => false end)))
      (λ d d', Unlock 0 (Finish (RBool (bool_decide (head_ d = Some (tail_ d'))))))
      (Unlock 0 (Finish (RBool true))) (Unlock 0 (Finish (RBool false)))).
    + intros ???. by rewrite bool_decide_true.
    + intros ???. by rewrite bool_decide_false.
    + by intros [] r [= <-].
    + repeat safe_step.
    + intros x q. repeat safe_step.
Qed.

Lemma safe_loop_body o b k :
  code_of o = Lock 0 (Loop b k) → safe o None (plug (Loop b k) k b) (mkView HeadAny None None).
Proof.
  destruct o; try done; (eapply safe_wait_body; [reflexivity|intros x]).
  - eapply safe_pop_head; [done|]. intros h nx. safe_step. apply safe_node_value. safe_step.
  - apply safe_peek. intros d Hd. rewrite Hd.
    eapply safe_pop_head; [done|]. intros h nx. safe_step. apply safe_node_value. safe_step.
Qed.

(** ** The state of the queue and the knowledge of its threads *)

Definition head_ok (L : gmap nat nat) d q t (hv : hview) : Prop :=
  match hv with
  | NoHead => True
  | HeadAny => L !! 0 = Some t
  | HeadIs h => L !! 0 = Some t ∧ head_ d = Some h
  | HeadFull x => L !! 0 = Some t ∧ ∃ q', q = x :: q'
  end.

(** The queue holds [q], in the nodes [ids]. *)
Record chain_ok (L : gmap nat nat) d q ids : Prop := {
  co_head : ∃ h, head_ d = Some h ∧ linked (nodes d) h q (tail_ d) ids;
  co_ids : NoDup ids;
  co_tail : tail_ d ∉ ids;
  co_last : is_Some (nodes d !! tail_ d);
  co_fresh : ∀ n, is_Some (nodes d !! n) → n < fresh_ d;
  co_free : L !! 1 = None → nodes d !! tail_ d = Some dummy;
}.

(** What thread [t] knows is true. *)
Record view_ok (L : gmap nat nat) d q ids t (v : view) : Prop := {
  vo_head : head_ok L d q t (vhead v);
  vo_own : ∀ n nd, vown v = Some (n, nd) → nodes d !! n = Some nd ∧ (n ∉ ids) ∧ n ≠ tail_ d;
  vo_tail : ∀ nd, vtail v = Some nd → L !! 1 = Some t ∧ nodes d !! tail_ d = Some nd;
}.

Definition own_inj (vs : nat → view) : Prop :=
  ∀ t u n nd nd', vown (vs t) = Some (n, nd) → vown (vs u) = Some (n, nd') → t = u.

Definition shared_ok (L : gmap nat nat) d q (vs : nat → view) ids : Prop :=
  chain_ok L d q ids ∧ (∀ t, view_ok L d q ids t (vs t)) ∧ own_inj vs.

Definition vset t (v : view) (vs : nat → view) : nat → view := λ u, if decide (u = t) then v else vs u.
Lemma vset_eq t v vs : vset t v vs t = v.
Proof. unfold vset. by rewrite decide_True. Qed.
Lemma vset_ne t u v vs : u ≠ t → vset t v vs u = vs u.
Proof. intros. unfold vset. by rewrite decide_False. Qed.

Lemma own_inj_vset t v vs :
  own_inj vs → (∀ n nd, vown v = Some (n, nd) → vown (vs t) = Some (n, nd)) → own_inj (vset t v vs).
Proof.
  intros Hinj Hv.
  assert (∀ u n nd, vown (vset t v vs u) = Some (n, nd) → vown (vs u) = Some (n, nd)) as Hback.
  { intros u n nd. unfold vset. destruct (decide (u = t)) as [->|]; [apply Hv|done]. }
  intros t1 t2 n nd nd' H1%Hback H2%Hback. by eapply Hinj.
Qed.

Lemma own_inj_vset_new t hv tl n nd vs :
  own_inj vs → (∀ u nd', u ≠ t → vown (vs u) ≠ Some (n, nd')) →
  own_inj (vset t (mkView hv tl (Some (n, nd))) vs).
Proof.
  intros Hinj Hnew t1 t2 n' nd1 nd2. unfold vset.
  destruct (decide (t1 = t)) as [->|H1], (decide (t2 = t)) as [->|H2]; [done| | |apply Hinj]; cbn.
  - intros [= <- _] Hu. by destruct (Hnew _ _ H2 Hu).
  - intros Hu [= <- _]. by destruct (Hnew _ _ H1 Hu).
Qed.

(** Thread [t] changes the state; the knowledge of the others must survive. *)
Lemma shared_update L d q vs ids L' d' q' ids' t v :
  shared_ok L d q vs ids → chain_ok L' d' q' ids' → view_ok L' d' q' ids' t v →
  (∀ u, u ≠ t → view_ok L d q ids u (vs u) → view_ok L' d' q' ids' u (vs u)) →
  own_inj (vset t v vs) → shared_ok L' d' q' (vset t v vs) ids'.
Proof.
  intros (_&Hviews&_) Hc Hv Hoth Hinj. split; [done|]. split; [|done].
  intros u. destruct (decide (u = t)) as [->|Hu]; [by rewrite vset_eq|]. rewrite vset_ne by done. by apply Hoth.
Qed.

Lemma linked_in ns h xs tl ids n : linked ns h xs tl ids → n ∈ ids → is_Some (ns !! n).
Proof.
  induction xs as [|x xs IH] in h, ids |- *; destruct ids as [|n' ids]; cbn; try done.
  - by intros _ ?%not_elem_of_nil.
  - intros (->&h'&Hh&Hl) [->|Hin]%elem_of_cons; [by eexists|by eapply IH].
Qed.

Lemma head_ok_owner L d q t hv : head_ok L d q t hv → hv = NoHead ∨ L !! 0 = Some t.
Proof. destruct hv; cbn; naive_solver. Qed.

Section Steps.
Context (L : gmap nat nat) d q (vs : nat → view) ids (Hok : shared_ok L d q vs ids) t.
Let Hc : chain_ok L d q ids := proj1 Hok.
Let Hv : view_ok L d q ids t (vs t) := proj1 (proj2 Hok) t.

(** What is known of the head. *)
Lemma step_hview hv :
  head_ok L d q t hv → shared_ok L d q (vset t (mkView hv (vtail (vs t)) (vown (vs t))) vs) ids.
Proof.
  intros Hh. eapply shared_update; [exact Hok|done| |done|by apply own_inj_vset; [apply Hok|]].
  destruct Hv. by split.
Qed.

Lemma step_lock_head :
  L !! 0 = None → shared_ok (<[0 := t]> L) d q (vset t (mkView HeadAny (vtail (vs t)) (vown (vs t))) vs) ids.
Proof.
  intros Hl. eapply shared_update; [exact Hok| | | |by apply own_inj_vset; [apply Hok|]].
  - destruct Hc. split; try done. by rewrite lookup_insert_ne.
  - destruct Hv. split; cbn; [by rewrite lookup_insert_eq|done|by rewrite lookup_insert_ne].
  - intros u _ [Hh ? ?]. split; [|done|by rewrite lookup_insert_ne].
    destruct (head_ok_owner _ _ _ _ _ Hh) as [->|]; [done|congruence].
Qed.

Lemma step_unlock_head :
  vhead (vs t) ≠ NoHead → L !! 0 = Some t ∧
  shared_ok (delete 0 L) d q (vset t (mkView NoHead (vtail (vs t)) (vown (vs t))) vs) ids.
Proof.
  intros Hne. destruct (head_ok_owner _ _ _ _ _ (vo_head _ _ _ _ _ _ Hv)) as [|Hl]; [done|]. split; [done|].
  eapply shared_update; [exact Hok| | | |by apply own_inj_vset; [apply Hok|]].
  - destruct Hc. split; try done. by rewrite lookup_delete_ne.
  - destruct Hv. split; cbn; [done|done|by rewrite lookup_delete_ne].
  - intros u Hu [Hh ? ?]. split; [|done|by rewrite lookup_delete_ne].
    destruct (head_ok_owner _ _ _ _ _ Hh) as [->|]; [done|congruence].
Qed.

(** The other mutex does not matter for what is known of the head. *)
Lemma head_ok_locks L' u hv : L' !! 0 = L !! 0 → head_ok L d q u hv → head_ok L' d q u hv.
Proof. intros E. destruct hv; cbn; by rewrite ?E. Qed.

Lemma step_lock_tail :
  L !! 1 = None → shared_ok (<[1 := t]> L) d q (vset t (mkView (vhead (vs t)) (Some dummy) (vown (vs t))) vs) ids.
Proof.
  intros Hl. eapply shared_update; [exact Hok| | | |by apply own_inj_vset; [apply Hok|]].
  - destruct Hc. split; try done. by rewrite lookup_insert_eq.
  - destruct Hv. split; cbn; [by eapply head_ok_locks; [rewrite lookup_insert_ne|]|done|].
    intros nd [= <-]. rewrite lookup_insert_eq. split; [done|]. by apply Hc.
  - intros u _ [Hh ? Ht]. split; [by eapply head_ok_locks; [rewrite lookup_insert_ne|]|done|].
    intros nd Hnd. apply Ht in Hnd as [? _]. congruence.
Qed.

Lemma step_unlock_tail :
  vtail (vs t) = Some dummy → L !! 1 = Some t ∧
  shared_ok (delete 1 L) d q (vset t (mkView (vhead (vs t)) None (vown (vs t))) vs) ids.
Proof.
  intros Htl. destruct (vo_tail _ _ _ _ _ _ Hv _ Htl) as [Hl Hlast]. split; [done|].
  eapply shared_update; [exact Hok| | | |by apply own_inj_vset; [apply Hok|]].
  - destruct Hc. by split.
  - destruct Hv. split; cbn; [by eapply head_ok_locks; [rewrite lookup_delete_ne|]|done|done].
  - intros u Hu [Hh ? Ht]. split; [by eapply head_ok_locks; [rewrite lookup_delete_ne|]|done|].
    intros nd Hnd. apply Ht in Hnd as [? _]. congruence.
Qed.

Lemma step_pop x :
  vhead (vs t) = HeadFull x → ∃ h nx q', q = x :: q' ∧ head_ d = Some h ∧
    shared_ok L (pop_node d) q' (vset t (mkView HeadAny (vtail (vs t)) (Some (h, mkNode (Some x) nx))) vs) (tail ids).
Proof.
  intros Ehv. pose proof (vo_head _ _ _ _ _ _ Hv) as Hh. rewrite Ehv in Hh. destruct Hh as (Hl&q'&Eq).
  destruct Hc as [(h&Eh&Hlk) Hnd Htl Hlast Hfresh Hfree]. rewrite Eq in Hlk.
  destruct ids as [|n ids']; [done|]. destruct Hlk as (->&h'&Hn&Hlk). exists h, (Some h'), q'.
  split; [done|]. split; [done|]. cbn [tail].
  assert (pop_node d = d <| head_ := Some h' |>) as ->.
  { unfold pop_node. rewrite Eh. cbn. by rewrite Hn. }
  apply not_elem_of_cons in Htl as [Hne Htl]. inversion Hnd as [|? ? Hni Hnd']; subst.
  eapply shared_update; [exact Hok| | | |].
  - split; try done. by exists h'.
  - split; cbn; [done| |apply Hv]. intros m nd [= <- <-]. done.
  - intros u Hu [Hh' Hown ?]. split; [|intros m nd Hm; apply Hown in Hm as (?&?&?); set_solver|done].
    destruct (head_ok_owner _ _ _ _ _ Hh') as [->|]; [done|congruence].
  - apply own_inj_vset_new; [apply Hok|]. intros u nd' _ Hu.
    apply (vo_own _ _ _ _ _ _ (proj1 (proj2 Hok) u)) in Hu as (_&Hin&_). destruct Hin. by left.
Qed.

Lemma step_delete n nd :
  vown (vs t) = Some (n, nd) → nodes d !! n = Some nd ∧
  shared_ok L (d <| nodes ::= delete n |>) q (vset t (mkView (vhead (vs t)) (vtail (vs t)) None) vs) ids.
Proof.
  intros Eo. destruct (vo_own _ _ _ _ _ _ Hv _ _ Eo) as (Hn&Hni&Hne). split; [done|].
  eapply shared_update; [exact Hok| | | |by apply own_inj_vset; [apply Hok|]].
  - destruct Hc as [(h&Eh&Hlk) Hnd Htl Hlast Hfresh Hfree]. split; cbn; try done.
    + exists h. split; [done|]. eapply linked_frame; [|exact Hlk].
      intros m Hm. by rewrite lookup_delete_ne by (by intros ->).
    + by rewrite lookup_delete_ne.
    + intros m [nd' [_ Hm]%lookup_delete_Some]. apply Hfresh. by exists nd'.
    + intros Hl. rewrite lookup_delete_ne by done. by apply Hfree.
  - split; cbn; [apply Hv|done|]. intros nd' Htl. rewrite lookup_delete_ne by done. by apply Hv.
  - intros u Hu [? Hown Ht]. split; [done| |].
    + intros m nd' Hm. cbn. rewrite lookup_delete_ne; [by apply Hown|].
      intros ->. apply Hu. by eapply Hok.
    + intros nd' Hnd'. cbn. rewrite lookup_delete_ne by done. by apply Ht.
Qed.

Lemma step_alloc :
  vown (vs t) = None →
  shared_ok L (alloc d) q
    (vset t (mkView (vhead (vs t)) (vtail (vs t)) (Some (fresh_ d, dummy))) vs) ids.
Proof.
  intros Eo. destruct Hc as [(h&Eh&Hlk) Hnd Htl Hlast Hfresh Hfree].
  assert (∀ m, is_Some (nodes d !! m) → m ≠ fresh_ d) as Hne by (intros m Hm%Hfresh; lia).
  assert (∀ m, is_Some (nodes d !! m) → nodes (alloc d) !! m = nodes d !! m) as Hsame.
  { intros m Hm. cbn. by rewrite lookup_insert_ne by (by intros <-; apply (Hne _ Hm)). }
  eapply shared_update; [exact Hok| | | |].
  - split; cbn [alloc head_ tail_ fresh_ upd]; try done.
    + exists h. split; [done|]. eapply linked_frame; [|exact Hlk].
      intros m Hm. apply Hsame. by eapply linked_in.
    + by rewrite Hsame.
    + intros m Hm. destruct (decide (m = fresh_ d)) as [->|Hm']; [lia|]. cbn in Hm.
      rewrite lookup_insert_ne in Hm by done. apply Hfresh in Hm. lia.
    + intros Hl. rewrite Hsame by done. by apply Hfree.
  - split; cbn [vhead vown vtail].
    + destruct (vhead (vs t)) eqn:E; pose proof (vo_head _ _ _ _ _ _ Hv) as Hh; by rewrite E in Hh.
    + intros n nd [= <- <-]. cbn. rewrite lookup_insert_eq. split; [done|]. split.
      * intros Hin. eapply linked_in in Hin; [|exact Hlk]. by apply (Hne _ Hin).
      * intros E. by apply (Hne _ Hlast).
    + intros nd Htn. cbn [alloc tail_ upd]. rewrite Hsame by done. by apply Hv.
  - intros u _ [? Hown Ht]. split; [done| |].
    + intros n nd Hn. apply Hown in Hn as (Hn&?). rewrite Hsame by (by eexists). done.
    + intros nd Hn. cbn [alloc tail_ upd]. rewrite Hsame by done. by apply Ht.
  - apply own_inj_vset_new; [apply Hok|]. intros u nd' _ Hu.
    apply (vo_own _ _ _ _ _ _ (proj1 (proj2 Hok) u)) in Hu as (Hu&_). by apply (Hne (fresh_ d)).
Qed.

Lemma step_last nd f :
  vtail (vs t) = Some nd →
  shared_ok L (d <| nodes ::= alter f (tail_ d) |>) q
    (vset t (mkView (vhead (vs t)) (Some (f nd)) (vown (vs t))) vs) ids.
Proof.
  intros Etl. destruct (vo_tail _ _ _ _ _ _ Hv _ Etl) as [Hl Hlast'].
  destruct Hc as [(h&Eh&Hlk) Hnd Htl Hlast Hfresh Hfree].
  eapply shared_update; [exact Hok| | | |by apply own_inj_vset; [apply Hok|]].
  - split; cbn; try done.
    + exists h. split; [done|]. eapply linked_frame; [|exact Hlk].
      intros m Hm. by rewrite lookup_alter_ne by (intros E; apply Htl; by rewrite E).
    + by rewrite lookup_alter_eq, Hlast'.
    + intros m Hm. apply Hfresh. destruct (decide (m = tail_ d)) as [->|]; [done|].
      by rewrite lookup_alter_ne in Hm.
    + congruence.
  - split; cbn; [apply Hv| |].
    + intros n nd' Hn. apply Hv in Hn as (Hn&?&?). by rewrite lookup_alter_ne.
    + intros nd' [= <-]. by rewrite lookup_alter_eq, Hlast'.
  - intros u Hu [? Hown Ht]. split; [done| |].
    + intros n nd' Hn. apply Hown in Hn as (Hn&?&?). cbn. by rewrite lookup_alter_ne.
    + intros nd' Hn. apply Ht in Hn as [? _]. congruence.
Qed.

Lemma step_set_tail x p :
  vtail (vs t) = Some (mkNode (Some x) (Some p)) → vown (vs t) = Some (p, dummy) →
  shared_ok L (set_tail p d) (q ++ [x]) (vset t (mkView (vhead (vs t)) (Some dummy) None) vs)
    (ids ++ [tail_ d]).
Proof.
  intros Etl Eo. destruct (vo_tail _ _ _ _ _ _ Hv _ Etl) as [Hl Hlast'].
  destruct (vo_own _ _ _ _ _ _ Hv _ _ Eo) as (Hp&Hpi&Hpt).
  destruct Hc as [(h&Eh&Hlk) Hnd Htl Hlast Hfresh Hfree].
  assert (∀ u, head_ok L d q u (vhead (vs u)) → head_ok L (set_tail p d) (q ++ [x]) u (vhead (vs u))) as Hhead.
  { intros u. destruct (vhead (vs u)); cbn; try done. intros (?&q'&->). split; [done|]. by exists (q' ++ [x]). }
  eapply shared_update; [exact Hok| | | |by apply own_inj_vset; [apply Hok|]].
  - split; cbn; try done.
    + exists h. split; [done|]. by apply linked_snoc.
    + apply NoDup_app. split; [done|]. split; [|by apply NoDup_singleton]. set_solver.
    + set_solver.
  - split; cbn; [by apply Hhead, Hv|done|]. by intros nd' [= <-].
  - intros u Hu [? Hown Ht]. split; [by apply Hhead| |].
    + intros n nd' Hn. pose proof Hn as Hn'. apply Hown in Hn' as (Hn'&?&?). cbn. split; [done|]. split; [set_solver|].
      intros ->. apply Hu. by eapply Hok.
    + intros nd' Hn. apply Ht in Hn as [? _]. congruence.
Qed.
End Steps.

(** ** Soundness: every step of a safe thread is a step of the queue or none *)

Abbreviation qconfig := (config (qdata (T := T)) (result T) (op (T := T))) (only parsing).
Abbreviation astate_q := (aconfig (result T) (op (T := T)) (list T)) (only parsing).

Definition thread_ok (v : view) (th : option (op * tstate qdata (result T) op))
    (c : option (op * option (result T))) : Prop :=
  match th, c with
  | None, None => v = outside
  | Some (o, Running k), Some (o', r) => o' = o ∧ safe o r k v
  | Some (o, Asleep _ m k), Some (o', r) => o' = o ∧ safe o r (Lock m k) v
  | _, _ => False
  end.

Definition two_rel (C : qconfig) (S : astate_q) : Prop :=
  ∃ vs ids, shared_ok (locks C) (data C) (astate S) vs ids ∧
            ∀ t, thread_ok (vs t) (threads C !! t) (calls S !! t).

Lemma two_rel_thread vs (C C' : qconfig) (S S' : astate_q) t v ids :
  (∀ u, thread_ok (vs u) (threads C !! u) (calls S !! u)) →
  shared_ok (locks C') (data C') (astate S') (vset t v vs) ids →
  (∀ u, u ≠ t → threads C' !! u = threads C !! u ∧ calls S' !! u = calls S !! u) →
  thread_ok v (threads C' !! t) (calls S' !! t) → two_rel C' S'.
Proof.
  intros Hall Hsh Hoth Ht. exists (vset t v vs), ids. split; [done|]. intros u.
  destruct (decide (u = t)) as [->|Hu]; [by rewrite vset_eq|]. rewrite vset_ne by done.
  destruct (Hoth u Hu) as [-> ->]. apply Hall.
Qed.

Lemma thread_ok_woken vs (ts : gmap nat (op * tstate qdata (result T) op))
    (cs : gmap nat (op * option (result T))) u o c m k v :
  (∀ u, thread_ok (vs u) (ts !! u) (cs !! u)) → ts !! u = Some (o, Asleep c m k) →
  thread_ok (vs v) (<[u := (o, Running (Lock m k))]> ts !! v) (cs !! v).
Proof.
  intros Hall Hu. pose proof (Hall v) as Hv. destruct (decide (v = u)) as [->|Hne].
  - rewrite Hu in Hv. by rewrite lookup_insert_eq.
  - by rewrite lookup_insert_ne.
Qed.

Section Run.
Context (C : qconfig) (S : astate_q) (vs : nat → view) ids.
Context (Hsh : shared_ok (locks C) (data C) (astate S) vs ids).
Context (Hall : ∀ u, thread_ok (vs u) (threads C !! u) (calls S !! u)).
Context (t : nat) (o : op) (r : option (result T)) (Hcall : calls S !! t = Some (o, r)).

Definition simulated (oe : option (event (V := result T) (Op := op (T := T)))) (C' : qconfig) : Prop :=
  (oe = None ∧ two_rel C' S) ∨ ∃ S', astep fifo S oe S' ∧ two_rel C' S'.

Lemma internal_step (C' : qconfig) v k ids' :
  shared_ok (locks C') (data C') (astate S) (vset t v vs) ids' → safe o r k v →
  threads C' = <[t := (o, Running k)]> (threads C) → simulated None C'.
Proof.
  intros Hsh' Hs Et. left. split; [done|]. eapply (two_rel_thread vs C); [done|exact Hsh'| |].
  - intros u Hu. by rewrite Et, lookup_insert_ne.
  - by rewrite Et, lookup_insert_eq, Hcall.
Qed.

Lemma effect_step (C' : qconfig) v k ids' res q' :
  r = None → fifo o (astate S) = Some (res, q') →
  shared_ok (locks C') (data C') q' (vset t v vs) ids' → safe o (Some res) k v →
  threads C' = <[t := (o, Running k)]> (threads C) → simulated None C'.
Proof.
  intros -> He Hsh' Hs Et. right. exists (mkA q' (<[t := (o, Some res)]> (calls S))).
  split; [by eapply astep_effect|]. eapply (two_rel_thread vs C); [done|exact Hsh'| |].
  - intros u Hu. cbn [calls]. by rewrite Et, !lookup_insert_ne.
  - cbn [calls]. by rewrite Et, !lookup_insert_eq.
Qed.

Lemma notify_simulated c k w oe C' :
  safe o r k (vs t) → exec_code code_of t o (NotifyOne c k) w C = Some (oe, C') →
  threads C !! t = Some (o, Running (NotifyOne c k)) → simulated oe C'.
Proof.
  intros Hs Hexec Ht. cbn [exec_code] in Hexec.
  assert (∀ C1 : qconfig, locks C1 = locks C → data C1 = data C →
    (∀ u, thread_ok (vs u) (threads C1 !! u) (calls S !! u)) → two_rel (set_thread t o k C1) S) as Hset.
  { intros C1 El Ed Hall1. exists vs, ids. cbn. rewrite El, Ed. split; [done|]. intros u.
    destruct (decide (u = t)) as [->|Hu]; [by rewrite lookup_insert_eq, Hcall|by rewrite lookup_insert_ne]. }
  destruct w as [u|].
  - destruct (threads C !! u) as [[o' [|c' m k']]|] eqn:Eu; try done.
    destruct (decide (c' = c)); [|done]. injection Hexec as <- <-. left. split; [done|].
    apply Hset; [done|done|]. intros v. by eapply thread_ok_woken.
  - destruct (decide _); [|done]. injection Hexec as <- <-. left. split; [done|]. by apply Hset.
Qed.

Ltac run_exec H := cbn [exec_code] in H; injection H as <- <-.

Lemma finish_simulated res w oe C' :
  r = Some res → vs t = outside → exec_code code_of t o (Finish res) w C = Some (oe, C') → simulated oe C'.
Proof.
  intros Er Ev Hexec. run_exec Hexec. right. exists (mkA (astate S) (delete t (calls S))).
  split; [apply (astep_return _ t o); by rewrite Hcall, <- Er|].
  eapply (two_rel_thread vs C _ S _ t outside ids); [done| | |].
  - eapply shared_update; [exact Hsh|apply Hsh| |done|]; [|apply own_inj_vset; [apply Hsh|done]].
    pose proof (proj1 (proj2 Hsh) t) as Hv. by rewrite Ev in Hv.
  - intros u Hu. cbn. by rewrite !lookup_delete_ne.
  - cbn. by rewrite !lookup_delete_eq.
Qed.

Lemma wait_simulated c k hv w oe C' :
  r = None → hv ≠ NoHead → code_of o = Lock 0 k → vs t = mkView hv None None →
  exec_code code_of t o (Wait c 0 k) w C = Some (oe, C') → simulated oe C'.
Proof.
  intros Er Hne Ho Ev Hexec. destruct (step_unlock_head _ _ _ _ _ Hsh t) as [El Hstep]; [by rewrite Ev|].
  cbn [exec_code] in Hexec. rewrite decide_True in Hexec by done. injection Hexec as <- <-.
  rewrite Ev in Hstep. left. split; [done|].
  eapply (two_rel_thread vs C _ S S t); [done|exact Hstep| |].
  - intros u Hu. cbn. by rewrite lookup_insert_ne.
  - cbn. rewrite lookup_insert_eq, Hcall, Er. split; [done|]. rewrite <- Ho. apply safe_code.
Qed.

Lemma read_tail_simulated (res : list T → option (result T)) k h own w oe C' :
  r = None → (∀ q r, res q = Some r → fifo o q = Some (r, q)) →
  (∀ d q, h = tail_ d ↔ q = [] →
    safe o (res q) (k d)
      (mkView (match res q, q with None, x :: _ => HeadFull x | _, _ => HeadAny end) (Some dummy) own)) →
  vs t = mkView (HeadIs h) (Some dummy) own →
  exec_code code_of t o (Act id k) w C = Some (oe, C') → simulated oe C'.
Proof.
  intros Er Hres Hs Ev Hexec. run_exec Hexec.
  pose proof (vo_head _ _ _ _ _ _ (proj1 (proj2 Hsh) t)) as Hh. rewrite Ev in Hh. destruct Hh as [Hl Eh].
  destruct (proj1 Hsh) as [(h'&Eh'&Hlk) _ Htl _ _ _]. assert (h' = h) as -> by congruence.
  specialize (Hs (data C) (astate S) (linked_empty _ _ _ _ _ Hlk Htl)).
  match type of Hs with safe _ _ _ (mkView ?hv _ _) =>
    pose proof (step_hview _ _ _ _ _ Hsh t hv) as Hstep end.
  rewrite Ev in Hstep. cbn [vtail vown] in Hstep.
  assert (head_ok (locks C) (data C) (astate S) t
    (match res (astate S), astate S with None, x :: _ => HeadFull x | _, _ => HeadAny end)) as Hhv.
  { destruct (res (astate S)), (astate S) as [|x q']; cbn; try done. split; [done|by exists q']. }
  destruct (res (astate S)) as [res'|] eqn:Eres.
  - eapply effect_step; [done|by apply Hres|by apply Hstep|exact Hs|done].
  - rewrite <- Er in Hs. eapply internal_step; [by apply Hstep|exact Hs|done].
Qed.

Lemma peek_simulated x k tl own w oe C' :
  (∀ d, (head_ d ≫= λ h, nodes d !! h) ≫= ndata = Some x → safe o r (k d) (mkView (HeadFull x) tl own)) →
  vs t = mkView (HeadFull x) tl own →
  exec_code code_of t o (Act id k) w C = Some (oe, C') → simulated oe C'.
Proof.
  intros Hs Ev Hexec. run_exec Hexec.
  pose proof (vo_head _ _ _ _ _ _ (proj1 (proj2 Hsh) t)) as Hh. rewrite Ev in Hh.
  pose proof (step_hview _ _ _ _ _ Hsh t (HeadFull x) Hh) as Hstep. rewrite Ev in Hstep.
  eapply internal_step; [exact Hstep|apply Hs|done].
  destruct Hh as (_&q'&Eq). destruct (proj1 Hsh) as [(h&Eh&Hlk) _ _ _ _]. rewrite Eq in Hlk.
  destruct ids as [|n ids']; [done|]. destruct Hlk as (_&h'&Hn&_). cbn. by rewrite Eh; cbn; rewrite Hn.
Qed.

Lemma run_step k w oe C' v :
  threads C !! t = Some (o, Running k) → vs t = v → safe o r k v →
  exec_code code_of t o k w C = Some (oe, C') → simulated oe C'.
Proof.
  intros Ht Ev Hsafe Hexec. remember r as r1 eqn:Er in Hsafe.
  destruct Hsafe as [res|r0 k own Hs|r0 k hv own Hs|r0 k hv own Hne Hs|r0 k hv own Hs|c k hv Hne Ho|b k Ho
    |r0 c k v Hs|r0 k tl own Hs|res k h own Hres Hs|r0 k x tl own Hs|k x res He Hs|r0 n k nd hv tl Hs
    |r0 k hv tl Hs|r0 x k nd hv own Hs|r0 p k nd hv own Hs|p x res k hv He Hs].
  - (* Finish *) by eapply finish_simulated.
  - (* Lock 0 *) cbn [exec_code] in Hexec. destruct (locks C !! 0) eqn:El; [done|]. injection Hexec as <- <-.
    pose proof (step_lock_head _ _ _ _ _ Hsh t El) as Hstep. rewrite Ev in Hstep. subst r0.
    by eapply internal_step; [exact Hstep|exact Hs|].
  - (* Lock 1 *) cbn [exec_code] in Hexec. destruct (locks C !! 1) eqn:El; [done|]. injection Hexec as <- <-.
    pose proof (step_lock_tail _ _ _ _ _ Hsh t El) as Hstep. rewrite Ev in Hstep. subst r0.
    by eapply internal_step; [exact Hstep|exact Hs|].
  - (* Unlock 0 *) destruct (step_unlock_head _ _ _ _ _ Hsh t) as [El Hstep]; [by rewrite Ev|].
    cbn [exec_code] in Hexec. rewrite decide_True in Hexec by done. injection Hexec as <- <-.
    rewrite Ev in Hstep. subst r0. by eapply internal_step; [exact Hstep|exact Hs|].
  - (* Unlock 1 *) destruct (step_unlock_tail _ _ _ _ _ Hsh t) as [El Hstep]; [by rewrite Ev|].
    cbn [exec_code] in Hexec. rewrite decide_True in Hexec by done. injection Hexec as <- <-.
    rewrite Ev in Hstep. subst r0. by eapply internal_step; [exact Hstep|exact Hs|].
  - (* Wait *) by eapply wait_simulated.
  - (* Loop *) run_exec Hexec.
    pose proof (step_hview _ _ _ _ _ Hsh t HeadAny) as Hstep. rewrite Ev in Hstep.
    eapply internal_step; [apply Hstep|rewrite <- Er; by apply safe_loop_body|done].
    pose proof (vo_head _ _ _ _ _ _ (proj1 (proj2 Hsh) t)) as Hh. by rewrite Ev in Hh.
  - (* NotifyOne *) subst r0. rewrite <- Ev in Hs. by eapply notify_simulated.
  - (* reading the head *) run_exec Hexec. subst r0.
    destruct (co_head _ _ _ _ (proj1 Hsh)) as (h&Eh&_).
    pose proof (step_hview _ _ _ _ _ Hsh t (HeadIs h)) as Hstep. rewrite Ev in Hstep.
    eapply internal_step; [apply Hstep|by apply Hs|done].
    pose proof (vo_head _ _ _ _ _ _ (proj1 (proj2 Hsh) t)) as Hh. by rewrite Ev in Hh.
  - (* reading the tail *) by eapply read_tail_simulated.
  - (* the first element *) subst r0. by eapply peek_simulated.
  - (* pop *) run_exec Hexec.
    destruct (step_pop _ _ _ _ _ Hsh t x) as (h&nx&q'&Eq&Eh&Hstep); [by rewrite Ev|]. rewrite Ev in Hstep.
    eapply effect_step; [done|by rewrite Eq|exact Hstep|by apply Hs|done].
  - (* delete *) run_exec Hexec. subst r0.
    destruct (step_delete _ _ _ _ _ Hsh t n nd) as [Hn Hstep]; [by rewrite Ev|]. rewrite Ev in Hstep.
    by eapply internal_step; [exact Hstep|by apply Hs|].
  - (* new node *) run_exec Hexec. subst r0.
    pose proof (step_alloc _ _ _ _ _ Hsh t) as Hstep. rewrite Ev in Hstep.
    by eapply internal_step; [by apply Hstep|by apply Hs|].
  - (* data of the last node *) run_exec Hexec. subst r0.
    pose proof (step_last _ _ _ _ _ Hsh t nd (λ m : node, m <| ndata := Some x |>)) as Hstep. rewrite Ev in Hstep.
    by eapply internal_step; [by apply Hstep|by apply Hs|].
  - (* next of the last node *) run_exec Hexec. subst r0.
    pose proof (step_last _ _ _ _ _ Hsh t nd (λ m : node, m <| nnext := Some p |>)) as Hstep. rewrite Ev in Hstep.
    by eapply internal_step; [by apply Hstep|by apply Hs|].
  - (* tail *) run_exec Hexec.
    pose proof (step_set_tail _ _ _ _ _ Hsh t x p) as Hstep. rewrite Ev in Hstep.
    eapply effect_step; [done|apply He|by apply Hstep|by apply Hs|done].
Qed.
End Run.

Lemma two_step ch (C : qconfig) (S : astate_q) oe C' :
  two_rel C S → exec code_of ch C = Some (oe, C') →
  (oe = None ∧ two_rel C' S) ∨ ∃ S', astep fifo S oe S' ∧ two_rel C' S'.
Proof.
  intros (vs&ids&Hsh&Hall) Hexec. destruct ch as [t o|t w|t]; cbn [exec] in Hexec; pose proof (Hall t) as Ht.
  - destruct (threads C !! t) eqn:Et; [done|]. injection Hexec as <- <-. right.
    destruct (calls S !! t) eqn:Ec; [done|]. cbn in Ht.
    exists (mkA (astate S) (<[t := (o, None)]> (calls S))). split; [by apply astep_call|].
    exists vs, ids. split; [done|]. intros u. cbn. destruct (decide (u = t)) as [->|Hu].
    + rewrite !lookup_insert_eq. cbn. rewrite Ht. split; [done|apply safe_code].
    + rewrite !lookup_insert_ne by done. apply Hall.
  - destruct (threads C !! t) as [[o [k|]]|] eqn:Et; try done.
    destruct (calls S !! t) as [[o' r]|] eqn:Ec; [|done]. destruct Ht as [-> Hsafe].
    by eapply run_step.
  - destruct (threads C !! t) as [[o [|c m k]]|] eqn:Et; try done. injection Hexec as <- <-. left.
    split; [done|]. exists vs, ids. split; [done|]. intros u. by eapply thread_ok_woken.
Qed.

(** C4: the two-lock queue is a FIFO queue: however threads interleave, with
    one of them at its head and another at its tail, calls return what they
    return when each takes effect at one moment between its call and its
    return; in particular no null pointer is followed, and a node that a thread
    has taken out is its own until it deletes it. *)
Theorem queue_v2_linearizable : linearizable code_of fifo queue_v2_ctor [].
Proof.
  apply (simulation_linearizable _ _ two_rel); [|intros ?????; apply two_step].
  exists (λ _, outside), []. split.
  - split; [|split; [by split|done]]. split; cbn; try done.
    + by exists 0.
    + apply NoDup_nil_2.
    + apply not_elem_of_nil.
    + intros n [nd Hn]. destruct n; [lia|]. by rewrite lookup_singleton_ne in Hn.
  - intros t. cbn. by rewrite !lookup_empty.
Qed.
End TwoLocks.
