(* ===== verification/ThreadPool.v ===== *)
(** * ThreadPool

    [thread/thread_pool.cc]: worker threads that take tasks from a queue with
    one mutex and one condition variable (both 0). Tasks are numbers; [ran]
    records the calls of tasks. Workers are the threads 1, 2, ...; the lines
    printed are not modelled. *)
From S2P Require Import Prelude Threads.

Module ThreadPool.

Record pool := mkPool {
  running_ : bool;
  threadsNum_ : nat;
  threads_ : list nat;
  tasks_ : list nat;
  ran : list nat;
}.
#[export] Instance eta_pool : Eta pool := λ p,
  mkPool (running_ p) (threadsNum_ p) (threads_ p) (tasks_ p) (ran p).

Definition threadpool_ctor : pool := mkPool false 0 [] [] [].

(** The calls of the owner, and the function the workers run. *)
Inductive op := SetThreadsnum (n : nat) | Start | Push (cb : nat) | Stop | Dtor | Worker.
Abbreviation pcode := (code pool unit op) (only parsing).

Definition setThreadsnum (n : nat) : pcode := Act (λ p, p <| threadsNum_ := n |>) (λ _, Finish tt).

Fixpoint start_threads (ts : list nat) (k : pcode) : pcode :=
  match ts with
  | [] => k
  | t :: ts => Spawn t Worker (Act (λ p, p <| threads_ ::= λ l, l ++ [t] |>) (λ _, start_threads ts k))
  end.
Definition start : pcode :=
  Act id (λ p,
    if running_ p then Terminate (AssertFailed "!running_")
    else Act (λ p, p <| running_ := true |>) (λ p, start_threads (seq 1 (threadsNum_ p)) (Finish tt))).

Definition push (cb : nat) : pcode :=
  Act id (λ p,
    match threads_ p with
    | [] => Act (λ p, p <| ran ::= λ l, l ++ [cb] |>) (λ _, Finish tt)
    | _ :: _ =>
        Lock 0 (Act (λ p, p <| tasks_ ::= λ l, l ++ [cb] |>) (λ _, NotifyOne 0 (Unlock 0 (Finish tt))))
    end).

Fixpoint join_all (ts : list nat) (k : pcode) : pcode :=
  match ts with [] => k | t :: ts => Join t (join_all ts k) end.
Definition stop : pcode :=
  Act id (λ p,
    if running_ p
    then Act (λ p, p <| running_ := false |>) (λ p, join_all (threads_ p) (Finish tt))
    else Terminate (AssertFailed "running_")).
(** The destructor calls [stop]. *)
Definition dtor : pcode := stop.

(** [while(tasks_.empty() && running_) cond_.wait(lock);] *)
Definition take_wait : pcode :=
  Act id (λ p, if bool_decide (tasks_ p = []) && running_ p then Wait 0 0 Again else Break).
(** [if(!tasks_.empty()) { task = tasks_.front(); tasks_.pop(); } return task;],
    where [None] is a function that is empty. *)
Definition take_task (k : option nat → pcode) : pcode :=
  Act id (λ p,
    match tasks_ p with
    | [] => Unlock 0 (k None)
    | task :: _ => Act (λ p, p <| tasks_ ::= tail |>) (λ _, Unlock 0 (k (Some task)))
    end).
Definition take (k : option nat → pcode) : pcode := Lock 0 (Loop take_wait (take_task k)).

(** [if(!task) task();]: calling an empty function throws, and nobody catches. *)
Definition call_if_empty (task : option nat) : pcode :=
  match task with
  | None => Terminate (Thrown "bad_function_call")
  | Some _ => Again
  end.
Definition threadFunc : pcode :=
  Loop (Act id (λ p, if running_ p then take call_if_empty else Break)) (Finish tt).

Definition code_of (o : op) : pcode :=
  match o with
  | SetThreadsnum n => setThreadsnum n | Start => start | Push cb => push cb
  | Stop => stop | Dtor => dtor | Worker => threadFunc
  end.

(** ** Stopping an idle pool *)

(** Where a worker goes back to after sleeping. *)
Definition idle_entry : pcode :=
  Loop take_wait (plug threadFunc (Finish tt) (take_task call_if_empty)).

(** [n] workers that sleep, and no task. *)
Definition idle_pool (n : nat) : config pool unit op :=
  mkConfig (mkPool true n (seq 1 n) [] []) ∅
    (list_to_map (map (λ t, (t, (Worker, Asleep 0 0 idle_entry))) (seq 1 n))).

(** The workers of an idle pool that is being stopped. *)
Inductive worker_point : tstate pool unit op → Prop :=
  | wp_asleep : worker_point (Asleep 0 0 idle_entry)
  | wp_lock : worker_point (Running (Lock 0 idle_entry))
  | wp_loop : worker_point (Running idle_entry)
  | wp_test : worker_point (Running (plug idle_entry (plug threadFunc (Finish tt) (take_task call_if_empty)) take_wait))
  | wp_wait : worker_point (Running (Wait 0 0 idle_entry))
  | wp_take : worker_point (Running (plug threadFunc (Finish tt) (take_task call_if_empty)))
  | wp_unlock : worker_point (Running (Unlock 0 (Terminate (Thrown "bad_function_call"))))
  | wp_throw : worker_point (Running (Terminate (Thrown "bad_function_call"))).

(** The owner, thread 0: about to stop the pool, or joining the first worker. *)
Inductive owner_point (ts : list nat) : code pool unit op → Prop :=
  | op_stop : owner_point ts stop
  | op_clear : owner_point ts (Act (λ p, p <| running_ := false |>) (λ p, join_all (threads_ p) (Finish tt)))
  | op_join : owner_point ts (join_all ts (Finish tt))
  | op_assert : owner_point ts (Terminate (AssertFailed "running_")).

Record idle_inv (n : nat) (C : config pool unit op) : Prop := {
  ii_tasks : tasks_ (data C) = [];
  ii_threads : threads_ (data C) = seq 1 n;
  ii_worker t : 1 ≤ t ≤ n → ∃ s, threads C !! t = Some (Worker, s) ∧ worker_point s;
  ii_owner x : threads C !! 0 = Some x → ∃ o k, x = (o, Running k) ∧ owner_point (seq 1 n) k;
  ii_nobody t : n < t → threads C !! t = None;
}.

(** The only calls made are to stop the pool. *)
Definition only_stop (ch : choice (Op := op)) : Prop :=
  match ch with Calls t o => t = 0 ∧ (o = Stop ∨ o = Dtor) | _ => True end.

Lemma inv_worker n C C' t s :
  idle_inv n C → 1 ≤ t ≤ n → worker_point s →
  threads C' = <[t := (Worker, s)]> (threads C) →
  tasks_ (data C') = tasks_ (data C) → threads_ (data C') = threads_ (data C) → idle_inv n C'.
Proof.
  intros [Htk Hth Hw Ho Hn] Ht Hs Ets Etk Eth. split; rewrite ?Etk, ?Eth, ?Ets; try done.
  - intros u Hu. destruct (decide (u = t)) as [->|]; [exists s; by rewrite lookup_insert_eq|].
    rewrite lookup_insert_ne by done. by apply Hw.
  - intros x. rewrite lookup_insert_ne by lia. apply Ho.
  - intros u Hu. rewrite lookup_insert_ne by lia. by apply Hn.
Qed.

Lemma inv_owner n C C' o k :
  idle_inv n C → owner_point (seq 1 n) k →
  threads C' = <[0 := (o, Running k)]> (threads C) →
  tasks_ (data C') = tasks_ (data C) → threads_ (data C') = threads_ (data C) → idle_inv n C'.
Proof.
  intros [Htk Hth Hw Ho Hn] Hs Ets Etk Eth. split; rewrite ?Etk, ?Eth, ?Ets; try done.
  - intros u Hu. rewrite lookup_insert_ne by lia. by apply Hw.
  - intros x. rewrite lookup_insert_eq. intros [= <-]. by exists o, k.
  - intros u Hu. rewrite lookup_insert_ne by lia. by apply Hn.
Qed.

Definition no_return (oe : option (event (V := unit) (Op := op))) : Prop := ∀ t, oe ≠ Some (Returned t tt).

Lemma worker_step n C t k w oe C' :
  idle_inv n C → 1 ≤ t ≤ n → threads C !! t = Some (Worker, Running k) → worker_point (Running k) →
  exec_code code_of t Worker k w C = Some (oe, C') → idle_inv n C' ∧ no_return oe.
Proof.
  intros Hinv Ht Hk Hp Hexec. pose proof (ii_tasks _ _ Hinv) as Htk.
  assert (∀ s oe1 C1, worker_point s → threads C1 = <[t := (Worker, s)]> (threads C) →
    tasks_ (data C1) = tasks_ (data C) → threads_ (data C1) = threads_ (data C) →
    no_return oe1 → idle_inv n C1 ∧ no_return oe1) as Hgo by (intros; split; [by eapply inv_worker|done]).
  inversion Hp; subst k; cbn [exec_code idle_entry] in Hexec.
  - destruct (locks C !! 0); [done|]. injection Hexec as <- <-. eapply Hgo; [|done..]. constructor.
  - injection Hexec as <- <-. eapply Hgo; [|done..]. constructor.
  - cbn in Hexec. rewrite Htk in Hexec. destruct (running_ (data C)); injection Hexec as <- <-;
      (eapply Hgo; [|done..]); constructor.
  - case_decide; injection Hexec as <- <-; [eapply Hgo; [|done..]; constructor|]. by split.
  - cbn in Hexec. rewrite Htk in Hexec. injection Hexec as <- <-. eapply Hgo; [|done..]. constructor.
  - case_decide; injection Hexec as <- <-; [eapply Hgo; [|done..]; constructor|]. by split.
  - injection Hexec as <- <-. by split.
Qed.

Lemma idle_owner_step n C o k w oe C' :
  1 ≤ n → idle_inv n C → threads C !! 0 = Some (o, Running k) → owner_point (seq 1 n) k →
  exec_code code_of 0 o k w C = Some (oe, C') → idle_inv n C' ∧ no_return oe.
Proof.
  intros Hn Hinv Hk Hp Hexec.
  assert (∀ k1 oe1 C1, owner_point (seq 1 n) k1 → threads C1 = <[0 := (o, Running k1)]> (threads C) →
    tasks_ (data C1) = tasks_ (data C) → threads_ (data C1) = threads_ (data C) →
    no_return oe1 → idle_inv n C1 ∧ no_return oe1) as Hgo by (intros; split; [by eapply inv_owner|done]).
  destruct Hp; cbn in Hexec.
  - injection Hexec as <- <-. destruct (running_ (data C)); (eapply Hgo; [|done..]); constructor.
  - injection Hexec as <- <-. eapply Hgo; [|done..]. rewrite (ii_threads _ _ Hinv). constructor.
  - destruct n as [|n]; [lia|]. cbn in Hexec.
    destruct (ii_worker _ _ Hinv 1) as (s&Hs&_); [lia|]. by rewrite Hs in Hexec.
  - injection Hexec as <- <-. by split.
Qed.

Lemma idle_step n ch C oe C' :
  1 ≤ n → idle_inv n C → only_stop ch → exec code_of ch C = Some (oe, C') → idle_inv n C' ∧ no_return oe.
Proof.
  intros Hn Hinv Hch Hexec. destruct ch as [t o|t w|t]; cbn [exec only_stop] in *.
  - destruct Hch as [-> Ho]. destruct (threads C !! 0) eqn:E0; [done|]. injection Hexec as <- <-.
    split; [|done]. eapply (inv_owner n C _ o stop); [done|constructor| |done|done]. by destruct Ho as [->| ->].
  - destruct (threads C !! t) as [[o [k|]]|] eqn:Et; try done. destruct (decide (t = 0)) as [->|Ht0].
    + destruct (ii_owner _ _ Hinv _ Et) as (o'&k'&[= <- <-]&Hp). by eapply idle_owner_step.
    + assert (1 ≤ t ≤ n) as Ht.
      { destruct (decide (n < t)) as [Hlt|]; [|lia]. by rewrite (ii_nobody _ _ Hinv t Hlt) in Et. }
      destruct (ii_worker _ _ Hinv t Ht) as (s&Hs&Hp). rewrite Et in Hs. injection Hs as -> <-.
      by eapply worker_step.
  - destruct (threads C !! t) as [[o [|c m k]]|] eqn:Et; try done. injection Hexec as <- <-. split; [|done].
    assert (1 ≤ t ≤ n) as Ht.
    { destruct (decide (n < t)) as [Hlt|Hle]; [by rewrite (ii_nobody _ _ Hinv t Hlt) in Et|].
      destruct (decide (t = 0)) as [->|]; [|lia]. by destruct (ii_owner _ _ Hinv _ Et) as (?&?&?&_). }
    destruct (ii_worker _ _ Hinv t Ht) as (s&Hs&Hp). rewrite Et in Hs. injection Hs as -> <-.
    inversion Hp; subst. eapply inv_worker; [done|done| |done..]. constructor.
Qed.

Lemma idle_pool_lookup n t :
  threads (idle_pool n) !! t = if decide (1 ≤ t ≤ n) then Some (Worker, Asleep 0 0 idle_entry) else None.
Proof.
  cbn [idle_pool threads]. case_decide as Ht.
  - apply elem_of_list_to_map_1.
    + rewrite map_map. cbn [fst]. rewrite map_id. apply NoDup_seq.
    + apply list_elem_of_fmap. exists t. split; [done|]. apply elem_of_seq. lia.
  - apply not_elem_of_list_to_map_1. intros (y&->&Hy)%list_elem_of_fmap.
    apply list_elem_of_fmap in Hy as (u&->&Hu). apply elem_of_seq in Hu. cbn in Ht. lia.
Qed.

Lemma idle_pool_inv n : idle_inv n (idle_pool n).
Proof.
  split; [done|done|..]; intros t; try intros Ht; rewrite ?idle_pool_lookup.
  - rewrite decide_True by lia. eexists. split; [done|constructor].
  - rewrite idle_pool_lookup in Ht. rewrite decide_False in Ht by lia. done.
  - by rewrite decide_False by lia.
Qed.

Lemma exec_owner k w C :
  exec code_of (Runs 0 w) (set_thread 0 Stop k C) = exec_code code_of 0 Stop k w (set_thread 0 Stop k C).
Proof. unfold exec, set_thread. cbn [threads upd]. by rewrite lookup_insert_eq. Qed.

Lemma stop_blocks n : 1 ≤ n → ∃ C',
  run_schedule code_of [Calls 0 Stop; Runs 0 None; Runs 0 None] (idle_pool n) = Some ([Called 0 Stop], C') ∧
  ∀ t w, exec code_of (Runs t w) C' = None.
Proof.
  intros Hn. set (C0 := set_thread 0 Stop stop (idle_pool n)).
  set (C1 := set_thread 0 Stop (Act (λ p, p <| running_ := false |>)
                                  (λ p, join_all (threads_ p) (Finish tt))) C0).
  set (C2 := set_thread 0 Stop (join_all (seq 1 n) (Finish tt)) (C1 <| data ::= λ p, p <| running_ := false |> |>)).
  assert (exec code_of (Calls 0 Stop) (idle_pool n) = Some (Some (Called 0 Stop), C0)) as E0.
  { cbn [exec]. by rewrite idle_pool_lookup, decide_False by lia. }
  assert (exec code_of (Runs 0 None) C0 = Some (None, C1)) as E1 by (unfold C0; by rewrite exec_owner).
  assert (exec code_of (Runs 0 None) C1 = Some (None, C2)) as E2 by (unfold C1; by rewrite exec_owner).
  exists C2. split; [cbn [run_steps]; by rewrite E0, E1, E2|]. intros t w.
  assert (∀ u, u ≠ 0 → threads C2 !! u = threads (idle_pool n) !! u) as Hoth.
  { intros u Hu. unfold C2, C1, C0, set_thread. cbn [threads upd]. by rewrite !lookup_insert_ne. }
  destruct (decide (t = 0)) as [->|Ht].
  - unfold C2. rewrite exec_owner. fold C2. destruct n as [|n]; [lia|]. cbn [seq join_all exec_code].
    by rewrite Hoth, idle_pool_lookup, decide_True by lia.
  - cbn [exec]. rewrite Hoth, idle_pool_lookup by done. by case_decide.
Qed.

(** C39: [stop] does not notify, so stopping a pool whose workers are idle
    never returns, whatever happens next: with no spurious wake-up all threads
    are blocked for ever; and a worker that wakes up by itself calls the empty
    function that [take] returns, and the exception ends the process. *)
Theorem stop_never_returns (n : nat) (chs : list choice) (es : list event) (C : config pool unit op)
  (Hn : 1 ≤ n) (Hchs : Forall only_stop chs)
  (Hrun : run_schedule code_of chs (idle_pool n) = Some (es, C)) :
  (∀ t, Returned t tt ∉ es) ∧
  ∃ C', run_schedule code_of [Calls 0 Stop; Runs 0 None; Runs 0 None] (idle_pool n)
          = Some ([Called 0 Stop], C') ∧
        ∀ t w, exec code_of (Runs t w) C' = None.
Proof.
  split.
  - apply (run_steps_ind _ (idle_inv n) (λ e, ∀ t, e ≠ Returned t tt)) in Hrun as [_ Hes]; [| |apply idle_pool_inv].
    + intros t Hin. rewrite Forall_forall in Hes. by apply (Hes _ Hin t).
    + intros ch C0 oe C1 Hch Hinv E. rewrite Forall_forall in Hchs.
      destruct (idle_step _ _ _ _ _ Hn Hinv (Hchs _ Hch) E) as [Hinv1 Hnr]. split; [done|].
      intros e -> t ->. by apply (Hnr t).
  - by apply stop_blocks.
Qed.
End ThreadPool.

(** ** Concrete executions *)

Module ThreadPoolDemo.
Import ThreadPool.
Definition steps (t n : nat) : list (choice (Op := op)) := replicate n (Runs t None).
(** A pool of one worker is started, and the worker goes to sleep. *)
Definition start_one : list (choice (Op := op)) :=
  Calls 0 (SetThreadsnum 1) :: steps 0 2 ++ Calls 0 Start :: steps 0 5 ++ steps 1 6.
Definition final (chs : list (choice (Op := op))) : option (config pool unit op) :=
  snd <$> run_schedule code_of chs (initial threadpool_ctor).
Definition events (chs : list (choice (Op := op))) : option (list (event (V := unit) (Op := op))) :=
  fst <$> run_schedule code_of chs (initial threadpool_ctor).
End ThreadPoolDemo.
Import ThreadPool ThreadPoolDemo.

(** The idle pool is what starting a pool leads to. *)
Example idle_pool_reached : ThreadPoolDemo.final ThreadPoolDemo.start_one = Some (idle_pool 1).
Proof. vm_compute. reflexivity. Qed.

(** The worker takes the task pushed and drops it: no task ran, and the worker
    sleeps again. *)
Example task_dropped :
  (λ C, (data C, threads C)) <$>
    ThreadPoolDemo.final (ThreadPoolDemo.start_one ++ Calls 0 (Push 7) :: ThreadPoolDemo.steps 0 3 ++
      [Runs 0 (Some 1)] ++ ThreadPoolDemo.steps 0 2 ++ ThreadPoolDemo.steps 1 12)
  = Some (data (idle_pool 1), threads (idle_pool 1)).
Proof. vm_compute. reflexivity. Qed.

(** A worker of a stopped pool that wakes up by itself ends the process. *)
Example stop_then_wake :
  ThreadPoolDemo.events (ThreadPoolDemo.start_one ++ Calls 0 Stop :: ThreadPoolDemo.steps 0 2 ++
    Wakes 1 :: ThreadPoolDemo.steps 1 6)
  = Some [Called 0 (SetThreadsnum 1); Returned 0 tt; Called 0 Start; Returned 0 tt; Called 0 Stop;
          Crashed (Thrown "bad_function_call")].
Proof. vm_compute. reflexivity. Qed.

(** Destroying a pool that was never started fails an assertion. *)
Example dtor_never_started :
  ThreadPoolDemo.events (Calls 0 Dtor :: ThreadPoolDemo.steps 0 2)
  = Some [Called 0 Dtor; Crashed (AssertFailed "running_")].
Proof. reflexivity. Qed.

Lemma stop_never_returns_witness :
  ∃ es C, run_schedule code_of [Calls 0 Stop; Runs 0 None; Runs 0 None; Wakes 1; Runs 1 None] (idle_pool 2)
            = Some (es, C) ∧ ∀ t, Returned t tt ∉ es.
Proof.
  eexists _, _. split; [vm_compute; reflexivity|].
  refine (proj1 (stop_never_returns 2
    [Calls 0 Stop; Runs 0 None; Runs 0 None; Wakes 1; Runs 1 None] _ _ _ _ _)).
  - repeat constructor.
  - repeat constructor.
  - vm_compute. reflexivity.
Defined.
