(* ===== verification/Thread.v ===== *)
(** * Thread

    [thread/Thread.h] and [thread/Thread.cc]: a thread object, the function its
    POSIX thread runs, and the thread-local identity. The POSIX calls are
    recorded; their answers, and [gettid], are parameters. *)
From S2P Require Import Prelude Atomic.
Local Open Scope Z_scope.

(** ** CurrentThread *)

(** The thread-local variables of one thread. *)
Record Tls := mkTls { t_threadName : string; t_cachedTid : Z }.
#[export] Instance eta_Tls : Eta Tls := λ s, mkTls (t_threadName s) (t_cachedTid s).
Definition tls_init : Tls := mkTls "unknown" 0.

Definition current_tid (gettid : Z) : M Tls Z :=
  s ← get;
  whenM (t_cachedTid s =? 0) (modify (λ s, s <| t_cachedTid := gettid |>));;
  gets t_cachedTid.
Definition current_name : M Tls string := gets t_threadName.
Definition isMainThread (gettid getpid : Z) : M Tls bool :=
  t ← current_tid gettid; mret (t =? getpid).

(** In the child of a fork, and when the program starts. *)
Definition afterFork (gettid : Z) : M Tls unit :=
  modify (λ s, s <| t_cachedTid := gettid |>);;
  modify (λ s, s <| t_threadName := "main" |>).
Definition ThreadNameInitializer : M Tls unit := modify (λ s, s <| t_threadName := "main" |>).

(** ** Thread *)

Section Thread.
(** What the thread's function works on. *)
Context {U : Type}.

Inductive pthread_call := PCreate (id : Z) | PJoin (id : Z) | PDetach (id : Z).

(** [ThreadData]: what is handed to the new thread. The [pid_t] is shared with
    the object; the new thread has a weak pointer to it. *)
Record ThreadData := mkData { td_func : M U unit; td_name : string }.

Record Thread := mkThread {
  started_ : bool;
  joined_ : bool;
  pthreadId_ : Z;
  tid_ : option Z;             (* None once the object, and the pid_t, are gone *)
  func_ : M U unit;
  name_ : string;
}.
#[export] Instance eta_Thread : Eta Thread := λ t,
  mkThread (started_ t) (joined_ t) (pthreadId_ t) (tid_ t) (func_ t) (name_ t).

Record ThreadWorld := mkTW {
  thread_ : Thread;
  pcalls : list pthread_call;      (* that succeeded, oldest first *)
  handed : option ThreadData;      (* to the thread created last *)
  numCreated_ : Z;
  user : U;
}.
#[export] Instance eta_ThreadWorld : Eta ThreadWorld := λ w,
  mkTW (thread_ w) (pcalls w) (handed w) (numCreated_ w) (user w).
Implicit Types (w : ThreadWorld).

Definition upd_thread (g : Thread → Thread) : M ThreadWorld unit := modify (λ w, w <| thread_ ::= g |>).
Definition pthread (c : pthread_call) : M ThreadWorld unit := modify (λ w, w <| pcalls ::= λ l, l ++ [c] |>).

Definition Thread_ctor (func : M U unit) (n : string) : M ThreadWorld unit :=
  upd_thread (λ _, mkThread false false 0 (Some 0) func n);;
  zoom numCreated_ (λ v w, w <| numCreated_ := v |>) (AtomicIntegerT.increment 32).

Definition Thread_dtor : M ThreadWorld unit :=
  w ← get;
  whenM (started_ (thread_ w) && negb (joined_ (thread_ w))) (pthread (PDetach (pthreadId_ (thread_ w))));;
  upd_thread (λ t, t <| tid_ := None |>).

(** [err] and [id] are what [pthread_create] returns and stores. *)
Definition Thread_start (err id : Z) : M ThreadWorld unit :=
  w ← get;
  assert_ "!started_" (negb (started_ (thread_ w)));;
  upd_thread (λ t, t <| started_ := true |>);;
  if negb (err =? 0) then
    upd_thread (λ t, t <| started_ := false |>);;
    fails Aborted
  else
    upd_thread (λ t, t <| pthreadId_ := id |>);;
    modify (λ w, w <| handed := Some (mkData (func_ (thread_ w)) (name_ (thread_ w))) |>);;
    pthread (PCreate id).

Definition Thread_join : M ThreadWorld unit :=
  w ← get;
  assert_ "started_" (started_ (thread_ w));;
  assert_ "!joined_" (negb (joined_ (thread_ w)));;
  upd_thread (λ t, t <| joined_ := true |>);;
  pthread (PJoin (pthreadId_ (thread_ w))).

(** [started], [tid], [name]; [*tid_] is read through the object. *)
Definition thread_started : M ThreadWorld bool := gets (λ w, started_ (thread_ w)).
Definition thread_tid : M ThreadWorld Z :=
  w ← get; of_option "the pid_t of a destroyed thread" (tid_ (thread_ w)).
Definition thread_name : M ThreadWorld string := gets (λ w, name_ (thread_ w)).

(** [runInThread], in the new thread: its thread-local variables come with
    the state, and the object may be gone already. *)
Definition runInThread (gettid : Z) (data : ThreadData) : M (Tls * ThreadWorld) unit :=
  t ← zoom fst (λ s x, (s, x.2)) (current_tid gettid);
  modify (λ x, (x.1, x.2 <| thread_ ::= λ th, th <| tid_ ::= option_map (λ _, t) |> |>));;
  modify (λ x, (x.1 <| t_threadName := if bool_decide (td_name data = "") then "jiangboThread" else td_name data |>, x.2));;
  zoom snd (λ w x, (x.1, w)) (zoom user (λ u w, w <| user := u |>) (td_func data));;
  modify (λ x, (x.1 <| t_threadName := "finished" |>, x.2)).

(** ** The life of an object *)

(** What the owner of the object can call, with the kernel's answers. *)
Inductive thread_op := OpStart (err id : Z) | OpJoin | OpQuery.
Definition run_thread_op (o : thread_op) : M ThreadWorld unit :=
  match o with
  | OpStart err id => Thread_start err id
  | OpJoin => Thread_join
  | OpQuery => _ ← thread_started; _ ← thread_tid; _ ← thread_name; mret tt
  end.

(** The specification: how far an object has come. *)
Inductive life := LNew | LStarted (id : Z) | LJoined (id : Z).
Definition life_step (o : thread_op) (l : life) : crash + life :=
  match o, l with
  | OpStart err id, LNew => if err =? 0 then inr (LStarted id) else inl Aborted
  | OpStart _ _, _ => inl (AssertFailed "!started_")
  | OpJoin, LNew => inl (AssertFailed "started_")
  | OpJoin, LStarted id => inr (LJoined id)
  | OpJoin, LJoined _ => inl (AssertFailed "!joined_")
  | OpQuery, l => inr l
  end.
Fixpoint life_steps (os : list thread_op) (l : life) : crash + life :=
  match os with
  | [] => inr l
  | o :: os => match life_step o l with inl r => inl r | inr l => life_steps os l end
  end.

(** The POSIX calls of a whole life, its end included. *)
Definition life_calls (l : life) : list pthread_call :=
  match l with
  | LNew => []
  | LStarted id => [PCreate id; PDetach id]
  | LJoined id => [PCreate id; PJoin id]
  end.

Definition life_rel (l : life) w : Prop :=
  is_Some (tid_ (thread_ w)) ∧
  match l with
  | LNew => started_ (thread_ w) = false ∧ joined_ (thread_ w) = false ∧ pcalls w = []
  | LStarted id => started_ (thread_ w) = true ∧ joined_ (thread_ w) = false ∧
                   pthreadId_ (thread_ w) = id ∧ pcalls w = [PCreate id]
  | LJoined id => started_ (thread_ w) = true ∧ joined_ (thread_ w) = true ∧
                  pcalls w = [PCreate id; PJoin id]
  end.

Lemma life_op_run o l w :
  life_rel l w →
  match life_step o l with
  | inl r => run_thread_op o w = Crash r
  | inr l' => ∃ w', run_thread_op o w = Ret tt w' ∧ life_rel l' w' ∧ numCreated_ w' = numCreated_ w
  end.
Proof.
  destruct w as [[st jn id ti fn nm] pc hd nc u]. unfold life_rel. cbn. intros [[t0 Ht] Hl]. subst ti.
  destruct l as [|id0|id0]; [destruct Hl as (->&->&->)|destruct Hl as (->&->&<-&->)|destruct Hl as (->&->&->)];
    (destruct o as [err id'| |]; [|try reflexivity|eexists; split; [reflexivity|]; cbn; by eauto 6]);
    try reflexivity; try (eexists; split; [reflexivity|]; cbn; by eauto 7).
  cbn. destruct (err =? 0) eqn:E; unfold run_thread_op, Thread_start; cbn; rewrite E; [|done].
  eexists. split; [reflexivity|]. cbn. by eauto 7.
Qed.

(** C30: the life of a thread object. Whatever its owner calls, the object
    asserts exactly on a second [start], a [join] before [start] and a second
    [join], and aborts when the thread cannot be created; otherwise the POSIX
    thread, if it was created at all, has been released exactly once when the
    object is gone: by the one [join], or by the destructor detaching it. *)
Theorem thread_life (func : M U unit) (n : string) (os : list thread_op) (w : ThreadWorld)
  (Hcalls : pcalls w = []) (Hcount : 0 ≤ numCreated_ w < 2 ^ 31 - 1) :
  match life_steps os LNew with
  | inl r => (Thread_ctor func n;; iterM run_thread_op os;; Thread_dtor) w = Crash r
  | inr l => ∃ w', (Thread_ctor func n;; iterM run_thread_op os;; Thread_dtor) w = Ret tt w' ∧
                   pcalls w' = life_calls l ∧ numCreated_ w' = numCreated_ w + 1
  end.
Proof.
  assert (∃ w1, Thread_ctor func n w = Ret tt w1 ∧ life_rel LNew w1 ∧ numCreated_ w1 = numCreated_ w + 1)
    as (w1&H1&Hrel&Hn).
  { unfold Thread_ctor, upd_thread. rewrite bind_modify. eexists. split.
    - unfold zoom. erewrite (AtomicIntegerT.run_increment 32); [reflexivity|done|exact Hcount].
    - split; [|done]. split; [by eexists|]. by split_and!. }
  assert (∀ l w1, life_rel l w1 → match life_steps os l with
    | inl r => (iterM run_thread_op os;; Thread_dtor) w1 = Crash r
    | inr l' => ∃ w', (iterM run_thread_op os;; Thread_dtor) w1 = Ret tt w' ∧
                      pcalls w' = life_calls l' ∧ numCreated_ w' = numCreated_ w1
    end) as Hall.
  { clear -U. induction os as [|o os IH]; intros l w Hl; cbn [life_steps iterM].
    - destruct w as [[st jn id ti fn nm] pc hd nc u]. destruct Hl as [_ Hl]. cbn in Hl.
      destruct l as [|id0|id0]; [destruct Hl as (->&->&->)|destruct Hl as (->&->&<-&->)|destruct Hl as (->&->&->)];
        (eexists; split; [reflexivity|done]).
    - pose proof (life_op_run o l w Hl) as Ho. destruct (life_step o l) as [r|l'].
      + unfold mbind, M_bind. by rewrite Ho.
      + destruct Ho as (w1&Hw1&Hrel&Hn). specialize (IH l' w1 Hrel). rewrite <- Hn.
        unfold mbind, M_bind in *. by rewrite Hw1. }
  specialize (Hall _ _ Hrel). rewrite <- Hn. destruct (life_steps os LNew).
  - by rewrite (bind_Ret _ _ _ _ _ H1).
  - destruct Hall as (w'&Hw'&?). exists w'. by rewrite (bind_Ret _ _ _ _ _ H1).
Qed.

(** What the new thread does: it stores its id in the object if the object
    still exists, runs the function once, and is finished. *)
Lemma runInThread_run (gettid : Z) (data : ThreadData) (name : string) (w : ThreadWorld) (u : U) :
  td_func data (user w) = Ret tt u →
  runInThread gettid data (mkTls name 0, w) =
  Ret tt (mkTls "finished" gettid,
          (w <| thread_ ::= λ th, th <| tid_ ::= option_map (λ _, gettid) |> |>) <| user := u |>).
Proof.
  intros Hf. destruct w as [th pc hd nc u0]. cbn in Hf. unfold runInThread, current_tid. cbn.
  unfold zoom, mbind, M_bind, modify. cbn. by rewrite Hf.
Qed.
End Thread.

Lemma thread_life_witness :
  ∃ w', (Thread_ctor (mret tt : M nat unit) "worker";;
         iterM run_thread_op [OpStart 0 77; OpQuery; OpJoin];; Thread_dtor)
          (mkTW (mkThread false false 0 None (mret tt) "") [] None 3 O) = Ret tt w' ∧
        pcalls w' = [PCreate 77; PJoin 77] ∧ numCreated_ w' = 4.
Proof.
  apply (thread_life (mret tt : M nat unit) "worker" [OpStart 0 77; OpQuery; OpJoin]
    (mkTW (mkThread false false 0 None (mret tt) "") [] None 3 O)).
  - reflexivity.
  - by_computation.
Defined.
