(* ===== verification/SharedPtr.v ===== *)
(** * SharedPtr

    [thread/test/shared_ptr_test.cc]: a reference-counted pointer. Variables of
    its type share counters on the heap, so copying, assigning and destroying
    them is modelled on a heap. A pointer is the address of an object or a
    counter; an address stands for one object and is not used again. The
    deleter is the class's default, [Delete]. *)
From S2P Require Import Prelude.
Local Open Scope Z_scope.

(** ** The heap *)

Record SharedPtr := mkPtr { _ptr : option nat; _pCount : option nat }.
#[export] Instance eta_SharedPtr : Eta SharedPtr := λ p, mkPtr (_ptr p) (_pCount p).

Record Heap := mkHeap {
  objects : gset nat;             (* the objects alive *)
  destroyed : list nat;           (* those destroyed, in order *)
  counters : gmap nat Z;          (* the counters alive *)
  vars : gmap nat SharedPtr;      (* the variables *)
  next_addr : nat;
}.
#[export] Instance eta_Heap : Eta Heap := λ w,
  mkHeap (objects w) (destroyed w) (counters w) (vars w) (next_addr w).

Definition get_var (v : nat) : M Heap SharedPtr := w ← get; of_option "SharedPtr" (vars w !! v).
Definition set_var (v : nat) (p : SharedPtr) : M Heap unit := modify (λ w, w <| vars ::= <[v := p]> |>).

Definition new_address : M Heap nat :=
  w ← get; put (w <| next_addr := S (next_addr w) |>);; mret (next_addr w).
(** [new T] and [Delete]. *)
Definition new_object : M Heap nat :=
  o ← new_address; modify (λ w, w <| objects ::= λ s, {[o]} ∪ s |>);; mret o.
Definition delete_object (o : nat) : M Heap unit :=
  w ← get;
  if decide (o ∈ objects w) then put (w <| objects ::= λ s, s ∖ {[o]} |> <| destroyed ::= λ l, l ++ [o] |>)
  else fails (Undefined "delete of a dead object").

(** [GetRef() += d], as an [int]; the new value. *)
Definition add_ref (v : nat) (d : Z) : M Heap Z :=
  p ← get_var v;
  c ← of_option "*_pCount" (_pCount p);
  w ← get;
  n ← of_option "*_pCount" (counters w !! c);
  n ← of_option "signed overflow" (if (- 2 ^ 31 <=? n + d) && (n + d <? 2 ^ 31) then Some (n + d) else None);
  put (w <| counters ::= <[c := n]> |>);;
  mret n.

(** ** SharedPtr *)

Definition SharedPtr_ctor (v : nat) (ptr : option nat) : M Heap unit :=
  set_var v (mkPtr ptr None);;
  match ptr with
  | None => mret tt
  | Some _ =>
      c ← new_address;
      modify (λ w, w <| counters ::= <[c := 1]> |>);;
      set_var v (mkPtr ptr (Some c))
  end.

Definition Release (v : nat) : M Heap unit :=
  p ← get_var v;
  match _ptr p with
  | None => mret tt
  | Some o =>
      n ← add_ref v (-1);
      if n =? 0 then
        delete_object o;;
        set_var v (mkPtr None (_pCount p));;
        modify (λ w, w <| counters ::= λ m, match _pCount p with Some c => delete c m | None => m end |>);;
        set_var v (mkPtr None None)
      else mret tt
  end.

Definition SharedPtr_dtor (v : nat) : M Heap unit :=
  Release v;;
  modify (λ w, w <| vars ::= delete v |>).

(** The copy constructor. *)
Definition SharedPtr_copy (v sp : nat) : M Heap unit :=
  p ← get_var sp;
  set_var v p;;
  match _ptr p with None => mret tt | Some _ => _ ← add_ref v 1; mret tt end.

Definition SharedPtr_assign (v sp : nat) : M Heap unit :=
  if (v =? sp)%nat then mret tt
  else
    Release v;;
    p ← get_var sp;
    set_var v p;;
    _ ← add_ref v 1;
    mret tt.

(** The implicit copy constructor, which just copies the members. *)
Definition implicit_copy (v sp : nat) : M Heap unit := p ← get_var sp; set_var v p.

(** ** Programs *)

Inductive op :=
  | OpNew (v : nat)            (* SharedPtr v(new T) *)
  | OpEmpty (v : nat)          (* SharedPtr v *)
  | OpCopy (v sp : nat)        (* SharedPtr v(sp) *)
  | OpAssign (v sp : nat)      (* v = sp *)
  | OpDtor (v : nat).

Definition run_op (o : op) : M Heap unit :=
  match o with
  | OpNew v => a ← new_object; SharedPtr_ctor v (Some a)
  | OpEmpty v => SharedPtr_ctor v None
  | OpCopy v sp => SharedPtr_copy v sp
  | OpAssign v sp => SharedPtr_assign v sp
  | OpDtor v => SharedPtr_dtor v
  end.

(** The variables in scope, and whether they point to something; [None] for a
    program that does not compile or assigns from an empty pointer. *)
Definition scope_op (o : op) (s : gmap nat bool) : option (gmap nat bool) :=
  match o with
  | OpNew v => if s !! v is None then Some (<[v := true]> s) else None
  | OpEmpty v => if s !! v is None then Some (<[v := false]> s) else None
  | OpCopy v sp => if s !! v is None then (λ b, <[v := b]> s) <$> s !! sp else None
  | OpAssign v sp =>
      if s !! v is None then None
      else if (v =? sp)%nat then Some s
      else if s !! sp is Some true then Some (<[v := true]> s) else None
  | OpDtor v => if s !! v is None then None else Some (delete v s)
  end.
Fixpoint scope (os : list op) (s : gmap nat bool) : option (gmap nat bool) :=
  match os with
  | [] => Some s
  | o :: os => scope_op o s ≫= scope os
  end.
Definition is_new (o : op) : nat := match o with OpNew _ => 1 | _ => 0 end.

(** ** Ownership *)

(** Does a variable count for the counter [c]? *)
Definition refs (c : nat) (p : SharedPtr) : nat := if decide (_pCount p = Some c) then 1 else 0.
Definition empty_ptr : SharedPtr := mkPtr None None.

Lemma total_size (m : gmap nat SharedPtr) c : (total (refs c) m ≤ size m)%nat.
Proof.
  induction m as [|v p m Hv IH] using map_ind; [by rewrite total_empty|].
  rewrite total_insert_new, map_size_insert_None by done. unfold refs at 1. case_decide; lia.
Qed.

Lemma size_delete_le (m : gmap nat SharedPtr) v : (size (delete v m) ≤ size m)%nat.
Proof. rewrite map_size_delete. destruct (m !! v); cbn; lia. Qed.

Lemma size_same (m1 m2 : gmap nat SharedPtr) v :
  delete v m1 = delete v m2 → is_Some (m1 !! v) → is_Some (m2 !! v) → size m1 = size m2.
Proof.
  intros Hd [p1 H1] [p2 H2]. rewrite <- (insert_delete_id m1 v p1), <- (insert_delete_id m2 v p2) by done.
  by rewrite !map_size_insert_None, Hd by apply lookup_delete_eq.
Qed.

Lemma delete_id_heap w v : vars w !! v = None → w <| vars ::= delete v |> = w.
Proof. intros Hv. destruct w. cbn in *. by rewrite delete_id. Qed.

Lemma refs_some c o : refs c (mkPtr (Some o) (Some c)) = 1%nat.
Proof. unfold refs. by rewrite decide_True. Qed.
Lemma refs_ne c p : _pCount p ≠ Some c → refs c p = 0%nat.
Proof. intros Hp. unfold refs. by rewrite decide_False. Qed.

(** The counters count the variables; objects live as long as a variable
    points to them. *)
Record heap_ok (w : Heap) : Prop := {
  ho_var v p : vars w !! v = Some p →
    p = empty_ptr ∨ ∃ o c, p = mkPtr (Some o) (Some c) ∧ o ∈ objects w ∧ is_Some (counters w !! c);
  ho_count c n : counters w !! c = Some n → n = Z.of_nat (total (refs c) (vars w)) ∧ 0 < n;
  ho_same v1 v2 o1 o2 c1 c2 : vars w !! v1 = Some (mkPtr (Some o1) (Some c1)) →
    vars w !! v2 = Some (mkPtr (Some o2) (Some c2)) → o1 = o2 ↔ c1 = c2;
  ho_object o : o ∈ objects w → ∃ v p, vars w !! v = Some p ∧ _ptr p = Some o;
  ho_once : NoDup (destroyed w);
  ho_dead o : o ∈ destroyed w → o ∉ objects w;
  ho_fresh a : a ∈ objects w ∨ a ∈ destroyed w ∨ is_Some (counters w !! a) → (a < next_addr w)%nat;
}.

(** The objects there ever were. *)
Definition ever (w : Heap) : nat := (size (objects w) + length (destroyed w))%nat.

Lemma heap_count w v o c :
  heap_ok w → vars w !! v = Some (mkPtr (Some o) (Some c)) →
  counters w !! c = Some (Z.of_nat (total (refs c) (vars w))).
Proof.
  intros Hok Hv. destruct (ho_var _ Hok v _ Hv) as [|(o'&c'&[= <- <-]&_&[n Hn])]; [done|].
  by destruct (ho_count _ Hok c n Hn) as [-> _].
Qed.

(** *** New variables *)

Lemma heap_new w v :
  heap_ok w → vars w !! v = None → ∃ w', run_op (OpNew v) w = Ret tt w' ∧ heap_ok w' ∧
    vars w' = <[v := mkPtr (Some (next_addr w)) (Some (S (next_addr w)))]> (vars w) ∧ ever w' = S (ever w).
Proof.
  intros Hok Hv. set (o := next_addr w). set (c := S o).
  assert (o ∉ objects w) as Hfresh by (intros Ho; pose proof (ho_fresh _ Hok o (or_introl Ho)); lia).
  assert (counters w !! c = None) as Hc.
  { apply eq_None_not_Some. intros Hc. pose proof (ho_fresh _ Hok c (or_intror (or_intror Hc))). lia. }
  assert (∀ u p, vars w !! u = Some p → _pCount p ≠ Some c ∧ _ptr p ≠ Some o) as Hother.
  { intros u p [->|(o'&c'&->&Ho&[n Hn])]%(ho_var _ Hok); [done|]. cbn. split; [|congruence].
    intros [= ->]. congruence. }
  eexists. split; [reflexivity|]. cbn. rewrite !insert_insert_eq. fold o c.
  split; [|split; [done|unfold ever; cbn; rewrite size_union, size_singleton by set_solver; done]].
  pose proof Hok as []. split; cbn; fold o c.
  - intros u p [[<- <-]|[Hne Hp]]%lookup_insert_Some.
    + right. exists o, c. split_and!; [done|set_solver|]. rewrite lookup_insert_eq. by eexists.
    + destruct (ho_var0 u p Hp) as [->|(o'&c'&->&Ho&Hc')]; [by left|right]. exists o', c'.
      split_and!; [done|set_solver|]. rewrite lookup_insert_is_Some'. by right.
  - intros c' n Hn. rewrite total_insert_new by done.
    apply lookup_insert_Some in Hn as [[<- <-]|[Hne Hn]].
    + rewrite refs_some, total_zero; [lia|]. intros u p Hp. apply refs_ne. by apply (Hother u p Hp).
    + rewrite refs_ne by (cbn; congruence). by apply ho_count0.
  - intros v1 v2 o1 o2 c1 c2 [[_ [= <- <-]]|[_ H1]]%lookup_insert_Some [[_ [= <- <-]]|[_ H2]]%lookup_insert_Some; [done| | |].
    + apply Hother in H2 as [??]. cbn in *. split; congruence.
    + apply Hother in H1 as [??]. cbn in *. split; congruence.
    + by eapply ho_same0.
  - intros o' [->%elem_of_singleton|Ho]%elem_of_union.
    + exists v. eexists. by rewrite lookup_insert_eq.
    + destruct (ho_object0 o' Ho) as (u&p&Hu&Hp). exists u, p. rewrite lookup_insert_ne; [done|congruence].
  - done.
  - intros o' Ho'. apply not_elem_of_union. split; [|by apply ho_dead0].
    apply not_elem_of_singleton. intros ->. pose proof (ho_fresh0 o (or_intror (or_introl Ho'))). lia.
  - intros a. rewrite elem_of_union, elem_of_singleton, lookup_insert_is_Some'.
    intros [[->|?]|[?|[<-|?]]]; [lia| | |lia|]; (assert (a < next_addr w)%nat by (apply ho_fresh0; auto)); lia.
Qed.

Lemma heap_empty w v :
  heap_ok w → vars w !! v = None → heap_ok (w <| vars ::= <[v := empty_ptr]> |>).
Proof.
  intros Hok Hv. pose proof Hok as []. split; cbn; try done.
  - intros u p [[<- <-]|[Hne Hp]]%lookup_insert_Some; [by left|by apply (ho_var0 u)].
  - intros c n Hn. rewrite total_insert_new by done. by apply ho_count0.
  - intros v1 v2 o1 o2 c1 c2 [[_ [=]]|[_ H1]]%lookup_insert_Some [[_ [=]]|[_ H2]]%lookup_insert_Some.
    by apply (ho_same0 v1 v2).
  - intros o Ho. destruct (ho_object0 o Ho) as (u&p&Hu&Hp). exists u, p.
    rewrite lookup_insert_ne; [done|congruence].
Qed.

(** A new variable that shares the object of another. *)
Lemma heap_share w u v o c :
  heap_ok w → vars w !! u = Some (mkPtr (Some o) (Some c)) → vars w !! v = None →
  heap_ok (w <| counters ::= <[c := Z.of_nat (total (refs c) (vars w)) + 1]> |>
             <| vars ::= <[v := mkPtr (Some o) (Some c)]> |>).
Proof.
  intros Hok Hu Hv. pose proof Hok as []. split; cbn; try done.
  - intros u' p [[<- <-]|[Hne Hp]]%lookup_insert_Some.
    + right. exists o, c. destruct (ho_var0 u _ Hu) as [|(o'&c'&[= <- <-]&Ho&_)]; [done|].
      rewrite lookup_insert_eq. eauto.
    + destruct (ho_var0 u' p Hp) as [->|(o'&c'&->&Ho&Hc)]; [by left|right]. exists o', c'.
      rewrite lookup_insert_is_Some'. auto.
  - intros c' n. rewrite total_insert_new by done.
    intros [[<- <-]|[Hne Hn]]%lookup_insert_Some; [rewrite refs_some; lia|].
    rewrite refs_ne by (cbn; congruence). by apply ho_count0.
  - intros v1 v2 o1 o2 c1 c2 [[_ [= <- <-]]|[_ H1]]%lookup_insert_Some [[_ [= <- <-]]|[_ H2]]%lookup_insert_Some;
      [done| | |]; by eapply ho_same0.
  - intros o' Ho'. destruct (ho_object0 o' Ho') as (u'&p&Hu'&Hp). exists u', p.
    rewrite lookup_insert_ne; [done|congruence].
  - intros a. rewrite lookup_insert_is_Some'. intros [?|[?|[<-|?]]]; try by (apply ho_fresh0; auto).
    apply ho_fresh0. right. right. rewrite (heap_count _ u o c); [by eexists|done|done].
Qed.

(** *** Releasing a variable *)

Lemma heap_drop w v :
  heap_ok w → vars w !! v = Some empty_ptr → heap_ok (w <| vars ::= delete v |>).
Proof.
  intros Hok Hv. pose proof Hok as []. split; cbn; try done.
  - intros u p [_ Hp]%lookup_delete_Some. by apply (ho_var0 u).
  - intros c n Hn. pose proof (total_delete (refs c) (vars w) v _ Hv) as Ht.
    rewrite refs_ne in Ht by done. destruct (ho_count0 c n Hn) as [-> ?]. lia.
  - intros v1 v2 o1 o2 c1 c2 [_ H1]%lookup_delete_Some [_ H2]%lookup_delete_Some. by apply (ho_same0 v1 v2).
  - intros o Ho. destruct (ho_object0 o Ho) as (u&p&Hu&Hp). exists u, p.
    rewrite lookup_delete_ne; [done|]. intros ->. rewrite Hv in Hu. by simplify_eq.
Qed.

Lemma total_other w v o c :
  heap_ok w → vars w !! v = Some (mkPtr (Some o) (Some c)) → (1 < total (refs c) (vars w))%nat →
  ∃ u, v ≠ u ∧ vars w !! u = Some (mkPtr (Some o) (Some c)).
Proof.
  intros Hok Hv Hn. rewrite (total_delete _ _ _ _ Hv), refs_some in Hn.
  destruct (total_some (refs c) (delete v (vars w))) as (u&p&[Hne Hu]%lookup_delete_Some&Hp); [lia|].
  exists u. split; [done|]. unfold refs in Hp. case_decide as Hc; [|lia].
  pose proof (ho_var _ Hok u p Hu) as [->|(o'&c'&->&_)]; [done|]. cbn in Hc. simplify_eq.
  by rewrite Hu, (proj2 (ho_same _ Hok u v o' o c c Hu Hv)).
Qed.

Lemma heap_release w v o c :
  heap_ok w → vars w !! v = Some (mkPtr (Some o) (Some c)) →
  (1 < total (refs c) (vars w))%nat →
  heap_ok (w <| counters ::= <[c := Z.of_nat (total (refs c) (vars w)) - 1]> |> <| vars ::= delete v |>).
Proof.
  intros Hok Hv Hn. pose proof Hok as []. split; cbn; try done.
  - intros u p [_ Hp]%lookup_delete_Some. destruct (ho_var0 u p Hp) as [->|(o'&c'&->&Ho&Hc)]; [by left|right].
    exists o', c'. rewrite lookup_insert_is_Some'. auto.
  - intros c' n Hc'. pose proof (total_delete (refs c') (vars w) v _ Hv) as Ht.
    apply lookup_insert_Some in Hc' as [[<- <-]|[Hne Hc']]; [rewrite refs_some in Ht; lia|].
    rewrite refs_ne in Ht by (cbn; congruence). destruct (ho_count0 c' n Hc') as [-> ?]. lia.
  - intros v1 v2 o1 o2 c1 c2 [_ H1]%lookup_delete_Some [_ H2]%lookup_delete_Some. by apply (ho_same0 v1 v2).
  - intros o' Ho'. destruct (decide (o' = o)) as [->|Hne].
    + destruct (total_other w v o c) as (u&Hu&Hp); [done..|]. exists u. eexists.
      rewrite lookup_delete_ne by done. by split.
    + destruct (ho_object0 o' Ho') as (u&p&Hu&Hp). exists u, p.
      rewrite lookup_delete_ne; [done|]. intros ->. rewrite Hv in Hu. injection Hu as <-. cbn in Hp. congruence.
  - intros a. rewrite lookup_insert_is_Some'. intros [?|[?|[<-|?]]]; try by (apply ho_fresh0; auto).
    apply ho_fresh0. right. right. rewrite (heap_count _ v o c); [by eexists|done|done].
Qed.

Lemma heap_last w v o c :
  heap_ok w → vars w !! v = Some (mkPtr (Some o) (Some c)) → total (refs c) (vars w) = 1%nat →
  heap_ok (w <| objects ::= λ s, s ∖ {[o]} |> <| destroyed ::= λ l, l ++ [o] |>
             <| counters ::= delete c |> <| vars ::= delete v |>).
Proof.
  intros Hok Hv H1. pose proof Hok as [].
  assert (∀ u o' c', u ≠ v → vars w !! u = Some (mkPtr (Some o') (Some c')) → o' ≠ o ∧ c' ≠ c) as Hother.
  { intros u o' c' Hne Hu. assert (c' ≠ c) as Hc'; [|by rewrite (ho_same0 u v o' o c' c)].
    intros ->. pose proof (total_delete (refs c) (vars w) v _ Hv) as Ht. rewrite refs_some in Ht.
    assert (refs c (mkPtr (Some o') (Some c)) ≤ total (refs c) (delete v (vars w)))%nat as Hle.
    { apply (total_pos _ _ u). by rewrite lookup_delete_ne. }
    rewrite refs_some in Hle. lia. }
  assert (o ∈ objects w) as Ho by (by destruct (ho_var0 v _ Hv) as [|(?&?&[= <- <-]&?&_)]).
  split; cbn.
  - intros u p [Hne Hp]%lookup_delete_Some. destruct (ho_var0 u p Hp) as [->|(o'&c'&->&Ho'&Hc')]; [by left|right].
    destruct (Hother u o' c') as [??]; [done..|]. exists o', c'. rewrite lookup_delete_ne by done. set_solver.
  - intros c' n [Hne Hn]%lookup_delete_Some. pose proof (total_delete (refs c') (vars w) v _ Hv) as Ht.
    rewrite refs_ne in Ht by (cbn; congruence). destruct (ho_count0 c' n Hn) as [-> ?]. lia.
  - intros v1 v2 o1 o2 c1 c2 [_ H2]%lookup_delete_Some [_ H3]%lookup_delete_Some. by apply (ho_same0 v1 v2).
  - intros o' [Ho' Hne]%elem_of_difference. destruct (ho_object0 o' Ho') as (u&p&Hu&Hp). exists u, p.
    rewrite lookup_delete_ne; [done|]. intros ->. rewrite Hv in Hu. injection Hu as <-. cbn in Hp. set_solver.
  - apply NoDup_app. split_and!; [done| |apply NoDup_singleton].
    intros x Hx ->%list_elem_of_singleton. by eapply ho_dead0.
  - intros o' [Ho'| ->%list_elem_of_singleton]%elem_of_app; [|set_solver]. apply ho_dead0 in Ho'. set_solver.
  - intros a [[? _]%elem_of_difference|[[?| ->%list_elem_of_singleton]%elem_of_app|[? [_ ?]%lookup_delete_Some]]];
      apply ho_fresh0; eauto.
Qed.

Lemma run_get_var w v p : vars w !! v = Some p → get_var v w = Ret p w.
Proof. intros Hv. change (of_option "SharedPtr" (vars w !! v) w = Ret p w). by rewrite Hv. Qed.

Lemma run_of_option {A} what (o : option A) (a : A) w : o = Some a → @of_option Heap A what o w = Ret a w.
Proof. by intros ->. Qed.

Lemma run_add_ref w v p c n d :
  vars w !! v = Some p → _pCount p = Some c → counters w !! c = Some n → - 2 ^ 31 <= n + d < 2 ^ 31 →
  add_ref v d w = Ret (n + d) (w <| counters ::= <[c := n + d]> |>).
Proof.
  intros Hv Hc Hn Hd. unfold add_ref. rewrite (bind_Ret _ _ _ _ _ (run_get_var w v p Hv)).
  rewrite (bind_Ret _ _ _ _ _ (run_of_option _ _ _ w Hc)), (bind_Ret get _ w w w) by done.
  rewrite (bind_Ret _ _ _ _ _ (run_of_option _ _ _ w Hn)), (bind_Ret _ _ w (n + d) w); [done|].
  apply run_of_option. by rewrite (proj2 (Z.leb_le _ _)), (proj2 (Z.ltb_lt _ _)) by lia.
Qed.

Lemma run_delete_object w o :
  o ∈ objects w →
  delete_object o w = Ret tt (w <| objects ::= λ s, s ∖ {[o]} |> <| destroyed ::= λ l, l ++ [o] |>).
Proof. intros Ho. unfold delete_object. rewrite (bind_Ret get _ w w w) by done. by rewrite decide_True. Qed.

(** [Release] gives the variable up: without it the heap is still right. *)
Definition released (v : nat) (w w' : Heap) : Prop :=
  heap_ok (w' <| vars ::= delete v |>) ∧ delete v (vars w') = delete v (vars w) ∧
  is_Some (vars w' !! v) ∧ ever w' = ever w.

Lemma ever_delete w o :
  o ∈ objects w → (size (objects w ∖ {[o]}) + length (destroyed w ++ [o]))%nat = ever w.
Proof.
  intros Ho. unfold ever. rewrite size_difference, size_singleton, length_app by set_solver. cbn.
  assert (size ({[o]} : gset nat) ≤ size (objects w))%nat as Hs by (apply subseteq_size; set_solver).
  rewrite size_singleton in Hs. lia.
Qed.

Lemma release_spec w v :
  heap_ok w → is_Some (vars w !! v) → Z.of_nat (size (vars w)) < 2 ^ 31 →
  ∃ w', Release v w = Ret tt w' ∧ released v w w'.
Proof.
  intros Hok [p Hv] Hs. unfold Release. rewrite (bind_Ret _ _ _ _ _ (run_get_var w v p Hv)).
  destruct (ho_var _ Hok v p Hv) as [->|(o&c&->&Ho&_)].
  { exists w. split; [done|]. split; [by apply heap_drop|]. split; [done|]. by split; [eexists|]. }
  cbn [_ptr]. pose proof (heap_count _ v o c Hok Hv) as Hc.
  pose proof (total_size (vars w) c) as Hle. pose proof (total_pos (refs c) _ _ _ Hv) as Hpos.
  rewrite refs_some in Hpos.
  rewrite (bind_Ret _ _ _ _ _ (run_add_ref w v _ c _ (-1) Hv eq_refl Hc ltac:(lia))).
  change (Z.of_nat (total (refs c) (vars w)) + -1) with (Z.of_nat (total (refs c) (vars w)) - 1). destruct (Z.eqb_spec (Z.of_nat (total (refs c) (vars w)) - 1) 0) as [H1|H1].
  - cbv iota. erewrite bind_Ret by (apply run_delete_object; exact Ho). eexists. split; [reflexivity|].
    assert (total (refs c) (vars w) = 1%nat) as H1' by lia.
    pose proof (heap_last w v o c Hok Hv H1') as Hlast. unfold released, ever. cbn in *.
    rewrite !delete_insert_eq, lookup_insert_eq. split; [done|]. split; [done|]. split; [by eexists|].
    by apply ever_delete.
  - eexists. split; [reflexivity|]. unfold released. cbn. split; [by eapply heap_release; [done|exact Hv|lia]|].
    split; [done|]. by split; [eexists|].
Qed.

(** A variable that copies another one: the end of [SharedPtr_copy] and
    [SharedPtr_assign]. *)
Lemma share_spec w v sp o c :
  heap_ok (w <| vars ::= delete v |>) → v ≠ sp → vars w !! sp = Some (mkPtr (Some o) (Some c)) →
  Z.of_nat (size (vars w)) < 2 ^ 31 - 1 →
  ∃ w', (set_var v (mkPtr (Some o) (Some c));; _ ← add_ref v 1; mret tt) w = Ret tt w' ∧ heap_ok w' ∧
    vars w' = <[v := mkPtr (Some o) (Some c)]> (vars w) ∧ ever w' = ever w.
Proof.
  intros Hok Hne Hsp Hs. assert (delete v (vars w) !! sp = Some (mkPtr (Some o) (Some c))) as Hsp'
    by by rewrite lookup_delete_ne.
  pose proof (heap_count _ sp o c Hok Hsp') as Hc.
  pose proof (heap_share _ sp v o c Hok Hsp' (lookup_delete_eq _ _)) as Hshare. cbn in Hc, Hshare.
  pose proof (total_size (delete v (vars w)) c) as Hle. pose proof (size_delete_le (vars w) v) as Hle'.
  unfold set_var. rewrite bind_modify.
  erewrite bind_Ret by (eapply run_add_ref; [apply lookup_insert_eq|reflexivity|exact Hc|lia]).
  eexists. split; [reflexivity|]. cbn. by rewrite insert_delete_eq in Hshare.
Qed.

(** ** The operations *)

(** The variables in scope, with the pointers they hold. *)
Definition in_scope (s : gmap nat bool) (w : Heap) : Prop :=
  s = (λ p, bool_decide (is_Some (_ptr p))) <$> vars w.

Definition news (os : list op) : nat := sum_list_with is_new os.

(** After the operation: the scope, the objects made, the variables. *)
Definition ran (o : op) (s' : gmap nat bool) (w w' : Heap) : Prop :=
  heap_ok w' ∧ in_scope s' w' ∧ ever w' = (is_new o + ever w)%nat ∧
  (size (vars w') ≤ S (size (vars w)))%nat.

Lemma in_scope_lookup s w v : in_scope s w → s !! v = (λ p, bool_decide (is_Some (_ptr p))) <$> vars w !! v.
Proof. intros ->. apply lookup_fmap. Qed.

Lemma in_scope_insert s w w' v p b :
  in_scope s w → vars w' = <[v := p]> (vars w) → bool_decide (is_Some (_ptr p)) = b → in_scope (<[v := b]> s) w'.
Proof. unfold in_scope. intros -> -> <-. by rewrite fmap_insert. Qed.

Lemma size_insert_le (m : gmap nat SharedPtr) v p : (size (<[v := p]> m) ≤ S (size m))%nat.
Proof. rewrite map_size_insert. destruct (m !! v); cbn; lia. Qed.

Section Operations.
Context (s : gmap nat bool) (w : Heap) (Hok : heap_ok w) (Hs : in_scope s w).
Context (Hsize : Z.of_nat (size (vars w)) < 2 ^ 31 - 1).

Lemma not_in_scope v : s !! v = None → vars w !! v = None.
Proof. rewrite (in_scope_lookup s w v Hs). by destruct (vars w !! v). Qed.

Lemma points v : s !! v = Some true → ∃ o c, vars w !! v = Some (mkPtr (Some o) (Some c)).
Proof.
  rewrite (in_scope_lookup s w v Hs). destruct (vars w !! v) as [p|] eqn:Hv; [|done].
  destruct (ho_var _ Hok v p Hv) as [->|(o&c&->&_)]; [done|eauto].
Qed.

Lemma points_nowhere v : s !! v = Some false → vars w !! v = Some empty_ptr.
Proof.
  rewrite (in_scope_lookup s w v Hs). destruct (vars w !! v) as [p|] eqn:Hv; [|done].
  by destruct (ho_var _ Hok v p Hv) as [->|(o&c&->&_)].
Qed.

Lemma in_scope_is_some v : is_Some (s !! v) → is_Some (vars w !! v).
Proof. rewrite (in_scope_lookup s w v Hs). apply fmap_is_Some. Qed.

Lemma new_ran v : s !! v = None → ∃ w', run_op (OpNew v) w = Ret tt w' ∧ ran (OpNew v) (<[v := true]> s) w w'.
Proof.
  intros Hv%not_in_scope. destruct (heap_new w v Hok Hv) as (w'&Hrun&Hok'&Hvars&Hever).
  exists w'. split; [done|]. split; [done|]. split; [by eapply in_scope_insert|].
  split; [done|]. rewrite Hvars. apply size_insert_le.
Qed.

Lemma empty_ran v : s !! v = None → ∃ w', run_op (OpEmpty v) w = Ret tt w' ∧ ran (OpEmpty v) (<[v := false]> s) w w'.
Proof.
  intros Hv%not_in_scope. eexists. split; [reflexivity|]. split; [by apply heap_empty|].
  split; [by eapply in_scope_insert|]. split; [done|]. apply size_insert_le.
Qed.

Lemma copy_ran v sp b :
  s !! v = None → s !! sp = Some b →
  ∃ w', run_op (OpCopy v sp) w = Ret tt w' ∧ ran (OpCopy v sp) (<[v := b]> s) w w'.
Proof.
  intros Hv Hsp. assert (v ≠ sp) as Hne by congruence. apply not_in_scope in Hv. cbn.
  unfold SharedPtr_copy. destruct b.
  - destruct (points sp Hsp) as (o&c&Hp). rewrite (bind_Ret _ _ _ _ _ (run_get_var w sp _ Hp)). cbn [_ptr].
    destruct (share_spec w v sp o c) as (w'&Hrun&Hok'&Hvars&Hever); [|done..|].
    { rewrite delete_id_heap by done. done. }
    exists w'. split; [done|]. split; [done|]. split; [by eapply in_scope_insert|].
    split; [done|]. rewrite Hvars. apply size_insert_le.
  - rewrite (bind_Ret _ _ _ _ _ (run_get_var w sp _ (points_nowhere sp Hsp))). eexists. split; [reflexivity|].
    split; [by apply heap_empty|]. split; [by eapply in_scope_insert|]. split; [done|]. apply size_insert_le.
Qed.

Lemma assign_ran v sp :
  is_Some (s !! v) → v ≠ sp → s !! sp = Some true →
  ∃ w', run_op (OpAssign v sp) w = Ret tt w' ∧ ran (OpAssign v sp) (<[v := true]> s) w w'.
Proof.
  intros Hv%in_scope_is_some Hne Hsp. cbn. unfold SharedPtr_assign.
  rewrite (proj2 (Nat.eqb_neq _ _) Hne). destruct (points sp Hsp) as (o&c&Hp).
  destruct (release_spec w v Hok Hv) as (w1&Hrun1&Hok1&Hvars1&Hv1&Hever1); [lia|].
  rewrite (bind_Ret _ _ _ _ _ Hrun1).
  assert (vars w1 !! sp = Some (mkPtr (Some o) (Some c))) as Hp1.
  { rewrite <- (lookup_delete_ne _ v), Hvars1, lookup_delete_ne by done. done. }
  rewrite (bind_Ret _ _ _ _ _ (run_get_var w1 sp _ Hp1)).
  assert (size (vars w1) = size (vars w)) as Hsize1 by by apply (size_same _ _ v).
  destruct (share_spec w1 v sp o c) as (w'&Hrun&Hok'&Hvars&Hever); [done..|lia|].
  assert (vars w' = <[v := mkPtr (Some o) (Some c)]> (vars w)) as Hvars'.
  { by rewrite Hvars, <- insert_delete_eq, Hvars1, insert_delete_eq. }
  exists w'. split; [done|]. split; [done|]. split; [by eapply in_scope_insert|].
  split; [by rewrite Hever|]. rewrite Hvars'. apply size_insert_le.
Qed.

Lemma dtor_ran v :
  is_Some (s !! v) → ∃ w', run_op (OpDtor v) w = Ret tt w' ∧ ran (OpDtor v) (delete v s) w w'.
Proof.
  intros Hv%in_scope_is_some. cbn. unfold SharedPtr_dtor.
  destruct (release_spec w v Hok Hv) as (w1&Hrun1&Hok1&Hvars1&Hv1&Hever1); [lia|].
  rewrite (bind_Ret _ _ _ _ _ Hrun1). eexists. split; [reflexivity|]. split; [done|].
  unfold in_scope. cbn. rewrite Hvars1, fmap_delete, <- Hs. split; [done|]. split; [done|].
  pose proof (size_delete_le (vars w) v). lia.
Qed.
End Operations.

Lemma run_op_spec o s s' w :
  heap_ok w → in_scope s w → Z.of_nat (size (vars w)) < 2 ^ 31 - 1 → scope_op o s = Some s' →
  ∃ w', run_op o w = Ret tt w' ∧ ran o s' w w'.
Proof.
  intros Hok Hs Hsize Ho. destruct o as [v|v|v sp|v sp|v]; cbn in Ho.
  - case_match eqn:Hv; simplify_eq. by apply new_ran.
  - case_match eqn:Hv; simplify_eq. by apply empty_ran.
  - case_match eqn:Hv; [done|]. apply fmap_Some in Ho as (b&Hsp&->). by apply copy_ran.
  - destruct (s !! v) as [b|] eqn:Hv; [|done]. destruct (Nat.eqb_spec v sp) as [->|Hne].
    + simplify_eq. exists w. cbn. unfold SharedPtr_assign. rewrite Nat.eqb_refl.
      split; [done|]. split; [done|]. split; [done|]. split; [done|]. lia.
    + destruct (s !! sp) as [[]|] eqn:Hsp; simplify_eq. by apply assign_ran.
  - case_match eqn:Hv; [|done]. simplify_eq. by apply dtor_ran.
Qed.

(** ** Programs *)

Definition empty_heap : Heap := mkHeap ∅ [] ∅ ∅ 0.

Lemma empty_heap_ok : heap_ok empty_heap.
Proof.
  split; cbn; try done; [apply NoDup_nil_2|].
  intros a [?|[?|[? ?]]]; [set_solver|set_solver|done].
Qed.

Lemma run_ops_spec os : ∀ s s' w,
  heap_ok w → in_scope s w → Z.of_nat (size (vars w) + length os) < 2 ^ 31 → scope os s = Some s' →
  ∃ w', iterM run_op os w = Ret tt w' ∧ heap_ok w' ∧ in_scope s' w' ∧ ever w' = (news os + ever w)%nat.
Proof.
  induction os as [|o os IH]; intros s s' w Hok Hs Hsize Hos; cbn in *.
  { simplify_eq. by exists w. }
  apply bind_Some in Hos as (s1&Ho&Hos).
  destruct (run_op_spec o s s1 w) as (w1&Hrun1&Hok1&Hs1&Hever1&Hsize1); [done..|lia|done|].
  destruct (IH s1 s' w1) as (w'&Hrun&Hok'&Hs'&Hever); [done..|lia|done|].
  exists w'. rewrite (bind_Ret _ _ _ _ _ Hrun1), Hrun. split_and!; [done..|]. rewrite Hever, Hever1.
  unfold news. cbn. lia.
Qed.

Lemma no_objects w : heap_ok w → vars w = ∅ → objects w = ∅.
Proof.
  intros Hok Hvars. apply set_eq. intros o. split; [|set_solver].
  intros (v&p&Hv&_)%(ho_object _ Hok). by rewrite Hvars, lookup_empty in Hv.
Qed.

Lemma no_counters w : heap_ok w → vars w = ∅ → counters w = ∅.
Proof.
  intros Hok Hvars. apply map_empty. intros c. destruct (counters w !! c) as [n|] eqn:Hc; [|done].
  destruct (ho_count _ Hok c n Hc) as [-> Hn]. rewrite Hvars, total_empty in Hn. lia.
Qed.

(** C28: programs of fewer than 2^31 operations that never assign from an empty pointer
    run without undefined behaviour. Every variable in scope points to a live
    object, no object is destroyed twice, every object made is alive or
    destroyed, and when no variable is left, every object made has been
    destroyed and every counter deleted. *)
Theorem shared_ptr_programs_safe os s :
  scope os ∅ = Some s → Z.of_nat (length os) < 2 ^ 31 →
  ∃ w, iterM run_op os empty_heap = Ret tt w ∧ dom (vars w) = dom s ∧
    (∀ v, s !! v = Some true → ∃ p o, vars w !! v = Some p ∧ _ptr p = Some o ∧ o ∈ objects w) ∧
    NoDup (destroyed w) ∧ ever w = news os ∧
    (s = ∅ → objects w = ∅ ∧ counters w = ∅ ∧ length (destroyed w) = news os).
Proof.
  intros Hos Hlen. destruct (run_ops_spec os ∅ s empty_heap) as (w&Hrun&Hok&Hs&Hever); [|done| |done|].
  { apply empty_heap_ok. } { exact Hlen. }
  exists w. split; [done|]. assert (dom (vars w) = dom s) as Hdom by by rewrite Hs, dom_fmap_L.
  assert (ever w = news os) as Hn by (rewrite Hever; change (ever empty_heap) with 0%nat; lia).
  split_and!; [done| |by apply ho_once|done|].
  - intros v Hv. destruct (points s w Hok Hs v Hv) as (o&c&Hp). exists (mkPtr (Some o) (Some c)), o.
    destruct (ho_var _ Hok v _ Hp) as [|(o'&c'&[= <- <-]&Ho&_)]; done.
  - intros ->. rewrite dom_empty_L in Hdom. apply dom_empty_inv_L in Hdom as Hvars.
    rewrite <- Hn. unfold ever. rewrite (no_objects w), (no_counters w) by done. done.
Qed.

(** Two pointers to one object, the first reassigned, all destroyed. *)
Definition two_pointers : list op :=
  [OpNew 0; OpCopy 1 0; OpNew 2; OpAssign 0 2; OpDtor 2; OpDtor 1; OpDtor 0]%nat.

Lemma shared_ptr_programs_safe_witness :
  ∃ w, iterM run_op two_pointers empty_heap = Ret tt w ∧ length (destroyed w) = 2%nat.
Proof.
  destruct (shared_ptr_programs_safe two_pointers ∅) as (w&Hrun&_&_&_&_&Hend); [by vm_compute|by vm_compute|].
  exists w. split; [exact Hrun|]. by destruct (Hend eq_refl) as (_&_&->).
Defined.

(** The order of destruction. *)
Example destroyed_in_order :
  match iterM run_op two_pointers empty_heap with Ret _ w => destroyed w | Crash _ => [] end = [0; 2]%nat.
Proof. vm_compute. reflexivity. Qed.

(** Assigning from an empty pointer counts through a null pointer. *)
Theorem assign_from_empty w v sp :
  vars w !! v = Some empty_ptr → vars w !! sp = Some empty_ptr → v ≠ sp →
  SharedPtr_assign v sp w = Crash (Undefined "*_pCount").
Proof.
  intros Hv Hsp Hne. unfold SharedPtr_assign. rewrite (proj2 (Nat.eqb_neq _ _) Hne).
  unfold Release. rewrite (bind_Ret _ _ w tt w).
  - rewrite (bind_Ret _ _ _ _ _ (run_get_var w sp _ Hsp)). unfold set_var. rewrite bind_modify.
    apply crash_here. unfold add_ref. erewrite bind_Ret by (apply run_get_var; apply lookup_insert_eq). done.
  - by rewrite (bind_Ret _ _ _ _ _ (run_get_var w v _ Hv)).
Qed.

(** [SharedPtr(const SharedPtr<T>&)] takes a pointer with the default deleter;
    for the other deleters the members are copied and nothing is counted. The
    second destructor then reads a deleted counter. *)
Example implicit_copy_destroys_twice :
  (run_op (OpNew 0);; implicit_copy 1 0;; SharedPtr_dtor 1;; SharedPtr_dtor 0) empty_heap
  = Crash (Undefined "*_pCount").
Proof. vm_compute. reflexivity. Qed.
